(** * A shallow embedding of the two-pass assembler

    The development follows the C sources of the assembler:
    - [include/globals.h], [include/opcode_definitions.h], [include/constants.h]
      for the data model;
    - [utilities/tables_dictionaries_utility.c] for the opcode tables;
    - [front_end/first_pass/first_pass.c] and [first_pass_utility.c];
    - [middle_end/second_pass/second_pass.c] and [second_pass_utilities.c];
    - [back_end/file_generation/file_generation.c].

    Conventions.
    - [unsigned int] is a [Z] in [0, 2^32); every conversion to it is written
      [u32].  [int] is a [Z] in [-2^31, 2^31); every conversion to it is
      written [to_int].
    - [size_t] counters and array indices are [nat]: they count elements of
      arrays that live in memory and cannot wrap.
    - A C string is the [string] of its characters before the terminator;
      [strcmp (a, b) == 0] is [String.eqb a b].  A [char *] that may be NULL
      is an [option string].
    - A growable array together with its element count is a [list]; the
      capacity fields and the reallocation are not modelled (allocation
      failure ends the process through [handle_memory_allocation_failure]),
      except for the data image: [initialize_translation_unit] never sets
      [dataImageCapacity], so the test that guards the reallocation reads
      whatever the block of the translation unit held.  The field is kept,
      with the number of cells of the block [dataImage] points to, and a
      write past the end of that block has no result ([None]).
    - The messages written to the error stream are not modelled; the boolean
      error indications are. *)

From Stdlib Require Import ZArith List Bool String Ascii Lia Arith.
From Stdlib Require Import Sorting.Sorted Sorting.Permutation DecimalString.
Import ListNotations.

Local Open Scope Z_scope.

(* ------------------------------------------------------------------------- *)
(** ** Machine integers *)

Definition u32 (x : Z) : Z := x mod 2 ^ 32.

Definition to_int (x : Z) : Z := (x + 2 ^ 31) mod 2 ^ 32 - 2 ^ 31.

(** [LOWER_14_BIT_MASK] and [LOWER_2_BITS_MASK] of [constants.h]. *)
Definition LOWER_14_BIT_MASK : Z := 16383.
Definition LOWER_2_BITS_MASK : Z := 3.

(** [IC_INIT_VALUE] and [MAX_SYMBOL_LENGTH] of [constants.h]. *)
Definition IC_INIT_VALUE : nat := 100.
Definition MAX_SYMBOL_LENGTH : nat := 31.
Definition INITIAL_CAPACITY : nat := 10.

(* ------------------------------------------------------------------------- *)
(** ** Enumerations of [globals.h] and [opcode_definitions.h] *)

Inductive ARE : Type := ABSOLUTE | EXTERNAL | RELOCATABLE.

Definition ARE_val (a : ARE) : Z :=
  match a with ABSOLUTE => 0 | EXTERNAL => 1 | RELOCATABLE => 2 end.

Inductive Register : Type :=
  R0 | R1 | R2 | R3 | R4 | R5 | R6 | R7 | NONE_REG.

Definition Register_val (r : Register) : Z :=
  match r with
  | R0 => 0 | R1 => 1 | R2 => 2 | R3 => 3
  | R4 => 4 | R5 => 5 | R6 => 6 | R7 => 7
  | NONE_REG => -1
  end.

Inductive AddressingType : Type :=
  | IMMEDIATE_ADDR
  | DIRECT_ADDR
  | FIXED_IDX_ADDR
  | DIRECT_REGISTER_ADDR
  | NONE_ADDR.

Definition AddressingType_val (a : AddressingType) : Z :=
  match a with
  | IMMEDIATE_ADDR => 0
  | DIRECT_ADDR => 1
  | FIXED_IDX_ADDR => 2
  | DIRECT_REGISTER_ADDR => 3
  | NONE_ADDR => -1
  end.

Definition AddressingType_eqb (a b : AddressingType) : bool :=
  AddressingType_val a =? AddressingType_val b.

Inductive LineType : Type :=
  | EMPTY
  | COMMENT
  | DIRECTIVE_INSTRUCTION
  | COMMAND_INSTRUCTION
  | CONSTANT_DEF_INSTRUCTION
  | INIT_VAL.

Inductive DirectiveType : Type :=
  | DATA_INST
  | STRING_INST
  | ENTRY_INST
  | EXTERN_INST
  | NONE_DIR.

Inductive SymbolType : Type :=
  | NON_SYMBOL
  | CODE_LABEL
  | DATA_LABEL
  | TEMP_ENTRY_LABEL
  | EXTERN_LABEL
  | ENTRY_CODE_LABEL
  | ENTRY_DATA_LABEL
  | DEFINED_CONSTANT.

(** The sixteen operation codes.  [NONE_OP] is the parser's failure value; a
    line whose opcode is not recognised never becomes a command descriptor
    ([which_opcode] is checked before the descriptor is filled in), so the
    type of opcodes carried by a command has no such member. *)
Inductive Opcode : Type :=
  | MOV_OP | CMP_OP | ADD_OP | SUB_OP | NOT_OP | CLR_OP | LEA_OP | INC_OP
  | DEC_OP | JMP_OP | BNE_OP | RED_OP | PRN_OP | JSR_OP | RTS_OP | HLT_OP.

Definition Opcode_val (o : Opcode) : Z :=
  match o with
  | MOV_OP => 0 | CMP_OP => 1 | ADD_OP => 2 | SUB_OP => 3
  | NOT_OP => 4 | CLR_OP => 5 | LEA_OP => 6 | INC_OP => 7
  | DEC_OP => 8 | JMP_OP => 9 | BNE_OP => 10 | RED_OP => 11
  | PRN_OP => 12 | JSR_OP => 13 | RTS_OP => 14 | HLT_OP => 15
  end.

Inductive OpcodeCategory : Type := TWO_OPERANDS | ONE_OPERAND | NO_OPERANDS.

Inductive OperandType : Type := SOURCE_OPERAND | TARGET_OPERAND.

(* ------------------------------------------------------------------------- *)
(** ** Structures of [globals.h] *)

Record FixedIndexAddressing : Type := {
  labelName : string;
  numericalAddressingIndex : Z;
  constantAddressingIndex : option string
}.

Record ImmediateAddressing : Type := {
  integerVal : Z;
  constantVal : option string
}.

(** The [Operand] union.  Each member is read only under its own addressing
    tag; the record keeps one view per member so that a read of a member is a
    read of that view, whatever the tag says. *)
Record Operand : Type := {
  immediateValue : ImmediateAddressing;
  addressingLabel : string;
  fixedIndexOperand : FixedIndexAddressing;
  reg : Register
}.

Record CommandInstruction : Type := {
  opcodeCommand : Opcode;
  numOfOperands : OpcodeCategory;
  sourceOperand : Operand;
  targetOperand : Operand;
  sourceOperandAddressingType : AddressingType;
  targetOperandAddressingType : AddressingType
}.

Record ConstantDefinitionInstruction : Type := {
  constName : string;
  constValue : Z
}.

(** The [InstructionType] union with its nested [DirectiveInstructionUnion],
    flattened into one view per member.  [entryName] and [externName] share
    their storage in the C union: both are the first pointer of the union, and
    the first pass reads [entryInst.entryName] for both directives.  They are
    one field here.  The field [labelName] of the descriptor is [lineLabel]
    here, [labelName] being the field of [FixedIndexAddressing]; [dataInst]
    is the array [dataInst.data] with its count, [stringInst] the string
    [stringInst.data]. *)
Record AbstractLineDescriptor : Type := {
  lineError : option string;
  lineLabel : option string;
  lineType : LineType;
  dirType : DirectiveType;
  dataInst : list Z;
  stringInst : string;
  entryName : string;
  commandInst : CommandInstruction;
  constDefInst : ConstantDefinitionInstruction
}.

Record Symbol : Type := {
  symbolName : string;
  symbolType : SymbolType;
  address : Z
}.

Record ExternalSymbolInfo : Type := {
  externalName : string;
  addresses : Z
}.

(** [dataImage] holds the cells written so far; [dataImageCapacity] is the
    field of that name, and [dataImageBlock] the number of cells of the block
    the pointer [dataImage] designates, as [calloc] or [realloc] returned
    it. *)
Record TranslationUnit : Type := {
  codeImage : list Z;
  IC : nat;
  dataImage : list Z;
  DC : nat;
  dataImageCapacity : nat;
  dataImageBlock : nat;
  symbolTable : list Symbol;
  externalsList : list ExternalSymbolInfo;
  entryList : list Symbol;
  constantList : list ConstantDefinitionInstruction
}.

Record AbstractProgram : Type := {
  lines : list AbstractLineDescriptor;
  progSize : nat
}.

(** [initialize_translation_unit]: all counters zero, all arrays empty, each
    of [INITIAL_CAPACITY] cells.  The function sets [codeImageCapacity] twice
    and [dataImageCapacity] never: that field keeps the value [garbage] it
    had in the block [malloc] returned for the translation unit. *)
Definition initialize_translation_unit (garbage : nat) : TranslationUnit :=
  {| codeImage := []; IC := 0; dataImage := []; DC := 0;
     dataImageCapacity := garbage; dataImageBlock := INITIAL_CAPACITY;
     symbolTable := []; externalsList := []; entryList := [];
     constantList := [] |}.

(** Field updates. *)
Definition set_code (tu : TranslationUnit) (c : list Z) (ic : nat)
  : TranslationUnit :=
  {| codeImage := c; IC := ic; dataImage := dataImage tu; DC := DC tu;
     dataImageCapacity := dataImageCapacity tu;
     dataImageBlock := dataImageBlock tu;
     symbolTable := symbolTable tu; externalsList := externalsList tu;
     entryList := entryList tu; constantList := constantList tu |}.

Definition set_data (tu : TranslationUnit) (d : list Z) (dc : nat)
  : TranslationUnit :=
  {| codeImage := codeImage tu; IC := IC tu; dataImage := d; DC := dc;
     dataImageCapacity := dataImageCapacity tu;
     dataImageBlock := dataImageBlock tu;
     symbolTable := symbolTable tu; externalsList := externalsList tu;
     entryList := entryList tu; constantList := constantList tu |}.

(** [resize_data_image]: the capacity becomes twice the capacity required,
    and the block is reallocated with that number of cells. *)
Definition resize_data_image (tu : TranslationUnit) (requiredCapacity : nat)
  : TranslationUnit :=
  {| codeImage := codeImage tu; IC := IC tu; dataImage := dataImage tu;
     DC := DC tu;
     dataImageCapacity := 2 * requiredCapacity;
     dataImageBlock := 2 * requiredCapacity;
     symbolTable := symbolTable tu; externalsList := externalsList tu;
     entryList := entryList tu; constantList := constantList tu |}.

Definition set_symbolTable (tu : TranslationUnit) (s : list Symbol)
  : TranslationUnit :=
  {| codeImage := codeImage tu; IC := IC tu; dataImage := dataImage tu;
     DC := DC tu; dataImageCapacity := dataImageCapacity tu;
     dataImageBlock := dataImageBlock tu;
     symbolTable := s; externalsList := externalsList tu;
     entryList := entryList tu; constantList := constantList tu |}.

Definition set_externalsList (tu : TranslationUnit)
  (e : list ExternalSymbolInfo) : TranslationUnit :=
  {| codeImage := codeImage tu; IC := IC tu; dataImage := dataImage tu;
     DC := DC tu; dataImageCapacity := dataImageCapacity tu;
     dataImageBlock := dataImageBlock tu;
     symbolTable := symbolTable tu; externalsList := e;
     entryList := entryList tu; constantList := constantList tu |}.

Definition set_entryList (tu : TranslationUnit) (e : list Symbol)
  : TranslationUnit :=
  {| codeImage := codeImage tu; IC := IC tu; dataImage := dataImage tu;
     DC := DC tu; dataImageCapacity := dataImageCapacity tu;
     dataImageBlock := dataImageBlock tu; symbolTable := symbolTable tu;
     externalsList := externalsList tu; entryList := e;
     constantList := constantList tu |}.

Definition set_constantList (tu : TranslationUnit)
  (c : list ConstantDefinitionInstruction) : TranslationUnit :=
  {| codeImage := codeImage tu; IC := IC tu; dataImage := dataImage tu;
     DC := DC tu; dataImageCapacity := dataImageCapacity tu;
     dataImageBlock := dataImageBlock tu; symbolTable := symbolTable tu;
     externalsList := externalsList tu; entryList := entryList tu;
     constantList := c |}.

(** A write [a[i] = x] into an array whose first [length l] cells are [l]. *)
Definition array_store {A : Type} (l : list A) (i : nat) (x : A) : list A :=
  firstn i l ++ x :: skipn (S i) l.

(** A [char *] is taken as absent when it is NULL or points at the
    terminator: [p == NULL || *p == '\0']. *)
Definition is_null_or_empty (p : option string) : bool :=
  match p with
  | None => true
  | Some s => String.eqb s EmptyString
  end.

Definition deref (p : option string) : string :=
  match p with None => EmptyString | Some s => s end.

(* ------------------------------------------------------------------------- *)
(** ** Second pass utilities ([second_pass_utilities.c]) *)

(** [insert_machine_word]: [codeImage[IC] = machineWord; IC++]. *)
Definition insert_machine_word (trUnit : TranslationUnit) (machineWord : Z)
  : TranslationUnit :=
  set_code trUnit (array_store (codeImage trUnit) (IC trUnit) machineWord)
           (S (IC trUnit)).

(** [extract_constant]: first constant of the list with the given name. *)
Fixpoint extract_constant_from (l : list ConstantDefinitionInstruction)
  (name : string) : option Z :=
  match l with
  | [] => None
  | c :: rest =>
      if String.eqb (constName c) name then Some (constValue c)
      else extract_constant_from rest name
  end.

Definition extract_constant (name : string) (transUnit : TranslationUnit)
  : option Z :=
  extract_constant_from (constantList transUnit) name.

(** [two_complement_validation]: TRUE when the value fits in 12 bits. *)
Definition two_complement_validation (value : Z) : bool :=
  negb ((value <? -2048) || (value >? 2047)).

(** [updateExternTable]: append the pair (name, current IC). *)
Definition updateExternTable (trUnit : TranslationUnit) (name : string)
  : TranslationUnit :=
  set_externalsList trUnit
    (externalsList trUnit ++
     [{| externalName := name; addresses := to_int (Z.of_nat (IC trUnit)) |}]).

Definition SymbolType_is_extern (t : SymbolType) : bool :=
  match t with EXTERN_LABEL => true | _ => false end.

(** The loop of [find_label_addressing] over the symbol table: the first
    symbol whose name matches. *)
Fixpoint find_first_symbol (l : list Symbol) (name : string) : option Symbol :=
  match l with
  | [] => None
  | s :: rest =>
      if String.eqb name (symbolName s) then Some s
      else find_first_symbol rest name
  end.

(** [find_label_addressing]: on a match returns the address to encode, the
    ARE field, and the translation unit, which has one more external-use
    record when the symbol is external. *)
Definition find_label_addressing (name : string)
  (translationUnit : TranslationUnit)
  : option (Z * ARE) * TranslationUnit :=
  match find_first_symbol (symbolTable translationUnit) name with
  | Some s =>
      let theAddress :=
        if SymbolType_is_extern (symbolType s) then 0 else u32 (address s) in
      let whichARE :=
        if SymbolType_is_extern (symbolType s) then EXTERNAL
        else RELOCATABLE in
      let tu' :=
        if SymbolType_is_extern (symbolType s)
        then updateExternTable translationUnit name
        else translationUnit in
      (Some (theAddress, whichARE), tu')
  | None => (None, translationUnit)
  end.

(** [get_addressing_index]: the index of a fixed-index operand, as an
    [unsigned int]; [None] is the FALSE return. *)
Definition get_addressing_index (fixedIdxOperand : FixedIndexAddressing)
  (translationUnit : TranslationUnit) : option Z :=
  if is_null_or_empty (constantAddressingIndex fixedIdxOperand) then
    Some (u32 (numericalAddressingIndex fixedIdxOperand))
  else
    match extract_constant (deref (constantAddressingIndex fixedIdxOperand))
                           translationUnit with
    | None => None
    | Some tempIndex =>
        if tempIndex <? 0 then None else Some (u32 tempIndex)
    end.

(* ------------------------------------------------------------------------- *)
(** ** Second pass ([second_pass.c]) *)

(** [firs_machine_word_encoding]. *)
Definition first_machine_word (c : CommandInstruction) : Z :=
  let srcOperand :=
    if AddressingType_eqb (sourceOperandAddressingType c) NONE_ADDR then 0
    else u32 (AddressingType_val (sourceOperandAddressingType c)) in
  let tgtOperand :=
    if AddressingType_eqb (targetOperandAddressingType c) NONE_ADDR then 0
    else u32 (AddressingType_val (targetOperandAddressingType c)) in
  let firstWord := 0 in
  let firstWord :=
    Z.lor firstWord (u32 (Z.shiftl (Opcode_val (opcodeCommand c)) 6)) in
  let firstWord := Z.lor firstWord (u32 (Z.shiftl srcOperand 4)) in
  let firstWord := Z.lor firstWord (u32 (Z.shiftl tgtOperand 2)) in
  firstWord.

Definition firs_machine_word_encoding (c : CommandInstruction)
  (transUnit : TranslationUnit) : TranslationUnit :=
  insert_machine_word transUnit (first_machine_word c).

(** [double_direct_register_encoding]. *)
Definition double_direct_register_word (c : CommandInstruction) : Z :=
  Z.lor 0
    (u32 (Z.lor (Z.shiftl (Register_val (reg (sourceOperand c))) 5)
                (Z.shiftl (Register_val (reg (targetOperand c))) 2))).

Definition double_direct_register_encoding (c : CommandInstruction)
  (transUnit : TranslationUnit) : TranslationUnit :=
  insert_machine_word transUnit (double_direct_register_word c).

(** The word built by [encode_immediate_addressing] from a validated value. *)
Definition immediate_word (valueToEncode : Z) : Z :=
  Z.lor 0 (u32 (Z.shiftl valueToEncode 2)).

(** The value [encode_immediate_addressing] is to encode: the integer of the
    operand, or the value of the constant it names; [None] when the constant
    is not in the list. *)
Definition immediate_value (immAddressing : ImmediateAddressing)
  (transUnit : TranslationUnit) : option Z :=
  if is_null_or_empty (constantVal immAddressing)
  then Some (integerVal immAddressing)
  else extract_constant (deref (constantVal immAddressing)) transUnit.

(** [encode_immediate_addressing]: returns the error indication (TRUE on
    error) and the translation unit. *)
Definition encode_immediate_addressing (immAddressing : ImmediateAddressing)
  (transUnit : TranslationUnit) : bool * TranslationUnit :=
  match immediate_value immAddressing transUnit with
  | None => (true, transUnit)
  | Some valueToEncode =>
      if negb (two_complement_validation valueToEncode) then (true, transUnit)
      else (false, insert_machine_word transUnit (immediate_word valueToEncode))
  end.

(** The word built from a label address and an ARE field. *)
Definition label_word (labelAddress : Z) (theARE : ARE) : Z :=
  Z.lor 0 (Z.lor (u32 (Z.shiftl labelAddress 2)) (Z.land (ARE_val theARE) 3)).

(** [encode_direct_addressing]. *)
Definition encode_direct_addressing (name : string)
  (transUnit : TranslationUnit) : bool * TranslationUnit :=
  match find_label_addressing name transUnit with
  | (None, tu1) => (true, tu1)
  | (Some (labelAddress, theARE), tu1) =>
      (false, insert_machine_word tu1 (label_word labelAddress theARE))
  end.

(** [encode_fixed_index_addressing]: the label is looked up first, then the
    index; the two results are tested afterwards. *)
Definition encode_fixed_index_addressing
  (fixedAddressing : FixedIndexAddressing) (transUnit : TranslationUnit)
  : bool * TranslationUnit :=
  let '(foundLabel, tu1) :=
    find_label_addressing (labelName fixedAddressing) transUnit in
  let foundIdx := get_addressing_index fixedAddressing tu1 in
  match foundLabel with
  | None => (true, tu1)
  | Some (labelAddress, firstARE) =>
      match foundIdx with
      | None => (true, tu1)
      | Some addressingIndex =>
          let firstMachineWord := label_word labelAddress firstARE in
          let secondMachineWord := label_word addressingIndex ABSOLUTE in
          (false,
           insert_machine_word (insert_machine_word tu1 firstMachineWord)
                               secondMachineWord)
      end
  end.

(** [encode_direct_register_addressing]. *)
Definition direct_register_word (r : Register) (opType : OperandType) : Z :=
  Z.lor 0
    (u32 (Z.shiftl (Register_val r)
                   (match opType with
                    | SOURCE_OPERAND => 5
                    | TARGET_OPERAND => 2
                    end))).

Definition encode_direct_register_addressing (r : Register)
  (translationUnit : TranslationUnit) (opType : OperandType)
  : TranslationUnit :=
  insert_machine_word translationUnit (direct_register_word r opType).

Definition operand_of (c : CommandInstruction) (opType : OperandType)
  : Operand :=
  match opType with
  | SOURCE_OPERAND => sourceOperand c
  | TARGET_OPERAND => targetOperand c
  end.

(** [process_operand_encoding]. *)
Definition process_operand_encoding (lineDescriptor : AbstractLineDescriptor)
  (transUnit : TranslationUnit) (addrType : AddressingType)
  (opType : OperandType) : bool * TranslationUnit :=
  let op := operand_of (commandInst lineDescriptor) opType in
  match addrType with
  | NONE_ADDR => (false, transUnit)
  | IMMEDIATE_ADDR => encode_immediate_addressing (immediateValue op) transUnit
  | DIRECT_ADDR => encode_direct_addressing (addressingLabel op) transUnit
  | FIXED_IDX_ADDR =>
      encode_fixed_index_addressing (fixedIndexOperand op) transUnit
  | DIRECT_REGISTER_ADDR =>
      (false, encode_direct_register_addressing (reg op) transUnit opType)
  end.

Definition LineType_is_command (t : LineType) : bool :=
  match t with COMMAND_INSTRUCTION => true | _ => false end.

(** The body of the loop of [second_pass] for one descriptor: the error
    indication of the line and the translation unit after it. *)
Definition second_pass_line (l : AbstractLineDescriptor)
  (tu : TranslationUnit) : bool * TranslationUnit :=
  if negb (LineType_is_command (lineType l)) then (false, tu)
  else
    let c := commandInst l in
    let tu0 := firs_machine_word_encoding c tu in
    if AddressingType_eqb (sourceOperandAddressingType c) DIRECT_REGISTER_ADDR
       && AddressingType_eqb (targetOperandAddressingType c)
                             DIRECT_REGISTER_ADDR
    then (false, double_direct_register_encoding c tu0)
    else
      let '(e1, tu1) :=
        process_operand_encoding l tu0 (sourceOperandAddressingType c)
                                 SOURCE_OPERAND in
      let '(e2, tu2) :=
        process_operand_encoding l tu1 (targetOperandAddressingType c)
                                 TARGET_OPERAND in
      (e1 || e2, tu2).

(** The loop of [second_pass] over the descriptors it visits. *)
Fixpoint second_pass_lines (ls : list AbstractLineDescriptor)
  (errorFlag : bool) (tu : TranslationUnit) : bool * TranslationUnit :=
  match ls with
  | [] => (errorFlag, tu)
  | l :: rest =>
      let '(e, tu') := second_pass_line l tu in
      second_pass_lines rest (errorFlag || e) tu'
  end.

(** [second_pass]: visits the descriptors of index below [progSize]; returns
    TRUE when no error was met. *)
Definition second_pass (absProgram : AbstractProgram)
  (translationUnit : TranslationUnit) : bool * TranslationUnit :=
  let '(errorFlag, tu) :=
    second_pass_lines (firstn (progSize absProgram) (lines absProgram))
                      false translationUnit in
  (negb errorFlag, tu).

(* ------------------------------------------------------------------------- *)
(** ** Opcode tables ([tables_dictionaries_utility.c]) *)

Record OpcodeAddressing : Type := {
  operationName : string;
  sourceOperandModes : list AddressingType;
  destinationOperandModes : list AddressingType
}.

(** An initialiser shorter than [NUMBER_OF_ADDRESSING] leaves the remaining
    cells zero, and zero is [IMMEDIATE_ADDR]. *)
Definition NUMBER_OF_ADDRESSING : nat := 4.

Definition zero_filled (l : list AddressingType) : list AddressingType :=
  l ++ repeat IMMEDIATE_ADDR (NUMBER_OF_ADDRESSING - List.length l).

Definition mk_addressing (name : string) (src dst : list AddressingType)
  : OpcodeAddressing :=
  {| operationName := name;
     sourceOperandModes := zero_filled src;
     destinationOperandModes := zero_filled dst |}.

Definition all_modes : list AddressingType :=
  [IMMEDIATE_ADDR; DIRECT_ADDR; FIXED_IDX_ADDR; DIRECT_REGISTER_ADDR].

Definition memory_and_register_modes : list AddressingType :=
  [DIRECT_ADDR; FIXED_IDX_ADDR; DIRECT_REGISTER_ADDR].

Definition opcodeAddressingDict : list OpcodeAddressing :=
  [ mk_addressing "mov" all_modes memory_and_register_modes;
    mk_addressing "cmp" all_modes all_modes;
    mk_addressing "add" all_modes memory_and_register_modes;
    mk_addressing "sub" all_modes memory_and_register_modes;
    mk_addressing "not" [NONE_ADDR] memory_and_register_modes;
    mk_addressing "clr" [NONE_ADDR] memory_and_register_modes;
    mk_addressing "lea" [DIRECT_ADDR; FIXED_IDX_ADDR]
                        memory_and_register_modes;
    mk_addressing "inc" [NONE_ADDR] memory_and_register_modes;
    mk_addressing "dec" [NONE_ADDR] memory_and_register_modes;
    mk_addressing "jmp" [NONE_ADDR] [DIRECT_ADDR; DIRECT_REGISTER_ADDR];
    mk_addressing "bne" [NONE_ADDR] [DIRECT_ADDR; DIRECT_REGISTER_ADDR];
    mk_addressing "red" [NONE_ADDR] memory_and_register_modes;
    mk_addressing "prn" [NONE_ADDR] all_modes;
    mk_addressing "jsr" [NONE_ADDR] [DIRECT_ADDR; DIRECT_REGISTER_ADDR];
    mk_addressing "rts" [NONE_ADDR] [NONE_ADDR];
    mk_addressing "hlt" [NONE_ADDR] [NONE_ADDR] ].

(** The first [NUMBER_OF_OPCODES] rows of [opcodeDictionary]. *)
Definition opcodeDictionary : list (Opcode * string) :=
  [ (MOV_OP, "mov"); (CMP_OP, "cmp"); (ADD_OP, "add"); (SUB_OP, "sub");
    (NOT_OP, "not"); (CLR_OP, "clr"); (LEA_OP, "lea"); (INC_OP, "inc");
    (DEC_OP, "dec"); (JMP_OP, "jmp"); (BNE_OP, "bne"); (RED_OP, "red");
    (PRN_OP, "prn"); (JSR_OP, "jsr"); (RTS_OP, "rts"); (HLT_OP, "hlt") ]%string.

(** [addressingModesDict], indexed by the value of the opcode. *)
Definition addressingModesDict : list (nat * nat) :=
  [ (4, 3); (4, 4); (4, 3); (4, 3); (0, 3); (0, 3); (2, 3); (0, 3);
    (0, 3); (0, 2); (0, 2); (0, 3); (0, 4); (0, 2); (0, 0); (0, 0) ]%nat.

(** [opcode_num_of_mods]. *)
Definition opcode_num_of_mods (opcode : Opcode) (operandType : OperandType)
  : nat :=
  let row := nth (Z.to_nat (Opcode_val opcode)) addressingModesDict (0, 0)%nat in
  match operandType with
  | SOURCE_OPERAND => fst row
  | TARGET_OPERAND => snd row
  end.

Definition Opcode_eqb (a b : Opcode) : bool := Opcode_val a =? Opcode_val b.

(** The loop [j = 0; do { if (x == modes[j]) valid = TRUE; j++; }
    while (j < mods)]: cells [0 .. max 1 mods - 1] are compared. *)
Definition do_while_match (x : AddressingType) (modes : list AddressingType)
  (mods : nat) : bool :=
  existsb (AddressingType_eqb x) (firstn (Nat.max 1 mods) modes).

(** [is_legal_command]. *)
Definition is_legal_command_inst (c : CommandInstruction) : bool :=
  let sourceMods := opcode_num_of_mods (opcodeCommand c) SOURCE_OPERAND in
  let targetMods := opcode_num_of_mods (opcodeCommand c) TARGET_OPERAND in
  let '(isValidSource, isValidTarget) :=
    fold_left
      (fun (flags : bool * bool) (row : (Opcode * string) * OpcodeAddressing) =>
         if Opcode_eqb (opcodeCommand c) (fst (fst row)) then
           (fst flags
            || do_while_match (sourceOperandAddressingType c)
                              (sourceOperandModes (snd row)) sourceMods,
            snd flags
            || do_while_match (targetOperandAddressingType c)
                              (destinationOperandModes (snd row)) targetMods)
         else flags)
      (combine opcodeDictionary opcodeAddressingDict)
      (false, false) in
  isValidSource && isValidTarget.

Definition is_legal_command (lineDescriptor : AbstractLineDescriptor) : bool :=
  is_legal_command_inst (commandInst lineDescriptor).

(** The number of words [ic_promoter] adds for one operand. *)
Definition operand_words (a : AddressingType) : nat :=
  ((if AddressingType_eqb a IMMEDIATE_ADDR then 1 else 0)
   + (if AddressingType_eqb a DIRECT_ADDR then 1 else 0)
   + (if AddressingType_eqb a FIXED_IDX_ADDR then 2 else 0)
   + (if AddressingType_eqb a DIRECT_REGISTER_ADDR then 1 else 0))%nat.

(** [ic_promoter]. *)
Definition ic_promoter_inst (c : CommandInstruction) : nat :=
  let valueToAdd := 1%nat in
  if AddressingType_eqb (sourceOperandAddressingType c) DIRECT_REGISTER_ADDR
     && AddressingType_eqb (targetOperandAddressingType c) DIRECT_REGISTER_ADDR
  then (valueToAdd + 1)%nat
  else
    (valueToAdd + operand_words (sourceOperandAddressingType c)
     + operand_words (targetOperandAddressingType c))%nat.

Definition ic_promoter (lineDescriptor : AbstractLineDescriptor) : nat :=
  ic_promoter_inst (commandInst lineDescriptor).

(* ------------------------------------------------------------------------- *)
(** ** First pass utilities ([first_pass_utility.c]) *)

(** [find_symbol]: the first symbol of the table with the given name. *)
Definition find_symbol (name : string) (table : list Symbol) : option Symbol :=
  find_first_symbol table name.

(** An assignment through the pointer returned by [find_symbol]: the first
    symbol with the given name is replaced. *)
Fixpoint update_symbol (table : list Symbol) (name : string)
  (f : Symbol -> Symbol) : list Symbol :=
  match table with
  | [] => []
  | s :: rest =>
      if String.eqb name (symbolName s) then f s :: rest
      else s :: update_symbol rest name f
  end.

Definition set_type (t : SymbolType) (s : Symbol) : Symbol :=
  {| symbolName := symbolName s; symbolType := t; address := address s |}.

Definition set_type_address (t : SymbolType) (a : Z) (s : Symbol) : Symbol :=
  {| symbolName := symbolName s; symbolType := t; address := a |}.

(** [strncpy (dst, src, sizeof dst - 1)] followed by the terminator in the
    last cell: at most [MAX_SYMBOL_LENGTH] characters are kept. *)
Definition copy_symbol_name (s : string) : string :=
  substring 0 MAX_SYMBOL_LENGTH s.

(** [insert_symbol_to_table].  The name is taken from the label of the line,
    the constant definition or the directive, according to the type asked
    for; any other type inserts nothing. *)
Definition insert_symbol_to_table (lineDescriptor : AbstractLineDescriptor)
  (translationUnit : TranslationUnit) (ic dc : nat)
  (typeOfSymbol : SymbolType) : TranslationUnit :=
  let push (s : Symbol) :=
    set_symbolTable translationUnit (symbolTable translationUnit ++ [s]) in
  match typeOfSymbol with
  | CODE_LABEL =>
      push {| symbolName := copy_symbol_name (deref (lineLabel lineDescriptor));
              symbolType := CODE_LABEL;
              address := to_int (Z.of_nat ic) |}
  | DATA_LABEL =>
      push {| symbolName := copy_symbol_name (deref (lineLabel lineDescriptor));
              symbolType := DATA_LABEL;
              address := to_int (Z.of_nat dc) |}
  | DEFINED_CONSTANT =>
      push {| symbolName :=
                copy_symbol_name (constName (constDefInst lineDescriptor));
              symbolType := DEFINED_CONSTANT;
              address := constValue (constDefInst lineDescriptor) |}
  | TEMP_ENTRY_LABEL =>
      push {| symbolName := copy_symbol_name (entryName lineDescriptor);
              symbolType := TEMP_ENTRY_LABEL;
              address := -1 |}
  | EXTERN_LABEL =>
      push {| symbolName := copy_symbol_name (entryName lineDescriptor);
              symbolType := EXTERN_LABEL;
              address := to_int (Z.of_nat ic) |}
  | _ => translationUnit
  end.

(** The value of a [char] converted to [unsigned int], [char] being signed:
    the characters of a 7-bit text keep their code. *)
Definition char_to_unsigned (c : ascii) : Z :=
  let n := Z.of_nat (nat_of_ascii c) in
  u32 (if n <? 128 then n else n - 256).

(** The cells [a[i] .. a[i + length xs - 1]] are overwritten with [xs]. *)
Definition array_store_range {A : Type} (l : list A) (i : nat) (xs : list A)
  : list A :=
  firstn i l ++ xs ++ skipn (i + List.length xs) l.

(** The cells [cells] are written into the data image from the index [DC]
    on, after the test [requiredCapacity > dataImageCapacity] that guards the
    reallocation: the part the two update functions share.  The result is
    [None] when the cells do not fit in the block, which the test lets happen
    when the capacity field says more than the block has. *)
Definition data_image_write (cells : list Z)
  (translationUnit : TranslationUnit) (dc : nat)
  : option (TranslationUnit * nat) :=
  let requiredCapacity :=
    (List.length cells + DC translationUnit)%nat in
  let translationUnit :=
    if (dataImageCapacity translationUnit <? requiredCapacity)%nat
    then resize_data_image translationUnit requiredCapacity
    else translationUnit in
  if (dataImageBlock translationUnit <? requiredCapacity)%nat then None
  else
    let image :=
      array_store_range (dataImage translationUnit) (DC translationUnit)
                        cells in
    let dc' := (dc + List.length cells)%nat in
    Some (set_data translationUnit image dc', dc').

(** [int_data_image_update]: the integers are copied bit for bit into the
    data image, whose cells are [unsigned int]. *)
Definition int_data_image_update (data : list Z)
  (translationUnit : TranslationUnit) (dc : nat)
  : option (TranslationUnit * nat) :=
  data_image_write (map u32 data) translationUnit dc.

(** [string_data_image_update]: one cell per character, then a zero cell for
    the terminator. *)
Definition string_data_image_update (data : string)
  (translationUnit : TranslationUnit) (dc : nat)
  : option (TranslationUnit * nat) :=
  data_image_write (map char_to_unsigned (list_ascii_of_string data) ++ [0])
                   translationUnit dc.

(** [handle_data_image]. *)
Definition handle_data_image (lineDescriptor : AbstractLineDescriptor)
  (translationUnit : TranslationUnit) (dc : nat)
  : option (TranslationUnit * nat) :=
  match dirType lineDescriptor with
  | DATA_INST =>
      int_data_image_update (dataInst lineDescriptor) translationUnit dc
  | STRING_INST =>
      string_data_image_update (stringInst lineDescriptor) translationUnit dc
  | _ => Some (translationUnit, dc)
  end.

(** [insert_constant_to_list]. *)
Definition insert_constant_to_list (lineDescriptor : AbstractLineDescriptor)
  (translationUnit : TranslationUnit) : TranslationUnit :=
  set_constantList translationUnit
    (constantList translationUnit ++
     [{| constName := constName (constDefInst lineDescriptor);
         constValue := constValue (constDefInst lineDescriptor) |}]).

(** The C library's [qsort].  The standard fixes neither the algorithm nor the
    order of elements that compare equal; insertion into a sorted prefix is
    taken here.  [cmp a b] is the integer returned by the comparison
    function. *)
Fixpoint qsort_insert {A : Type} (cmp : A -> A -> Z) (x : A) (l : list A)
  : list A :=
  match l with
  | [] => [x]
  | y :: rest =>
      if cmp x y <=? 0 then x :: l else y :: qsort_insert cmp x rest
  end.

Fixpoint qsort {A : Type} (cmp : A -> A -> Z) (l : list A) : list A :=
  match l with
  | [] => []
  | x :: rest => qsort_insert cmp x (qsort cmp rest)
  end.

(** [compare_entry]: the difference of two [int] addresses. *)
Definition compare_entry (symA symB : Symbol) : Z :=
  to_int (address symA - address symB).

(** [sort_entries]. *)
Definition sort_entries (trUnit : TranslationUnit) : TranslationUnit :=
  set_entryList trUnit (qsort compare_entry (entryList trUnit)).

Definition is_temp_entry (t : SymbolType) : bool :=
  match t with TEMP_ENTRY_LABEL => true | _ => false end.

Definition is_data_symbol (t : SymbolType) : bool :=
  match t with DATA_LABEL | ENTRY_DATA_LABEL => true | _ => false end.

Definition is_entry_symbol (t : SymbolType) : bool :=
  match t with ENTRY_CODE_LABEL | ENTRY_DATA_LABEL => true | _ => false end.

(** One iteration of the loop of [process_symbol_table] on symbol [s]: the
    error indication, the symbol as left in the table, and the entries
    appended. *)
Definition process_symbol (ic : nat) (s : Symbol)
  : bool * Symbol * list Symbol :=
  let s' :=
    if is_data_symbol (symbolType s)
    then set_type_address (symbolType s)
                          (to_int (address s + to_int (Z.of_nat ic))) s
    else s in
  (is_temp_entry (symbolType s), s',
   if is_entry_symbol (symbolType s) then [s'] else []).

Fixpoint process_symbols (ic : nat) (table : list Symbol)
  : bool * list Symbol * list Symbol :=
  match table with
  | [] => (false, [], [])
  | s :: rest =>
      let '(e, s', ents) := process_symbol ic s in
      let '(e_rest, table', ents') := process_symbols ic rest in
      (e || e_rest, s' :: table', ents ++ ents')
  end.

(** [process_symbol_table]. *)
Definition process_symbol_table (translationUnit : TranslationUnit) (ic : nat)
  : bool * TranslationUnit :=
  let '(errorFlag, table', ents) :=
    process_symbols ic (symbolTable translationUnit) in
  let tu1 := set_symbolTable translationUnit table' in
  let tu2 := set_entryList tu1 (entryList tu1 ++ ents) in
  let tu3 :=
    if (1 <? List.length (entryList tu2))%nat then sort_entries tu2 else tu2 in
  (errorFlag, tu3).

(* ------------------------------------------------------------------------- *)
(** ** First pass ([first_pass.c]) *)

Definition LineType_eqb (a b : LineType) : bool :=
  match a, b with
  | EMPTY, EMPTY | COMMENT, COMMENT
  | DIRECTIVE_INSTRUCTION, DIRECTIVE_INSTRUCTION
  | COMMAND_INSTRUCTION, COMMAND_INSTRUCTION
  | CONSTANT_DEF_INSTRUCTION, CONSTANT_DEF_INSTRUCTION
  | INIT_VAL, INIT_VAL => true
  | _, _ => false
  end.

Definition is_data_or_string (d : DirectiveType) : bool :=
  match d with DATA_INST | STRING_INST => true | _ => false end.

(** [dirType >= ENTRY_INST]. *)
Definition is_entry_or_extern (d : DirectiveType) : bool :=
  match d with ENTRY_INST | EXTERN_INST => true | _ => false end.

(** [handle_label]: the error indication and the translation unit. *)
Definition handle_label (lineDescriptor : AbstractLineDescriptor)
  (translationUnit : TranslationUnit) (ic dc : nat)
  : bool * TranslationUnit :=
  let name := deref (lineLabel lineDescriptor) in
  match find_symbol name (symbolTable translationUnit) with
  | Some labelFinder =>
      if is_temp_entry (symbolType labelFinder) then
        match lineType lineDescriptor with
        | COMMAND_INSTRUCTION =>
            (false,
             set_symbolTable translationUnit
               (update_symbol (symbolTable translationUnit) name
                  (set_type_address ENTRY_CODE_LABEL (to_int (Z.of_nat ic)))))
        | DIRECTIVE_INSTRUCTION =>
            if is_data_or_string (dirType lineDescriptor) then
              (false,
               set_symbolTable translationUnit
                 (update_symbol (symbolTable translationUnit) name
                    (set_type_address ENTRY_DATA_LABEL
                                      (to_int (Z.of_nat dc)))))
            else (false, translationUnit)
        | _ => (false, translationUnit)
        end
      else (true, translationUnit)
  | None =>
      match lineType lineDescriptor with
      | DIRECTIVE_INSTRUCTION =>
          if is_data_or_string (dirType lineDescriptor) then
            (false,
             insert_symbol_to_table lineDescriptor translationUnit ic dc
                                    DATA_LABEL)
          else (false, translationUnit)
      | COMMAND_INSTRUCTION =>
          (false,
           insert_symbol_to_table lineDescriptor translationUnit ic dc
                                  CODE_LABEL)
      | _ => (false, translationUnit)
      end
  end.

(** The local variables of [first_pass] together with the two structures it
    updates. *)
Record FirstPassState : Type := {
  fp_program : AbstractProgram;
  fp_unit : TranslationUnit;
  fp_ic : nat;
  fp_dc : nat;
  fp_lineCount : nat;
  fp_errorFlag : bool
}.

Definition first_pass_init (translationUnit : TranslationUnit)
  : FirstPassState :=
  {| fp_program := {| lines := []; progSize := 0 |};
     fp_unit := translationUnit;
     fp_ic := IC_INIT_VALUE;
     fp_dc := 0;
     fp_lineCount := 1;
     fp_errorFlag := false |}.

(** What [line_descriptor_builder] leaves in the translation unit: a valid
    constant definition is linked into the constants list by
    [constant_definition_handling] as soon as the line has been parsed. *)
Definition line_descriptor_builder_effect (l : AbstractLineDescriptor)
  (tu : TranslationUnit) : TranslationUnit :=
  if LineType_eqb (lineType l) CONSTANT_DEF_INSTRUCTION
  then insert_constant_to_list l tu else tu.

(** The end of one iteration: [lineCount++], with the flag possibly raised. *)
Definition next_line (st : FirstPassState) (p : AbstractProgram)
  (tu : TranslationUnit) (ic dc : nat) (err : bool) : FirstPassState :=
  {| fp_program := p; fp_unit := tu; fp_ic := ic; fp_dc := dc;
     fp_lineCount := S (fp_lineCount st);
     fp_errorFlag := fp_errorFlag st || err |}.

(** The handling of an [.entry] or [.extern] line by [first_pass]. *)
Definition handle_entry_extern (l : AbstractLineDescriptor)
  (tu : TranslationUnit) (ic dc : nat) : bool * TranslationUnit :=
  match find_symbol (entryName l) (symbolTable tu) with
  | Some labelFinder =>
      match dirType l with
      | ENTRY_INST =>
          match symbolType labelFinder with
          | CODE_LABEL =>
              (false,
               set_symbolTable tu
                 (update_symbol (symbolTable tu) (entryName l)
                                (set_type ENTRY_CODE_LABEL)))
          | DATA_LABEL =>
              (false,
               set_symbolTable tu
                 (update_symbol (symbolTable tu) (entryName l)
                                (set_type ENTRY_DATA_LABEL)))
          | _ => (true, tu)
          end
      | _ => (true, tu)
      end
  | None =>
      match dirType l with
      | ENTRY_INST =>
          (false, insert_symbol_to_table l tu ic dc TEMP_ENTRY_LABEL)
      | EXTERN_INST =>
          (false, insert_symbol_to_table l tu ic dc EXTERN_LABEL)
      | _ => (false, tu)
      end
  end.

(** The part of one iteration of the loop of [first_pass] that follows the
    building of the descriptor: the translation unit, the two counters, and
    whether the line raised an error; [None] when the line is a [.data] or
    [.string] directive whose cells are written past the block of the data
    image. *)
Definition first_pass_step (l : AbstractLineDescriptor)
  (tu : TranslationUnit) (ic dc : nat)
  : option (TranslationUnit * nat * nat * bool) :=
  if negb (is_null_or_empty (lineError l)) then Some (tu, ic, dc, true)
  else
    match lineType l with
    | EMPTY | COMMENT => Some (tu, ic, dc, false)
    | _ =>
        let '(labelError, tu) :=
          if negb (is_null_or_empty (lineLabel l))
          then handle_label l tu ic dc else (false, tu) in
        if labelError then Some (tu, ic, dc, true)
        else
          match lineType l with
          | CONSTANT_DEF_INSTRUCTION =>
              match find_symbol (constName (constDefInst l))
                                (symbolTable tu) with
              | Some _ => Some (tu, ic, dc, true)
              | None =>
                  Some (insert_symbol_to_table l tu ic dc DEFINED_CONSTANT,
                        ic, dc, false)
              end
          | COMMAND_INSTRUCTION =>
              if negb (is_legal_command l) then Some (tu, ic, dc, true)
              else Some (tu, (ic + ic_promoter l)%nat, dc, false)
          | DIRECTIVE_INSTRUCTION =>
              match (if is_data_or_string (dirType l)
                     then handle_data_image l tu dc else Some (tu, dc)) with
              | None => None
              | Some (tu, dc) =>
                  if is_entry_or_extern (dirType l) then
                    let '(err, tu) := handle_entry_extern l tu ic dc in
                    Some (tu, ic, dc, err)
                  else Some (tu, ic, dc, false)
              end
          | _ => Some (tu, ic, dc, false)
          end
    end.

(** One iteration of the loop of [first_pass], on the descriptor [l] that
    [line_descriptor_builder] made of the line just read: the descriptor is
    stored in the program, at the index [progSize], which is advanced from the
    second line on; then the line is handled and [lineCount] advanced. *)
Definition first_pass_line (st : FirstPassState) (l : AbstractLineDescriptor)
  : option FirstPassState :=
  let size := if (1 <? fp_lineCount st)%nat
              then S (progSize (fp_program st))
              else progSize (fp_program st) in
  let p := {| lines := array_store (lines (fp_program st)) size l;
              progSize := size |} in
  match first_pass_step l (line_descriptor_builder_effect l (fp_unit st))
                        (fp_ic st) (fp_dc st) with
  | None => None
  | Some (tu, ic, dc, err) => Some (next_line st p tu ic dc err)
  end.

(** The loop of [first_pass] on the descriptors of the lines of the file, in
    order, from the state [st] on. *)
Fixpoint first_pass_loop (ls : list AbstractLineDescriptor)
  (st : FirstPassState) : option FirstPassState :=
  match ls with
  | [] => Some st
  | l :: rest =>
      match first_pass_line st l with
      | None => None
      | Some st => first_pass_loop rest st
      end
  end.

(** [first_pass].  The result is what the function returns (TRUE when the
    file has no error) with the program descriptor and the translation unit
    it leaves; [None] when a line left the block of the data image. *)
Definition first_pass (ls : list AbstractLineDescriptor)
  (translationUnit : TranslationUnit)
  : option (bool * AbstractProgram * TranslationUnit) :=
  match first_pass_loop ls (first_pass_init translationUnit) with
  | None => None
  | Some st =>
      let tu := fp_unit st in
      let tu :=
        if (0 <? IC tu)%nat then set_code tu (codeImage tu) (IC tu - 1)
        else tu in
      let '(tempErrorFlag, tu) := process_symbol_table tu (fp_ic st) in
      Some (negb (fp_errorFlag st || tempErrorFlag), fp_program st, tu)
  end.

(* ------------------------------------------------------------------------- *)
(** ** File generation ([file_generation.c]) *)

Local Open Scope string_scope.

(** [printf] conversions: [%lu] and [%d] print decimal digits, [%04d] pads
    with zeros up to four characters, the sign included. *)
Definition decimal (n : Z) : string :=
  DecimalString.NilEmpty.string_of_uint (N.to_uint (Z.to_N n)).

Fixpoint zeros (n : nat) : string :=
  match n with O => "" | S k => String "0" (zeros k) end.

Definition fmt_lu (n : nat) : string := decimal (Z.of_nat n).

Definition fmt_04d (z : Z) : string :=
  if (z <? 0)%Z then
    let d := decimal (- z)%Z in
    String "-" (zeros (3 - String.length d) ++ d)
  else
    let d := decimal z in
    zeros (4 - String.length d) ++ d.

Definition newline : string := String (ascii_of_nat 10) "".
Definition tab : string := String (ascii_of_nat 9) "".

(** [SpecialBase4]. *)
Definition SpecialBase4 (d : Z) : ascii :=
  match d with
  | 0 => "*"
  | 1 => "#"
  | 2 => "%"
  | _ => "!"
  end%char.

(** [print_encoded_base4_machine_word]: the digits
    [(code >> i) & LOWER_2_BITS_MASK] for [i = 12, 10, ..., 0]. *)
Definition print_encoded_base4_machine_word (code : Z) : string :=
  string_of_list_ascii
    (map (fun i => SpecialBase4 (Z.land (Z.shiftr code i) LOWER_2_BITS_MASK))
         [12; 10; 8; 6; 4; 2; 0]%Z).

(** One line of the object file: the address and the encoded word. *)
Definition ob_line (addr : Z) (word : Z) : string :=
  fmt_04d addr ++ " " ++ print_encoded_base4_machine_word word ++ newline.

(** The lines written for the cells [0 .. n-1] of an image, the first of them
    at address [base]. *)
Definition ob_image_lines (image : list Z) (n : nat) (base : nat) : string :=
  String.concat ""
    (map (fun i => ob_line (to_int (Z.of_nat (i + base))) (nth i image 0%Z))
         (seq 0 n)).

(** [generate_ob_file]: the text of the [.ob] file. *)
Definition generate_ob_file (codeImage : list Z) (codeImageLength : nat)
  (dataImage : list Z) (dataImageLength : nat) : string :=
  "  " ++ fmt_lu codeImageLength ++ " " ++ fmt_lu dataImageLength ++ newline
  ++ ob_image_lines codeImage codeImageLength IC_INIT_VALUE
  ++ ob_image_lines dataImage dataImageLength
                    (codeImageLength + IC_INIT_VALUE).

(** One line of the [.ent] or [.ext] file. *)
Definition symbol_line (name : string) (addr : Z) : string :=
  name ++ tab ++ fmt_04d addr ++ newline.

(** The (name, address) pairs [generate_ent_file] prints, in order. *)
Definition ent_records (entList : list Symbol) (entCount : nat)
  : list (string * Z) :=
  map (fun s => (symbolName s, address s)) (firstn entCount entList).

(** [generate_ent_file]: the text of the [.ent] file. *)
Definition generate_ent_file (entList : list Symbol) (entCount : nat)
  : string :=
  String.concat ""
    (map (fun r => symbol_line (fst r) (snd r)) (ent_records entList entCount)).

(** [compareExtern]. *)
Definition compareExtern (exA exB : ExternalSymbolInfo) : Z :=
  to_int (addresses exA - addresses exB).

(** [sortExternals]: [qsort] over the first [extCount] cells. *)
Definition sortExternals (extList : list ExternalSymbolInfo) (extCount : nat)
  : list ExternalSymbolInfo :=
  qsort compareExtern (firstn extCount extList) ++ skipn extCount extList.

(** The (name, address) pairs [generate_ext_file] prints, in order.  The
    call is [sortExternals (extList, 0)]. *)
Definition ext_records (extList : list ExternalSymbolInfo)
  (externalsCount : nat) : list (string * Z) :=
  let extList :=
    if (1 <? externalsCount)%nat then sortExternals extList 0 else extList in
  map (fun e => (externalName e,
                 to_int (addresses e + Z.of_nat IC_INIT_VALUE)))
      (firstn externalsCount extList).

(** [generate_ext_file]: the text of the [.ext] file. *)
Definition generate_ext_file (extList : list ExternalSymbolInfo)
  (externalsCount : nat) : string :=
  String.concat ""
    (map (fun r => symbol_line (fst r) (snd r))
         (ext_records extList externalsCount)).

Record OutputFiles : Type := {
  ob_file : string;
  ent_file : option string;
  ext_file : option string
}.

(** [generate_files]. *)
Definition generate_files (translationUnit : TranslationUnit) : OutputFiles :=
  {| ob_file :=
       generate_ob_file (codeImage translationUnit) (IC translationUnit)
                        (dataImage translationUnit) (DC translationUnit);
     ent_file :=
       if (0 <? List.length (entryList translationUnit))%nat
       then Some (generate_ent_file (entryList translationUnit)
                    (List.length (entryList translationUnit)))
       else None;
     ext_file :=
       if (0 <? List.length (externalsList translationUnit))%nat
       then Some (generate_ext_file (externalsList translationUnit)
                    (List.length (externalsList translationUnit)))
       else None |}.

(* ------------------------------------------------------------------------- *)
(** ** The driver ([assembler.c]) *)

(** [process_file] after the preprocessor: [ls] is the list of the
    descriptors of the lines of the [.am] file, and [garbage] the value the
    block allocated for the translation unit held where [dataImageCapacity]
    lies.  The result is [Some (Some files)] when the output files are
    written, [Some None] when a pass reported an error and nothing is
    written, and [None] when the first pass left the block of the data
    image. *)
Definition process_file (garbage : nat) (ls : list AbstractLineDescriptor)
  : option (option OutputFiles) :=
  match first_pass ls (initialize_translation_unit garbage) with
  | None => None
  | Some (succeeded, absProg, translationUnit) =>
      if negb succeeded then Some None
      else
        let '(succeeded, translationUnit) :=
          second_pass absProg translationUnit in
        if negb succeeded then Some None
        else Some (Some (generate_files translationUnit))
  end.

Local Close Scope string_scope.

(* ------------------------------------------------------------------------- *)
(** ** Parsing of [.data] elements and of constant values
       ([first_pass_utility.c], [utilities.c], [utilities.h])

    A [const char *] walking along a line is the [string] of the characters
    from the pointer to the terminator; the character under the pointer is
    the head of that string, or the zero character when it is empty. *)

Definition code (c : ascii) : nat := nat_of_ascii c.

(** [<ctype.h>] in the C locale. *)
Definition isspace (c : ascii) : bool :=
  ((code c =? 32) || ((9 <=? code c) && (code c <=? 13)))%nat.

Definition isdigit (c : ascii) : bool :=
  ((48 <=? code c) && (code c <=? 57))%nat.

Definition isalpha (c : ascii) : bool :=
  (((65 <=? code c) && (code c <=? 90))
   || ((97 <=? code c) && (code c <=? 122)))%nat.

Definition isalnum (c : ascii) : bool := isalpha c || isdigit c.

(** The test of [MOVE_TO_NON_WHITE]: a space or a tabulation. *)
Definition is_blank (c : ascii) : bool :=
  ((code c =? 32) || (code c =? 9))%nat.

Definition NUL : ascii := zero.

(** The character under the pointer, and the pointer moved by one. *)
Definition head_char (s : string) : ascii :=
  match s with EmptyString => NUL | String c _ => c end.

Definition tail_str (s : string) : string :=
  match s with EmptyString => EmptyString | String _ r => r end.

Definition is_char (c : ascii) (lit : string) : bool :=
  match lit with
  | String l EmptyString => Ascii.eqb c l
  | _ => false
  end.

Definition is_end (s : string) : bool :=
  match s with EmptyString => true | _ => false end.

(** A loop that advances the pointer while the character under it satisfies
    [p]; the terminator never satisfies [p]. *)
Fixpoint skip_while (p : ascii -> bool) (s : string) : string :=
  match s with
  | EmptyString => EmptyString
  | String c r => if p c then skip_while p r else s
  end.

Fixpoint take_while (p : ascii -> bool) (s : string) : string :=
  match s with
  | EmptyString => EmptyString
  | String c r => if p c then String c (take_while p r) else EmptyString
  end.

(** [MOVE_TO_NON_WHITE]. *)
Definition MOVE_TO_NON_WHITE (line : string) : string :=
  skip_while is_blank line.

(** [MOVE_TO_NEXT_DATA]. *)
Definition MOVE_TO_NEXT_DATA (ptr : string) : string :=
  let ptr := if is_char (head_char ptr) "-" then tail_str ptr else ptr in
  skip_while isalnum ptr.

(** [safe_word_extraction_until_comma]: the word and whether it is not
    empty. *)
Definition safe_word_extraction_until_comma (line : string)
  : bool * string :=
  let word :=
    take_while (fun c => negb (isspace c) && negb (is_char c ","))
               (skip_while isspace line) in
  (negb (is_end word), word).

(** The loop [result = result * 10 + (str[i] - '0')] of [extract_integer]
    over the leading digits, in [int] arithmetic. *)
Fixpoint extract_digits (s : string) (result : Z) : Z * string :=
  match s with
  | EmptyString => (result, s)
  | String c r =>
      if isdigit c
      then extract_digits r
             (to_int (to_int (result * 10) + (Z.of_nat (code c) - 48)))
      else (result, s)
  end.

(** [extract_integer]: [Some] of the integer on TRUE, [None] on FALSE. *)
Definition extract_integer (str : string) : option Z :=
  if is_end str then None
  else
    let s := skip_while isspace str in
    let '(sign, s) :=
      if is_char (head_char s) "+" then (1, tail_str s)
      else if is_char (head_char s) "-" then (-1, tail_str s)
      else (1, s) in
    if negb (isdigit (head_char s)) then None
    else
      let '(result, s) := extract_digits s 0 in
      let s := skip_while isspace s in
      if is_char (head_char s) "," || is_end s
         || Ascii.eqb (head_char s) (ascii_of_nat 10)
      then Some (to_int (result * sign))
      else None.

(** [data_directive_value_extraction]. *)
Definition data_directive_value_extraction (translationUnit : TranslationUnit)
  (line : string) : option Z :=
  if is_end line then None
  else
    let '(_, tempConstantWord) := safe_word_extraction_until_comma line in
    match extract_constant_from (constantList translationUnit)
                                tempConstantWord with
    | Some v => Some v
    | None => extract_integer line
    end.

(** [is_valid_data_directive]. *)
Definition is_valid_data_directive (str : string) : bool :=
  if is_end str then false
  else
    let s := skip_while isspace str in
    let s :=
      if is_char (head_char s) "+" || is_char (head_char s) "-"
      then tail_str s else s in
    if (1 <? String.length str)%nat
       && (is_char (head_char s) "0" && isdigit (head_char (tail_str s)))
    then false
    else if negb (isalnum (head_char s)) then false
    else
      let s := skip_while isalnum s in
      let s := skip_while isspace s in
      if is_char (head_char s) "," then
        let s := skip_while isspace (tail_str s) in
        negb (is_end s)
      else is_end s.

(** [is_decimal_integer], the validator of the value of a [.define]. *)
Definition is_decimal_integer (str : string) : bool :=
  if is_end str then false
  else
    let s := skip_while isspace str in
    let s :=
      if is_char (head_char s) "-" || is_char (head_char s) "+"
      then tail_str s else s in
    if is_char (head_char s) "0" then false
    else if negb (isdigit (head_char s)) then false
    else
      let s := skip_while isdigit s in
      let s := skip_while isspace s in
      is_end s.

(** [insert_error]: the first error of a line is kept. *)
Definition insert_error (l : AbstractLineDescriptor) (error : string)
  : AbstractLineDescriptor :=
  match lineError l with
  | Some _ => l
  | None =>
      {| lineError := Some error; lineLabel := lineLabel l;
         lineType := lineType l; dirType := dirType l;
         dataInst := dataInst l; stringInst := stringInst l;
         entryName := entryName l; commandInst := commandInst l;
         constDefInst := constDefInst l |}
  end.

(** The loop of [data_directive_handling]: the values collected and the
    position reached.  Every value is followed by at least one character that
    the loop consumes, or else by the end of the line, so the length of the
    line bounds the number of iterations; [None] is returned when [fuel]
    iterations were not enough. *)
Fixpoint data_values_loop (fuel : nat) (translationUnit : TranslationUnit)
  (line : string) (data : list Z) : option (list Z * string) :=
  match fuel with
  | O => None
  | S fuel' =>
      if is_end line then Some (data, line)
      else
        match data_directive_value_extraction translationUnit line with
        | None => Some (data, line)
        | Some dataValue =>
            let data := data ++ [dataValue] in
            let line := MOVE_TO_NON_WHITE line in
            let line := MOVE_TO_NEXT_DATA line in
            let line := MOVE_TO_NON_WHITE line in
            let line :=
              if negb (is_end line)
                 && negb (Ascii.eqb (head_char line) (ascii_of_nat 10))
              then tail_str line else line in
            data_values_loop fuel' translationUnit line data
        end
  end.

Definition DATA_DIR_ERR : string := "Data Directive Error::".
Definition DATA_DIR_MISSING_PARAMETERS_ERR : string :=
  "Required parameters are not specified".
Definition SYNTAX_ERR : string := "Invalid syntax".

(** [data_directive_handling] on the text that follows the word [.data]. *)
Definition data_directive_handling (fuel : nat)
  (lineDescriptor : AbstractLineDescriptor)
  (translationUnit : TranslationUnit) (line : string)
  : option AbstractLineDescriptor :=
  let line := MOVE_TO_NON_WHITE line in
  match data_values_loop fuel translationUnit line [] with
  | None => None
  | Some (data, line) =>
      if (List.length data =? 0)%nat
      then Some (insert_error lineDescriptor
                   (DATA_DIR_ERR ++ DATA_DIR_MISSING_PARAMETERS_ERR))
      else if negb (is_end line)
              && negb (Ascii.eqb (head_char line) (ascii_of_nat 10))
      then Some (insert_error lineDescriptor (DATA_DIR_ERR ++ SYNTAX_ERR))
      else
        Some {| lineError := lineError lineDescriptor;
                lineLabel := lineLabel lineDescriptor;
                lineType := DIRECTIVE_INSTRUCTION;
                dirType := DATA_INST;
                dataInst := data;
                stringInst := stringInst lineDescriptor;
                entryName := entryName lineDescriptor;
                commandInst := commandInst lineDescriptor;
                constDefInst := constDefInst lineDescriptor |}
  end.

(* ------------------------------------------------------------------------- *)
(** ** Notions used by the statements *)

Definition fits_unsigned (w : Z) : Prop := 0 <= w < 2 ^ 32.

(** The ARE field of a word: its two low bits. *)
Definition ARE_bits (w : Z) : Z := Z.land w 3.

(** The legality table as the specification gives it: for each opcode the
    set of source modes and the set of target modes, [NONE_ADDR] standing for
    a position that takes no operand. *)
Definition spec_source_modes (o : Opcode) : list AddressingType :=
  match o with
  | MOV_OP | CMP_OP | ADD_OP | SUB_OP =>
      [IMMEDIATE_ADDR; DIRECT_ADDR; FIXED_IDX_ADDR; DIRECT_REGISTER_ADDR]
  | LEA_OP => [DIRECT_ADDR; FIXED_IDX_ADDR]
  | _ => [NONE_ADDR]
  end.

Definition spec_target_modes (o : Opcode) : list AddressingType :=
  match o with
  | MOV_OP | ADD_OP | SUB_OP | LEA_OP
  | NOT_OP | CLR_OP | INC_OP | DEC_OP | RED_OP =>
      [DIRECT_ADDR; FIXED_IDX_ADDR; DIRECT_REGISTER_ADDR]
  | CMP_OP | PRN_OP =>
      [IMMEDIATE_ADDR; DIRECT_ADDR; FIXED_IDX_ADDR; DIRECT_REGISTER_ADDR]
  | JMP_OP | BNE_OP | JSR_OP => [DIRECT_ADDR; DIRECT_REGISTER_ADDR]
  | RTS_OP | HLT_OP => [NONE_ADDR]
  end.

Definition spec_legal (c : CommandInstruction) : bool :=
  existsb (AddressingType_eqb (sourceOperandAddressingType c))
          (spec_source_modes (opcodeCommand c))
  && existsb (AddressingType_eqb (targetOperandAddressingType c))
             (spec_target_modes (opcodeCommand c)).

(** The contribution of one operand to the size of an instruction, as the
    specification lists it. *)
Definition spec_operand_contribution (a : AddressingType) : nat :=
  match a with
  | IMMEDIATE_ADDR => 1
  | DIRECT_ADDR => 1
  | FIXED_IDX_ADDR => 2
  | DIRECT_REGISTER_ADDR => 1
  | NONE_ADDR => 0
  end.

Definition both_direct_register (c : CommandInstruction) : Prop :=
  sourceOperandAddressingType c = DIRECT_REGISTER_ADDR
  /\ targetOperandAddressingType c = DIRECT_REGISTER_ADDR.


(* ------------------------------------------------------------------------- *)
(** ** Sample descriptors

    Descriptors as the parser fills them in; the cells the parser does not
    write are zero, as [calloc] leaves them. *)

Definition blank_fixed : FixedIndexAddressing :=
  {| labelName := ""; numericalAddressingIndex := 0;
     constantAddressingIndex := None |}.

Definition blank_immediate : ImmediateAddressing :=
  {| integerVal := 0; constantVal := None |}.

Definition blank_operand : Operand :=
  {| immediateValue := blank_immediate; addressingLabel := "";
     fixedIndexOperand := blank_fixed; reg := R0 |}.

Definition register_operand (r : Register) : Operand :=
  {| immediateValue := blank_immediate; addressingLabel := "";
     fixedIndexOperand := blank_fixed; reg := r |}.

Definition immediate_operand (v : Z) : Operand :=
  {| immediateValue := {| integerVal := v; constantVal := None |};
     addressingLabel := ""; fixedIndexOperand := blank_fixed; reg := R0 |}.

Definition direct_operand (name : string) : Operand :=
  {| immediateValue := blank_immediate; addressingLabel := name;
     fixedIndexOperand := blank_fixed; reg := R0 |}.

Definition fixed_operand (f : FixedIndexAddressing) : Operand :=
  {| immediateValue := blank_immediate; addressingLabel := "";
     fixedIndexOperand := f; reg := R0 |}.

Definition blank_command : CommandInstruction :=
  {| opcodeCommand := MOV_OP; numOfOperands := NO_OPERANDS;
     sourceOperand := blank_operand; targetOperand := blank_operand;
     sourceOperandAddressingType := IMMEDIATE_ADDR;
     targetOperandAddressingType := IMMEDIATE_ADDR |}.

Definition blank_constant : ConstantDefinitionInstruction :=
  {| constName := ""; constValue := 0 |}.

(** The descriptor after [line_descriptor_initialization]. *)
Definition blank_line : AbstractLineDescriptor :=
  {| lineError := None; lineLabel := None; lineType := INIT_VAL;
     dirType := NONE_DIR; dataInst := []; stringInst := ""; entryName := "";
     commandInst := blank_command; constDefInst := blank_constant |}.

Definition command_line (c : CommandInstruction) : AbstractLineDescriptor :=
  {| lineError := None; lineLabel := None; lineType := COMMAND_INSTRUCTION;
     dirType := NONE_DIR; dataInst := []; stringInst := ""; entryName := "";
     commandInst := c; constDefInst := blank_constant |}.

Definition two_operands (o : Opcode) (sa : AddressingType) (s : Operand)
  (ta : AddressingType) (t : Operand) : CommandInstruction :=
  {| opcodeCommand := o; numOfOperands := TWO_OPERANDS;
     sourceOperand := s; targetOperand := t;
     sourceOperandAddressingType := sa;
     targetOperandAddressingType := ta |}.

Definition one_operand (o : Opcode) (ta : AddressingType) (t : Operand)
  : CommandInstruction :=
  {| opcodeCommand := o; numOfOperands := ONE_OPERAND;
     sourceOperand := blank_operand; targetOperand := t;
     sourceOperandAddressingType := NONE_ADDR;
     targetOperandAddressingType := ta |}.

Definition no_operands (o : Opcode) : CommandInstruction :=
  {| opcodeCommand := o; numOfOperands := NO_OPERANDS;
     sourceOperand := blank_operand; targetOperand := blank_operand;
     sourceOperandAddressingType := NONE_ADDR;
     targetOperandAddressingType := NONE_ADDR |}.

(** [.extern NAME] and [.entry NAME]. *)
Definition extern_line (name : string) : AbstractLineDescriptor :=
  {| lineError := None; lineLabel := None; lineType := DIRECTIVE_INSTRUCTION;
     dirType := EXTERN_INST; dataInst := []; stringInst := "";
     entryName := name; commandInst := blank_command;
     constDefInst := blank_constant |}.

Definition entry_line (name : string) : AbstractLineDescriptor :=
  {| lineError := None; lineLabel := None; lineType := DIRECTIVE_INSTRUCTION;
     dirType := ENTRY_INST; dataInst := []; stringInst := "";
     entryName := name; commandInst := blank_command;
     constDefInst := blank_constant |}.

Definition with_label (name : string) (l : AbstractLineDescriptor)
  : AbstractLineDescriptor :=
  {| lineError := lineError l; lineLabel := Some name;
     lineType := lineType l; dirType := dirType l; dataInst := dataInst l;
     stringInst := stringInst l; entryName := entryName l;
     commandInst := commandInst l; constDefInst := constDefInst l |}.

(** [hlt], [mov r1, r2], [prn #5000], [mov X, r1]. *)
Definition hlt_line : AbstractLineDescriptor :=
  command_line (no_operands HLT_OP).

Definition mov_r1_r2 : AbstractLineDescriptor :=
  command_line (two_operands MOV_OP DIRECT_REGISTER_ADDR (register_operand R1)
                             DIRECT_REGISTER_ADDR (register_operand R2)).

Definition prn_immediate (v : Z) : AbstractLineDescriptor :=
  command_line (one_operand PRN_OP IMMEDIATE_ADDR (immediate_operand v)).

Definition mov_X_r1 : AbstractLineDescriptor :=
  command_line (two_operands MOV_OP DIRECT_ADDR (direct_operand "X")
                             DIRECT_REGISTER_ADDR (register_operand R1)).

(** The translation unit [initialize_translation_unit] leaves in a block that
    held zeroes. *)
Definition fresh_unit : TranslationUnit := initialize_translation_unit 0.

(** A translation unit that knows the symbols and constants given. *)
Definition unit_with (symbols : list Symbol)
  (constants : list ConstantDefinitionInstruction) : TranslationUnit :=
  set_constantList (set_symbolTable fresh_unit symbols) constants.

(** [ARR[5000]], [ARR[k]] and the immediate [#v]. *)
Definition literal_index (name : string) (i : Z) : FixedIndexAddressing :=
  {| labelName := name; numericalAddressingIndex := i;
     constantAddressingIndex := None |}.

Definition constant_index (name k : string) : FixedIndexAddressing :=
  {| labelName := name; numericalAddressingIndex := 0;
     constantAddressingIndex := Some k |}.

Definition literal_immediate (v : Z) : ImmediateAddressing :=
  {| integerVal := v; constantVal := None |}.

(** The value an index operand designates: the literal, or the value of the
    constant it names. *)
Definition index_value (f : FixedIndexAddressing) (tu : TranslationUnit)
  : option Z :=
  if is_null_or_empty (constantAddressingIndex f)
  then Some (numericalAddressingIndex f)
  else extract_constant (deref (constantAddressingIndex f)) tu.

Definition in_12_bits (v : Z) : Prop := -2048 <= v <= 2047.

(** A unit in which [ARR] is a data label at address 103, [X] an external
    symbol, and [k] a constant of value -1. *)
Definition sample_unit : TranslationUnit :=
  unit_with [ {| symbolName := "ARR"; symbolType := DATA_LABEL;
                 address := 103 |};
              {| symbolName := "X"; symbolType := EXTERN_LABEL;
                 address := 100 |} ]
            [ {| constName := "k"; constValue := -1 |} ].

(** [.data] with the given elements. *)
Definition data_line (values : list Z) : AbstractLineDescriptor :=
  {| lineError := None; lineLabel := None; lineType := DIRECTIVE_INSTRUCTION;
     dirType := DATA_INST; dataInst := values; stringInst := "";
     entryName := ""; commandInst := blank_command;
     constDefInst := blank_constant |}.

Definition data_minus_one : AbstractLineDescriptor := data_line [-1].

(* ------------------------------------------------------------------------- *)
(** ** Notions used by the statements on the ARE field *)

(** The code image holds exactly the words counted by IC, as it does from
    [initialize_translation_unit] on. *)
Definition well_formed_code (tu : TranslationUnit) : Prop :=
  IC tu = List.length (codeImage tu).

Definition ARE_allowed (w : Z) : Prop :=
  ARE_bits w = 0 \/ ARE_bits w = 1 \/ ARE_bits w = 2.

(** The addresses, as [updateExternTable] records them, of the words of [ws]
    whose ARE field is 01, [ws] being stored from index [base] on. *)
Fixpoint extern_use_addresses (base : nat) (ws : list Z) : list Z :=
  match ws with
  | [] => []
  | w :: rest =>
      (if ARE_bits w =? 1 then [to_int (Z.of_nat base)] else [])
      ++ extern_use_addresses (S base) rest
  end.

(** From [tu] to [tu'] the words [ws] were appended to the code image and the
    records [recs] to the externals list, one record per word of ARE 01, at
    the index of that word. *)
Definition emits (tu tu' : TranslationUnit) (ws : list Z)
  (recs : list ExternalSymbolInfo) : Prop :=
  codeImage tu' = codeImage tu ++ ws
  /\ IC tu' = (IC tu + List.length ws)%nat
  /\ externalsList tu' = externalsList tu ++ recs
  /\ symbolTable tu' = symbolTable tu
  /\ constantList tu' = constantList tu
  /\ entryList tu' = entryList tu
  /\ Forall ARE_allowed ws
  /\ map addresses recs = extern_use_addresses (IC tu) ws.

(** From [tu] to [tu'] the words [ws] were appended to the code image. *)
Definition appends (tu tu' : TranslationUnit) (ws : list Z) : Prop :=
  codeImage tu' = codeImage tu ++ ws
  /\ IC tu' = (IC tu + List.length ws)%nat.

(** The word [w] stored for a reference to the label [name] in [tu], and the
    externals list before and after: the symbol exists; the ARE field is 01
    exactly when the symbol is external, and then the word is 1 (address
    field zero) and one record (name, IC) was appended; otherwise the ARE
    field is 10 and nothing was appended. *)
Definition label_reference (tu tu' : TranslationUnit) (name : string)
  (w : Z) : Prop :=
  exists s : Symbol,
    find_symbol name (symbolTable tu) = Some s
    /\ (ARE_bits w = 1 <-> symbolType s = EXTERN_LABEL)
    /\ (symbolType s = EXTERN_LABEL ->
        w = 1
        /\ externalsList tu'
           = externalsList tu
             ++ [ {| externalName := name;
                     addresses := to_int (Z.of_nat (IC tu)) |} ])
    /\ (symbolType s <> EXTERN_LABEL ->
        ARE_bits w = 2 /\ externalsList tu' = externalsList tu).

(** The descriptors of [mov X, r1] and [hlt] followed by an empty line, as
    the first pass leaves them: three descriptors, [progSize] two. *)
Definition empty_line : AbstractLineDescriptor :=
  {| lineError := None; lineLabel := None; lineType := EMPTY;
     dirType := NONE_DIR; dataInst := []; stringInst := ""; entryName := "";
     commandInst := blank_command; constDefInst := blank_constant |}.

Definition extern_use_program : AbstractProgram :=
  {| lines := [mov_X_r1; hlt_line; empty_line]; progSize := 2 |}.

(** The descriptors of [mov r1, r2], [prn #5], [mov X, r1] and [hlt]
    followed by an empty line: five descriptors, [progSize] four. *)
Definition size_program : AbstractProgram :=
  {| lines := [mov_r1_r2; prn_immediate 5; mov_X_r1; hlt_line; empty_line];
     progSize := 4 |}.

(* ------------------------------------------------------------------------- *)
(** ** Texts of the scenarios *)

Local Open Scope string_scope.

(** The object file the specification announces for the input [hlt]. *)
Definition spec_hlt_ob_file : string :=
  "  1 0" ++ newline ++ "0100 !!!!!!!" ++ newline.

(** The object file that holds the single word of [hlt]. *)
Definition hlt_ob_file : string :=
  "  1 0" ++ newline ++ "0100 **!!***" ++ newline.

(** The text that follows the word [.data] on the line [.data 0]. *)
Definition data_zero_text : string := " 0" ++ newline.

Local Close Scope string_scope.

(** The translation unit after the first pass over the given lines. *)
Definition unit_after_first_pass (garbage : nat)
  (ls : list AbstractLineDescriptor) : option TranslationUnit :=
  option_map snd (first_pass ls (initialize_translation_unit garbage)).

(* ------------------------------------------------------------------------- *)
(** ** Notions used by the statements on the order of the output lines *)

(** The two passes of [process_file]: the translation unit handed to
    [generate_files], or [None] when no file is written (a pass reported an
    error, or the first pass left the block of the data image). *)
Definition translate (garbage : nat) (ls : list AbstractLineDescriptor)
  : option TranslationUnit :=
  match first_pass ls (initialize_translation_unit garbage) with
  | None => None
  | Some (succeeded, absProg, translationUnit) =>
      if negb succeeded then None
      else
        let '(succeeded, translationUnit) :=
          second_pass absProg translationUnit in
        if negb succeeded then None else Some translationUnit
  end.

(** The first address past the image of the program: the values the first
    pass leaves in its counters, IC (which starts at 100) plus DC. *)
Definition address_space (garbage : nat) (ls : list AbstractLineDescriptor)
  : nat :=
  match first_pass_loop ls
          (first_pass_init (initialize_translation_unit garbage)) with
  | Some st => (fp_ic st + fp_dc st)%nat
  | None => 0%nat
  end.

Definition is_code_symbol (t : SymbolType) : bool :=
  match t with CODE_LABEL | ENTRY_CODE_LABEL => true | _ => false end.

(** The address of a code label is at most the instruction counter, that of
    a data label at most the data counter, none is negative. *)
Definition symbol_in_range (ic dc : nat) (s : Symbol) : Prop :=
  (is_code_symbol (symbolType s) = true -> 0 <= address s <= Z.of_nat ic)
  /\ (is_data_symbol (symbolType s) = true -> 0 <= address s <= Z.of_nat dc).

(** The number of words the first pass counts for a line. *)
Definition command_size (l : AbstractLineDescriptor) : nat :=
  if LineType_is_command (lineType l) then ic_promoter l else 0%nat.

Definition code_size (ls : list AbstractLineDescriptor) : nat :=
  fold_right (fun l n => (command_size l + n)%nat) 0%nat ls.

Definition key_le {A : Type} (key : A -> Z) (a b : A) : Prop :=
  key a <= key b.

(** The fields of the translation unit the first pass leaves alone. *)
Definition same_output_lists (tu tu' : TranslationUnit) : Prop :=
  codeImage tu' = codeImage tu
  /\ IC tu' = IC tu
  /\ externalsList tu' = externalsList tu
  /\ entryList tu' = entryList tu.

Definition symbols_in_range (ic dc : nat) (tu : TranslationUnit) : Prop :=
  Forall (symbol_in_range ic dc) (symbolTable tu).

(** The bookkeeping of the program descriptor during the first pass:
    [lineCount] is one more than the number of descriptors stored, and
    [progSize] one less (zero when there is none). *)
Definition program_counted (st : FirstPassState) : Prop :=
  fp_lineCount st = S (List.length (lines (fp_program st)))
  /\ progSize (fp_program st) = pred (List.length (lines (fp_program st))).

(** The text of a file of (name, address) lines, and the file itself, which
    is not produced when there is no line. *)
Definition lines_text (records : list (string * Z)) : string :=
  String.concat "" (map (fun r => symbol_line (fst r) (snd r)) records).

Definition records_file (records : list (string * Z)) : option string :=
  match records with
  | [] => None
  | _ :: _ => Some (lines_text records)
  end.

(** The records of the [.ent] file: the name and the address of each symbol
    of the entries list, in the order of the list. *)
Definition entry_records (tu : TranslationUnit) : list (string * Z) :=
  map (fun s => (symbolName s, address s)) (entryList tu).

(** The records of the [.ext] file: the name and the address, moved by
    [IC_INIT_VALUE], of each record of the externals list, in the order of
    the list. *)
Definition extern_records (tu : TranslationUnit) : list (string * Z) :=
  map (fun e => (externalName e,
                 to_int (addresses e + Z.of_nat IC_INIT_VALUE)))
      (externalsList tu).

(** [.extern X], [.entry MAIN], [.entry LAST], [MAIN: mov X, r1],
    [LAST: mov X, r1], [hlt], and an empty line. *)
Definition entry_extern_program : list AbstractLineDescriptor :=
  [ extern_line "X"; entry_line "LAST"; entry_line "MAIN";
    with_label "MAIN" mov_X_r1; with_label "LAST" mov_X_r1;
    hlt_line; empty_line ].

(** The files the assembler writes for [entry_extern_program]. *)
Definition entry_extern_output : OutputFiles :=
  match process_file 0 entry_extern_program with
  | Some (Some out) => out
  | _ => {| ob_file := ""; ent_file := None; ext_file := None |}
  end.

(* ========================================================================= *)
(** * Further notions: fields of the words, tables, parsing *)

(* ------------------------------------------------------------------------- *)
(** ** Fields of a machine word *)

(** The field of [len] bits that starts at bit [pos] of the word [w]. *)
Definition field (w pos len : Z) : Z := Z.land (Z.shiftr w pos) (2 ^ len - 1).

(** The value [firs_machine_word_encoding] puts in an operand field: zero
    for an absent operand, the value of the addressing type otherwise. *)
Definition mode_field (a : AddressingType) : Z :=
  match a with NONE_ADDR => 0 | _ => AddressingType_val a end.

(** The integer that a field of twelve bits stands for in two's complement. *)
Definition sign_extend_12 (x : Z) : Z := (x + 2048) mod 4096 - 2048.

(** The base-4 digits of a word, most significant first, as
    [print_encoded_base4_machine_word] takes them. *)
Definition base4_digits (w : Z) : list Z :=
  map (fun i => Z.land (Z.shiftr w i) LOWER_2_BITS_MASK) [12; 10; 8; 6; 4; 2; 0].

(* ------------------------------------------------------------------------- *)
(** ** Opcode names ([tables_dictionaries_utility.c],
       [command_instruction_parser.c], [first_pass_utility.c]) *)

Local Open Scope string_scope.

Definition twoOperandsOpcodes : list string :=
  ["mov"; "cmp"; "add"; "sub"; "lea"].

Definition oneOperandOpcodes : list string :=
  ["not"; "clr"; "inc"; "dec"; "jmp"; "bne"; "red"; "prn"; "jsr"].

Definition noOperandsOpcodes : list string := ["rts"; "hlt"].

(** [strcmp (word, table[i]) == 0] for some [i]. *)
Definition in_table (word : string) (table : list string) : bool :=
  existsb (String.eqb word) table.

(** [determine_opcode_category]; [None] is [NONE_CATEGORY], returned as well
    for a NULL word. *)
Definition determine_opcode_category (word : option string)
  : option OpcodeCategory :=
  match word with
  | None => None
  | Some word =>
      if in_table word twoOperandsOpcodes then Some TWO_OPERANDS
      else if in_table word oneOperandOpcodes then Some ONE_OPERAND
      else if in_table word noOperandsOpcodes then Some NO_OPERANDS
      else None
  end.

(** The loop of [which_opcode] over the rows of [opcodeDictionary]. *)
Fixpoint which_opcode_from (rows : list (Opcode * string)) (name : string)
  : option Opcode :=
  match rows with
  | [] => None
  | (o, n) :: rest =>
      if String.eqb name n then Some o else which_opcode_from rest name
  end.

(** [which_opcode]; [None] is [NONE_OP]. *)
Definition which_opcode (name : string) : option Opcode :=
  if is_end name then None else which_opcode_from opcodeDictionary name.

(** [get_opcode]; [None] is [NONE_OP]. *)
Definition get_opcode (opcodeStr : string) : option Opcode :=
  if String.eqb opcodeStr "mov" then Some MOV_OP
  else if String.eqb opcodeStr "cmp" then Some CMP_OP
  else if String.eqb opcodeStr "add" then Some ADD_OP
  else if String.eqb opcodeStr "sub" then Some SUB_OP
  else if String.eqb opcodeStr "lea" then Some LEA_OP
  else if String.eqb opcodeStr "not" then Some NOT_OP
  else if String.eqb opcodeStr "clr" then Some CLR_OP
  else if String.eqb opcodeStr "inc" then Some INC_OP
  else if String.eqb opcodeStr "dec" then Some DEC_OP
  else if String.eqb opcodeStr "jmp" then Some JMP_OP
  else if String.eqb opcodeStr "bne" then Some BNE_OP
  else if String.eqb opcodeStr "red" then Some RED_OP
  else if String.eqb opcodeStr "prn" then Some PRN_OP
  else if String.eqb opcodeStr "jsr" then Some JSR_OP
  else if String.eqb opcodeStr "rts" then Some RTS_OP
  else if String.eqb opcodeStr "hlt" then Some HLT_OP
  else None.

Local Close Scope string_scope.

(** The number of operands a command carries, by its two addressing tags. *)
Definition operands_present (c : CommandInstruction) : nat :=
  ((if AddressingType_eqb (sourceOperandAddressingType c) NONE_ADDR
    then 0 else 1)
   + (if AddressingType_eqb (targetOperandAddressingType c) NONE_ADDR
      then 0 else 1))%nat.

Definition category_operands (cat : OpcodeCategory) : nat :=
  match cat with TWO_OPERANDS => 2 | ONE_OPERAND => 1 | NO_OPERANDS => 0 end.

(* ------------------------------------------------------------------------- *)
(** ** Notions used by the statements on the symbol table *)

(** The name [insert_symbol_to_table] reads from the descriptor for a symbol
    of the given type. *)
Definition inserted_name (l : AbstractLineDescriptor) (t : SymbolType)
  : string :=
  match t with
  | CODE_LABEL | DATA_LABEL => deref (lineLabel l)
  | DEFINED_CONSTANT => constName (constDefInst l)
  | _ => entryName l
  end.

(** The types for which [insert_symbol_to_table] stores a symbol. *)
Definition is_inserted_type (t : SymbolType) : bool :=
  match t with
  | CODE_LABEL | DATA_LABEL | DEFINED_CONSTANT | TEMP_ENTRY_LABEL
  | EXTERN_LABEL => true
  | _ => false
  end.

(** What [process_symbol_table] makes of one symbol: the address of a data
    symbol is moved by the final instruction counter. *)
Definition relocate (ic : nat) (s : Symbol) : Symbol :=
  if is_data_symbol (symbolType s)
  then set_type_address (symbolType s)
                        (to_int (address s + to_int (Z.of_nat ic))) s
  else s.

(** The names a line can bring into the symbol table are short enough to
    be stored whole. *)
Definition short_names (l : AbstractLineDescriptor) : Prop :=
  (String.length (deref (lineLabel l)) <= MAX_SYMBOL_LENGTH)%nat
  /\ (String.length (constName (constDefInst l)) <= MAX_SYMBOL_LENGTH)%nat
  /\ (String.length (entryName l) <= MAX_SYMBOL_LENGTH)%nat.

Definition unique_names (table : list Symbol) : Prop :=
  NoDup (map symbolName table).

(** During the first pass: the address of a code label is a code address
    already counted. *)
Definition code_symbol_below (ic : nat) (s : Symbol) : Prop :=
  is_code_symbol (symbolType s) = true ->
  Z.of_nat IC_INIT_VALUE <= address s < Z.of_nat ic.

(** After the first pass: code labels lie in the code segment
    [[100, ic)], data labels in the data segment that follows it,
    [[ic, ic + dc]]. *)
Definition symbol_in_segment (ic dc : nat) (s : Symbol) : Prop :=
  (is_code_symbol (symbolType s) = true ->
   Z.of_nat IC_INIT_VALUE <= address s < Z.of_nat ic)
  /\ (is_data_symbol (symbolType s) = true ->
      Z.of_nat ic <= address s <= Z.of_nat (ic + dc)).

(* ------------------------------------------------------------------------- *)
(** ** Notions used by the statements on the two images *)

(** The cells a line brings into the data image. *)
Definition line_data_cells (l : AbstractLineDescriptor) : list Z :=
  match lineType l, dirType l with
  | DIRECTIVE_INSTRUCTION, DATA_INST => map u32 (dataInst l)
  | DIRECTIVE_INSTRUCTION, STRING_INST =>
      map char_to_unsigned (list_ascii_of_string (stringInst l)) ++ [0]
  | _, _ => []
  end.

(** The data image holds exactly the cells counted by DC. *)
Definition well_formed_data (tu : TranslationUnit) : Prop :=
  DC tu = List.length (dataImage tu).

(** The fields of the translation unit that hold the data image. *)
Definition same_data (tu tu' : TranslationUnit) : Prop :=
  dataImage tu' = dataImage tu /\ DC tu' = DC tu
  /\ dataImageCapacity tu' = dataImageCapacity tu
  /\ dataImageBlock tu' = dataImageBlock tu.

(** The cells counted by DC lie in the block of the data image. *)
Definition data_in_block (tu : TranslationUnit) : Prop :=
  (DC tu <= dataImageBlock tu)%nat.

(** The state of the data image the first pass keeps: the local counter is
    the DC of the unit, the image holds exactly the cells counted, and
    these lie in the block. *)
Definition data_counted (tu : TranslationUnit) (dc : nat) : Prop :=
  DC tu = dc /\ well_formed_data tu /\ data_in_block tu.

(** The capacity field does not say more than the block has. *)
Definition capacity_in_block (tu : TranslationUnit) : Prop :=
  (dataImageCapacity tu <= dataImageBlock tu)%nat.

(** [.data] with eleven elements: one more than the cells
    [initialize_translation_unit] allocates. *)
Definition eleven_values : AbstractLineDescriptor :=
  data_line [1; 2; 3; 4; 5; 6; 7; 8; 9; 10; 11].

(** What the first pass leaves for [entry_extern_program]: the program
    descriptor and the translation unit. *)
Definition entry_extern_descriptors : AbstractProgram :=
  {| lines := entry_extern_program; progSize := 6 |}.

Definition entry_extern_table_unit : TranslationUnit :=
  match first_pass entry_extern_program (initialize_translation_unit 0) with
  | Some (_, _, tu) => tu
  | None => fresh_unit
  end.

(** The translation unit the two passes leave for [entry_extern_program]. *)
Definition entry_extern_unit : TranslationUnit :=
  match translate 0 entry_extern_program with
  | Some tu => tu
  | None => fresh_unit
  end.

(** The symbol an entry label ends as: an entry of the code when the label
    stands on an instruction, of the data otherwise. *)
Definition entry_symbol (name : string) (l : AbstractLineDescriptor)
  (ic dc : nat) : Symbol :=
  if LineType_is_command (lineType l)
  then {| symbolName := name; symbolType := ENTRY_CODE_LABEL;
          address := to_int (Z.of_nat ic) |}
  else {| symbolName := name; symbolType := ENTRY_DATA_LABEL;
          address := to_int (Z.of_nat dc) |}.

(** The line defines a label the first pass stores: it is an instruction,
    or a [.data] or [.string] directive. *)
Definition defines_label (l : AbstractLineDescriptor) : Prop :=
  lineType l = COMMAND_INSTRUCTION
  \/ (lineType l = DIRECTIVE_INSTRUCTION
      /\ is_data_or_string (dirType l) = true).

(* ------------------------------------------------------------------------- *)
(** ** Names: registers, directives, reserved words, labels
       ([first_pass_utility.c], [utilities.c],
       [tables_dictionaries_utility.c]) *)

Local Open Scope string_scope.

Definition islower (c : ascii) : bool :=
  ((97 <=? code c) && (code c <=? 122))%nat.

(** [s[i]] for [i] up to the length of [s]: the terminator stands at the
    index [strlen (s)]. *)
Definition char_at (s : string) (i : nat) : ascii :=
  match String.get i s with Some c => c | None => NUL end.

(** [get_register]: the word has at least two characters, the first is
    ['r'] and the second a digit from 0 to 7; what follows is not read. *)
Definition get_register (registerStr : string) : Register :=
  if (2 <=? String.length registerStr)%nat
     && is_char (char_at registerStr 0) "r"
  then
    match Z.of_nat (code (char_at registerStr 1)) - 48 with
    | 0 => R0 | 1 => R1 | 2 => R2 | 3 => R3
    | 4 => R4 | 5 => R5 | 6 => R6 | 7 => R7
    | _ => NONE_REG
    end%Z
  else NONE_REG.

Definition is_register (r : Register) : bool :=
  match r with NONE_REG => false | _ => true end.

Definition DirectiveCommands : list string :=
  [".data"; ".string"; ".entry"; ".extern"].

(** [get_directive]. *)
Definition get_directive (word : string) : DirectiveType :=
  if negb (is_char (char_at word 0) ".") then NONE_DIR
  else if negb (forallb islower (list_ascii_of_string (tail_str word)))
  then NONE_DIR
  else if String.eqb word ".data" then DATA_INST
  else if String.eqb word ".string" then STRING_INST
  else if String.eqb word ".entry" then ENTRY_INST
  else if String.eqb word ".extern" then EXTERN_INST
  else NONE_DIR.

Definition is_directive_type (d : DirectiveType) : bool :=
  match d with NONE_DIR => false | _ => true end.

Definition ReservedWords : list string :=
  [".data"; "data"; ".string"; "string"; ".entry"; "entry";
   ".extern"; "extern"; "define"; ".define"; "mcr"; "endmcr"].

Definition ReservedWordsExtended : list string :=
  [".data"; "data"; ".string"; "string"; ".entry"; "entry";
   ".extern"; "extern"; "define"; ".define"; "mcr"; "endmcr";
   "mov"; "cmp"; "add"; "sub"; "lea"; "not"; "clr"; "inc";
   "dec"; "jmp"; "bne"; "red"; "prn"; "jsr"; "rts"; "hlt";
   "r0"; "r1"; "r2"; "r3"; "r4"; "r5"; "r6"; "r7"].

(** [is_reserved_word] and [is_reserved_word_extended]. *)
Definition is_reserved_word (symbol : string) : bool :=
  if is_end symbol then false else in_table symbol ReservedWords.

Definition is_reserved_word_extended (symbol : string) : bool :=
  if is_end symbol then false else in_table symbol ReservedWordsExtended.

(** [Macro] and [MacroTable] of [globals.h].  [macroNode] holds the cells of
    the block the pointer of that name designates. *)
Record Macro : Type := {
  macroName : option string;
  content : option string
}.

Record MacroTable : Type := {
  macroNode : list Macro;
  macroCount : nat;
  macroTableCapacity : nat
}.

(** [initialize_macro_table]: [INITIAL_CAPACITY] cells, which [calloc]
    cleared, and no macro. *)
Definition initialize_macro_table : MacroTable :=
  {| macroNode :=
       repeat {| macroName := None; content := None |} INITIAL_CAPACITY;
     macroCount := 0;
     macroTableCapacity := INITIAL_CAPACITY |}.

(** [add_macro_to_table].  The assignment
    [macroTable[macroTable->macroCount].macroNode = newMacro] takes the table
    for an array of tables: with no macro yet it makes [macroNode] point to
    the macro just allocated, a block of one cell, in place of the cells of
    [initialize_macro_table]; with one macro or more it writes outside the
    table, and when the count has reached the capacity the table itself is
    reallocated while the caller keeps its pointer.  There is no result
    ([None]) in these two cases. *)
Definition add_macro_to_table (macroTable : MacroTable) (newMacro : Macro)
  : option MacroTable :=
  if (macroCount macroTable =? macroTableCapacity macroTable)%nat then None
  else
    match macroCount macroTable with
    | O =>
        Some {| macroNode := [newMacro];
                macroCount := 1;
                macroTableCapacity := macroTableCapacity macroTable |}
    | S _ => None
    end.

(** The loop of [is_macro] over the cells [macroNode[i]], [count] being the
    number of iterations left: there is no result ([None]) when the cell
    lies outside the block, or when its name is NULL, which [strcmp]
    reads. *)
Fixpoint is_macro_loop (cells : list Macro) (count : nat) (name : string)
  {struct count} : option bool :=
  match count with
  | O => Some false
  | S count' =>
      match cells with
      | [] => None
      | cell :: rest =>
          match macroName cell with
          | None => None
          | Some cellName =>
              if String.eqb cellName name then Some true
              else is_macro_loop rest count' name
          end
      end
  end.

(** [is_macro], on a table and a name that are not NULL. *)
Definition is_macro (macroTable : MacroTable) (name : string)
  : option bool :=
  is_macro_loop (macroNode macroTable) (macroCount macroTable) name.

Definition RESERVED_WORD_ERR : string :=
  "Syntax Violation - Reserved Word Error::".

(** [handle_isValidSymbol_error]: the message is put together and inserted
    in the descriptor. *)
Definition handle_isValidSymbol_error (l : AbstractLineDescriptor)
  (symbol error_type : string) : AbstractLineDescriptor :=
  let errorAfter :=
    if String.eqb error_type "isRegister"
    then "' cannot be referred to as a register"
    else if String.eqb error_type "isOpcode"
    then "' cannot be referred to as as an opcode"
    else if String.eqb error_type "isDirective"
    then "' cannot be referred to as an directive instruction"
    else if String.eqb error_type "reservedWord"
    then "' cannot be referred to as a reserved word"
    else if String.eqb error_type "isMacro"
    then "' is already a macro"
    else "" in
  insert_error l (RESERVED_WORD_ERR ++ "Symbol '" ++ symbol ++ errorAfter).

(** [is_valid_symbol]: the result and the descriptor, which receives an
    error when the result is FALSE.  The five tests are made before their
    results are looked at: there is no result when [is_macro] has none. *)
Definition is_valid_symbol (symbol : string) (l : AbstractLineDescriptor)
  (macroTable : MacroTable) : option (bool * AbstractLineDescriptor) :=
  let isRegister := get_register symbol in
  let isOpcode := get_opcode symbol in
  let isDirective := get_directive symbol in
  let isReserved := is_reserved_word symbol in
  match is_macro macroTable symbol with
  | None => None
  | Some isMacro =>
      Some
        (if is_register isRegister
         then (false, handle_isValidSymbol_error l symbol "isRegister")
         else if match isOpcode with Some _ => true | None => false end
         then (false, handle_isValidSymbol_error l symbol "isOpcode")
         else if is_directive_type isDirective
         then (false, handle_isValidSymbol_error l symbol "isDirective")
         else if isReserved
         then (false, handle_isValidSymbol_error l symbol "reservedWord")
         else if isMacro : bool
         then (false, handle_isValidSymbol_error l symbol "isMacro")
         else (true, l))
  end.

(** [remove_last_char]. *)
Definition remove_last_char (str : string) : string :=
  if is_end str then str else substring 0 (String.length str - 1) str.

(** The loop [for (i = 1; i < strlen (word) - 1; i++)] of [is_label], [n]
    being the number of iterations left. *)
Fixpoint is_label_loop (n i : nat) (word : string) : bool :=
  match n with
  | O => true
  | S n' =>
      if negb (isalnum (char_at word i)) then false
      else if (i =? MAX_SYMBOL_LENGTH)%nat then false
      else is_label_loop n' (S i) word
  end.

(** [is_label]. *)
Definition is_label (word : string) (l : AbstractLineDescriptor)
  (macroTable : MacroTable) : option (bool * AbstractLineDescriptor) :=
  if is_end word then Some (false, l)
  else if negb (isalpha (char_at word 0)) then Some (false, l)
  else if negb (is_label_loop (String.length word - 1 - 1) 1 word)
  then Some (false, l)
  else if negb (is_char (char_at word (String.length word - 1)) ":")
  then Some (false, l)
  else is_valid_symbol (remove_last_char word) l macroTable.

Local Close Scope string_scope.

(** A letter followed by letters and digits. *)
Definition identifier (name : string) : bool :=
  match name with
  | EmptyString => false
  | String c rest =>
      isalpha c && forallb isalnum (list_ascii_of_string rest)
  end.

(** The name begins like a register: ['r'] and a digit from 0 to 7. *)
Definition register_prefixed (name : string) : Prop :=
  exists (d : ascii) (rest : string),
    name = String "r" (String d rest) /\ (48 <= code d <= 55)%nat.

(** The sixteen opcode names. *)
Definition opcode_names : list string := map snd opcodeDictionary.

(* ------------------------------------------------------------------------- *)
(** ** Operands ([addressing_analysis.c], [command_instruction_parser.c],
       [utilities.c]) *)

Local Open Scope string_scope.

(** [is_direct_addressing]: a letter, letters and digits, then nothing but
    white space; and the word is not in the extended list of reserved
    words. *)
Definition is_direct_addressing (word : string) : bool :=
  if negb (isalpha (head_char word)) then false
  else
    let s := skip_while isalnum (tail_str word) in
    if negb (is_end (skip_while isspace s)) then false
    else
      let '(_, tempWord) := safe_word_extraction_until_comma word in
      negb (is_reserved_word_extended tempWord).

(** [is_fixed_index_addressing]. *)
Definition is_fixed_index_addressing (word : string) : bool :=
  if negb (isalpha (head_char word)) then false
  else
    let s := skip_while isalnum (tail_str word) in
    if negb (is_char (head_char s) "[") then false
    else
      let s := skip_while isalnum (tail_str s) in
      if negb (is_end s) && negb (is_char (head_char s) "]") then false
      else
        let s := if is_char (head_char s) "]" then tail_str s else s in
        is_end (skip_while isspace s).

(** [is_direct_register_addressing]. *)
Definition is_direct_register_addressing (word : string) : bool :=
  is_register (get_register word).

(** The addressing type [handle_operand] gives an operand; [None] when it
    returns FALSE, with an error in the descriptor. *)
Definition operand_addressing (operand : string) : option AddressingType :=
  if is_char (head_char operand) "#" then Some IMMEDIATE_ADDR
  else if is_direct_addressing operand then Some DIRECT_ADDR
  else if is_fixed_index_addressing operand then Some FIXED_IDX_ADDR
  else if is_direct_register_addressing operand
  then Some DIRECT_REGISTER_ADDR
  else None.

(** [extract_number]: an optional sign and digits; what follows the digits
    is not read. *)
Definition extract_number (word : string) : option Z :=
  let c0 := head_char word in
  let c1 := head_char (tail_str word) in
  if negb (isdigit c0 || is_char c0 "-" || is_char c0 "+") then None
  else if is_end word || (is_char c0 "0" && isdigit c1) then None
  else if is_char c0 "-" || is_char c0 "+" then
    if negb (isdigit c1) then None
    else
      let sign := if is_char c0 "+" then 1 else -1 in
      let '(number, _) := extract_digits (tail_str word) 0 in
      Some (to_int (sign * number))%Z
  else
    let '(number, _) := extract_digits word 0 in
    Some (to_int (1 * number))%Z.

Definition register_names : list string :=
  ["r0"; "r1"; "r2"; "r3"; "r4"; "r5"; "r6"; "r7"].

Local Close Scope string_scope.

(* ------------------------------------------------------------------------- *)
(** ** Notions used by the statements on numbers *)

Definition digit_value (c : ascii) : Z := Z.of_nat (code c) - 48.

(** The number a string of digits writes in base ten. *)
Definition decimal_value (ds : string) : Z :=
  fold_left (fun acc c => 10 * acc + digit_value c)
            (list_ascii_of_string ds) 0.

(** A non-empty string of at most nine digits: its value is below [10^9]
    and the arithmetic of [int] does not wrap on it. *)
Definition short_digits (ds : string) : Prop :=
  ds <> EmptyString
  /\ forallb isdigit (list_ascii_of_string ds) = true
  /\ (String.length ds <= 9)%nat.

(** A string of spaces and tabulations. *)
Definition blanks (s : string) : Prop :=
  forallb is_blank (list_ascii_of_string s) = true.

(* ------------------------------------------------------------------------- *)
(** ** Notions used by the statements on the [.data] directive *)

Local Open Scope string_scope.

(** One element of a [.data] list as it is written: blanks, an optional
    minus sign, digits, blanks. *)
Record DataElement : Type := {
  elt_before : string;
  elt_minus : bool;
  elt_digits : string;
  elt_after : string
}.

Definition elt_sign (e : DataElement) : string :=
  if elt_minus e then "-" else "".

Definition elt_value (e : DataElement) : Z :=
  if elt_minus e then (- decimal_value (elt_digits e))%Z
  else decimal_value (elt_digits e).

Definition elt_text (e : DataElement) : string :=
  elt_before e ++ elt_sign e ++ elt_digits e ++ elt_after e.

Definition well_formed_element (e : DataElement) : Prop :=
  blanks (elt_before e) /\ short_digits (elt_digits e)
  /\ blanks (elt_after e).

(** The elements separated by commas, followed by the end of the line
    [t]. *)
Fixpoint data_text (elems : list DataElement) (t : string) : string :=
  match elems with
  | [] => t
  | e :: rest =>
      elt_text e
      ++ match rest with
         | [] => t
         | _ :: _ => "," ++ data_text rest t
         end
  end.

(** The end of a line: the terminator, or a newline before it. *)
Definition line_end (t : string) : Prop := t = "" \/ t = newline.

(** The names of the constants are letters followed by letters and digits,
    as [is_valid_constant_definition] requires of them. *)
Definition constant_names_valid (tu : TranslationUnit) : Prop :=
  Forall (fun c => identifier (constName c) = true) (constantList tu).

(** The element as [MOVE_TO_NON_WHITE] leaves it at the head of the
    line. *)
Definition no_blanks_before (e : DataElement) : DataElement :=
  {| elt_before := EmptyString; elt_minus := elt_minus e;
     elt_digits := elt_digits e; elt_after := elt_after e |}.

(** The descriptor [data_directive_handling] makes of a line without
    error. *)
Definition data_descriptor (l : AbstractLineDescriptor) (data : list Z)
  : AbstractLineDescriptor :=
  {| lineError := lineError l; lineLabel := lineLabel l;
     lineType := DIRECTIVE_INSTRUCTION; dirType := DATA_INST;
     dataInst := data; stringInst := stringInst l;
     entryName := entryName l; commandInst := commandInst l;
     constDefInst := constDefInst l |}.

Local Close Scope string_scope.

(* ------------------------------------------------------------------------- *)
(** ** Constant definitions ([first_pass_utility.c], [utilities.c]) *)

Local Open Scope string_scope.

(** [MOVE_TO_NEXT_WORD]: past the white space, then past the word. *)
Definition MOVE_TO_NEXT_WORD (ptr : string) : string :=
  skip_while (fun c => negb (isspace c)) (skip_while isspace ptr).

(** [MOVE_TO_NEXT_NON_ALNUM]. *)
Definition MOVE_TO_NEXT_NON_ALNUM (ptr : string) : string :=
  skip_while isalnum ptr.

(** [extract_first_word]: whether a word was found, and the word. *)
Definition extract_first_word (line : string) : bool * string :=
  let word :=
    take_while (fun c => negb (isspace c)) (skip_while isspace line) in
  ((0 <? String.length word)%nat, word).

(** [extract_first_alphanumeric_word]. *)
Definition extract_first_alphanumeric_word (line : string) : bool * string :=
  let word := take_while isalnum (skip_while isspace line) in
  ((0 <? String.length word)%nat, word).

(** [is_define]. *)
Definition is_define (word : string) : bool :=
  if is_end word then false else String.eqb word ".define".

(** [is_valid_constant_definition]: the result and the descriptor.  The
    three tests on the characters of the name return FALSE without an
    error; [is_valid_symbol] stores one when it refuses the name. *)
Definition is_valid_constant_definition (constantName : string)
  (l : AbstractLineDescriptor) (macroTable : MacroTable)
  : option (bool * AbstractLineDescriptor) :=
  if is_end constantName then Some (false, l)
  else if negb (isalpha (char_at constantName 0)) then Some (false, l)
  else if negb (is_label_loop (String.length constantName - 1) 1
                              constantName)
  then Some (false, l)
  else is_valid_symbol constantName l macroTable.

(** The digits [strtol] reads, in unbounded arithmetic. *)
Fixpoint strtol_digits (s : string) (acc : Z) : Z :=
  match s with
  | EmptyString => acc
  | String c r =>
      if isdigit c then strtol_digits r (10 * acc + (Z.of_nat (code c) - 48))
      else acc
  end.

Definition LONG_MAX : Z := 2 ^ 63 - 1.
Definition LONG_MIN : Z := - 2 ^ 63.

(** [strtol (str, &endPtr, 10)] with a [long] of 64 bits: white space, an
    optional sign, digits; a value out of the range of [long] is replaced
    by the nearest bound. *)
Definition strtol (str : string) : Z :=
  let s := skip_while isspace str in
  let '(negative, s) :=
    if is_char (head_char s) "-" then (true, tail_str s)
    else if is_char (head_char s) "+" then (false, tail_str s)
    else (false, s) in
  let v := strtol_digits s 0 in
  let v := if negative : bool then - v else v in
  Z.max LONG_MIN (Z.min LONG_MAX v).

Definition CONST_DEF_ERR : string := "Invalid Constant Definition Format::".
Definition NON_SPEC_PARAM_ERR : string :=
  "Essential parameters are not specified".
Definition NON_ASSIGMENT_OP_ERR : string := "Missing assignment operator".
Definition CONST_VAL_ERR : string := "Invalid constant value".
Definition CONST_PARAM_ERR : string :=
  "Missing constant definition parameters".
Definition STR_DIR_REDUNDANT_CHAR_ERR : string :=
  "Redundant characters after a string directive::".
Definition REDUNDANT_CHAR_ERR : string :=
  "Redundant characters or values after a constant definition".

(** The descriptor of a constant definition that was accepted. *)
Definition constant_descriptor (l : AbstractLineDescriptor)
  (name : string) (value : Z) : AbstractLineDescriptor :=
  {| lineError := lineError l; lineLabel := lineLabel l;
     lineType := CONSTANT_DEF_INSTRUCTION; dirType := dirType l;
     dataInst := dataInst l; stringInst := stringInst l;
     entryName := entryName l; commandInst := commandInst l;
     constDefInst := {| constName := name; constValue := value |} |}.

(** [constant_definition_handling] on a line whose first word is
    [.define]: the descriptor and the translation unit it leaves; there is
    no result when the test of the name against the macro table has
    none. *)
Definition constant_definition_handling (line : string)
  (l : AbstractLineDescriptor) (translationUnit : TranslationUnit)
  (macroTable : MacroTable)
  : option (AbstractLineDescriptor * TranslationUnit) :=
  let line := MOVE_TO_NON_WHITE (MOVE_TO_NEXT_WORD line) in
  let '(wordExist, constantName) := extract_first_alphanumeric_word line in
  if negb wordExist
  then Some (insert_error l (CONST_DEF_ERR ++ NON_SPEC_PARAM_ERR),
             translationUnit)
  else
    match is_valid_constant_definition constantName l macroTable with
    | None => None
    | Some (valid, l) =>
        if negb valid then Some (l, translationUnit)
        else
          let line := MOVE_TO_NON_WHITE (MOVE_TO_NEXT_NON_ALNUM line) in
          if negb (is_char (head_char line) "=")
          then Some (insert_error l (CONST_DEF_ERR ++ NON_ASSIGMENT_OP_ERR),
                     translationUnit)
          else
            let line := tail_str line in
            let '(wordExist, constantValue) := extract_first_word line in
            if negb wordExist
            then Some (insert_error l (CONST_DEF_ERR ++ CONST_PARAM_ERR),
                       translationUnit)
            else if negb (is_decimal_integer constantValue)
            then Some (insert_error l (CONST_DEF_ERR ++ CONST_VAL_ERR),
                       translationUnit)
            else
              let line := MOVE_TO_NON_WHITE (MOVE_TO_NEXT_WORD line) in
              if negb (is_end line)
                 && negb (Ascii.eqb (head_char line) (ascii_of_nat 10))
              then Some (insert_error l
                           (STR_DIR_REDUNDANT_CHAR_ERR ++ REDUNDANT_CHAR_ERR),
                         translationUnit)
              else
                let l :=
                  constant_descriptor l constantName
                    (to_int (strtol constantValue)) in
                Some (l, insert_constant_to_list l translationUnit)
    end.

(** The text of a constant definition: the word [.define], the name, the
    equals sign and a decimal number, with the blanks between them. *)
Definition define_text (sp1 name sp2 sp3 : string) (minus : bool)
  (ds sp4 t : string) : string :=
  ".define" ++ sp1 ++ name ++ sp2 ++ "=" ++ sp3
  ++ ((if minus then "-" else "") ++ ds) ++ sp4 ++ t.

(** The names of the first [count] cells, when the block holds that many
    cells and none of them is without a name. *)
Fixpoint cell_names (cells : list Macro) (count : nat) {struct count}
  : option (list string) :=
  match count with
  | O => Some []
  | S count' =>
      match cells with
      | [] => None
      | cell :: rest =>
          match macroName cell, cell_names rest count' with
          | Some n, Some ns => Some (n :: ns)
          | _, _ => None
          end
      end
  end.

(** The names of the macros of a table whose cells the count does not
    exceed. *)
Definition macro_names (macroTable : MacroTable) : option (list string) :=
  cell_names (macroNode macroTable) (macroCount macroTable).

(** A table that counts two macros while [macroNode] designates one cell,
    that of the first macro. *)
Definition two_macros_counted : MacroTable :=
  {| macroNode := [ {| macroName := Some "m1"; content := None |} ];
     macroCount := 2;
     macroTableCapacity := INITIAL_CAPACITY |}.

(** A name [is_valid_symbol] accepts. *)
Definition free_name (name : string) (macroTable : MacroTable) : Prop :=
  ~ register_prefixed name
  /\ ~ In name opcode_names
  /\ ~ In name ReservedWords
  /\ is_macro macroTable name = Some false.

Local Close Scope string_scope.

(* ------------------------------------------------------------------------- *)
(** ** The [.entry] and [.extern] directives ([first_pass_utility.c]) *)

Local Open Scope string_scope.

(** [MOVE_INDEX_TO_NON_WHITE] and [MOVE_INDEX_AFTER_WORD]: the text at the
    index they leave. *)
Definition MOVE_INDEX_TO_NON_WHITE (str : string) : string :=
  skip_while is_blank str.

Definition MOVE_INDEX_AFTER_WORD (str : string) : string :=
  skip_while (fun c => negb (isspace c)) (skip_while isspace str).

Definition DIRECTIVE_INST_ERR : string :=
  "Invalid Directive Instruction Format::".
Definition INVALID_DIR_ERR : string := "Invalid directive syntax".
Definition ENT_LABEL_EXT_FAILURE : string := "Entry label extraction failed".
Definition EXT_LABEL_FAILURE : string := "Extern label extraction failed".
Definition ENT_INST_REDUNDANT_CHAR_ERR : string :=
  "Redundant characters after an entry directive".

(** [is_valid_entry_line]: the result and the descriptor. *)
Definition is_valid_entry_line (line : string) (l : AbstractLineDescriptor)
  : bool * AbstractLineDescriptor :=
  let line := MOVE_TO_NON_WHITE line in
  let '(wordExist, labelSymbol) := extract_first_word line in
  if negb wordExist then (false, l)
  else if is_end labelSymbol then (false, l)
  else if negb (isalpha (char_at labelSymbol 0)) then (false, l)
  else if negb (is_label_loop (String.length labelSymbol - 1) 1 labelSymbol)
  then (false, l)
  else
    let rest := MOVE_INDEX_TO_NON_WHITE (MOVE_INDEX_AFTER_WORD line) in
    if negb (is_end rest)
       && negb (Ascii.eqb (head_char rest) (ascii_of_nat 10))
    then (false,
          insert_error l (DIRECTIVE_INST_ERR ++ ENT_INST_REDUNDANT_CHAR_ERR))
    else (true, l).

(** [is_valid_extern_line]. *)
Definition is_valid_extern_line (line : string) (l : AbstractLineDescriptor)
  : bool * AbstractLineDescriptor :=
  let rest :=
    MOVE_INDEX_TO_NON_WHITE
      (MOVE_INDEX_AFTER_WORD (MOVE_INDEX_TO_NON_WHITE line)) in
  if negb (is_end rest)
     && negb (Ascii.eqb (head_char rest) (ascii_of_nat 10))
  then (false,
        insert_error l (DIRECTIVE_INST_ERR ++ ENT_INST_REDUNDANT_CHAR_ERR))
  else (true, l).

(** The label of the line is removed when the descriptor holds an error:
    the test both handlers make before they extract the name. *)
Definition remove_label_on_error (l : AbstractLineDescriptor)
  : AbstractLineDescriptor :=
  match lineError l with
  | None => l
  | Some _ =>
      {| lineError := lineError l; lineLabel := None;
         lineType := lineType l; dirType := dirType l;
         dataInst := dataInst l; stringInst := stringInst l;
         entryName := entryName l; commandInst := commandInst l;
         constDefInst := constDefInst l |}
  end.

(** The descriptor of an [.entry] or [.extern] line that was accepted. *)
Definition name_descriptor (l : AbstractLineDescriptor) (d : DirectiveType)
  (name : string) : AbstractLineDescriptor :=
  {| lineError := lineError l; lineLabel := lineLabel l;
     lineType := DIRECTIVE_INSTRUCTION; dirType := d;
     dataInst := dataInst l; stringInst := stringInst l;
     entryName := name; commandInst := commandInst l;
     constDefInst := constDefInst l |}.

(** [entry_directive_handling] on the text that follows the word
    [.entry]. *)
Definition entry_directive_handling (line : string)
  (l : AbstractLineDescriptor) : AbstractLineDescriptor :=
  let '(valid, l) := is_valid_entry_line line l in
  if negb valid then insert_error l (DIRECTIVE_INST_ERR ++ INVALID_DIR_ERR)
  else
    let l := remove_label_on_error l in
    let '(wordExist, labelName) := extract_first_word line in
    if negb wordExist then insert_error l ENT_LABEL_EXT_FAILURE
    else name_descriptor l ENTRY_INST labelName.

(** [extern_directive_handling] on the text that follows the word
    [.extern]. *)
Definition extern_directive_handling (line : string)
  (l : AbstractLineDescriptor) : AbstractLineDescriptor :=
  let '(valid, l) := is_valid_extern_line line l in
  if negb valid then insert_error l (DIRECTIVE_INST_ERR ++ SYNTAX_ERR)
  else
    let l := remove_label_on_error l in
    let '(wordExist, labelName) := extract_first_word line in
    if negb wordExist then insert_error l EXT_LABEL_FAILURE
    else name_descriptor l EXTERN_INST labelName.

(** A word: characters that are not white space, one at least. *)
Definition plain_word (w : string) : Prop :=
  w <> EmptyString
  /\ forallb (fun c => negb (isspace c)) (list_ascii_of_string w) = true.

Local Close Scope string_scope.

(* ------------------------------------------------------------------------- *)
(** ** The parser of instruction lines ([command_instruction_parser.c],
       [addressing_analysis.c], [utilities.c]) *)

Local Open Scope string_scope.

(** A character that [string_complement_span] does not find in
    [", \t\n"]. *)
Definition token_char (c : ascii) : bool :=
  negb (is_char c "," || is_char c " "
        || (code c =? 9)%nat || (code c =? 10)%nat).

(** [extract_token_until_comma]: the token and the pointer as the function
    leaves it, after the token and the white space that follows it. *)
Definition extract_token_until_comma (str : string) : string * string :=
  let s := skip_while isspace str in
  let token := take_while token_char s in
  (token, skip_while isspace (skip_while token_char s)).

(** [check_symbol_syntax]. *)
Definition check_symbol_syntax (symbol : string) : bool :=
  if (MAX_SYMBOL_LENGTH <? String.length symbol)%nat then false
  else if negb (isalpha (head_char symbol)) then false
  else is_end (skip_while isspace (skip_while isalnum (tail_str symbol))).

(** [extract_label]: the copy of the operand, [None] on FALSE. *)
Definition extract_label (operand : string) : option string :=
  if negb (isalpha (head_char operand)) then None
  else if negb (is_end (skip_while isspace
                          (skip_while isalnum (tail_str operand))))
  then None
  else Some operand.

(** [strchr (str, c)] for a character [c] that is not the terminator: the
    text before the first occurrence, [None] when there is none. *)
Fixpoint strchr_prefix (str : string) (c : ascii) : option string :=
  match str with
  | EmptyString => None
  | String x r =>
      if Ascii.eqb x c then Some EmptyString
      else match strchr_prefix r c with
           | Some p => Some (String x p)
           | None => None
           end
  end.

(** [fixed_index_addressing_label_Extraction]: the result, and the string
    [*label] holds after the call, [None] when the function returned before
    it wrote one. *)
Definition fixed_index_addressing_label_Extraction (operand : string)
  : bool * option string :=
  let pos := strchr_prefix operand "[" in
  if negb (isalpha (head_char operand)) then (false, None)
  else
    let pos :=
      match pos with
      | Some p => Some p
      | None => strchr_prefix operand "]"
      end in
    match pos with
    | None => (false, None)
    | Some label => (check_symbol_syntax label, Some label)
    end.

(** [MOVE_POINTER_AFTER_BRACKET]. *)
Definition MOVE_POINTER_AFTER_BRACKET (ptr : string) : string :=
  let s := skip_while (fun c => negb (is_char c "[")) ptr in
  if is_char (head_char s) "[" then tail_str s else s.

(** The members of the union [Operand]. *)
Inductive OperandMember : Type :=
  | ImmediateMember
  | LabelMember
  | FixedIndexMember
  | RegisterMember.

Section OperandUnion.

(** The members of the union [Operand] share their bytes: a write to one of
    them changes what the others read.  What they read then is decided by
    the layout of the union, which is left open: [overlaid m o] is the
    operand as its members read once the member [m] has received the value
    it has in [o], the other members of [o] being those of before the
    write. *)
Variable overlaid : OperandMember -> Operand -> Operand.

(** The writes to a member: the member written holds the value given, the
    others read what the layout makes of it. *)
Definition operand_with_immediate (o : Operand) (i : ImmediateAddressing)
  : Operand :=
  let after :=
    overlaid ImmediateMember
      {| immediateValue := i; addressingLabel := addressingLabel o;
         fixedIndexOperand := fixedIndexOperand o; reg := reg o |} in
  {| immediateValue := i; addressingLabel := addressingLabel after;
     fixedIndexOperand := fixedIndexOperand after; reg := reg after |}.

Definition operand_with_label (o : Operand) (name : string) : Operand :=
  let after :=
    overlaid LabelMember
      {| immediateValue := immediateValue o; addressingLabel := name;
         fixedIndexOperand := fixedIndexOperand o; reg := reg o |} in
  {| immediateValue := immediateValue after; addressingLabel := name;
     fixedIndexOperand := fixedIndexOperand after; reg := reg after |}.

Definition operand_with_fixed (o : Operand) (f : FixedIndexAddressing)
  : Operand :=
  let after :=
    overlaid FixedIndexMember
      {| immediateValue := immediateValue o;
         addressingLabel := addressingLabel o;
         fixedIndexOperand := f; reg := reg o |} in
  {| immediateValue := immediateValue after;
     addressingLabel := addressingLabel after;
     fixedIndexOperand := f; reg := reg after |}.

Definition operand_with_reg (o : Operand) (r : Register) : Operand :=
  let after :=
    overlaid RegisterMember
      {| immediateValue := immediateValue o;
         addressingLabel := addressingLabel o;
         fixedIndexOperand := fixedIndexOperand o; reg := r |} in
  {| immediateValue := immediateValue after;
     addressingLabel := addressingLabel after;
     fixedIndexOperand := fixedIndexOperand after; reg := r |}.

Definition set_operand (c : CommandInstruction) (t : OperandType)
  (o : Operand) : CommandInstruction :=
  match t with
  | SOURCE_OPERAND =>
      {| opcodeCommand := opcodeCommand c; numOfOperands := numOfOperands c;
         sourceOperand := o; targetOperand := targetOperand c;
         sourceOperandAddressingType := sourceOperandAddressingType c;
         targetOperandAddressingType := targetOperandAddressingType c |}
  | TARGET_OPERAND =>
      {| opcodeCommand := opcodeCommand c; numOfOperands := numOfOperands c;
         sourceOperand := sourceOperand c; targetOperand := o;
         sourceOperandAddressingType := sourceOperandAddressingType c;
         targetOperandAddressingType := targetOperandAddressingType c |}
  end.

Definition set_addressing (c : CommandInstruction) (t : OperandType)
  (a : AddressingType) : CommandInstruction :=
  match t with
  | SOURCE_OPERAND =>
      {| opcodeCommand := opcodeCommand c; numOfOperands := numOfOperands c;
         sourceOperand := sourceOperand c; targetOperand := targetOperand c;
         sourceOperandAddressingType := a;
         targetOperandAddressingType := targetOperandAddressingType c |}
  | TARGET_OPERAND =>
      {| opcodeCommand := opcodeCommand c; numOfOperands := numOfOperands c;
         sourceOperand := sourceOperand c; targetOperand := targetOperand c;
         sourceOperandAddressingType := sourceOperandAddressingType c;
         targetOperandAddressingType := a |}
  end.

Definition set_commandInst (l : AbstractLineDescriptor)
  (c : CommandInstruction) : AbstractLineDescriptor :=
  {| lineError := lineError l; lineLabel := lineLabel l;
     lineType := lineType l; dirType := dirType l;
     dataInst := dataInst l; stringInst := stringInst l;
     entryName := entryName l; commandInst := c;
     constDefInst := constDefInst l |}.

(** The update of one operand of the command of a line. *)
Definition update_operand (l : AbstractLineDescriptor) (t : OperandType)
  (f : Operand -> Operand) : AbstractLineDescriptor :=
  set_commandInst l
    (set_operand (commandInst l) t (f (operand_of (commandInst l) t))).

Definition COMMAND_INST_ERR : string :=
  "Invalid Command Instruction Format::".
Definition IMMEDIATE_ADDR_OP_ERR : string :=
  "Immediate addressing operand is not valid".
Definition DIRECT_ADDR_OP_ERR : string :=
  "Direct addressing operand is not valid".
Definition DIRECT_REG_OP_ERR : string :=
  "Direct register addressing operand is not valid".
Definition FIXED_IDX_ADDR_OP_ERR : string :=
  "Fixed index addressing operand is not valid".
Definition MISSING_OPERAND_ERR : string :=
  "Inadequate instruction format. Operand are required for this instruction".
Definition REDUNDANT_VAL_CMD_ERR : string :=
  "Redundant values after a command instruction operand".
Definition OPCODE_FORMAT_ERR : string :=
  "Invalid Opcode Format::The specified operation code is not recognized or supported".
Definition OPERAND_FORMAT_ERR : string :=
  "Operand is not recognized or supported".
Definition MISSING_COMMA_ERR : string := "Missing comma".

(** [handle_immediate_value] and [handle_immediate_constant]. *)
Definition handle_immediate_value (t : OperandType) (integerValue : Z)
  (l : AbstractLineDescriptor) : AbstractLineDescriptor :=
  update_operand l t
    (fun o => operand_with_immediate o
                {| integerVal := integerValue; constantVal := None |}).

Definition handle_immediate_constant (t : OperandType)
  (constantSymbol : string) (l : AbstractLineDescriptor)
  : AbstractLineDescriptor :=
  update_operand l t
    (fun o => operand_with_immediate o
                {| integerVal := integerVal (immediateValue o);
                   constantVal := Some constantSymbol |}).

(** [handle_immediate_addressing]. *)
Definition handle_immediate_addressing (operand : string) (t : OperandType)
  (l : AbstractLineDescriptor) : AbstractLineDescriptor :=
  let operand := tail_str operand in
  let isValue := extract_number operand in
  let isConstant := extract_label operand in
  match isValue, isConstant with
  | Some integerValue, _ => handle_immediate_value t integerValue l
  | None, Some constantSymbol =>
      handle_immediate_constant t constantSymbol l
  | None, None => insert_error l IMMEDIATE_ADDR_OP_ERR
  end.

(** [handle_direct_addressing]. *)
Definition handle_direct_addressing (operand : string) (t : OperandType)
  (l : AbstractLineDescriptor) : AbstractLineDescriptor :=
  match extract_label operand with
  | None => insert_error l DIRECT_ADDR_OP_ERR
  | Some label => update_operand l t (fun o => operand_with_label o label)
  end.

(** [insert_fixed_index_label]. *)
Definition insert_fixed_index_label (t : OperandType) (label : string)
  (l : AbstractLineDescriptor) : AbstractLineDescriptor :=
  update_operand l t
    (fun o => operand_with_fixed o
                {| labelName := label;
                   numericalAddressingIndex :=
                     numericalAddressingIndex (fixedIndexOperand o);
                   constantAddressingIndex :=
                     constantAddressingIndex (fixedIndexOperand o) |}).

(** [handle_fixed_index_indexing]: whether there was no error, and the
    descriptor. *)
Definition handle_fixed_index_indexing (t : OperandType)
  (isInteger : option Z) (isConstant : bool)
  (constantSymbol : option string) (l : AbstractLineDescriptor)
  : bool * AbstractLineDescriptor :=
  match isInteger with
  | Some integerValue =>
      (true,
       update_operand l t
         (fun o => operand_with_fixed o
                     {| labelName := labelName (fixedIndexOperand o);
                        numericalAddressingIndex := integerValue;
                        constantAddressingIndex := None |}))
  | None =>
      if isConstant
      then (true,
            update_operand l t
              (fun o => operand_with_fixed o
                          {| labelName := labelName (fixedIndexOperand o);
                             numericalAddressingIndex :=
                               numericalAddressingIndex
                                 (fixedIndexOperand o);
                             constantAddressingIndex := constantSymbol |}))
      else (false, l)
  end.

(** [handle_fixed_index_addressing].  The label is inserted whether its
    extraction succeeded or not; [None] is the case where the extraction
    returned before it wrote the pointer the insertion reads. *)
Definition handle_fixed_index_addressing (operand : string)
  (t : OperandType) (l : AbstractLineDescriptor)
  : option AbstractLineDescriptor :=
  let '(extracted, label) :=
    fixed_index_addressing_label_Extraction operand in
  let l :=
    if negb extracted
    then insert_error l (COMMAND_INST_ERR ++ FIXED_IDX_ADDR_OP_ERR)
    else l in
  let operand := MOVE_POINTER_AFTER_BRACKET operand in
  let isInteger := extract_number operand in
  let '(isConstant, constantSymbol) :=
    fixed_index_addressing_label_Extraction operand in
  match label with
  | None => None
  | Some label =>
      let l := insert_fixed_index_label t label l in
      let '(noErrors, l) :=
        handle_fixed_index_indexing t isInteger isConstant constantSymbol l in
      Some (if negb noErrors
            then insert_error l (COMMAND_INST_ERR ++ FIXED_IDX_ADDR_OP_ERR)
            else l)
  end.

(** [handle_direct_register_addressing]. *)
Definition handle_direct_register_addressing (operand : string)
  (t : OperandType) (l : AbstractLineDescriptor) : AbstractLineDescriptor :=
  let r := get_register operand in
  if negb (is_register r)
  then insert_error l (COMMAND_INST_ERR ++ DIRECT_REG_OP_ERR)
  else update_operand l t (fun o => operand_with_reg o r).

(** The addressing type of an operand written into the descriptor. *)
Definition set_operand_addressing (l : AbstractLineDescriptor)
  (t : OperandType) (a : AddressingType) : AbstractLineDescriptor :=
  set_commandInst l (set_addressing (commandInst l) t a).

(** [handle_operand]: the result and the descriptor. *)
Definition handle_operand (operand : string) (t : OperandType)
  (l : AbstractLineDescriptor) : option (bool * AbstractLineDescriptor) :=
  if is_char (head_char operand) "#"
  then Some (true,
             handle_immediate_addressing operand t
               (set_operand_addressing l t IMMEDIATE_ADDR))
  else if is_direct_addressing operand
  then Some (true,
             handle_direct_addressing operand t
               (set_operand_addressing l t DIRECT_ADDR))
  else if is_fixed_index_addressing operand
  then match handle_fixed_index_addressing operand t
               (set_operand_addressing l t FIXED_IDX_ADDR) with
       | Some l => Some (true, l)
       | None => None
       end
  else if is_direct_register_addressing operand
  then Some (true,
             handle_direct_register_addressing operand t
               (set_operand_addressing l t DIRECT_REGISTER_ADDR))
  else Some (false, insert_error l (COMMAND_INST_ERR ++ OPERAND_FORMAT_ERR)).

(** The descriptor of a command: the line type, the opcode and the number
    of operands the three handlers write at their end. *)
Definition command_descriptor (l : AbstractLineDescriptor) (op : Opcode)
  (n : OpcodeCategory) : AbstractLineDescriptor :=
  {| lineError := lineError l; lineLabel := lineLabel l;
     lineType := COMMAND_INSTRUCTION; dirType := dirType l;
     dataInst := dataInst l; stringInst := stringInst l;
     entryName := entryName l;
     commandInst :=
       {| opcodeCommand := op; numOfOperands := n;
          sourceOperand := sourceOperand (commandInst l);
          targetOperand := targetOperand (commandInst l);
          sourceOperandAddressingType :=
            sourceOperandAddressingType (commandInst l);
          targetOperandAddressingType :=
            targetOperandAddressingType (commandInst l) |};
     constDefInst := constDefInst l |}.

Definition is_rts_or_hlt (op : Opcode) : bool :=
  match op with RTS_OP | HLT_OP => true | _ => false end.

(** [handle_two_operands_opcode]. *)
Definition handle_two_operands_opcode (line : string)
  (l : AbstractLineDescriptor) : option AbstractLineDescriptor :=
  let line := MOVE_TO_NON_WHITE line in
  let '(_, opcodeName) := extract_first_word line in
  match which_opcode opcodeName with
  | None => Some (insert_error l (COMMAND_INST_ERR ++ OPCODE_FORMAT_ERR))
  | Some opcodeType =>
      let line := MOVE_TO_NEXT_WORD line in
      let '(firstOperand, line) := extract_token_until_comma line in
      if is_end firstOperand
      then
        if negb (is_rts_or_hlt opcodeType)
        then Some (insert_error l (COMMAND_INST_ERR ++ MISSING_OPERAND_ERR))
        else
          let line := MOVE_TO_NEXT_WORD line in
          let '(redundantChar, _) := extract_token_until_comma line in
          if negb (is_end redundantChar)
          then Some (insert_error l
                       (COMMAND_INST_ERR ++ REDUNDANT_VAL_CMD_ERR))
          else Some (command_descriptor l opcodeType NO_OPERANDS)
      else
        match handle_operand firstOperand SOURCE_OPERAND l with
        | None => None
        | Some (false, l) => Some l
        | Some (true, l) =>
            if negb (is_char (head_char line) ",")
            then Some (insert_error l
                         (COMMAND_INST_ERR ++ MISSING_COMMA_ERR))
            else
              let line := MOVE_TO_NON_WHITE (tail_str line) in
              let '(secondOperand, _) := extract_token_until_comma line in
              match handle_operand secondOperand TARGET_OPERAND l with
              | None => None
              | Some (false, l) => Some l
              | Some (true, l) =>
                  Some (command_descriptor l opcodeType TWO_OPERANDS)
              end
        end
  end.

(** [handle_one_operands_opcode]. *)
Definition handle_one_operands_opcode (line : string)
  (l : AbstractLineDescriptor) : option AbstractLineDescriptor :=
  let line := MOVE_TO_NON_WHITE line in
  let '(_, opcodeName) := extract_first_word line in
  match which_opcode opcodeName with
  | None => Some (insert_error l (COMMAND_INST_ERR ++ OPCODE_FORMAT_ERR))
  | Some opcodeType =>
      let line := MOVE_TO_NEXT_WORD line in
      let '(operand, line) := extract_token_until_comma line in
      if is_end operand
      then
        if negb (is_rts_or_hlt opcodeType)
        then Some (insert_error l (COMMAND_INST_ERR ++ MISSING_OPERAND_ERR))
        else
          let line := MOVE_TO_NEXT_WORD line in
          let '(redundantChar, _) := extract_token_until_comma line in
          if negb (is_end redundantChar)
          then Some (insert_error l
                       (COMMAND_INST_ERR ++ REDUNDANT_VAL_CMD_ERR))
          else Some (command_descriptor l opcodeType NO_OPERANDS)
      else
        match handle_operand operand TARGET_OPERAND l with
        | None => None
        | Some (false, l) =>
            Some (command_descriptor l opcodeType ONE_OPERAND)
        | Some (true, l) =>
            let line := MOVE_TO_NON_WHITE line in
            if negb (is_end line)
            then Some (insert_error l
                         (COMMAND_INST_ERR ++ REDUNDANT_VAL_CMD_ERR))
            else Some (command_descriptor l opcodeType ONE_OPERAND)
        end
  end.

End OperandUnion.

(** [handle_no_operands_opcode]. *)
Definition handle_no_operands_opcode (line : string)
  (l : AbstractLineDescriptor) : AbstractLineDescriptor :=
  let line := MOVE_TO_NON_WHITE line in
  let '(_, opcodeName) := extract_first_word line in
  match which_opcode opcodeName with
  | None => insert_error l (COMMAND_INST_ERR ++ OPCODE_FORMAT_ERR)
  | Some opcodeType =>
      let line := MOVE_TO_NEXT_WORD line in
      let '(redundantChar, _) := extract_token_until_comma line in
      if negb (is_end redundantChar)
      then insert_error l (COMMAND_INST_ERR ++ REDUNDANT_VAL_CMD_ERR)
      else command_descriptor l opcodeType NO_OPERANDS
  end.

Local Close Scope string_scope.

(* ------------------------------------------------------------------------- *)
(** ** Notions used by the statements on the parser of instruction lines *)

Local Open Scope string_scope.

(** The operands as they are written. *)
Inductive OperandSyntax : Type :=
  | ImmediateNumber (minus : bool) (ds junk : string)
  | ImmediateConstant (name : string)
  | DirectLabel (name : string)
  | IndexNumber (base ds : string)
  | IndexConstant (base name : string)
  | RegisterName (r : Register).

Definition register_text (r : Register) : string :=
  match r with
  | R0 => "r0" | R1 => "r1" | R2 => "r2" | R3 => "r3"
  | R4 => "r4" | R5 => "r5" | R6 => "r6" | R7 => "r7"
  | NONE_REG => ""
  end.

Definition operand_text (o : OperandSyntax) : string :=
  match o with
  | ImmediateNumber minus ds junk =>
      "#" ++ (if minus then "-" else "") ++ ds ++ junk
  | ImmediateConstant name => "#" ++ name
  | DirectLabel name => name
  | IndexNumber base ds => base ++ "[" ++ ds ++ "]"
  | IndexConstant base name => base ++ "[" ++ name ++ "]"
  | RegisterName r => register_text r
  end.

(** At most nine digits, without a zero before other digits. *)
Definition plain_number (ds : string) : Prop :=
  short_digits ds
  /\ is_char (head_char ds) "0" && (2 <=? String.length ds)%nat = false.

(** A name of at most 31 characters. *)
Definition symbol_name (name : string) : Prop :=
  identifier name = true /\ (String.length name <= MAX_SYMBOL_LENGTH)%nat.

Definition well_formed_operand (o : OperandSyntax) : Prop :=
  match o with
  | ImmediateNumber _ ds junk =>
      plain_number ds /\ isdigit (head_char junk) = false
      /\ forallb token_char (list_ascii_of_string junk) = true
  | ImmediateConstant name => identifier name = true
  | DirectLabel name =>
      identifier name = true /\ ~ In name ReservedWordsExtended
  | IndexNumber base ds => symbol_name base /\ plain_number ds
  | IndexConstant base name => symbol_name base /\ symbol_name name
  | RegisterName r => r <> NONE_REG
  end.

Definition operand_mode (o : OperandSyntax) : AddressingType :=
  match o with
  | ImmediateNumber _ _ _ | ImmediateConstant _ => IMMEDIATE_ADDR
  | DirectLabel _ => DIRECT_ADDR
  | IndexNumber _ _ | IndexConstant _ _ => FIXED_IDX_ADDR
  | RegisterName _ => DIRECT_REGISTER_ADDR
  end.

(** The member of the union that goes with the written operand, and the
    value the parser is to leave in it, [old] being the operand before the
    operand was read: an immediate constant leaves the integer of the
    member as it was, and an index constant leaves the numerical index as it
    was. *)
Definition stored_member (o : OperandSyntax) (old new : Operand) : Prop :=
  match o with
  | ImmediateNumber minus ds _ =>
      immediateValue new
      = {| integerVal :=
             if minus then - decimal_value ds else decimal_value ds;
           constantVal := None |}
  | ImmediateConstant name =>
      immediateValue new
      = {| integerVal := integerVal (immediateValue old);
           constantVal := Some name |}
  | DirectLabel name => addressingLabel new = name
  | IndexNumber base ds =>
      fixedIndexOperand new
      = {| labelName := base;
           numericalAddressingIndex := decimal_value ds;
           constantAddressingIndex := None |}
  | IndexConstant base name =>
      fixedIndexOperand new
      = {| labelName := base;
           numericalAddressingIndex :=
             numericalAddressingIndex (fixedIndexOperand old);
           constantAddressingIndex := Some name |}
  | RegisterName r => reg new = r
  end.

(** The addressing type of an operand of a command. *)
Definition addressing_of (c : CommandInstruction) (t : OperandType)
  : AddressingType :=
  match t with
  | SOURCE_OPERAND => sourceOperandAddressingType c
  | TARGET_OPERAND => targetOperandAddressingType c
  end.

(** The operand of the descriptor once the written operand has been
    stored in it, by the writes the parser makes: one write to the member of
    the addressing type, two for a fixed-index operand, whose label is
    written before its index.  The other members of the union read what the
    layout [overlaid] makes of these writes. *)
Definition parsed_operand (overlaid : OperandMember -> Operand -> Operand)
  (o : OperandSyntax) (old : Operand) : Operand :=
  match o with
  | ImmediateNumber minus ds _ =>
      operand_with_immediate overlaid old
        {| integerVal :=
             if minus then - decimal_value ds else decimal_value ds;
           constantVal := None |}
  | ImmediateConstant name =>
      operand_with_immediate overlaid old
        {| integerVal := integerVal (immediateValue old);
           constantVal := Some name |}
  | DirectLabel name => operand_with_label overlaid old name
  | IndexNumber base ds =>
      let labelled :=
        operand_with_fixed overlaid old
          {| labelName := base;
             numericalAddressingIndex :=
               numericalAddressingIndex (fixedIndexOperand old);
             constantAddressingIndex :=
               constantAddressingIndex (fixedIndexOperand old) |} in
      operand_with_fixed overlaid labelled
        {| labelName := base;
           numericalAddressingIndex := decimal_value ds;
           constantAddressingIndex := None |}
  | IndexConstant base name =>
      let labelled :=
        operand_with_fixed overlaid old
          {| labelName := base;
             numericalAddressingIndex :=
               numericalAddressingIndex (fixedIndexOperand old);
             constantAddressingIndex :=
               constantAddressingIndex (fixedIndexOperand old) |} in
      operand_with_fixed overlaid labelled
        {| labelName := base;
           numericalAddressingIndex :=
             numericalAddressingIndex (fixedIndexOperand old);
           constantAddressingIndex := Some name |}
  | RegisterName r => operand_with_reg overlaid old r
  end.

Definition store_operand (overlaid : OperandMember -> Operand -> Operand)
  (t : OperandType) (o : OperandSyntax) (l : AbstractLineDescriptor)
  : AbstractLineDescriptor :=
  set_commandInst l
    (set_operand (set_addressing (commandInst l) t (operand_mode o)) t
       (parsed_operand overlaid o (operand_of (commandInst l) t))).

(** The layout of the examples, in which no member reads what another
    received.  It is not that of a union; the statements are made for every
    layout. *)
Definition separate_members (m : OperandMember) (o : Operand) : Operand := o.

(** Nothing, or a character that ends a token. *)
Definition token_end (rest : string) : Prop :=
  rest = EmptyString \/ token_char (head_char rest) = false.

Local Close Scope string_scope.
(* ========================================================================= *)
(** * Properties *)

(* ------------------------------------------------------------------------- *)
(** ** Machine words *)

#[local] Arguments u32 : simpl never.
#[local] Arguments to_int : simpl never.
#[local] Arguments label_word : simpl never.
#[local] Arguments immediate_word : simpl never.
#[local] Arguments first_machine_word : simpl never.
#[local] Arguments direct_register_word : simpl never.
#[local] Arguments double_direct_register_word : simpl never.

Lemma u32_fits (x : Z) : fits_unsigned (u32 x).
Proof. unfold fits_unsigned, u32. apply Z.mod_pos_bound. lia. Qed.

Lemma u32_id (x : Z) : fits_unsigned x -> u32 x = x.
Proof. unfold fits_unsigned, u32. intros H. apply Z.mod_small. exact H. Qed.

Lemma to_int_id (x : Z) : - 2 ^ 31 <= x < 2 ^ 31 -> to_int x = x.
Proof.
  intros H. unfold to_int. rewrite Z.mod_small; lia.
Qed.

Lemma to_int_range (x : Z) : - 2 ^ 31 <= to_int x < 2 ^ 31.
Proof.
  unfold to_int.
  pose proof (Z.mod_pos_bound (x + 2 ^ 31) (2 ^ 32) ltac:(lia)). lia.
Qed.

Lemma lor_fits (a b : Z) :
  fits_unsigned a -> fits_unsigned b -> fits_unsigned (Z.lor a b).
Proof.
  unfold fits_unsigned. intros [Ha1 Ha2] [Hb1 Hb2]. split.
  - apply Z.lor_nonneg. split; assumption.
  - destruct (Z.eq_dec a 0) as [->|Hna]; [rewrite Z.lor_0_l; exact Hb2|].
    destruct (Z.eq_dec b 0) as [->|Hnb]; [rewrite Z.lor_0_r; exact Ha2|].
    apply Z.log2_lt_pow2.
    + assert (0 <= Z.lor a b) by (apply Z.lor_nonneg; split; assumption).
      assert (Z.lor a b <> 0).
      { intros E. apply Z.lor_eq_0_iff in E. lia. }
      lia.
    + rewrite Z.log2_lor by assumption.
      apply Z.max_lub_lt; apply Z.log2_lt_pow2; lia.
Qed.

Lemma land3_fits (a : Z) : fits_unsigned (Z.land a 3).
Proof.
  unfold fits_unsigned.
  change 3 with (Z.ones 2). rewrite Z.land_ones by lia.
  pose proof (Z.mod_pos_bound a (2 ^ 2) ltac:(lia)). lia.
Qed.

(** The two low bits of a 32-bit pattern shifted left by at least two
    positions are zero. *)
Lemma ARE_bits_shifted (x n : Z) :
  2 <= n -> ARE_bits (u32 (Z.shiftl x n)) = 0.
Proof.
  intros Hn. unfold ARE_bits, u32.
  change 3 with (Z.ones 2). rewrite Z.land_ones by lia.
  rewrite Z.shiftl_mul_pow2 by lia.
  replace n with (2 + (n - 2)) by lia.
  rewrite Z.pow_add_r by lia.
  change (2 ^ 32) with (2 ^ 2 * 2 ^ 30).
  replace (x * (2 ^ 2 * 2 ^ (n - 2))) with (2 ^ 2 * (x * 2 ^ (n - 2))) by ring.
  rewrite Z.mul_mod_distr_l by lia.
  rewrite Z.mul_comm. apply Z.mod_mul. lia.
Qed.

Lemma ARE_bits_lor (a b : Z) :
  ARE_bits (Z.lor a b) = Z.lor (ARE_bits a) (ARE_bits b).
Proof. unfold ARE_bits. apply Z.land_lor_distr_l. Qed.

Lemma ARE_bits_zero : ARE_bits 0 = 0.
Proof. reflexivity. Qed.

Lemma ARE_bits_land3 (a : Z) : ARE_bits (Z.land a 3) = Z.land a 3.
Proof.
  unfold ARE_bits. rewrite <- Z.land_assoc. reflexivity.
Qed.

Lemma first_machine_word_fits (c : CommandInstruction) :
  fits_unsigned (first_machine_word c).
Proof.
  unfold first_machine_word.
  repeat apply lor_fits; try apply u32_fits. unfold fits_unsigned. lia.
Qed.

Lemma first_machine_word_ARE (c : CommandInstruction) :
  ARE_bits (first_machine_word c) = 0.
Proof.
  unfold first_machine_word.
  rewrite !ARE_bits_lor, !ARE_bits_shifted by lia. reflexivity.
Qed.

Lemma immediate_word_fits (v : Z) : fits_unsigned (immediate_word v).
Proof. unfold immediate_word. rewrite Z.lor_0_l. apply u32_fits. Qed.

Lemma immediate_word_ARE (v : Z) : ARE_bits (immediate_word v) = 0.
Proof.
  unfold immediate_word. rewrite Z.lor_0_l. apply ARE_bits_shifted. lia.
Qed.

Lemma label_word_fits (a : Z) (r : ARE) : fits_unsigned (label_word a r).
Proof.
  unfold label_word. rewrite Z.lor_0_l.
  apply lor_fits; [apply u32_fits | apply land3_fits].
Qed.

Lemma label_word_ARE (a : Z) (r : ARE) :
  ARE_bits (label_word a r) = ARE_val r.
Proof.
  unfold label_word. rewrite Z.lor_0_l, ARE_bits_lor.
  rewrite ARE_bits_shifted by lia. rewrite Z.lor_0_l, ARE_bits_land3.
  destruct r; reflexivity.
Qed.

Lemma direct_register_word_fits (r : Register) (t : OperandType) :
  fits_unsigned (direct_register_word r t).
Proof. unfold direct_register_word. rewrite Z.lor_0_l. apply u32_fits. Qed.

Lemma direct_register_word_ARE (r : Register) (t : OperandType) :
  ARE_bits (direct_register_word r t) = 0.
Proof.
  unfold direct_register_word. rewrite Z.lor_0_l.
  apply ARE_bits_shifted. destruct t; lia.
Qed.

Lemma double_direct_register_word_fits (c : CommandInstruction) :
  fits_unsigned (double_direct_register_word c).
Proof.
  unfold double_direct_register_word. rewrite Z.lor_0_l. apply u32_fits.
Qed.

Lemma double_direct_register_word_ARE (c : CommandInstruction) :
  ARE_bits (double_direct_register_word c) = 0.
Proof.
  unfold double_direct_register_word. rewrite Z.lor_0_l.
  destruct (reg (sourceOperand c)), (reg (targetOperand c)); reflexivity.
Qed.

(* ------------------------------------------------------------------------- *)
(** ** Legality of the addressing modes of a command *)

Lemma AddressingType_eqb_eq (a b : AddressingType) :
  AddressingType_eqb a b = true <-> a = b.
Proof. destruct a, b; split; intros H; try reflexivity; discriminate H. Qed.

Lemma existsb_AddressingType (a : AddressingType) (l : list AddressingType) :
  existsb (AddressingType_eqb a) l = true <-> In a l.
Proof.
  rewrite existsb_exists. split.
  - intros [x [Hin Heq]]. apply AddressingType_eqb_eq in Heq. now subst.
  - intros Hin. exists a. split; [exact Hin | now apply AddressingType_eqb_eq].
Qed.

Lemma is_legal_command_inst_spec (c : CommandInstruction) :
  is_legal_command_inst c = spec_legal c.
Proof.
  destruct c as [o n s t sa ta].
  unfold is_legal_command_inst, spec_legal; cbn [opcodeCommand
    sourceOperandAddressingType targetOperandAddressingType].
  destruct o, sa, ta; reflexivity.
Qed.

(** C7.  The first pass accepts the addressing of a command exactly when the
    pair (source mode, target mode) is allowed by the legality table of the
    specification: [is_legal_command] returns TRUE if and only if the source
    mode is in the source set of the opcode and the target mode is in its
    target set, a position without operand carrying the mode [NONE_ADDR]. *)
Theorem C7_legal_command_iff_table (l : AbstractLineDescriptor) :
  is_legal_command l = true <->
  In (sourceOperandAddressingType (commandInst l))
     (spec_source_modes (opcodeCommand (commandInst l)))
  /\ In (targetOperandAddressingType (commandInst l))
        (spec_target_modes (opcodeCommand (commandInst l))).
Proof.
  unfold is_legal_command. rewrite is_legal_command_inst_spec.
  unfold spec_legal. rewrite andb_true_iff, !existsb_AddressingType.
  reflexivity.
Qed.

(** A command line without parse error and without label is refused by the
    first pass, with the error flag raised and the counters unchanged, when
    its addressing is not legal; otherwise the instruction counter advances
    by the size of the command. *)
Lemma first_pass_step_command (l : AbstractLineDescriptor)
  (tu : TranslationUnit) (ic dc : nat) :
  is_null_or_empty (lineError l) = true ->
  is_null_or_empty (lineLabel l) = true ->
  lineType l = COMMAND_INSTRUCTION ->
  first_pass_step l tu ic dc
  = Some (if is_legal_command l then (tu, (ic + ic_promoter l)%nat, dc, false)
          else (tu, ic, dc, true)).
Proof.
  intros He Hl Ht. unfold first_pass_step. rewrite He, Hl, Ht. cbn [negb].
  destruct (is_legal_command l); reflexivity.
Qed.


(* ------------------------------------------------------------------------- *)
(** ** Size of an instruction in the two passes *)

Lemma operand_words_spec (a : AddressingType) :
  operand_words a = spec_operand_contribution a.
Proof. destruct a; reflexivity. Qed.

Lemma IC_insert_machine_word (tu : TranslationUnit) (w : Z) :
  IC (insert_machine_word tu w) = S (IC tu).
Proof. reflexivity. Qed.

Lemma find_label_addressing_code (name : string) (tu : TranslationUnit) :
  IC (snd (find_label_addressing name tu)) = IC tu
  /\ codeImage (snd (find_label_addressing name tu)) = codeImage tu
  /\ constantList (snd (find_label_addressing name tu)) = constantList tu
  /\ symbolTable (snd (find_label_addressing name tu)) = symbolTable tu.
Proof.
  unfold find_label_addressing.
  destruct (find_first_symbol (symbolTable tu) name) as [s|]; cbn.
  - destruct (SymbolType_is_extern (symbolType s)); cbn; auto.
  - auto.
Qed.

(** An operand that is encoded without error advances IC by its number of
    words; an operand whose encoding fails leaves IC where it was. *)
Lemma process_operand_encoding_IC (l : AbstractLineDescriptor)
  (tu : TranslationUnit) (a : AddressingType) (t : OperandType) :
  (fst (process_operand_encoding l tu a t) = false ->
   IC (snd (process_operand_encoding l tu a t))
   = (IC tu + spec_operand_contribution a)%nat)
  /\ (fst (process_operand_encoding l tu a t) = true ->
      IC (snd (process_operand_encoding l tu a t)) = IC tu
      /\ (1 <= spec_operand_contribution a)%nat).
Proof.
  destruct a; cbn [process_operand_encoding spec_operand_contribution].
  - unfold encode_immediate_addressing.
    destruct (immediate_value _ tu) as [v|]; cbn.
    + destruct (two_complement_validation v); cbn; split; intros H;
        try discriminate H; lia.
    + split; intros H; try discriminate H; lia.
  - unfold encode_direct_addressing.
    pose proof (find_label_addressing_code
                  (addressingLabel (operand_of (commandInst l) t)) tu)
      as (Hic & _).
    destruct (find_label_addressing _ tu) as [[[a r]|] tu1]; cbn in *;
      split; intros H; try discriminate H; lia.
  - unfold encode_fixed_index_addressing.
    pose proof (find_label_addressing_code
                  (labelName (fixedIndexOperand (operand_of (commandInst l) t)))
                  tu) as (Hic & _).
    destruct (find_label_addressing _ tu) as [[[a r]|] tu1]; cbn in *.
    + destruct (get_addressing_index _ tu1); cbn;
        split; intros H; try discriminate H; lia.
    + split; intros H; try discriminate H; lia.
  - cbn. split; intros H; try discriminate H. lia.
  - cbn. split; intros H; try discriminate H. lia.
Qed.

Lemma both_direct_register_test (c : CommandInstruction) :
  AddressingType_eqb (sourceOperandAddressingType c) DIRECT_REGISTER_ADDR
  && AddressingType_eqb (targetOperandAddressingType c) DIRECT_REGISTER_ADDR
  = true <-> both_direct_register c.
Proof.
  unfold both_direct_register.
  rewrite andb_true_iff, !AddressingType_eqb_eq. reflexivity.
Qed.

(** The size of a command in the two passes. *)
Lemma second_pass_line_size (l : AbstractLineDescriptor)
  (tu : TranslationUnit) :
  lineType l = COMMAND_INSTRUCTION ->
  let c := commandInst l in
  (both_direct_register c ->
   ic_promoter l = 2%nat
   /\ second_pass_line l tu
      = (false,
         insert_machine_word
           (insert_machine_word tu (first_machine_word c))
           (double_direct_register_word c))
   /\ IC (snd (second_pass_line l tu)) = (IC tu + 2)%nat)
  /\ (~ both_direct_register c ->
      ic_promoter l
      = (1 + spec_operand_contribution (sourceOperandAddressingType c)
         + spec_operand_contribution (targetOperandAddressingType c))%nat
      /\ (IC (snd (second_pass_line l tu)) <= IC tu + ic_promoter l)%nat
      /\ (fst (second_pass_line l tu) = false <->
          IC (snd (second_pass_line l tu)) = (IC tu + ic_promoter l)%nat)).
Proof.
  intros Hcmd c. subst c. split.
  - intros Hboth. pose proof Hboth as Htest.
    apply both_direct_register_test in Htest.
    unfold ic_promoter, ic_promoter_inst, second_pass_line.
    rewrite Hcmd, Htest. cbn. repeat split; lia.
  - intros Hnot.
    assert (Htest :
      AddressingType_eqb (sourceOperandAddressingType (commandInst l))
                         DIRECT_REGISTER_ADDR
      && AddressingType_eqb (targetOperandAddressingType (commandInst l))
                            DIRECT_REGISTER_ADDR = false).
    { apply not_true_is_false. intros H.
      apply Hnot, both_direct_register_test, H. }
    unfold ic_promoter, ic_promoter_inst, second_pass_line.
    rewrite Hcmd, Htest, !operand_words_spec. cbn [LineType_is_command negb].
    set (tu0 := firs_machine_word_encoding (commandInst l) tu).
    assert (H0 : IC tu0 = S (IC tu)) by reflexivity.
    pose proof (process_operand_encoding_IC l tu0
                  (sourceOperandAddressingType (commandInst l)) SOURCE_OPERAND)
      as [Hs1 Hs2].
    destruct (process_operand_encoding l tu0 _ SOURCE_OPERAND) as [e1 tu1].
    pose proof (process_operand_encoding_IC l tu1
                  (targetOperandAddressingType (commandInst l)) TARGET_OPERAND)
      as [Ht1 Ht2].
    destruct (process_operand_encoding l tu1 _ TARGET_OPERAND) as [e2 tu2].
    cbn [fst snd] in *.
    destruct e1, e2; cbn [orb];
      repeat match goal with
             | H : true = false -> _ |- _ => clear H
             | H : false = true -> _ |- _ => clear H
             | H : ?b = ?b -> _ |- _ => specialize (H eq_refl)
             end;
      repeat match goal with H : _ /\ _ |- _ => destruct H end;
      (split; [reflexivity |]); (split; [lia |]);
      (split; intros; [try discriminate; lia | try reflexivity; lia]).
Qed.

(* ------------------------------------------------------------------------- *)
(** ** Range checks of the second pass *)

Lemma two_complement_validation_iff (v : Z) :
  two_complement_validation v = true <-> in_12_bits v.
Proof.
  unfold two_complement_validation, in_12_bits.
  rewrite negb_true_iff, orb_false_iff, Z.ltb_ge, Z.gtb_ltb, Z.ltb_ge.
  lia.
Qed.

Lemma encode_immediate_addressing_ok (imm : ImmediateAddressing)
  (tu : TranslationUnit) :
  fst (encode_immediate_addressing imm tu) = false <->
  exists v, immediate_value imm tu = Some v /\ in_12_bits v.
Proof.
  unfold encode_immediate_addressing.
  destruct (immediate_value imm tu) as [v|]; cbn.
  - destruct (two_complement_validation v) eqn:E; cbn.
    + split; [|reflexivity]. intros _. exists v.
      split; [reflexivity | now apply two_complement_validation_iff].
    + split; [discriminate|]. intros [w [Hw Hr]]. injection Hw as <-.
      apply two_complement_validation_iff in Hr. congruence.
  - split; [discriminate|]. intros [w [Hw _]]. discriminate Hw.
Qed.

Lemma get_addressing_index_ok (f : FixedIndexAddressing)
  (tu : TranslationUnit) :
  get_addressing_index f tu <> None <->
  is_null_or_empty (constantAddressingIndex f) = true
  \/ exists v, index_value f tu = Some v /\ 0 <= v.
Proof.
  unfold get_addressing_index, index_value.
  destruct (is_null_or_empty (constantAddressingIndex f)).
  - split; [intros _; now left | intros _; discriminate].
  - destruct (extract_constant _ tu) as [v|].
    + destruct (v <? 0) eqn:E.
      * apply Z.ltb_lt in E. split; [congruence|].
        intros [H|[w [Hw H0]]]; [discriminate|]. injection Hw as <-. lia.
      * apply Z.ltb_ge in E. split; [|discriminate].
        intros _. right. exists v. split; [reflexivity | exact E].
    + split; [congruence|].
      intros [H|[w [Hw _]]]; discriminate.
Qed.

(** C2, as the code has it.  An immediate operand is encoded without error
    exactly when its value (the literal, or the value of the constant it
    names, which must be defined) lies in [-2048, 2047].  The index of a
    fixed-index operand is not checked against that range: a literal index
    is always accepted, and an index given by a constant is accepted exactly
    when the constant is defined and its value is not negative. *)
Theorem C2_encoding_ranges (tu : TranslationUnit) :
  (forall imm : ImmediateAddressing,
      fst (encode_immediate_addressing imm tu) = false <->
      exists v, immediate_value imm tu = Some v /\ in_12_bits v)
  /\ (forall f : FixedIndexAddressing,
         is_null_or_empty (constantAddressingIndex f) = true ->
         get_addressing_index f tu = Some (u32 (numericalAddressingIndex f)))
  /\ (forall f : FixedIndexAddressing,
         is_null_or_empty (constantAddressingIndex f) = false ->
         get_addressing_index f tu <> None <->
         exists v, index_value f tu = Some v /\ 0 <= v).
Proof.
  split; [|split].
  - intros imm. apply encode_immediate_addressing_ok.
  - intros f H. unfold get_addressing_index. now rewrite H.
  - intros f H. rewrite get_addressing_index_ok, H. split.
    + intros [E|E]; [discriminate E | exact E].
    + intros E. now right.
Qed.

(** [ARR[5000]] is encoded without error although 5000 exceeds 2047 (the
    second word holds 5000 shifted by two, which needs more than 14 bits),
    and the index -1 given through a constant is refused although it lies in
    [-2048, 2047]: success of the encoding of an index is not equivalent to
    the value lying in the 12-bit range. *)
Lemma C2_index_counterexample :
  (index_value (literal_index "ARR" 5000) sample_unit = Some 5000
   /\ ~ in_12_bits 5000
   /\ fst (encode_fixed_index_addressing (literal_index "ARR" 5000)
                                         sample_unit) = false
   /\ codeImage (snd (encode_fixed_index_addressing
                        (literal_index "ARR" 5000) sample_unit))
      = [414; 20000])
  /\ (index_value (constant_index "ARR" "k") sample_unit = Some (-1)
      /\ in_12_bits (-1)
      /\ fst (encode_fixed_index_addressing (constant_index "ARR" "k")
                                            sample_unit) = true).
Proof.
  split; [split; [|split; [|split]] | split; [|split]];
    try reflexivity; unfold in_12_bits; lia.
Qed.

(** The three parts of the statement on a unit that defines [k] as -1: the
    immediate 2047 is encoded, the literal index 5000 is accepted as it is,
    and the index [k] is refused. *)
Lemma C2_encoding_ranges_witness :
  fst (encode_immediate_addressing (literal_immediate 2047) sample_unit)
  = false
  /\ get_addressing_index (literal_index "ARR" 5000) sample_unit = Some 5000
  /\ ~ get_addressing_index (constant_index "ARR" "k") sample_unit <> None.
Proof.
  destruct (C2_encoding_ranges sample_unit) as (Himm & Hlit & Hcst).
  split; [|split].
  - apply Himm. exists 2047. split; [reflexivity | unfold in_12_bits; lia].
  - exact (Hlit (literal_index "ARR" 5000) eq_refl).
  - intros H.
    apply (Hcst (constant_index "ARR" "k") eq_refl) in H.
    destruct H as [v [Hv H0]]. injection Hv as <-. lia.
Defined.

(* ------------------------------------------------------------------------- *)
(** ** The externals list on the error path of a fixed-index operand *)

Lemma get_addressing_index_constants (f : FixedIndexAddressing)
  (tu tu' : TranslationUnit) :
  constantList tu' = constantList tu ->
  get_addressing_index f tu' = get_addressing_index f tu.
Proof.
  intros H. unfold get_addressing_index, extract_constant. now rewrite H.
Qed.

Lemma get_addressing_index_fails (f : FixedIndexAddressing)
  (tu : TranslationUnit) :
  is_null_or_empty (constantAddressingIndex f) = false ->
  (index_value f tu = None \/ exists v, index_value f tu = Some v /\ v < 0) ->
  get_addressing_index f tu = None.
Proof.
  intros Hc H. unfold index_value in H. unfold get_addressing_index.
  rewrite Hc in *.
  destruct (extract_constant _ tu) as [v|]; [|reflexivity].
  destruct H as [H|[w [Hw H0]]]; [discriminate H|].
  injection Hw as <-. apply Z.ltb_lt in H0. now rewrite H0.
Qed.

(** C10.  When the base label of a fixed-index operand is an external
    symbol and the index is a constant that is undefined or negative, the
    encoding of the operand reports an error and stores no word (the code
    image and IC are unchanged), but the externals list has received one more
    record, for the base label, at the current IC. *)
Theorem C10_extern_record_on_index_error (f : FixedIndexAddressing)
  (tu : TranslationUnit) (s : Symbol) :
  find_symbol (labelName f) (symbolTable tu) = Some s ->
  symbolType s = EXTERN_LABEL ->
  is_null_or_empty (constantAddressingIndex f) = false ->
  (index_value f tu = None \/ exists v, index_value f tu = Some v /\ v < 0) ->
  let r := encode_fixed_index_addressing f tu in
  fst r = true
  /\ codeImage (snd r) = codeImage tu
  /\ IC (snd r) = IC tu
  /\ externalsList (snd r)
     = externalsList tu
       ++ [ {| externalName := labelName f;
               addresses := to_int (Z.of_nat (IC tu)) |} ].
Proof.
  intros Hs Ht Hc Hi r. subst r.
  unfold encode_fixed_index_addressing, find_label_addressing.
  unfold find_symbol in Hs. rewrite Hs, Ht. cbn [SymbolType_is_extern].
  rewrite (get_addressing_index_constants f tu
             (updateExternTable tu (labelName f)) eq_refl).
  rewrite (get_addressing_index_fails f tu Hc Hi).
  cbn. auto.
Qed.

(** [X[k]] with [X] external and [k] = -1: an error, no word, one record. *)
Lemma C10_extern_record_on_index_error_witness :
  fst (encode_fixed_index_addressing (constant_index "X" "k") sample_unit)
  = true
  /\ codeImage (snd (encode_fixed_index_addressing (constant_index "X" "k")
                                                   sample_unit)) = []
  /\ externalsList (snd (encode_fixed_index_addressing
                           (constant_index "X" "k") sample_unit))
     = [ {| externalName := "X"; addresses := 0 |} ].
Proof.
  destruct (C10_extern_record_on_index_error (constant_index "X" "k")
              sample_unit
              {| symbolName := "X"; symbolType := EXTERN_LABEL;
                 address := 100 |}
              eq_refl eq_refl eq_refl)
    as (He & Hc & _ & Hx).
  - right. exists (-1). split; [reflexivity | lia].
  - split; [exact He | split; [exact Hc | exact Hx]].
Defined.

(* ------------------------------------------------------------------------- *)
(** ** Width of the words held in the images *)

Lemma Forall_firstn' {A : Type} (P : A -> Prop) (n : nat) (l : list A) :
  Forall P l -> Forall P (firstn n l).
Proof.
  intros H. revert n. induction H as [|x l Hx Hl IH]; intros [|n]; cbn;
    constructor; auto.
Qed.

Lemma Forall_skipn' {A : Type} (P : A -> Prop) (n : nat) (l : list A) :
  Forall P l -> Forall P (skipn n l).
Proof.
  intros H. revert n. induction H as [|x l Hx Hl IH]; intros [|n]; cbn;
    auto.
Qed.

Lemma Forall_array_store {A : Type} (P : A -> Prop) (l : list A) (i : nat)
  (x : A) :
  Forall P l -> P x -> Forall P (array_store l i x).
Proof.
  intros Hl Hx. unfold array_store. apply Forall_app. split.
  - now apply Forall_firstn'.
  - constructor; [exact Hx | now apply Forall_skipn'].
Qed.

Lemma Forall_array_store_range {A : Type} (P : A -> Prop) (l : list A)
  (i : nat) (xs : list A) :
  Forall P l -> Forall P xs -> Forall P (array_store_range l i xs).
Proof.
  intros Hl Hx. unfold array_store_range. apply Forall_app. split.
  - now apply Forall_firstn'.
  - apply Forall_app. split; [exact Hx | now apply Forall_skipn'].
Qed.

Lemma insert_machine_word_fits (tu : TranslationUnit) (w : Z) :
  Forall fits_unsigned (codeImage tu) -> fits_unsigned w ->
  Forall fits_unsigned (codeImage (insert_machine_word tu w)).
Proof. intros H Hw. cbn. now apply Forall_array_store. Qed.

Lemma process_operand_encoding_fits (l : AbstractLineDescriptor)
  (tu : TranslationUnit) (a : AddressingType) (t : OperandType) :
  Forall fits_unsigned (codeImage tu) ->
  Forall fits_unsigned (codeImage (snd (process_operand_encoding l tu a t))).
Proof.
  intros H. destruct a; cbn [process_operand_encoding].
  - unfold encode_immediate_addressing.
    destruct (immediate_value _ tu) as [v|]; cbn [snd]; [|exact H].
    destruct (two_complement_validation v); cbn [negb snd]; [|exact H].
    apply insert_machine_word_fits; [exact H | apply immediate_word_fits].
  - unfold encode_direct_addressing.
    pose proof (find_label_addressing_code
                  (addressingLabel (operand_of (commandInst l) t)) tu)
      as (_ & Hc & _).
    destruct (find_label_addressing _ tu) as [[[x r]|] tu1];
      cbn [snd] in *; rewrite <- Hc in H; [|exact H].
    apply insert_machine_word_fits; [exact H | apply label_word_fits].
  - unfold encode_fixed_index_addressing.
    pose proof (find_label_addressing_code
                  (labelName (fixedIndexOperand (operand_of (commandInst l) t)))
                  tu) as (_ & Hc & _).
    destruct (find_label_addressing _ tu) as [[[x r]|] tu1];
      cbn [snd] in *; rewrite <- Hc in H; [|exact H].
    destruct (get_addressing_index _ tu1); cbn [snd]; [|exact H].
    repeat apply insert_machine_word_fits; try exact H; apply label_word_fits.
  - cbn [snd]. apply insert_machine_word_fits;
      [exact H | apply direct_register_word_fits].
  - exact H.
Qed.

Lemma second_pass_line_fits (l : AbstractLineDescriptor)
  (tu : TranslationUnit) :
  Forall fits_unsigned (codeImage tu) ->
  Forall fits_unsigned (codeImage (snd (second_pass_line l tu))).
Proof.
  intros H. unfold second_pass_line.
  destruct (LineType_is_command (lineType l)); cbn [negb]; [|exact H].
  assert (H0 : Forall fits_unsigned
                 (codeImage (firs_machine_word_encoding (commandInst l) tu))).
  { apply insert_machine_word_fits;
      [exact H | apply first_machine_word_fits]. }
  destruct (_ && _).
  - cbn [snd]. apply insert_machine_word_fits;
      [exact H0 | apply double_direct_register_word_fits].
  - pose proof (process_operand_encoding_fits l _
                  (sourceOperandAddressingType (commandInst l))
                  SOURCE_OPERAND H0) as H1.
    destruct (process_operand_encoding l _ _ SOURCE_OPERAND) as [e1 tu1].
    pose proof (process_operand_encoding_fits l tu1
                  (targetOperandAddressingType (commandInst l))
                  TARGET_OPERAND H1) as H2.
    destruct (process_operand_encoding l tu1 _ TARGET_OPERAND) as [e2 tu2].
    exact H2.
Qed.

Lemma char_to_unsigned_fits (c : ascii) : fits_unsigned (char_to_unsigned c).
Proof. apply u32_fits. Qed.

(** A write into the data image that stays inside the block: the unit is
    reallocated when the capacity field is below the capacity required, the
    cells are stored from the index [DC] on, and both counters advance. *)
Lemma data_image_write_result (cells : list Z) (tu tu' : TranslationUnit)
  (dc dc' : nat) :
  data_image_write cells tu dc = Some (tu', dc') ->
  let required := (List.length cells + DC tu)%nat in
  let tu0 := if (dataImageCapacity tu <? required)%nat
             then resize_data_image tu required else tu in
  (required <= dataImageBlock tu0)%nat
  /\ dc' = (dc + List.length cells)%nat
  /\ tu' = set_data tu0 (array_store_range (dataImage tu) (DC tu) cells) dc'.
Proof.
  intros H required tu0. unfold data_image_write in H.
  fold required in H. fold tu0 in H.
  assert (Ed : dataImage tu0 = dataImage tu /\ DC tu0 = DC tu).
  { unfold tu0. destruct (_ <? _)%nat; split; reflexivity. }
  destruct Ed as [Ed Ec]. rewrite Ed, Ec in H.
  destruct (dataImageBlock tu0 <? required)%nat eqn:B; [discriminate H|].
  apply Nat.ltb_ge in B. injection H as <- <-. auto.
Qed.

(** The write leaves the block exactly when the capacity field admits the
    cells and the block does not hold them. *)
Lemma data_image_write_overrun (cells : list Z) (tu : TranslationUnit)
  (dc : nat) :
  data_image_write cells tu dc = None
  <-> (dataImageBlock tu < List.length cells + DC tu
       <= dataImageCapacity tu)%nat.
Proof.
  unfold data_image_write.
  destruct (dataImageCapacity tu <? _)%nat eqn:C.
  - apply Nat.ltb_lt in C. cbn [resize_data_image dataImageBlock].
    destruct (_ <? _)%nat eqn:B.
    + apply Nat.ltb_lt in B. lia.
    + split; [intros H; discriminate H | lia].
  - apply Nat.ltb_ge in C.
    destruct (_ <? _)%nat eqn:B.
    + apply Nat.ltb_lt in B. split; [lia | reflexivity].
    + apply Nat.ltb_ge in B. split; [intros H; discriminate H | lia].
Qed.

Lemma data_image_write_fits (cells : list Z) (tu tu' : TranslationUnit)
  (dc dc' : nat) :
  Forall fits_unsigned (dataImage tu) -> Forall fits_unsigned cells ->
  data_image_write cells tu dc = Some (tu', dc') ->
  Forall fits_unsigned (dataImage tu').
Proof.
  intros H Hc Hw. apply data_image_write_result in Hw.
  destruct Hw as (_ & _ & ->). cbn [set_data dataImage].
  now apply Forall_array_store_range.
Qed.

Lemma handle_data_image_fits (l : AbstractLineDescriptor)
  (tu tu' : TranslationUnit) (dc dc' : nat) :
  Forall fits_unsigned (dataImage tu) ->
  handle_data_image l tu dc = Some (tu', dc') ->
  Forall fits_unsigned (dataImage tu').
Proof.
  intros H. unfold handle_data_image.
  destruct (dirType l);
    try (intros E; injection E as <- <-; exact H).
  - apply data_image_write_fits; [exact H|].
    apply Forall_forall. intros x Hx. apply in_map_iff in Hx.
    destruct Hx as [y [<- _]]. apply u32_fits.
  - apply data_image_write_fits; [exact H|].
    apply Forall_app. split.
    + apply Forall_forall. intros x Hx. apply in_map_iff in Hx.
      destruct Hx as [y [<- _]]. apply char_to_unsigned_fits.
    + constructor; [unfold fits_unsigned; lia | constructor].
Qed.

Lemma low_14_bits (w : Z) : Z.land w LOWER_14_BIT_MASK = w mod 2 ^ 14.
Proof.
  unfold LOWER_14_BIT_MASK. change 16383 with (Z.ones 14).
  apply Z.land_ones. lia.
Qed.

Lemma base4_digit_low_14 (w i : Z) :
  In i [12; 10; 8; 6; 4; 2; 0] ->
  Z.land (Z.shiftr (Z.land w LOWER_14_BIT_MASK) i) LOWER_2_BITS_MASK
  = Z.land (Z.shiftr w i) LOWER_2_BITS_MASK.
Proof.
  intros Hi. rewrite Z.shiftr_land, <- Z.land_assoc. f_equal.
  cbn in Hi.
  repeat (destruct Hi as [<-|Hi]; [reflexivity|]). contradiction.
Qed.

Lemma print_low_14_bits (w : Z) :
  print_encoded_base4_machine_word (Z.land w LOWER_14_BIT_MASK)
  = print_encoded_base4_machine_word w.
Proof.
  unfold print_encoded_base4_machine_word. f_equal.
  apply map_ext_in. intros i Hi. now rewrite base4_digit_low_14.
Qed.

Lemma immediate_word_low_14 (v : Z) :
  Z.land (immediate_word v) LOWER_14_BIT_MASK = 4 * (v mod 2 ^ 12).
Proof.
  rewrite low_14_bits. unfold immediate_word, u32.
  rewrite Z.lor_0_l, Z.shiftl_mul_pow2 by lia.
  rewrite Z.mod_mod_divide by (exists (2 ^ 18); reflexivity).
  change (2 ^ 14) with (4 * 2 ^ 12). change (2 ^ 2) with 4.
  rewrite (Z.mul_comm v 4). apply Z.mul_mod_distr_l; lia.
Qed.

Lemma data_cell_low_14 (v : Z) :
  Z.land (u32 v) LOWER_14_BIT_MASK = v mod 2 ^ 14.
Proof.
  rewrite low_14_bits. unfold u32.
  apply Z.mod_mod_divide. exists (2 ^ 18). reflexivity.
Qed.

(** C4, as the code has it.  The cells of the code image and of the data
    image are [unsigned int]: every word the second pass stores, and every
    cell a [.data] or [.string] directive stores (when the write stays in
    the block of the data image), lies in [0, 2^32).  The
    words are not reduced to 14 bits when they are stored; the object file
    shows the 14 low bits only, which for an immediate value [v] are the
    12-bit two's complement of [v] followed by the ARE bits 00, and for a
    [.data] element [v] the 14-bit two's complement of [v]. *)
Theorem C4_image_words :
  (forall (l : AbstractLineDescriptor) (tu : TranslationUnit),
      Forall fits_unsigned (codeImage tu) ->
      Forall fits_unsigned (codeImage (snd (second_pass_line l tu))))
  /\ (forall (l : AbstractLineDescriptor) (tu tu' : TranslationUnit)
             (dc dc' : nat),
         Forall fits_unsigned (dataImage tu) ->
         handle_data_image l tu dc = Some (tu', dc') ->
         Forall fits_unsigned (dataImage tu'))
  /\ (forall w : Z,
         print_encoded_base4_machine_word w
         = print_encoded_base4_machine_word (Z.land w LOWER_14_BIT_MASK))
  /\ (forall v : Z,
         Z.land (immediate_word v) LOWER_14_BIT_MASK = 4 * (v mod 2 ^ 12))
  /\ (forall v : Z, Z.land (u32 v) LOWER_14_BIT_MASK = v mod 2 ^ 14).
Proof.
  split; [|split; [|split; [|split]]].
  - apply second_pass_line_fits.
  - apply handle_data_image_fits.
  - intros w. symmetry. apply print_low_14_bits.
  - apply immediate_word_low_14.
  - apply data_cell_low_14.
Qed.

(** The immediate -1 is stored as the 32-bit pattern of -4, and the [.data]
    element -1 as the 32-bit pattern of -1: neither is below 2^14. *)
Lemma C4_negative_values_counterexample :
  codeImage (snd (encode_immediate_addressing (literal_immediate (-1))
                                              fresh_unit))
  = [4294967292]
  /\ ~ (0 <= 4294967292 < 2 ^ 14)
  /\ option_map (fun r => dataImage (fst r))
                (int_data_image_update [-1] fresh_unit 0)
     = Some [4294967295]
  /\ ~ (0 <= 4294967295 < 2 ^ 14).
Proof.
  split; [reflexivity | split; [lia | split; [reflexivity | lia]]].
Qed.

(** After [prn #-1] on an empty code image, and after [.data -1] on an empty
    data image, every cell is a 32-bit pattern. *)
Lemma C4_image_words_witness :
  Forall fits_unsigned
    (codeImage (snd (second_pass_line (prn_immediate (-1)) fresh_unit)))
  /\ handle_data_image data_minus_one fresh_unit 0
     = Some (set_data (resize_data_image fresh_unit 1) [4294967295] 1, 1%nat)
  /\ Forall fits_unsigned
       (dataImage (set_data (resize_data_image fresh_unit 1) [4294967295] 1)).
Proof.
  destruct C4_image_words as (Hcode & Hdata & _).
  split; [|split].
  - apply Hcode. constructor.
  - reflexivity.
  - apply (Hdata data_minus_one fresh_unit _ 0%nat 1%nat);
      [constructor | reflexivity].
Defined.

(* ------------------------------------------------------------------------- *)
(** ** The ARE field and the externals list *)

Lemma array_store_end {A : Type} (l : list A) (x : A) :
  array_store l (List.length l) x = l ++ [x].
Proof.
  unfold array_store. rewrite firstn_all.
  rewrite skipn_all2 by (cbn; lia). reflexivity.
Qed.

Lemma extern_use_addresses_app (base : nat) (a b : list Z) :
  extern_use_addresses base (a ++ b)
  = extern_use_addresses base a
    ++ extern_use_addresses (base + List.length a) b.
Proof.
  revert base. induction a as [|w a IH]; intros base; cbn.
  - now rewrite Nat.add_0_r.
  - rewrite IH, <- app_assoc.
    replace (S base + List.length a)%nat with (base + S (List.length a))%nat
      by lia.
    reflexivity.
Qed.

Lemma emits_refl (tu : TranslationUnit) : emits tu tu [] [].
Proof.
  unfold emits. rewrite !app_nil_r, Nat.add_0_r. cbn. auto 10.
Qed.

Lemma emits_trans (tu tu1 tu2 : TranslationUnit) (ws1 ws2 : list Z)
  (r1 r2 : list ExternalSymbolInfo) :
  emits tu tu1 ws1 r1 -> emits tu1 tu2 ws2 r2 ->
  emits tu tu2 (ws1 ++ ws2) (r1 ++ r2).
Proof.
  intros (Hc1 & Hi1 & He1 & Hs1 & Hk1 & Hn1 & Ha1 & Hr1)
         (Hc2 & Hi2 & He2 & Hs2 & Hk2 & Hn2 & Ha2 & Hr2).
  unfold emits. repeat split.
  - now rewrite Hc2, Hc1, app_assoc.
  - rewrite Hi2, Hi1, length_app. lia.
  - now rewrite He2, He1, app_assoc.
  - congruence.
  - congruence.
  - congruence.
  - apply Forall_app. split; assumption.
  - rewrite map_app, extern_use_addresses_app, Hr1, Hr2, Hi1. reflexivity.
Qed.

Lemma emits_well_formed (tu tu' : TranslationUnit) (ws : list Z)
  (recs : list ExternalSymbolInfo) :
  well_formed_code tu -> emits tu tu' ws recs -> well_formed_code tu'.
Proof.
  unfold well_formed_code. intros Hw (Hc & Hi & _).
  rewrite Hi, Hc, length_app, Hw. reflexivity.
Qed.

Lemma insert_machine_word_emits (tu : TranslationUnit) (w : Z) :
  well_formed_code tu -> ARE_bits w = 0 ->
  emits tu (insert_machine_word tu w) [w] [].
Proof.
  unfold well_formed_code. intros Hw Hz. unfold emits. cbn.
  rewrite Hw, array_store_end, Hz, app_nil_r. cbn.
  repeat split; try reflexivity; try lia.
  constructor; [left; exact Hz | constructor].
Qed.

Lemma SymbolType_is_extern_iff (t : SymbolType) :
  SymbolType_is_extern t = true <-> t = EXTERN_LABEL.
Proof. destruct t; cbn; split; intros H; congruence. Qed.

(** The lookup of a label and the storing of its word. *)
Lemma label_word_emits (name : string) (tu tu1 : TranslationUnit)
  (a : Z) (r : ARE) :
  well_formed_code tu ->
  find_label_addressing name tu = (Some (a, r), tu1) ->
  exists recs,
    emits tu (insert_machine_word tu1 (label_word a r)) [label_word a r] recs
    /\ label_reference tu (insert_machine_word tu1 (label_word a r)) name
                       (label_word a r).
Proof.
  unfold well_formed_code, find_label_addressing, label_reference, find_symbol.
  intros Hw H.
  destruct (find_first_symbol (symbolTable tu) name) as [s|] eqn:Hs;
    [|discriminate H].
  destruct (SymbolType_is_extern (symbolType s)) eqn:Hx;
    injection H as <- <- <-.
  - apply SymbolType_is_extern_iff in Hx.
    exists [ {| externalName := name;
                addresses := to_int (Z.of_nat (IC tu)) |} ].
    split.
    + unfold emits.
      cbn [insert_machine_word set_code codeImage IC externalsList
           symbolTable constantList updateExternTable set_externalsList].
      rewrite Hw, array_store_end.
      cbn [extern_use_addresses List.length map addresses].
      change (ARE_bits (label_word 0 EXTERNAL)) with 1. cbn.
      repeat split; try reflexivity; try lia.
      constructor; [right; left; reflexivity | constructor].
    + exists s. split; [reflexivity|]. split; [|split].
      * split; [intros _; exact Hx | intros _; reflexivity].
      * intros _. split; reflexivity.
      * intros Hn. contradiction.
  - assert (Hn : symbolType s <> EXTERN_LABEL).
    { intros E. apply SymbolType_is_extern_iff in E. congruence. }
    exists []. split.
    + unfold emits. cbn [insert_machine_word set_code codeImage IC
                         externalsList symbolTable constantList].
      rewrite Hw, array_store_end, app_nil_r.
      cbn [extern_use_addresses List.length map].
      rewrite label_word_ARE. cbn.
      repeat split; try reflexivity; try lia.
      constructor; [right; right; apply label_word_ARE | constructor].
    + exists s. split; [reflexivity|]. rewrite label_word_ARE. cbn.
      split; [|split].
      * split; [discriminate | intros E; contradiction].
      * intros E. contradiction.
      * intros _. split; reflexivity.
Qed.

Lemma encode_direct_addressing_emits (name : string)
  (tu tu' : TranslationUnit) :
  well_formed_code tu ->
  encode_direct_addressing name tu = (false, tu') ->
  exists w recs,
    emits tu tu' [w] recs /\ label_reference tu tu' name w.
Proof.
  intros Hw H. unfold encode_direct_addressing in H.
  destruct (find_label_addressing name tu) as [[[a r]|] tu1] eqn:Hf;
    [|discriminate H].
  injection H as <-.
  destruct (label_word_emits name tu tu1 a r Hw Hf) as [recs [He Hl]].
  exists (label_word a r), recs. split; assumption.
Qed.

Lemma encode_fixed_index_addressing_emits (f : FixedIndexAddressing)
  (tu tu' : TranslationUnit) :
  well_formed_code tu ->
  encode_fixed_index_addressing f tu = (false, tu') ->
  exists w1 w2 recs,
    emits tu tu' [w1; w2] recs
    /\ ARE_bits w2 = 0
    /\ exists tu1, label_reference tu tu1 (labelName f) w1
                   /\ externalsList tu' = externalsList tu1.
Proof.
  intros Hw H. unfold encode_fixed_index_addressing in H.
  destruct (find_label_addressing (labelName f) tu) as [[[a r]|] tu1] eqn:Hf;
    [|discriminate H].
  destruct (get_addressing_index f tu1) as [idx|]; [|discriminate H].
  injection H as <-.
  destruct (label_word_emits _ tu tu1 a r Hw Hf) as [recs [He Hl]].
  exists (label_word a r), (label_word idx ABSOLUTE), recs.
  split; [|split].
  - change [label_word a r; label_word idx ABSOLUTE]
      with ([label_word a r] ++ [label_word idx ABSOLUTE]).
    rewrite <- (app_nil_r recs).
    eapply emits_trans; [exact He|].
    apply insert_machine_word_emits.
    + eapply emits_well_formed; [exact Hw | exact He].
    + apply label_word_ARE.
  - apply label_word_ARE.
  - exists (insert_machine_word tu1 (label_word a r)).
    split; [exact Hl | reflexivity].
Qed.

Lemma process_operand_encoding_emits (l : AbstractLineDescriptor)
  (tu tu' : TranslationUnit) (a : AddressingType) (t : OperandType) :
  well_formed_code tu ->
  process_operand_encoding l tu a t = (false, tu') ->
  exists ws recs, emits tu tu' ws recs.
Proof.
  intros Hw H. destruct a; cbn [process_operand_encoding] in H.
  - unfold encode_immediate_addressing in H.
    destruct (immediate_value _ tu) as [v|]; [|discriminate H].
    destruct (two_complement_validation v); [|discriminate H].
    injection H as <-. exists [immediate_word v], [].
    apply insert_machine_word_emits; [exact Hw | apply immediate_word_ARE].
  - destruct (encode_direct_addressing_emits _ tu tu' Hw H)
      as (w & recs & He & _).
    exists [w], recs. exact He.
  - destruct (encode_fixed_index_addressing_emits _ tu tu' Hw H)
      as (w1 & w2 & recs & He & _).
    exists [w1; w2], recs. exact He.
  - injection H as <-.
    exists [direct_register_word (reg (operand_of (commandInst l) t)) t], [].
    apply insert_machine_word_emits;
      [exact Hw | apply direct_register_word_ARE].
  - injection H as <-. exists [], []. apply emits_refl.
Qed.

Lemma second_pass_line_emits (l : AbstractLineDescriptor)
  (tu tu' : TranslationUnit) :
  well_formed_code tu ->
  second_pass_line l tu = (false, tu') ->
  exists ws recs, emits tu tu' ws recs.
Proof.
  intros Hw H. unfold second_pass_line in H.
  destruct (LineType_is_command (lineType l)); cbn [negb] in H.
  2: { injection H as <-. exists [], []. apply emits_refl. }
  pose proof (insert_machine_word_emits tu
                (first_machine_word (commandInst l)) Hw
                (first_machine_word_ARE _)) as E0.
  fold (firs_machine_word_encoding (commandInst l) tu) in E0.
  pose proof (emits_well_formed _ _ _ _ Hw E0) as Hw0.
  set (tu0 := firs_machine_word_encoding (commandInst l) tu) in *.
  destruct (_ && _).
  - injection H as <-.
    exists ([first_machine_word (commandInst l)]
            ++ [double_direct_register_word (commandInst l)]), ([] ++ []).
    eapply emits_trans; [exact E0|].
    apply insert_machine_word_emits;
      [exact Hw0 | apply double_direct_register_word_ARE].
  - destruct (process_operand_encoding l tu0 _ SOURCE_OPERAND)
      as [e1 tu1] eqn:H1.
    destruct (process_operand_encoding l tu1 _ TARGET_OPERAND)
      as [e2 tu2] eqn:H2.
    injection H as He <-.
    apply orb_false_iff in He. destruct He as [-> ->].
    destruct (process_operand_encoding_emits _ _ _ _ _ Hw0 H1)
      as (ws1 & r1 & E1).
    pose proof (emits_well_formed _ _ _ _ Hw0 E1) as Hw1.
    destruct (process_operand_encoding_emits _ _ _ _ _ Hw1 H2)
      as (ws2 & r2 & E2).
    eexists. eexists.
    eapply emits_trans; [exact E0|].
    eapply emits_trans; [exact E1 | exact E2].
Qed.

Lemma second_pass_lines_flag (ls : list AbstractLineDescriptor)
  (tu : TranslationUnit) :
  fst (second_pass_lines ls true tu) = true.
Proof.
  revert tu. induction ls as [|l ls IH]; intros tu; cbn; [reflexivity|].
  destruct (second_pass_line l tu) as [e tu1]. apply IH.
Qed.

Lemma second_pass_lines_emits (ls : list AbstractLineDescriptor)
  (tu tu' : TranslationUnit) :
  well_formed_code tu ->
  second_pass_lines ls false tu = (false, tu') ->
  exists ws recs, emits tu tu' ws recs.
Proof.
  revert tu. induction ls as [|l ls IH]; intros tu Hw H; cbn in H.
  - injection H as <-. exists [], []. apply emits_refl.
  - destruct (second_pass_line l tu) as [e tu1] eqn:H1.
    destruct e; cbn [orb] in H.
    + pose proof (second_pass_lines_flag ls tu1) as Hf.
      rewrite H in Hf. discriminate Hf.
    + destruct (second_pass_line_emits l tu tu1 Hw H1) as (ws1 & r1 & E1).
      pose proof (emits_well_formed _ _ _ _ Hw E1) as Hw1.
      destruct (IH tu1 Hw1 H) as (ws2 & r2 & E2).
      exists (ws1 ++ ws2), (r1 ++ r2). eapply emits_trans; eassumption.
Qed.

Lemma second_pass_ok (p : AbstractProgram) (tu tu' : TranslationUnit) :
  second_pass p tu = (true, tu') <->
  second_pass_lines (firstn (progSize p) (lines p)) false tu = (false, tu').
Proof.
  unfold second_pass.
  destruct (second_pass_lines _ false tu) as [e tu1].
  split; intros H; injection H as He <-; destruct e; try discriminate He;
    reflexivity.
Qed.

(* ------------------------------------------------------------------------- *)
(** ** The symbol inserted for an [.extern] directive *)

Lemma handle_label_extern_table (l : AbstractLineDescriptor)
  (tu : TranslationUnit) (ic dc : nat) :
  lineType l = DIRECTIVE_INSTRUCTION ->
  dirType l = EXTERN_INST ->
  snd (handle_label l tu ic dc) = tu.
Proof.
  intros Ht Hd. unfold handle_label. rewrite Ht, Hd. cbn.
  destruct (find_symbol _ (symbolTable tu)) as [s|]; [|reflexivity].
  destruct (is_temp_entry (symbolType s)); reflexivity.
Qed.

(** An [.extern NAME] line without error, whose label prefix (if any) raises
    no error and whose NAME is not in the symbol table: the first pass
    appends one symbol of kind [EXTERN_LABEL], whose address field holds the
    instruction counter at that line, converted to [int]. *)
Lemma first_pass_line_extern (st : FirstPassState)
  (l : AbstractLineDescriptor) :
  is_null_or_empty (lineError l) = true ->
  lineType l = DIRECTIVE_INSTRUCTION ->
  dirType l = EXTERN_INST ->
  (is_null_or_empty (lineLabel l) = true
   \/ fst (handle_label l (fp_unit st) (fp_ic st) (fp_dc st)) = false) ->
  find_symbol (entryName l) (symbolTable (fp_unit st)) = None ->
  exists st' : FirstPassState,
    first_pass_line st l = Some st'
    /\ symbolTable (fp_unit st')
       = symbolTable (fp_unit st)
         ++ [ {| symbolName := copy_symbol_name (entryName l);
                 symbolType := EXTERN_LABEL;
                 address := to_int (Z.of_nat (fp_ic st)) |} ]
    /\ fp_ic st' = fp_ic st
    /\ fp_errorFlag st' = fp_errorFlag st.
Proof.
  intros He Ht Hd Hl Hf.
  assert (Hstep :
    first_pass_step l (line_descriptor_builder_effect l (fp_unit st))
                    (fp_ic st) (fp_dc st)
    = Some (insert_symbol_to_table l (fp_unit st) (fp_ic st) (fp_dc st)
                                   EXTERN_LABEL,
            fp_ic st, fp_dc st, false)).
  { unfold first_pass_step, line_descriptor_builder_effect.
    rewrite He, Ht, Hd. cbn [negb LineType_eqb is_data_or_string
                             is_entry_or_extern].
    pose proof (handle_label_extern_table l (fp_unit st) (fp_ic st)
                  (fp_dc st) Ht Hd) as Hs.
    destruct Hl as [Hl|Hl].
    - rewrite Hl. cbn [negb]. unfold handle_entry_extern.
      rewrite Hf, Hd. reflexivity.
    - destruct (negb (is_null_or_empty (lineLabel l))).
      + destruct (handle_label l _ _ _) as [e tu1]. cbn in Hl, Hs. subst.
        unfold handle_entry_extern. rewrite Hf, Hd. reflexivity.
      + unfold handle_entry_extern. rewrite Hf, Hd. reflexivity. }
  unfold first_pass_line. rewrite Hstep. eexists. split; [reflexivity|].
  cbn [next_line fp_unit fp_errorFlag fp_ic].
  split; [reflexivity | split; [reflexivity | apply orb_false_r]].
Qed.

(* ------------------------------------------------------------------------- *)
(** ** The object file of [hlt] *)

(** C3, as the code has it.  The first word of [hlt] is 0x3C0 (opcode 15 in
    bits 9..6, everything else zero); the object file writer prints it as
    the seven characters [**!!***]; an object file that holds this single
    code word and no data has the header line of two spaces, 1, a space and
    0, and the body line of the address 0100, a space and [**!!***]; a
    translation unit without entries and without external uses yields no
    [.ent] and no [.ext] file.  The assembler produces exactly these files
    for the line [hlt] followed by an empty line, whatever the block of the
    translation unit held. *)
Theorem C3_hlt_object_file :
  first_machine_word (commandInst hlt_line) = 960
  /\ print_encoded_base4_machine_word 960 = "**!!***"%string
  /\ generate_ob_file [960] 1 [] 0 = hlt_ob_file
  /\ (forall garbage : nat,
         process_file garbage [hlt_line; empty_line]
         = Some (Some {| ob_file := hlt_ob_file; ent_file := None;
                         ext_file := None |})).
Proof. repeat split; reflexivity. Qed.

(** For the single line [hlt] the assembler writes an object file, which is
    not the one announced: it is not announced for the word of [hlt]
    either, whose characters are [**!!***] and not [!!!!!!!]. *)
Lemma C3_hlt_counterexample :
  ("  0 0" ++ newline)%string <> spec_hlt_ob_file
  /\ generate_ob_file [first_machine_word (commandInst hlt_line)] 1 [] 0
     <> spec_hlt_ob_file
  /\ (forall garbage : nat,
         process_file garbage [hlt_line]
         = Some (Some {| ob_file := ("  0 0" ++ newline)%string;
                         ent_file := None; ext_file := None |})).
Proof.
  split; [|split]; [intros H; discriminate H | intros H; discriminate H |].
  intros garbage. reflexivity.
Qed.

(* ------------------------------------------------------------------------- *)
(** ** The element [0] of a [.data] directive *)

(** When the first word of the text is not the name of a constant, the value
    is the integer the text starts with. *)
Lemma data_value_not_constant (tu : TranslationUnit) (line : string) :
  is_end line = false ->
  extract_constant (snd (safe_word_extraction_until_comma line)) tu = None ->
  data_directive_value_extraction tu line = extract_integer line.
Proof.
  intros Hl Hc. unfold data_directive_value_extraction. rewrite Hl.
  destruct (safe_word_extraction_until_comma line) as [b w].
  cbn [snd] in Hc. unfold extract_constant in Hc. now rewrite Hc.
Qed.

(** C9, as the code has it.  The element [0] of a [.data] directive is
    accepted: the value extracted from the text [0], followed by the end of
    the line or by a comma, is 0; [is_valid_data_directive] accepts [0]; and
    [data_directive_handling] makes of the line [.data 0] a data directive
    whose only value is 0, without error.  The value that is refused when it
    is written [0] is the value of a constant definition:
    [is_decimal_integer] refuses every text whose first digit is [0]. *)
Theorem C9_data_zero_accepted (tu : TranslationUnit) :
  extract_constant "0" tu = None ->
  extract_constant "" tu = None ->
  data_directive_value_extraction tu "0" = Some 0
  /\ data_directive_value_extraction tu ("0" ++ newline) = Some 0
  /\ (forall r : string,
         data_directive_value_extraction tu (String "0" (String "," r))
         = Some 0)
  /\ is_valid_data_directive "0" = true
  /\ (forall (fuel : nat) (l : AbstractLineDescriptor),
         lineError l = None ->
         option_map (fun l' => (lineError l', lineType l', dirType l',
                                dataInst l'))
                    (data_directive_handling (S (S fuel)) l tu data_zero_text)
         = Some (None, DIRECTIVE_INSTRUCTION, DATA_INST, [0]))
  /\ (forall s : string, is_decimal_integer (String "0" s) = false).
Proof.
  intros H0 He.
  assert (Hn : data_directive_value_extraction tu ("0" ++ newline) = Some 0).
  { rewrite data_value_not_constant; [reflexivity | reflexivity | exact H0]. }
  assert (Hx : data_directive_value_extraction tu newline = None).
  { rewrite data_value_not_constant; [reflexivity | reflexivity | exact He]. }
  split; [|split; [exact Hn | split; [|split; [|split]]]].
  - rewrite data_value_not_constant; [reflexivity | reflexivity | exact H0].
  - intros r.
    rewrite data_value_not_constant; [reflexivity | reflexivity | exact H0].
  - reflexivity.
  - intros fuel l Hl. unfold data_directive_handling, data_zero_text.
    change (MOVE_TO_NON_WHITE (" 0" ++ newline)) with ("0" ++ newline)%string.
    cbn [data_values_loop]. change (is_end ("0" ++ newline)) with false.
    cbv iota. rewrite Hn.
    change (MOVE_TO_NON_WHITE
              (MOVE_TO_NEXT_DATA (MOVE_TO_NON_WHITE ("0" ++ newline))))
      with newline.
    change (negb (is_end newline)
            && negb (Ascii.eqb (head_char newline) (ascii_of_nat 10)))
      with false.
    cbv iota.
    destruct fuel; cbn [data_values_loop]; change (is_end newline) with false;
      cbv iota; rewrite Hx; cbn; rewrite ?Hl; reflexivity.
  - intros s. reflexivity.
Qed.

(** The line [.data 0] becomes a data directive holding the value 0; the
    first pass raises no error on it and appends 0 to the data image. *)
Lemma C9_data_zero_counterexample :
  data_directive_handling 3 blank_line fresh_unit data_zero_text
  = Some (data_line [0])
  /\ (forall garbage : nat,
         option_map (fun r => fst (fst r))
           (first_pass [data_line [0]; empty_line]
                       (initialize_translation_unit garbage)) = Some true
         /\ option_map dataImage
              (unit_after_first_pass garbage [data_line [0]; empty_line])
            = Some [0]).
Proof.
  split; [reflexivity|]. intros garbage. unfold unit_after_first_pass.
  destruct garbage as [|garbage]; split; reflexivity.
Qed.

Lemma C9_data_zero_accepted_witness :
  data_directive_value_extraction fresh_unit "0" = Some 0
  /\ option_map dataInst
       (data_directive_handling 2 blank_line fresh_unit data_zero_text)
     = Some [0].
Proof.
  destruct (C9_data_zero_accepted fresh_unit eq_refl eq_refl)
    as (H1 & _ & _ & _ & H5 & _).
  split; [exact H1|].
  specialize (H5 0%nat blank_line eq_refl).
  destruct (data_directive_handling 2 blank_line fresh_unit
                                    data_zero_text) as [l'|];
    [|discriminate H5].
  cbn in H5 |- *. injection H5 as _ _ _ ->. reflexivity.
Defined.

(* ------------------------------------------------------------------------- *)
(** ** Whole programs: the externals list and the order of the output lines *)

Section QsortSorted.

Variable A : Type.
Variable cmp : A -> A -> Z.
Variable key : A -> Z.
Variable P : A -> Prop.

(** On the elements that satisfy [P] the comparison function orders by
    [key]. *)
Hypothesis cmp_key :
  forall x y : A, P x -> P y -> (cmp x y <= 0 <-> key x <= key y).

Lemma qsort_insert_Forall (Q : A -> Prop) (x : A) (l : list A) :
  Q x -> Forall Q l -> Forall Q (qsort_insert cmp x l).
Proof.
  intros Hx Hl. induction Hl as [|y l Hy Hl IH]; cbn.
  - constructor; [exact Hx | constructor].
  - destruct (cmp x y <=? 0).
    + constructor; [exact Hx | constructor; assumption].
    + constructor; assumption.
Qed.

Lemma qsort_Forall (Q : A -> Prop) (l : list A) :
  Forall Q l -> Forall Q (qsort cmp l).
Proof.
  intros Hl. induction Hl as [|x l Hx Hl IH]; cbn.
  - constructor.
  - now apply qsort_insert_Forall.
Qed.

Lemma qsort_insert_sorted (x : A) (l : list A) :
  P x -> Forall P l -> StronglySorted (key_le key) l ->
  StronglySorted (key_le key) (qsort_insert cmp x l).
Proof.
  intros Hx Hl Hs. induction Hs as [|y l Hs IH Hy]; cbn.
  - constructor; constructor.
  - inversion Hl as [|? ? HPy HPl]; subst.
    destruct (cmp x y <=? 0) eqn:E.
    + apply Z.leb_le, (cmp_key x y Hx HPy) in E.
      constructor; [constructor; assumption|].
      constructor; [exact E|].
      eapply Forall_impl; [|exact Hy].
      intros z Hz. unfold key_le in *. lia.
    + apply Z.leb_gt in E.
      assert (Hlt : key y <= key x).
      { destruct (Z.le_gt_cases (key x) (key y)) as [H|H]; [|lia].
        apply (cmp_key x y Hx HPy) in H. lia. }
      constructor; [apply IH; assumption|].
      apply qsort_insert_Forall; assumption.
Qed.

Lemma qsort_sorted (l : list A) :
  Forall P l -> StronglySorted (key_le key) (qsort cmp l).
Proof.
  intros Hl. induction Hl as [|x l Hx Hl IH]; cbn.
  - constructor.
  - apply qsort_insert_sorted; [exact Hx | now apply qsort_Forall | exact IH].
Qed.

End QsortSorted.

Lemma key_sorted_map {A : Type} (key : A -> Z) (l : list A) :
  StronglySorted (key_le key) l -> Sorted Z.le (map key l).
Proof.
  intros H. apply StronglySorted_Sorted.
  induction H as [|x l Hs IH Hx]; cbn; constructor; [exact IH|].
  apply Forall_map. exact Hx.
Qed.

Lemma short_list_sorted {A : Type} (key : A -> Z) (l : list A) :
  (List.length l <= 1)%nat -> StronglySorted (key_le key) l.
Proof.
  destruct l as [|x [|y l]]; cbn; intros H.
  - constructor.
  - constructor; constructor.
  - lia.
Qed.

(** The recorded addresses of external uses increase with the index of the
    word. *)
Lemma extern_use_addresses_sorted (ws : list Z) (base : nat) :
  Z.of_nat (base + List.length ws) < 2 ^ 31 ->
  StronglySorted Z.le (extern_use_addresses base ws)
  /\ Forall (fun a => Z.of_nat base <= a < Z.of_nat (base + List.length ws))
            (extern_use_addresses base ws).
Proof.
  revert base. induction ws as [|w ws IH]; intros base Hb; cbn.
  - split; constructor.
  - cbn [List.length] in Hb.
    replace (base + S (List.length ws))%nat
      with (S base + List.length ws)%nat in * by lia.
    destruct (IH (S base) Hb) as [Hs Hf].
    assert (Hf' : Forall (fun a => Z.of_nat base <= a
                                   < Z.of_nat (S base + List.length ws))
                         (extern_use_addresses (S base) ws)).
    { eapply Forall_impl; [|exact Hf]. cbn beta. intros a Ha. lia. }
    destruct (ARE_bits w =? 1); cbn [app]; [|split; assumption].
    rewrite to_int_id by lia. split.
    + constructor; [exact Hs|].
      eapply Forall_impl; [|exact Hf]. cbn beta. intros a Ha. lia.
    + constructor; [lia | exact Hf'].
Qed.

(** *** What the first pass leaves in the symbol table *)

Lemma same_output_lists_refl (tu : TranslationUnit) :
  same_output_lists tu tu.
Proof. unfold same_output_lists. auto. Qed.

Lemma same_output_lists_trans (a b c : TranslationUnit) :
  same_output_lists a b -> same_output_lists b c -> same_output_lists a c.
Proof.
  unfold same_output_lists.
  intros (H1 & H2 & H3 & H4) (K1 & K2 & K3 & K4).
  repeat split; congruence.
Qed.

Ltac same_lists :=
  unfold same_output_lists; cbn; repeat split; reflexivity.

Lemma symbol_in_range_mono (ic dc ic' dc' : nat) (s : Symbol) :
  (ic <= ic')%nat -> (dc <= dc')%nat ->
  symbol_in_range ic dc s -> symbol_in_range ic' dc' s.
Proof.
  unfold symbol_in_range. intros Hi Hd [Hc Hx]. split; intros H.
  - specialize (Hc H). lia.
  - specialize (Hx H). lia.
Qed.

Lemma symbols_in_range_mono (ic dc ic' dc' : nat) (tu : TranslationUnit) :
  (ic <= ic')%nat -> (dc <= dc')%nat ->
  symbols_in_range ic dc tu -> symbols_in_range ic' dc' tu.
Proof.
  unfold symbols_in_range. intros Hi Hd H.
  eapply Forall_impl; [|exact H].
  intros s. now apply symbol_in_range_mono.
Qed.

Lemma find_first_symbol_In (table : list Symbol) (name : string)
  (s : Symbol) :
  find_first_symbol table name = Some s -> In s table.
Proof.
  induction table as [|x table IH]; cbn; intros H; [discriminate H|].
  destruct (String.eqb name (symbolName x)).
  - injection H as <-. now left.
  - right. now apply IH.
Qed.

Lemma update_symbol_Forall (P : Symbol -> Prop) (table : list Symbol)
  (name : string) (f : Symbol -> Symbol) (s0 : Symbol) :
  find_first_symbol table name = Some s0 ->
  P (f s0) -> Forall P table -> Forall P (update_symbol table name f).
Proof.
  intros Hf Hp Hall. induction Hall as [|s table Hs Hall IH]; cbn in *.
  - constructor.
  - destruct (String.eqb name (symbolName s)).
    + injection Hf as <-. constructor; assumption.
    + constructor; [exact Hs | now apply IH].
Qed.

Lemma insert_symbol_to_table_inv (l : AbstractLineDescriptor)
  (tu : TranslationUnit) (ic dc : nat) (t : SymbolType) :
  same_output_lists tu (insert_symbol_to_table l tu ic dc t)
  /\ (Z.of_nat ic < 2 ^ 31 -> Z.of_nat dc < 2 ^ 31 ->
      symbols_in_range ic dc tu ->
      symbols_in_range ic dc (insert_symbol_to_table l tu ic dc t)).
Proof.
  split.
  - destruct t; cbn; same_lists.
  - intros Hi Hd H. unfold symbols_in_range in *.
    destruct t; cbn [insert_symbol_to_table set_symbolTable symbolTable];
      try exact H;
      apply Forall_app; (split; [exact H|]);
      (constructor; [|constructor]);
      unfold symbol_in_range; cbn [symbolType address is_code_symbol
                                   is_data_symbol];
      (split; intros E; try discriminate E);
      rewrite to_int_id by lia; lia.
Qed.

Lemma handle_label_inv (l : AbstractLineDescriptor) (tu : TranslationUnit)
  (ic dc : nat) :
  same_output_lists tu (snd (handle_label l tu ic dc))
  /\ (Z.of_nat ic < 2 ^ 31 -> Z.of_nat dc < 2 ^ 31 ->
      symbols_in_range ic dc tu ->
      symbols_in_range ic dc (snd (handle_label l tu ic dc))).
Proof.
  unfold handle_label, find_symbol.
  destruct (find_first_symbol (symbolTable tu) (deref (lineLabel l)))
    as [s|] eqn:Hf.
  - destruct (is_temp_entry (symbolType s)).
    2: { cbn. split; [same_lists | auto]. }
    destruct (lineType l);
      try solve [cbn; split; [same_lists | auto]].
    + destruct (is_data_or_string (dirType l)); cbn [snd].
      * split; [same_lists|].
        intros Hi Hd H. unfold symbols_in_range in *. cbn.
        eapply update_symbol_Forall; [exact Hf | | exact H].
        unfold symbol_in_range. cbn.
        split; intros E; try discriminate E.
        rewrite to_int_id by lia. lia.
      * split; [same_lists | auto].
    + cbn [snd]. split; [same_lists|].
      intros Hi Hd H. unfold symbols_in_range in *. cbn.
      eapply update_symbol_Forall; [exact Hf | | exact H].
      unfold symbol_in_range. cbn.
      split; intros E; try discriminate E.
      rewrite to_int_id by lia. lia.
  - destruct (lineType l);
      try solve [cbn; split; [same_lists | auto]].
    + destruct (is_data_or_string (dirType l)); cbn [snd].
      * apply insert_symbol_to_table_inv.
      * split; [same_lists | auto].
    + cbn [snd]. apply insert_symbol_to_table_inv.
Qed.

Lemma handle_entry_extern_inv (l : AbstractLineDescriptor)
  (tu : TranslationUnit) (ic dc : nat) :
  same_output_lists tu (snd (handle_entry_extern l tu ic dc))
  /\ (Z.of_nat ic < 2 ^ 31 -> Z.of_nat dc < 2 ^ 31 ->
      symbols_in_range ic dc tu ->
      symbols_in_range ic dc (snd (handle_entry_extern l tu ic dc))).
Proof.
  unfold handle_entry_extern, find_symbol.
  destruct (find_first_symbol (symbolTable tu) (entryName l))
    as [s|] eqn:Hf.
  - destruct (dirType l);
      try solve [cbn; split; [same_lists | auto]].
    destruct (symbolType s) eqn:Ht;
      try solve [cbn; split; [same_lists | auto]].
    + cbn [snd]. split; [same_lists|].
      intros Hi Hd H. unfold symbols_in_range in *. cbn.
      eapply update_symbol_Forall; [exact Hf | | exact H].
      assert (Hs : symbol_in_range ic dc s).
      { apply find_first_symbol_In in Hf.
        eapply Forall_forall in H; [exact H | exact Hf]. }
      unfold symbol_in_range in *. rewrite Ht in Hs. cbn in *.
      split; intros E; try discriminate E. now apply Hs.
    + cbn [snd]. split; [same_lists|].
      intros Hi Hd H. unfold symbols_in_range in *. cbn.
      eapply update_symbol_Forall; [exact Hf | | exact H].
      assert (Hs : symbol_in_range ic dc s).
      { apply find_first_symbol_In in Hf.
        eapply Forall_forall in H; [exact H | exact Hf]. }
      unfold symbol_in_range in *. rewrite Ht in Hs. cbn in *.
      split; intros E; try discriminate E. now apply Hs.
  - destruct (dirType l);
      try solve [cbn; split; [same_lists | auto]];
      cbn [snd]; apply insert_symbol_to_table_inv.
Qed.

Lemma data_image_write_inv (cells : list Z) (tu tu' : TranslationUnit)
  (dc dc' : nat) :
  data_image_write cells tu dc = Some (tu', dc') ->
  same_output_lists tu tu'
  /\ symbolTable tu' = symbolTable tu
  /\ constantList tu' = constantList tu
  /\ (dc <= dc')%nat.
Proof.
  intros H. apply data_image_write_result in H. cbv zeta in H.
  destruct H as (_ & -> & ->).
  destruct (_ <? _)%nat; cbn; repeat split; try reflexivity; lia.
Qed.

Lemma handle_data_image_inv (l : AbstractLineDescriptor)
  (tu tu' : TranslationUnit) (dc dc' : nat) :
  handle_data_image l tu dc = Some (tu', dc') ->
  same_output_lists tu tu'
  /\ symbolTable tu' = symbolTable tu
  /\ (dc <= dc')%nat.
Proof.
  unfold handle_data_image, int_data_image_update, string_data_image_update.
  destruct (dirType l); intros H;
    try (injection H as <- <-;
         split; [apply same_output_lists_refl | split; [reflexivity | lia]]);
    apply data_image_write_inv in H; destruct H as (A & B & _ & C); auto.
Qed.

Ltac step_inv :=
  refine (conj _ (conj _ (conj _ (conj _ _))));
  [ | lia | lia | first [discriminate | intros _; lia] | ].

(** One line of the first pass: the code image and the two output lists are
    left alone; the counters do not decrease; a line without error advances
    the instruction counter by the size of its command; and the addresses of
    the labels stay within the counters, as long as these fit an [int]. *)
Lemma first_pass_step_inv (l : AbstractLineDescriptor)
  (tu tu' : TranslationUnit) (ic dc ic' dc' : nat) (err : bool) :
  first_pass_step l tu ic dc = Some (tu', ic', dc', err) ->
  same_output_lists tu tu'
  /\ (ic <= ic')%nat /\ (dc <= dc')%nat
  /\ (err = false -> ic' = (ic + command_size l)%nat)
  /\ (Z.of_nat ic' < 2 ^ 31 -> Z.of_nat dc' < 2 ^ 31 ->
      symbols_in_range ic dc tu -> symbols_in_range ic' dc' tu').
Proof.
  intros H. unfold first_pass_step in H. unfold command_size.
  destruct (negb (is_null_or_empty (lineError l))).
  { injection H as <- <- <- <-.
    step_inv; [apply same_output_lists_refl | auto]. }
  pose proof (handle_label_inv l tu ic dc) as [Lf Lr].
  assert (Hlab : exists e tu1,
    (if negb (is_null_or_empty (lineLabel l))
     then handle_label l tu ic dc else (false, tu)) = (e, tu1)
    /\ same_output_lists tu tu1
    /\ (Z.of_nat ic < 2 ^ 31 -> Z.of_nat dc < 2 ^ 31 ->
        symbols_in_range ic dc tu -> symbols_in_range ic dc tu1)).
  { destruct (negb (is_null_or_empty (lineLabel l))).
    - destruct (handle_label l tu ic dc) as [e tu1]. exists e, tu1. auto.
    - exists false, tu. split; [reflexivity|].
      split; [apply same_output_lists_refl | auto]. }
  destruct Hlab as (e & tu1 & Hlab & Lf1 & Lr1). clear Lf Lr.
  destruct (lineType l) eqn:Ht; cbn [LineType_is_command];
    try rewrite Hlab in H.
  - (* EMPTY *)
    injection H as <- <- <- <-.
    step_inv; [apply same_output_lists_refl | auto].
  - (* COMMENT *)
    injection H as <- <- <- <-.
    step_inv; [apply same_output_lists_refl | auto].
  - (* DIRECTIVE_INSTRUCTION *)
    destruct e.
    { injection H as <- <- <- <-. step_inv; [exact Lf1 | exact Lr1]. }
    destruct (if is_data_or_string (dirType l)
              then handle_data_image l tu1 dc else Some (tu1, dc))
      as [[tu2 dc2]|] eqn:Hdat; [|discriminate H].
    assert (Hd2 : same_output_lists tu1 tu2
                  /\ symbolTable tu2 = symbolTable tu1 /\ (dc <= dc2)%nat).
    { destruct (is_data_or_string (dirType l)).
      - exact (handle_data_image_inv l tu1 tu2 dc dc2 Hdat).
      - injection Hdat as <- <-.
        split; [apply same_output_lists_refl | auto]. }
    destruct Hd2 as (Df2 & Ds2 & Dd2).
    assert (R2 : Z.of_nat ic < 2 ^ 31 -> Z.of_nat dc2 < 2 ^ 31 ->
                 symbols_in_range ic dc tu -> symbols_in_range ic dc2 tu2).
    { intros Hi Hd Hr. unfold symbols_in_range. rewrite Ds2.
      apply (symbols_in_range_mono ic dc ic dc2); [lia | exact Dd2|].
      apply Lr1; [exact Hi | lia | exact Hr]. }
    destruct (is_entry_or_extern (dirType l)).
    + pose proof (handle_entry_extern_inv l tu2 ic dc2) as [Ef Er].
      destruct (handle_entry_extern l tu2 ic dc2) as [err' tu3].
      injection H as <- <- <- <-. cbn [snd] in *.
      refine (conj _ (conj _ (conj _ (conj _ _)))); try lia.
      * eapply same_output_lists_trans; [exact Lf1|].
        eapply same_output_lists_trans; [exact Df2 | exact Ef].
      * intros Hi Hd Hr. apply Er; auto.
    + injection H as <- <- <- <-.
      step_inv; [|exact R2].
      eapply same_output_lists_trans; [exact Lf1 | exact Df2].
  - (* COMMAND_INSTRUCTION *)
    destruct e.
    { injection H as <- <- <- <-. step_inv; [exact Lf1 | exact Lr1]. }
    destruct (negb (is_legal_command l)); injection H as <- <- <- <-.
    + step_inv; [exact Lf1 | exact Lr1].
    + step_inv; [exact Lf1|].
      intros Hi Hd Hr.
      apply (symbols_in_range_mono ic dc (ic + ic_promoter l) dc);
        [lia | lia |].
      apply Lr1; [lia | exact Hd | exact Hr].
  - (* CONSTANT_DEF_INSTRUCTION *)
    destruct e.
    { injection H as <- <- <- <-. step_inv; [exact Lf1 | exact Lr1]. }
    destruct (find_symbol _ (symbolTable tu1)).
    + injection H as <- <- <- <-. step_inv; [exact Lf1 | exact Lr1].
    + pose proof (insert_symbol_to_table_inv l tu1 ic dc DEFINED_CONSTANT)
        as [If Ir].
      injection H as <- <- <- <-.
      step_inv.
      * eapply same_output_lists_trans; [exact Lf1 | exact If].
      * intros Hi Hd Hr. apply Ir; auto.
  - (* INIT_VAL *)
    destruct e; injection H as <- <- <- <-;
      (step_inv; [exact Lf1 | exact Lr1]).
Qed.

Lemma line_descriptor_builder_effect_inv (l : AbstractLineDescriptor)
  (tu : TranslationUnit) :
  same_output_lists tu (line_descriptor_builder_effect l tu)
  /\ symbolTable (line_descriptor_builder_effect l tu) = symbolTable tu.
Proof.
  unfold line_descriptor_builder_effect.
  destruct (LineType_eqb (lineType l) CONSTANT_DEF_INSTRUCTION);
    split; try reflexivity; same_lists.
Qed.

Lemma first_pass_line_inv (st st' : FirstPassState)
  (l : AbstractLineDescriptor) :
  first_pass_line st l = Some st' ->
  same_output_lists (fp_unit st) (fp_unit st')
  /\ (fp_ic st <= fp_ic st')%nat /\ (fp_dc st <= fp_dc st')%nat
  /\ (fp_errorFlag st' = false ->
      fp_errorFlag st = false
      /\ fp_ic st' = (fp_ic st + command_size l)%nat)
  /\ (Z.of_nat (fp_ic st') < 2 ^ 31 -> Z.of_nat (fp_dc st') < 2 ^ 31 ->
      symbols_in_range (fp_ic st) (fp_dc st) (fp_unit st) ->
      symbols_in_range (fp_ic st') (fp_dc st') (fp_unit st')).
Proof.
  unfold first_pass_line. intros H.
  pose proof (line_descriptor_builder_effect_inv l (fp_unit st)) as [Bf Bs].
  destruct (first_pass_step l _ (fp_ic st) (fp_dc st))
    as [[[[tu' ic'] dc'] err]|] eqn:Hs; [|discriminate H].
  injection H as <-.
  apply first_pass_step_inv in Hs.
  destruct Hs as (Sf & Si & Sd & Se & Sr).
  cbn [next_line fp_unit fp_ic fp_dc fp_errorFlag].
  refine (conj _ (conj Si (conj Sd (conj _ _)))).
  - eapply same_output_lists_trans; [exact Bf | exact Sf].
  - intros E. apply orb_false_iff in E. destruct E as [E1 E2].
    split; [exact E1 | now apply Se].
  - intros Hi Hd Hr. apply Sr; try assumption.
    unfold symbols_in_range in *. now rewrite Bs.
Qed.

Lemma first_pass_line_program (st st' : FirstPassState)
  (l : AbstractLineDescriptor) :
  first_pass_line st l = Some st' ->
  program_counted st ->
  program_counted st'
  /\ lines (fp_program st') = lines (fp_program st) ++ [l].
Proof.
  unfold program_counted, first_pass_line. intros H [Hc Hp].
  destruct (first_pass_step l _ (fp_ic st) (fp_dc st))
    as [[[[tu' ic'] dc'] err]|]; [|discriminate H].
  injection H as <-.
  cbn [next_line fp_program fp_lineCount lines progSize].
  rewrite Hc, Hp.
  destruct (lines (fp_program st)) as [|x rest] eqn:El.
  - cbn. auto.
  - assert (Hl : (1 <? S (List.length (x :: rest)))%nat = true).
    { apply Nat.ltb_lt. cbn. lia. }
    rewrite Hl.
    replace (S (pred (List.length (x :: rest))))
      with (List.length (x :: rest)) by (cbn; lia).
    rewrite array_store_end, length_app. cbn [List.length].
    split; [split; lia | reflexivity].
Qed.

Lemma first_pass_loop_cons (l : AbstractLineDescriptor)
  (ls : list AbstractLineDescriptor) (st st' : FirstPassState) :
  first_pass_loop (l :: ls) st = Some st' ->
  exists st1 : FirstPassState,
    first_pass_line st l = Some st1 /\ first_pass_loop ls st1 = Some st'.
Proof.
  cbn [first_pass_loop].
  destruct (first_pass_line st l) as [st1|]; [|intros H; discriminate H].
  intros H. exists st1. auto.
Qed.

Lemma first_pass_loop_inv (ls : list AbstractLineDescriptor)
  (st st' : FirstPassState) :
  first_pass_loop ls st = Some st' ->
  same_output_lists (fp_unit st) (fp_unit st')
  /\ (fp_ic st <= fp_ic st')%nat /\ (fp_dc st <= fp_dc st')%nat
  /\ (fp_errorFlag st' = false ->
      fp_errorFlag st = false
      /\ fp_ic st' = (fp_ic st + code_size ls)%nat)
  /\ (Z.of_nat (fp_ic st') < 2 ^ 31 -> Z.of_nat (fp_dc st') < 2 ^ 31 ->
      symbols_in_range (fp_ic st) (fp_dc st) (fp_unit st) ->
      symbols_in_range (fp_ic st') (fp_dc st') (fp_unit st'))
  /\ (program_counted st ->
      program_counted st'
      /\ lines (fp_program st') = lines (fp_program st) ++ ls).
Proof.
  revert st. induction ls as [|l ls IH]; intros st H.
  - cbn [first_pass_loop code_size fold_right] in *. injection H as <-.
    refine (conj (same_output_lists_refl _)
                 (conj _ (conj _ (conj _ (conj _ _))))); try lia; auto.
    intros Hp. now rewrite app_nil_r.
  - apply first_pass_loop_cons in H. destruct H as (st1 & H1 & H).
    destruct (IH st1 H) as (If & Ii & Id & Ie & Ir & Ip).
    destruct (first_pass_line_inv st st1 l H1) as (Lf & Li & Ld & Le & Lr).
    refine (conj _ (conj _ (conj _ (conj _ (conj _ _))))).
    + eapply same_output_lists_trans; [exact Lf | exact If].
    + lia.
    + lia.
    + intros E. destruct (Ie E) as [E1 E2]. destruct (Le E1) as [E3 E4].
      split; [exact E3|]. cbn [code_size fold_right].
      fold (code_size ls). lia.
    + intros Hi Hd Hr. apply Ir; try assumption.
      apply Lr; try assumption; lia.
    + intros Hp.
      destruct (first_pass_line_program st st1 l H1 Hp) as [Hp1 Hl1].
      destruct (Ip Hp1) as [Hp2 Hl2].
      split; [exact Hp2|]. rewrite Hl2, Hl1, <- app_assoc. reflexivity.
Qed.

(** *** The second pass never runs ahead of the first *)

Lemma second_pass_line_IC_le (l : AbstractLineDescriptor)
  (tu : TranslationUnit) :
  (IC (snd (second_pass_line l tu)) <= IC tu + command_size l)%nat.
Proof.
  unfold command_size.
  destruct (LineType_is_command (lineType l)) eqn:Hc.
  - assert (Ht : lineType l = COMMAND_INSTRUCTION)
      by (destruct (lineType l); try discriminate Hc; reflexivity).
    destruct (second_pass_line_size l tu Ht) as [Hb Hn].
    destruct (both_direct_register_test (commandInst l)) as [T1 T2].
    destruct (AddressingType_eqb (sourceOperandAddressingType (commandInst l))
                                 DIRECT_REGISTER_ADDR
              && AddressingType_eqb
                   (targetOperandAddressingType (commandInst l))
                   DIRECT_REGISTER_ADDR) eqn:E.
    + destruct (Hb (T1 eq_refl)) as (A & _ & B). lia.
    + assert (Hnb : ~ both_direct_register (commandInst l)).
      { intros K. apply T2 in K. discriminate K. }
      destruct (Hn Hnb) as (_ & B & _). exact B.
  - unfold second_pass_line. rewrite Hc. cbn. lia.
Qed.

Lemma second_pass_lines_IC_le (ls : list AbstractLineDescriptor) (e : bool)
  (tu : TranslationUnit) :
  (IC (snd (second_pass_lines ls e tu)) <= IC tu + code_size ls)%nat.
Proof.
  revert e tu. induction ls as [|l ls IH]; intros e tu; cbn.
  - lia.
  - pose proof (second_pass_line_IC_le l tu) as H1.
    destruct (second_pass_line l tu) as [e1 tu1]. cbn [snd] in H1.
    specialize (IH (e || e1) tu1). fold (code_size ls). lia.
Qed.

Lemma code_size_firstn (n : nat) (ls : list AbstractLineDescriptor) :
  (code_size (firstn n ls) <= code_size ls)%nat.
Proof.
  revert n. induction ls as [|l ls IH]; intros [|n]; cbn; try lia.
  specialize (IH n). fold (code_size (firstn n ls)). fold (code_size ls). lia.
Qed.

Lemma second_pass_line_exact (l : AbstractLineDescriptor)
  (tu tu' : TranslationUnit) :
  second_pass_line l tu = (false, tu') ->
  IC tu' = (IC tu + command_size l)%nat.
Proof.
  intros H. unfold command_size.
  destruct (LineType_is_command (lineType l)) eqn:Hc.
  - assert (Ht : lineType l = COMMAND_INSTRUCTION)
      by (destruct (lineType l); try discriminate Hc; reflexivity).
    destruct (second_pass_line_size l tu Ht) as (Hb & Hn).
    destruct (both_direct_register_test (commandInst l)) as (T1 & T2).
    destruct (AddressingType_eqb (sourceOperandAddressingType (commandInst l))
                                 DIRECT_REGISTER_ADDR
              && AddressingType_eqb
                   (targetOperandAddressingType (commandInst l))
                   DIRECT_REGISTER_ADDR) eqn:E.
    + destruct (Hb (T1 eq_refl)) as (A & _ & B).
      rewrite H in B. cbn [snd] in B. lia.
    + assert (Hnb : ~ both_direct_register (commandInst l)).
      { intros K. apply T2 in K. discriminate K. }
      destruct (Hn Hnb) as (_ & _ & B).
      rewrite H in B. cbn [fst snd] in B. now apply B.
  - unfold second_pass_line in H. rewrite Hc in H. cbn in H.
    injection H as <-. lia.
Qed.

Lemma second_pass_lines_exact (ls : list AbstractLineDescriptor)
  (tu tu' : TranslationUnit) :
  second_pass_lines ls false tu = (false, tu') ->
  IC tu' = (IC tu + code_size ls)%nat.
Proof.
  revert tu. induction ls as [ | l ls IH]; intros tu H; cbn in H.
  - injection H as <-. cbn. lia.
  - destruct (second_pass_line l tu) as [e tu1] eqn:Hl.
    destruct e.
    + pose proof (second_pass_lines_flag ls tu1) as F.
      rewrite H in F. discriminate F.
    + apply second_pass_line_exact in Hl. apply IH in H.
      cbn [code_size fold_right]. fold (code_size ls). lia.
Qed.

Lemma code_size_app (a b : list AbstractLineDescriptor) :
  code_size (a ++ b) = (code_size a + code_size b)%nat.
Proof.
  induction a as [ | l a IH]; cbn; [reflexivity | ].
  fold (code_size (a ++ b)). fold (code_size a). lia.
Qed.

(** *** The words the second pass appends *)

Lemma appends_refl (tu : TranslationUnit) : appends tu tu [].
Proof. unfold appends. rewrite app_nil_r. cbn. split; [reflexivity | lia]. Qed.

Lemma appends_trans (tu tu1 tu2 : TranslationUnit) (ws1 ws2 : list Z) :
  appends tu tu1 ws1 -> appends tu1 tu2 ws2 -> appends tu tu2 (ws1 ++ ws2).
Proof.
  intros [C1 I1] [C2 I2]. unfold appends. split.
  - now rewrite C2, C1, app_assoc.
  - rewrite I2, I1, length_app. lia.
Qed.

Lemma appends_well_formed (tu tu' : TranslationUnit) (ws : list Z) :
  well_formed_code tu -> appends tu tu' ws -> well_formed_code tu'.
Proof.
  unfold well_formed_code. intros Hw [Hc Hi].
  rewrite Hi, Hc, length_app, Hw. reflexivity.
Qed.

Lemma insert_machine_word_appends (tu : TranslationUnit) (w : Z) :
  well_formed_code tu -> appends tu (insert_machine_word tu w) [w].
Proof.
  unfold well_formed_code, appends. intros Hw. cbn.
  rewrite Hw, array_store_end. split; [reflexivity | lia].
Qed.

Lemma find_label_addressing_appends (name : string) (tu : TranslationUnit) :
  appends tu (snd (find_label_addressing name tu)) [].
Proof.
  destruct (find_label_addressing_code name tu) as (Hi & Hc & _).
  unfold appends. rewrite Hi, Hc, app_nil_r. cbn. split; [reflexivity | lia].
Qed.

(** An operand appends as many words as it contributes to the size, or none
    when its encoding reports an error. *)
Lemma process_operand_encoding_words (l : AbstractLineDescriptor)
  (tu : TranslationUnit) (a : AddressingType) (t : OperandType) :
  well_formed_code tu ->
  exists ws : list Z,
    appends tu (snd (process_operand_encoding l tu a t)) ws
    /\ List.length ws
       = (if fst (process_operand_encoding l tu a t) then 0
          else spec_operand_contribution a)%nat.
Proof.
  intros Hw.
  destruct a; cbn [process_operand_encoding spec_operand_contribution].
  - unfold encode_immediate_addressing.
    destruct (immediate_value _ tu) as [v|]; cbn [fst snd].
    + destruct (two_complement_validation v); cbn [negb fst snd].
      * exists [immediate_word v]. split; [|reflexivity].
        now apply insert_machine_word_appends.
      * exists []. split; [apply appends_refl | reflexivity].
    + exists []. split; [apply appends_refl | reflexivity].
  - unfold encode_direct_addressing.
    pose proof (find_label_addressing_appends
                  (addressingLabel (operand_of (commandInst l) t)) tu) as A.
    destruct (find_label_addressing _ tu) as [[[v r]|] tu1]; cbn [fst snd] in *.
    + exists ([] ++ [label_word v r]). split; [|reflexivity].
      eapply appends_trans; [exact A|].
      apply insert_machine_word_appends.
      exact (appends_well_formed _ _ _ Hw A).
    + exists []. split; [exact A | reflexivity].
  - unfold encode_fixed_index_addressing.
    pose proof (find_label_addressing_appends
                  (labelName (fixedIndexOperand (operand_of (commandInst l) t)))
                  tu) as A.
    destruct (find_label_addressing _ tu) as [[[v r]|] tu1]; cbn [fst snd] in *.
    + pose proof (appends_well_formed _ _ _ Hw A) as Hw1.
      destruct (get_addressing_index _ tu1) as [i|]; cbn [fst snd].
      * exists ([] ++ [label_word v r] ++ [label_word i ABSOLUTE]).
        split; [|reflexivity].
        eapply appends_trans; [exact A|].
        eapply appends_trans; [now apply insert_machine_word_appends|].
        apply insert_machine_word_appends.
        exact (appends_well_formed _ _ _ Hw1
                 (insert_machine_word_appends tu1 _ Hw1)).
      * exists []. split; [exact A | reflexivity].
    + exists []. split; [exact A | reflexivity].
  - cbn [fst snd].
    exists [direct_register_word (reg (operand_of (commandInst l) t)) t].
    split; [|reflexivity]. now apply insert_machine_word_appends.
  - cbn [fst snd]. exists []. split; [apply appends_refl | reflexivity].
Qed.

(** The operands of a command that is not made of two registers: the result
    of the line is that of its two operands in turn. *)
Lemma second_pass_line_operands (l : AbstractLineDescriptor)
  (tu : TranslationUnit) :
  lineType l = COMMAND_INSTRUCTION ->
  ~ both_direct_register (commandInst l) ->
  let c := commandInst l in
  let r1 :=
    process_operand_encoding l (firs_machine_word_encoding c tu)
                             (sourceOperandAddressingType c) SOURCE_OPERAND in
  let r2 :=
    process_operand_encoding l (snd r1) (targetOperandAddressingType c)
                             TARGET_OPERAND in
  second_pass_line l tu = (fst r1 || fst r2, snd r2).
Proof.
  intros Hcmd Hnot c r1 r2. subst c r1 r2.
  assert (Htest :
    AddressingType_eqb (sourceOperandAddressingType (commandInst l))
                       DIRECT_REGISTER_ADDR
    && AddressingType_eqb (targetOperandAddressingType (commandInst l))
                          DIRECT_REGISTER_ADDR = false).
  { apply not_true_is_false. intros H.
    apply Hnot, both_direct_register_test, H. }
  unfold second_pass_line.
  rewrite Hcmd, Htest. cbn [LineType_is_command negb].
  destruct (process_operand_encoding l _ _ SOURCE_OPERAND) as [e1 tu1].
  cbn [fst snd].
  destruct (process_operand_encoding l tu1 _ TARGET_OPERAND) as [e2 tu2].
  reflexivity.
Qed.

(** The words one line appends: as many as the first pass counted when the
    line is encoded without error, fewer otherwise. *)
Lemma second_pass_line_words (l : AbstractLineDescriptor)
  (tu : TranslationUnit) :
  well_formed_code tu ->
  exists ws : list Z,
    appends tu (snd (second_pass_line l tu)) ws
    /\ (fst (second_pass_line l tu) = false ->
        List.length ws = command_size l)
    /\ (fst (second_pass_line l tu) = true ->
        (List.length ws < command_size l)%nat).
Proof.
  intros Hw. unfold command_size.
  destruct (LineType_is_command (lineType l)) eqn:Hc.
  2: { unfold second_pass_line. rewrite Hc. cbn [negb fst snd].
       exists []. split; [apply appends_refl|].
       split; [reflexivity | intros H; discriminate H]. }
  assert (Ht : lineType l = COMMAND_INSTRUCTION)
    by (destruct (lineType l); try discriminate Hc; reflexivity).
  destruct (second_pass_line_size l tu Ht) as [Hb Hn].
  destruct (both_direct_register_test (commandInst l)) as [T1 T2].
  destruct (AddressingType_eqb (sourceOperandAddressingType (commandInst l))
                               DIRECT_REGISTER_ADDR
            && AddressingType_eqb
                 (targetOperandAddressingType (commandInst l))
                 DIRECT_REGISTER_ADDR) eqn:E.
  - destruct (Hb (T1 eq_refl)) as (A & B & _). rewrite B, A. cbn [fst snd].
    exists ([first_machine_word (commandInst l)]
            ++ [double_direct_register_word (commandInst l)]).
    split; [|split; [reflexivity | intros H; discriminate H]].
    eapply appends_trans; [now apply insert_machine_word_appends|].
    apply insert_machine_word_appends.
    exact (appends_well_formed _ _ _ Hw
             (insert_machine_word_appends tu _ Hw)).
  - assert (Hnb : ~ both_direct_register (commandInst l)).
    { intros K. apply T2 in K. discriminate K. }
    destruct (Hn Hnb) as (Hp & Hle & Hiff).
    pose proof (second_pass_line_operands l tu Ht Hnb) as Hr. cbv zeta in Hr.
    pose proof (insert_machine_word_appends tu
                  (first_machine_word (commandInst l)) Hw) as A0.
    fold (firs_machine_word_encoding (commandInst l) tu) in A0.
    pose proof (appends_well_formed _ _ _ Hw A0) as Hw0.
    destruct (process_operand_encoding_words l
                (firs_machine_word_encoding (commandInst l) tu)
                (sourceOperandAddressingType (commandInst l))
                SOURCE_OPERAND Hw0) as (ws1 & A1 & L1).
    pose proof (appends_well_formed _ _ _ Hw0 A1) as Hw1.
    destruct (process_operand_encoding_words l _
                (targetOperandAddressingType (commandInst l))
                TARGET_OPERAND Hw1) as (ws2 & A2 & L2).
    pose proof (appends_trans _ _ _ _ _ A0 (appends_trans _ _ _ _ _ A1 A2))
      as A.
    rewrite Hr in Hle, Hiff |- *. cbn [fst snd] in Hle, Hiff |- *.
    exists ([first_machine_word (commandInst l)] ++ ws1 ++ ws2).
    split; [exact A|].
    destruct A as [_ Ai].
    split; intros F.
    + apply Hiff in F. lia.
    + assert (N : IC (snd (process_operand_encoding l
                            (snd (process_operand_encoding l
                                    (firs_machine_word_encoding
                                       (commandInst l) tu)
                                    (sourceOperandAddressingType
                                       (commandInst l)) SOURCE_OPERAND))
                            (targetOperandAddressingType (commandInst l))
                            TARGET_OPERAND))
                  <> (IC tu + ic_promoter l)%nat).
      { intros K. apply Hiff in K. rewrite K in F. discriminate F. }
      lia.
Qed.

Lemma second_pass_lines_words (ls : list AbstractLineDescriptor) (e : bool)
  (tu : TranslationUnit) :
  well_formed_code tu ->
  exists ws : list Z,
    appends tu (snd (second_pass_lines ls e tu)) ws
    /\ (List.length ws <= code_size ls)%nat
    /\ (fst (second_pass_lines ls e tu) = false ->
        List.length ws = code_size ls)
    /\ (e = false -> fst (second_pass_lines ls e tu) = true ->
        (List.length ws < code_size ls)%nat).
Proof.
  revert e tu. induction ls as [|l ls IH]; intros e tu Hw.
  - cbn. exists []. split; [apply appends_refl|]. cbn [List.length].
    split; [lia | split; [reflexivity | congruence]].
  - cbn [second_pass_lines code_size fold_right]. fold (code_size ls).
    destruct (second_pass_line_words l tu Hw) as (ws1 & A1 & F1 & T1).
    destruct (second_pass_line l tu) as [e1 tu1]. cbn [fst snd] in *.
    pose proof (appends_well_formed _ _ _ Hw A1) as Hw1.
    destruct (IH (e || e1) tu1 Hw1) as (ws2 & A2 & Le & F2 & T2).
    exists (ws1 ++ ws2). split; [eapply appends_trans; eassumption|].
    rewrite length_app.
    assert (L1 : (List.length ws1 <= command_size l)%nat).
    { destruct e1; [specialize (T1 eq_refl) | specialize (F1 eq_refl)]; lia. }
    split; [lia|]. split.
    + intros F. specialize (F2 F).
      destruct e1.
      * rewrite orb_true_r in F.
        rewrite second_pass_lines_flag in F. discriminate F.
      * specialize (F1 eq_refl). lia.
    + intros -> F. cbn [orb] in *.
      destruct e1.
      * specialize (T1 eq_refl). lia.
      * specialize (F1 eq_refl). specialize (T2 eq_refl F). lia.
Qed.

(** C6, as the code has it.  For a command whose two operands are both
    direct-register, the first pass counts exactly 2 words and the second
    pass emits exactly 2 words, the opcode word and the shared register
    word, without error.  For every other command the first pass counts
    1 plus the contributions of the operands (immediate 1, direct 1,
    fixed-index 2, direct-register 1, absent 0); the second pass emits the
    opcode word and then, for each operand in turn, as many words as the
    operand contributes when it is encoded without error and none when its
    encoding reports an error; the error of the line is that of either
    operand, so the second pass emits exactly the number of words the first
    pass counted when the line is encoded without error, and fewer
    otherwise.  For a whole program: the words the second pass appends to a
    code image that holds IC words are as many as the first pass counts for
    the lines visited when the second pass returns TRUE, and fewer when it
    returns FALSE. *)
Theorem C6_instruction_size :
  (forall (l : AbstractLineDescriptor) (tu : TranslationUnit),
      lineType l = COMMAND_INSTRUCTION ->
      let c := commandInst l in
      both_direct_register c ->
      ic_promoter l = 2%nat
      /\ second_pass_line l tu
         = (false,
            insert_machine_word
              (insert_machine_word tu (first_machine_word c))
              (double_direct_register_word c))
      /\ IC (snd (second_pass_line l tu)) = (IC tu + 2)%nat)
  /\ (forall (l : AbstractLineDescriptor) (tu : TranslationUnit),
         lineType l = COMMAND_INSTRUCTION ->
         let c := commandInst l in
         let src := sourceOperandAddressingType c in
         let tgt := targetOperandAddressingType c in
         ~ both_direct_register c ->
         let r1 :=
           process_operand_encoding l (firs_machine_word_encoding c tu)
                                    src SOURCE_OPERAND in
         let r2 :=
           process_operand_encoding l (snd r1) tgt TARGET_OPERAND in
         ic_promoter l
         = (1 + spec_operand_contribution src
            + spec_operand_contribution tgt)%nat
         /\ second_pass_line l tu = (fst r1 || fst r2, snd r2)
         /\ IC (snd r1)
            = (IC tu + 1
               + (if fst r1 then 0 else spec_operand_contribution src))%nat
         /\ IC (snd r2)
            = (IC (snd r1)
               + (if fst r2 then 0 else spec_operand_contribution tgt))%nat
         /\ (fst (second_pass_line l tu) = false ->
             IC (snd (second_pass_line l tu)) = (IC tu + ic_promoter l)%nat)
         /\ (fst (second_pass_line l tu) = true ->
             (IC (snd (second_pass_line l tu)) < IC tu + ic_promoter l)%nat))
  /\ (forall (p : AbstractProgram) (tu tu' : TranslationUnit) (ok : bool),
         well_formed_code tu ->
         second_pass p tu = (ok, tu') ->
         let visited := firstn (progSize p) (lines p) in
         exists ws : list Z,
           codeImage tu' = codeImage tu ++ ws
           /\ IC tu' = (IC tu + List.length ws)%nat
           /\ (ok = true -> List.length ws = code_size visited)
           /\ (ok = false -> (List.length ws < code_size visited)%nat)).
Proof.
  split; [|split].
  - intros l tu Hcmd c Hboth.
    exact (proj1 (second_pass_line_size l tu Hcmd) Hboth).
  - intros l tu Hcmd c src tgt Hnot r1 r2.
    destruct (proj2 (second_pass_line_size l tu Hcmd) Hnot)
      as (Hp & Hle & Hiff).
    pose proof (second_pass_line_operands l tu Hcmd Hnot) as Hr.
    cbv zeta in Hr. fold c in Hr. fold src in Hr. fold tgt in Hr.
    fold r1 in Hr. fold r2 in Hr.
    pose proof (process_operand_encoding_IC l
                  (firs_machine_word_encoding c tu) src SOURCE_OPERAND)
      as [S1 S2].
    fold r1 in S1, S2.
    pose proof (process_operand_encoding_IC l (snd r1) tgt TARGET_OPERAND)
      as [T1 T2].
    fold r2 in T1, T2.
    assert (H0 : IC (firs_machine_word_encoding c tu) = S (IC tu))
      by reflexivity.
    split; [exact Hp|]. split; [exact Hr|].
    split; [destruct (fst r1); [destruct (S2 eq_refl) | rewrite (S1 eq_refl)];
            lia|].
    split; [destruct (fst r2); [destruct (T2 eq_refl) | rewrite (T1 eq_refl)];
            lia|].
    split; intros F.
    + now apply Hiff.
    + assert (N : IC (snd (second_pass_line l tu))
                  <> (IC tu + ic_promoter l)%nat).
      { intros K. apply Hiff in K. rewrite K in F. discriminate F. }
      lia.
  - intros p tu tu' ok Hw H visited. subst visited. unfold second_pass in H.
    destruct (second_pass_lines_words (firstn (progSize p) (lines p)) false
                tu Hw) as (ws & [Ac Ai] & _ & F & T).
    destruct (second_pass_lines _ false tu) as [e tu1]. cbn [fst snd] in *.
    injection H as <- <-. exists ws.
    split; [exact Ac|]. split; [exact Ai|].
    split; intros E.
    + apply F. now destruct e.
    + apply (T eq_refl). now destruct e.
Qed.

(** [prn #5000] is neither made of two registers nor encoded without error:
    the first pass counts 2 words for it, 1 plus the contribution of an
    immediate operand, and the second pass emits the opcode word only and
    reports the error.  For the file made of that line and an empty one the
    first pass advances its counter from 100 to 102, the second pass stores
    one word, and no file is written. *)
Lemma C6_word_count_counterexample :
  lineType (prn_immediate 5000) = COMMAND_INSTRUCTION
  /\ ~ both_direct_register (commandInst (prn_immediate 5000))
  /\ ic_promoter (prn_immediate 5000)
     = (1 + spec_operand_contribution NONE_ADDR
        + spec_operand_contribution IMMEDIATE_ADDR)%nat
  /\ ic_promoter (prn_immediate 5000) = 2%nat
  /\ second_pass_line (prn_immediate 5000) fresh_unit
     = (true, insert_machine_word fresh_unit 768)
  /\ codeImage (snd (second_pass_line (prn_immediate 5000) fresh_unit))
     = [768]
  /\ option_map fp_ic
       (first_pass_loop [prn_immediate 5000; empty_line]
                        (first_pass_init fresh_unit))
     = Some 102%nat
  /\ option_map (fun r => (fst r, IC (snd r), codeImage (snd r)))
       (option_map (fun r => second_pass (snd (fst r)) (snd r))
                   (first_pass [prn_immediate 5000; empty_line] fresh_unit))
     = Some (false, 1%nat, [768])
  /\ process_file 0 [prn_immediate 5000; empty_line] = Some None.
Proof.
  split; [reflexivity|].
  split; [intros [E _]; discriminate E|].
  repeat split; reflexivity.
Qed.

(** [mov r1, r2] fills two words in both passes.  [prn #5] is counted as two
    words and two words are emitted for it, the opcode word and the word of
    the immediate value; [prn #5000] is counted as two words and only its
    opcode word is emitted, with the error.  The second pass over
    [mov r1, r2], [prn #5], [mov X, r1] and [hlt] appends the eight words the
    first pass counts for these lines. *)
Lemma C6_instruction_size_witness :
  (ic_promoter mov_r1_r2 = 2%nat
   /\ second_pass_line mov_r1_r2 fresh_unit
      = (false, insert_machine_word (insert_machine_word fresh_unit 60) 40)
   /\ IC (snd (second_pass_line mov_r1_r2 fresh_unit)) = 2%nat)
  /\ (ic_promoter (prn_immediate 5) = 2%nat
      /\ second_pass_line (prn_immediate 5) fresh_unit
         = (false, insert_machine_word (insert_machine_word fresh_unit 768) 20)
      /\ IC (snd (second_pass_line (prn_immediate 5) fresh_unit)) = 2%nat)
  /\ (ic_promoter (prn_immediate 5000) = 2%nat
      /\ second_pass_line (prn_immediate 5000) fresh_unit
         = (true, insert_machine_word fresh_unit 768)
      /\ (IC (snd (second_pass_line (prn_immediate 5000) fresh_unit)) < 2)%nat)
  /\ (exists ws : list Z,
         codeImage (snd (second_pass size_program sample_unit)) = ws
         /\ IC (snd (second_pass size_program sample_unit))
            = List.length ws
         /\ List.length ws = 8%nat
         /\ ws = [60; 40; 768; 20; 28; 1; 4; 960]).
Proof.
  destruct C6_instruction_size as (Hboth & Hother & Hprogram).
  split; [|split; [|split]].
  - exact (Hboth mov_r1_r2 fresh_unit eq_refl (conj eq_refl eq_refl)).
  - assert (Hn : ~ both_direct_register (commandInst (prn_immediate 5))).
    { intros [E _]. discriminate E. }
    destruct (Hother (prn_immediate 5) fresh_unit eq_refl Hn)
      as (A & B & _ & _ & C & _).
    split; [exact A | split; [exact B | exact (C eq_refl)]].
  - assert (Hn : ~ both_direct_register (commandInst (prn_immediate 5000))).
    { intros [E _]. discriminate E. }
    destruct (Hother (prn_immediate 5000) fresh_unit eq_refl Hn)
      as (A & B & _ & _ & _ & C).
    split; [exact A | split; [exact B | exact (C eq_refl)]].
  - destruct (Hprogram size_program sample_unit
                (snd (second_pass size_program sample_unit)) true
                eq_refl eq_refl) as (ws & Hc & Hi & Hl & _).
    exists ws. change (codeImage sample_unit) with (@nil Z) in Hc.
    change (IC sample_unit) with 0%nat in Hi. cbn [app Nat.add] in Hc, Hi.
    split; [exact Hc|]. split; [exact Hi|].
    split; [exact (Hl eq_refl)|].
    rewrite <- Hc. reflexivity.
Defined.

(** *** The entries list *)

Lemma process_symbols_entries (ic dc : nat) (table : list Symbol) :
  Z.of_nat (ic + dc) < 2 ^ 31 ->
  Forall (symbol_in_range ic dc) table ->
  Forall (fun e => 0 <= address e < 2 ^ 31) (snd (process_symbols ic table)).
Proof.
  intros Hb H. induction H as [|s table Hs Hall IH]; cbn.
  - constructor.
  - destruct (process_symbols ic table) as [[e table'] ents].
    cbn [snd] in *. apply Forall_app. split; [|exact IH].
    destruct Hs as [Hc Hd]. unfold process_symbol.
    destruct (symbolType s) eqn:Ht;
      cbn [is_data_symbol is_entry_symbol is_temp_entry fst snd];
      try solve [constructor].
    + constructor; [|constructor].
      cbn in Hc. specialize (Hc eq_refl). lia.
    + constructor; [|constructor].
      cbn in Hd. specialize (Hd eq_refl).
      cbn [set_type_address address].
      rewrite (to_int_id (Z.of_nat ic)) by lia.
      rewrite to_int_id by lia. lia.
Qed.

Lemma compare_entry_order (a b : Symbol) :
  0 <= address a < 2 ^ 31 -> 0 <= address b < 2 ^ 31 ->
  (compare_entry a b <= 0 <-> address a <= address b).
Proof.
  intros Ha Hb. unfold compare_entry. rewrite to_int_id by lia. lia.
Qed.

Lemma process_symbol_table_inv (tu : TranslationUnit) (ic dc : nat) :
  entryList tu = [] ->
  Z.of_nat (ic + dc) < 2 ^ 31 ->
  symbols_in_range ic dc tu ->
  let tu' := snd (process_symbol_table tu ic) in
  codeImage tu' = codeImage tu /\ IC tu' = IC tu
  /\ externalsList tu' = externalsList tu
  /\ StronglySorted (key_le address) (entryList tu').
Proof.
  intros He Hb Hr. unfold process_symbol_table.
  pose proof (process_symbols_entries ic dc (symbolTable tu) Hb Hr) as Hents.
  destruct (process_symbols ic (symbolTable tu)) as [[e table'] ents].
  cbn [snd] in Hents. cbn [set_entryList set_symbolTable entryList].
  rewrite He. cbn [app].
  destruct (1 <? List.length ents)%nat eqn:El; cbn.
  - repeat split.
    apply (qsort_sorted Symbol compare_entry address
             (fun e => 0 <= address e < 2 ^ 31)).
    + intros x y. apply compare_entry_order.
    + exact Hents.
  - repeat split. apply short_list_sorted.
    apply Nat.ltb_ge in El. exact El.
Qed.

(** *** The symbol table and the entries list at the end of the first pass *)

Lemma process_symbols_table (ic : nat) (table : list Symbol) :
  snd (fst (process_symbols ic table)) = map (relocate ic) table
  /\ snd (process_symbols ic table)
     = filter (fun s => is_entry_symbol (symbolType s))
              (map (relocate ic) table)
  /\ fst (fst (process_symbols ic table))
     = existsb (fun s => is_temp_entry (symbolType s)) table.
Proof.
  induction table as [ | s table (IH1 & IH2 & IH3)]; cbn;
    [repeat split | ].
  destruct (process_symbols ic table) as [[e table'] ents]. cbn in *.
  subst. unfold relocate.
  destruct (symbolType s) eqn:T; cbn; rewrite ?T; repeat split.
Qed.

Lemma relocate_name (ic : nat) (s : Symbol) :
  symbolName (relocate ic s) = symbolName s.
Proof. unfold relocate. destruct (is_data_symbol (symbolType s)); reflexivity. Qed.

Lemma relocate_type (ic : nat) (s : Symbol) :
  symbolType (relocate ic s) = symbolType s.
Proof. unfold relocate. destruct (is_data_symbol (symbolType s)); reflexivity. Qed.

Lemma process_symbol_table_table (tu : TranslationUnit) (ic : nat) :
  symbolTable (snd (process_symbol_table tu ic))
  = map (relocate ic) (symbolTable tu).
Proof.
  unfold process_symbol_table.
  pose proof (process_symbols_table ic (symbolTable tu)) as (H & _).
  destruct (process_symbols ic (symbolTable tu)) as [[e table'] ents].
  cbn in *. subst.
  match goal with
  | |- context [if ?b then _ else _] => destruct b
  end; reflexivity.
Qed.

Lemma qsort_insert_perm {A : Type} (cmp : A -> A -> Z) (x : A) (l : list A) :
  Permutation (qsort_insert cmp x l) (x :: l).
Proof.
  induction l as [ | y l IH]; cbn; [reflexivity | ].
  destruct (cmp x y <=? 0); [reflexivity | ].
  rewrite IH. apply perm_swap.
Qed.

Lemma qsort_perm {A : Type} (cmp : A -> A -> Z) (l : list A) :
  Permutation (qsort cmp l) l.
Proof.
  induction l as [ | x l IH]; cbn; [reflexivity | ].
  rewrite qsort_insert_perm. now constructor.
Qed.

(** What [process_symbol_table] does to the symbol table and to the
    entries list. *)
Lemma process_symbol_table_effect (tu : TranslationUnit) (ic : nat) :
  let r := process_symbol_table tu ic in
  (fst r = true <->
   exists s : Symbol,
     In s (symbolTable tu) /\ symbolType s = TEMP_ENTRY_LABEL)
  /\ symbolTable (snd r) = map (relocate ic) (symbolTable tu)
  /\ Permutation (entryList (snd r))
       (entryList tu
        ++ filter (fun s => is_entry_symbol (symbolType s))
                  (symbolTable (snd r)))
  /\ dataImage (snd r) = dataImage tu
  /\ constantList (snd r) = constantList tu.
Proof.
  cbv zeta. rewrite process_symbol_table_table.
  unfold process_symbol_table.
  pose proof (process_symbols_table ic (symbolTable tu)) as (H1 & H2 & H3).
  destruct (process_symbols ic (symbolTable tu)) as [[e table'] ents].
  cbn [fst snd] in *. subst.
  split; [ | split; [reflexivity | ]].
  - rewrite existsb_exists. split; intros (s & I & T); exists s;
      (split; [exact I | ]); destruct (symbolType s);
      try reflexivity; discriminate T.
  - match goal with
    | |- context [if ?b then _ else _] => destruct b
    end; cbn; repeat split; try reflexivity.
    apply qsort_perm.
Qed.

(** *** The two passes together *)

Lemma first_pass_facts (garbage : nat) (ls : list AbstractLineDescriptor)
  (ok : bool) (prog : AbstractProgram) (tu : TranslationUnit) :
  first_pass ls (initialize_translation_unit garbage) = Some (ok, prog, tu) ->
  Z.of_nat (address_space garbage ls) < 2 ^ 31 ->
  codeImage tu = [] /\ IC tu = 0%nat /\ externalsList tu = []
  /\ StronglySorted (key_le address) (entryList tu)
  /\ lines prog = ls
  /\ (ok = true ->
      (IC_INIT_VALUE + code_size ls <= address_space garbage ls)%nat).
Proof.
  unfold first_pass, address_space. intros H Hb.
  destruct (first_pass_loop ls
              (first_pass_init (initialize_translation_unit garbage)))
    as [st|] eqn:Hloop; [|discriminate H].
  destruct (first_pass_loop_inv ls _ st Hloop)
    as ((Fc & Fi & Fx & Fe) & Hi & Hd & He & Hr & Hp).
  cbn in Fc, Fi, Fx, Fe, Hi, Hd.
  rewrite Fi in H. cbn [Nat.ltb Nat.leb] in H.
  assert (Hrange : symbols_in_range (fp_ic st) (fp_dc st) (fp_unit st)).
  { apply Hr; try lia. unfold symbols_in_range. cbn. constructor. }
  pose proof (process_symbol_table_inv (fp_unit st) (fp_ic st) (fp_dc st)
                Fe Hb Hrange) as (Pc & Pi & Px & Ps).
  destruct (process_symbol_table (fp_unit st) (fp_ic st)) as [tmp tu1].
  injection H as Hok <- <-. cbn [snd] in *.
  refine (conj _ (conj _ (conj _ (conj Ps (conj _ _))))); try congruence.
  - destruct Hp as [_ Hl]; [|exact Hl]. split; reflexivity.
  - intros E. rewrite E in Hok.
    apply negb_true_iff, orb_false_iff in Hok. destruct Hok as [E1 _].
    destruct (He E1) as [_ E2]. rewrite E2. cbn [first_pass_init fp_ic]. lia.
Qed.

(** C1.  [insert_symbol_to_table] stores the instruction counter, converted
    to [int], in the address field of the symbol it appends for an external
    name, under the comment that announces -1; the sibling branch of an entry
    declared before its definition stores -1 under the same comment.  Hence,
    at any point of a first pass, an [.extern NAME] line without error,
    whose label prefix (if any) raises no error and whose NAME is not in the
    symbol table, appends one symbol of kind [EXTERN_LABEL] whose address is
    the instruction counter at that line, which is at least 100.  For the
    file whose first line is [.extern X] the table the first pass leaves
    holds [X] with the address 100, which is neither the 0 of the
    specification nor the -1 of the comment.  The second pass does not read
    the field: a reference to an external symbol is encoded with the
    address 0 and the ARE field of an external. *)
Theorem C1_extern_symbol :
  (forall (l : AbstractLineDescriptor) (tu : TranslationUnit) (ic dc : nat),
      symbolTable (insert_symbol_to_table l tu ic dc EXTERN_LABEL)
      = symbolTable tu
        ++ [ {| symbolName := copy_symbol_name (entryName l);
                symbolType := EXTERN_LABEL;
                address := to_int (Z.of_nat ic) |} ])
  /\ (forall (l : AbstractLineDescriptor) (tu : TranslationUnit)
             (ic dc : nat),
         symbolTable (insert_symbol_to_table l tu ic dc TEMP_ENTRY_LABEL)
         = symbolTable tu
           ++ [ {| symbolName := copy_symbol_name (entryName l);
                   symbolType := TEMP_ENTRY_LABEL;
                   address := -1 |} ])
  /\ (forall (garbage : nat) (ls : list AbstractLineDescriptor)
             (st : FirstPassState) (l : AbstractLineDescriptor),
         first_pass_loop ls
           (first_pass_init (initialize_translation_unit garbage)) = Some st ->
         is_null_or_empty (lineError l) = true ->
         lineType l = DIRECTIVE_INSTRUCTION ->
         dirType l = EXTERN_INST ->
         (is_null_or_empty (lineLabel l) = true
          \/ fst (handle_label l (fp_unit st) (fp_ic st) (fp_dc st))
             = false) ->
         find_symbol (entryName l) (symbolTable (fp_unit st)) = None ->
         Z.of_nat (fp_ic st) < 2 ^ 31 ->
         exists st' : FirstPassState,
           first_pass_line st l = Some st'
           /\ symbolTable (fp_unit st')
              = symbolTable (fp_unit st)
                ++ [ {| symbolName := copy_symbol_name (entryName l);
                        symbolType := EXTERN_LABEL;
                        address := Z.of_nat (fp_ic st) |} ]
           /\ 100 <= Z.of_nat (fp_ic st))
  /\ (forall garbage : nat,
         option_map (fun r => (fst (fst r), symbolTable (snd r)))
           (first_pass [extern_line "X"; empty_line]
                       (initialize_translation_unit garbage))
         = Some (true,
                 [ {| symbolName := "X"; symbolType := EXTERN_LABEL;
                      address := 100 |} ]))
  /\ (forall (tu : TranslationUnit) (name : string) (s : Symbol),
         find_symbol name (symbolTable tu) = Some s ->
         symbolType s = EXTERN_LABEL ->
         fst (find_label_addressing name tu) = Some (0, EXTERNAL)).
Proof.
  split; [reflexivity|]. split; [reflexivity|].
  split; [|split; [reflexivity|]].
  - intros garbage ls st l Hloop He Ht Hd Hl Hf Hb.
    destruct (first_pass_line_extern st l He Ht Hd Hl Hf)
      as (st' & H1 & H2 & _).
    destruct (first_pass_loop_inv ls _ st Hloop) as (_ & Hi & _).
    cbn [first_pass_init fp_ic] in Hi. unfold IC_INIT_VALUE in Hi.
    exists st'. split; [exact H1|].
    rewrite to_int_id in H2 by lia. split; [exact H2 | lia].
  - intros tu name s Hs Hx. unfold find_label_addressing.
    unfold find_symbol in Hs. rewrite Hs, Hx. reflexivity.
Qed.

Lemma shifted_sorted (l : list Z) (n : nat) :
  Z.of_nat n + Z.of_nat IC_INIT_VALUE < 2 ^ 31 ->
  StronglySorted Z.le l ->
  Forall (fun a => 0 <= a < Z.of_nat n) l ->
  Sorted Z.le (map (fun a => to_int (a + Z.of_nat IC_INIT_VALUE)) l).
Proof.
  intros Hn Hs Hf. apply StronglySorted_Sorted.
  change (Z.of_nat IC_INIT_VALUE) with 100 in *.
  induction Hs as [|x l Hs IH Hx]; cbn; constructor.
  - apply IH. now inversion Hf.
  - inversion Hf as [|? ? Hx0 Hl0]; subst.
    apply Forall_map. rewrite Forall_forall in *.
    intros y Hy. specialize (Hx y Hy). specialize (Hl0 y Hy). cbn beta in *.
    rewrite !to_int_id by lia. lia.
Qed.

(** The two passes of [translate] are those of [process_file]. *)
Lemma translate_passes (garbage : nat) (ls : list AbstractLineDescriptor)
  (tu : TranslationUnit) :
  translate garbage ls = Some tu <->
  exists (prog : AbstractProgram) (tu1 : TranslationUnit),
    first_pass ls (initialize_translation_unit garbage)
    = Some (true, prog, tu1)
    /\ second_pass prog tu1 = (true, tu).
Proof.
  unfold translate.
  destruct (first_pass ls (initialize_translation_unit garbage))
    as [[[ok prog] tu1]|].
  - destruct ok; cbn [negb].
    + destruct (second_pass prog tu1) as [ok2 tu2] eqn:Hsp.
      destruct ok2; cbn [negb]; split.
      * intros H. injection H as <-. exists prog, tu1. auto.
      * intros (prog' & tu1' & H1 & H2). injection H1 as <- <-.
        rewrite Hsp in H2. now injection H2 as <-.
      * intros H. discriminate H.
      * intros (prog' & tu1' & H1 & H2). injection H1 as <- <-.
        rewrite Hsp in H2. discriminate H2.
    + split; [intros H; discriminate H|].
      intros (prog' & tu1' & H1 & _). discriminate H1.
  - split; [intros H; discriminate H|].
    intros (prog' & tu1' & H1 & _). discriminate H1.
Qed.

Lemma process_file_translate (garbage : nat)
  (ls : list AbstractLineDescriptor) (out : OutputFiles) :
  process_file garbage ls = Some (Some out) <->
  exists tu : TranslationUnit,
    translate garbage ls = Some tu /\ out = generate_files tu.
Proof.
  unfold process_file, translate.
  destruct (first_pass ls (initialize_translation_unit garbage))
    as [[[ok prog] tu1]|].
  - destruct (negb ok).
    + split; [intros H; discriminate H | intros (tu & H & _); discriminate H].
    + destruct (second_pass prog tu1) as [ok2 tu2].
      destruct (negb ok2).
      * split; [intros H; discriminate H
               | intros (tu & H & _); discriminate H].
      * split.
        -- intros H. injection H as <-. exists tu2. auto.
        -- intros (tu & H & ->). now injection H as <-.
  - split; [intros H; discriminate H | intros (tu & H & _); discriminate H].
Qed.

(** The lists handed to the writers of the [.ent] and [.ext] files are in
    non-decreasing order of address. *)
Lemma translate_sorted (garbage : nat) (ls : list AbstractLineDescriptor)
  (tu : TranslationUnit) :
  translate garbage ls = Some tu ->
  Z.of_nat (address_space garbage ls) < 2 ^ 31 ->
  Sorted Z.le (map address (entryList tu))
  /\ Sorted Z.le
       (map (fun e => to_int (addresses e + Z.of_nat IC_INIT_VALUE))
            (externalsList tu)).
Proof.
  intros H Hb. apply translate_passes in H.
  destruct H as (prog & tu1 & Hfp & Hsp).
  destruct (first_pass_facts garbage ls true prog tu1 Hfp Hb)
    as (Fc & Fi & Fx & Fs & Fl & Fb).
  specialize (Fb eq_refl).
  assert (Hw : well_formed_code tu1).
  { unfold well_formed_code. now rewrite Fc, Fi. }
  pose proof Hsp as Hsp'. apply second_pass_ok in Hsp'.
  destruct (second_pass_lines_emits _ tu1 tu Hw Hsp')
    as (ws & recs & Ec & Ei & Ex & _ & _ & Ee & _ & Er).
  pose proof (second_pass_lines_IC_le
                (firstn (progSize prog) (lines prog)) false tu1) as Hle.
  rewrite Hsp' in Hle. cbn [snd] in Hle.
  pose proof (code_size_firstn (progSize prog) (lines prog)) as Hcs.
  rewrite Fl in Hcs, Hle. rewrite Fi in *. rewrite Fx in Ex. cbn in Ei, Ex.
  assert (Hlen : (List.length ws + IC_INIT_VALUE
                  <= address_space garbage ls)%nat) by lia.
  unfold IC_INIT_VALUE in Hlen.
  split.
  - rewrite Ee. apply key_sorted_map. exact Fs.
  - rewrite <- (map_map addresses
                  (fun a => to_int (a + Z.of_nat IC_INIT_VALUE))).
    rewrite Ex, Er.
    destruct (extern_use_addresses_sorted ws 0) as [Hs Hf].
    { cbn [Nat.add]. lia. }
    apply (shifted_sorted _ (List.length ws));
      [change (Z.of_nat IC_INIT_VALUE) with 100; lia | exact Hs|].
    eapply Forall_impl; [|exact Hf]. cbn beta. intros a Ha. cbn in Ha. lia.
Qed.

(** The program descriptor after the first pass holds every line, and its
    [progSize] is the index of the last of them: the loop of the second pass,
    which stops below [progSize], does not visit the last line of the
    file. *)
Lemma first_pass_program (garbage : nat) (ls : list AbstractLineDescriptor)
  (ok : bool) (prog : AbstractProgram) (tu : TranslationUnit) :
  first_pass ls (initialize_translation_unit garbage) = Some (ok, prog, tu) ->
  lines prog = ls /\ progSize prog = pred (List.length ls).
Proof.
  unfold first_pass. intros H.
  destruct (first_pass_loop ls
              (first_pass_init (initialize_translation_unit garbage)))
    as [st|] eqn:Hloop; [|discriminate H].
  destruct (first_pass_loop_inv ls _ st Hloop) as (_ & _ & _ & _ & _ & Hp).
  destruct Hp as [[_ Hs] Hl]; [split; reflexivity|].
  destruct (process_symbol_table _ _) as [tmp tu1].
  injection H as _ <- _. cbn in Hl. rewrite Hl in Hs. split; assumption.
Qed.

(** *** The ARE field over a whole program *)

Lemma process_symbol_table_frame (tu : TranslationUnit) (ic : nat) :
  codeImage (snd (process_symbol_table tu ic)) = codeImage tu
  /\ IC (snd (process_symbol_table tu ic)) = IC tu
  /\ externalsList (snd (process_symbol_table tu ic)) = externalsList tu.
Proof.
  unfold process_symbol_table.
  destruct (process_symbols ic (symbolTable tu)) as [[e table'] ents].
  cbn [set_entryList set_symbolTable entryList].
  destruct (1 <? _)%nat; cbn; auto.
Qed.

Lemma first_pass_frame (garbage : nat) (ls : list AbstractLineDescriptor)
  (ok : bool) (prog : AbstractProgram) (tu : TranslationUnit) :
  first_pass ls (initialize_translation_unit garbage) = Some (ok, prog, tu) ->
  codeImage tu = [] /\ IC tu = 0%nat /\ externalsList tu = [].
Proof.
  unfold first_pass. intros H.
  destruct (first_pass_loop ls
              (first_pass_init (initialize_translation_unit garbage)))
    as [st|] eqn:Hloop; [|discriminate H].
  destruct (first_pass_loop_inv ls _ st Hloop) as ((Fc & Fi & Fx & _) & _).
  cbn in Fc, Fi, Fx.
  rewrite Fi in H. cbn [Nat.ltb Nat.leb] in H.
  pose proof (process_symbol_table_frame (fp_unit st) (fp_ic st))
    as (Pc & Pi & Px).
  destruct (process_symbol_table (fp_unit st) (fp_ic st)) as [tmp tu1].
  injection H as _ _ <-. cbn [snd] in *.
  repeat split; congruence.
Qed.

Lemma translate_emits (garbage : nat) (ls : list AbstractLineDescriptor)
  (tu : TranslationUnit) :
  translate garbage ls = Some tu ->
  Forall ARE_allowed (codeImage tu)
  /\ map addresses (externalsList tu)
     = extern_use_addresses 0 (codeImage tu).
Proof.
  intros H. apply translate_passes in H.
  destruct H as (prog & tu1 & Hfp & Hsp).
  destruct (first_pass_frame garbage ls true prog tu1 Hfp) as (Fc & Fi & Fx).
  assert (Hw : well_formed_code tu1).
  { unfold well_formed_code. now rewrite Fc, Fi. }
  apply second_pass_ok in Hsp.
  destruct (second_pass_lines_emits _ tu1 tu Hw Hsp)
    as (ws & recs & Ec & _ & Ex & _ & _ & _ & Ea & Er).
  rewrite Fc in Ec. rewrite Fx in Ex. rewrite Fi in Er. cbn in Ec, Ex.
  rewrite Ec, Ex. split; assumption.
Qed.

(** After two passes without error, the entries list holds the entry symbols
    of the symbol table, each once. *)
Lemma translate_entries (garbage : nat) (ls : list AbstractLineDescriptor)
  (tu : TranslationUnit) :
  translate garbage ls = Some tu ->
  Permutation (entryList tu)
    (filter (fun s => is_entry_symbol (symbolType s)) (symbolTable tu)).
Proof.
  intros H. apply translate_passes in H.
  destruct H as (prog & tu1 & Hfp & Hsp).
  destruct (first_pass_frame garbage ls true prog tu1 Hfp) as (Fc & Fi & Fx).
  assert (Hw : well_formed_code tu1).
  { unfold well_formed_code. now rewrite Fc, Fi. }
  apply second_pass_ok in Hsp.
  destruct (second_pass_lines_emits _ tu1 tu Hw Hsp)
    as (ws & recs & _ & _ & _ & Es & _ & Ee & _).
  rewrite Es, Ee. clear Hsp Es Ee Hw.
  unfold first_pass in Hfp.
  destruct (first_pass_loop ls
              (first_pass_init (initialize_translation_unit garbage)))
    as [st|] eqn:Hloop; [|discriminate Hfp].
  destruct (first_pass_loop_inv ls _ st Hloop) as ((_ & _ & _ & Fe) & _).
  cbn in Fe.
  set (tu0 := if (0 <? IC (fp_unit st))%nat then _ else _) in Hfp.
  assert (E0 : entryList tu0 = []).
  { unfold tu0. destruct (0 <? IC (fp_unit st))%nat; exact Fe. }
  destruct (process_symbol_table_effect tu0 (fp_ic st)) as (_ & _ & P & _).
  destruct (process_symbol_table tu0 (fp_ic st)) as [e tu'].
  injection Hfp as _ _ <-. cbn [snd] in P. now rewrite E0 in P.
Qed.

(** C5.  In a second pass that reports no error, every word appended to
    the code image has its ARE field among 00, 01 and 10, and the externals
    list receives exactly one record per appended word of ARE 01, in the
    same order, whose address is the IC at which that word is stored.  The
    word stored for a direct operand, and the first word stored for a
    fixed-index operand, has ARE 01 exactly when the symbol found for the
    label is an [EXTERN_LABEL]; its address field is then zero.  The second
    word of a fixed-index operand has ARE 00.  For a whole program that the
    two passes accept, the code image and the externals list handed to the
    file writers are related in this way from index 0 on. *)
Theorem C5_ARE_discipline :
  (forall (p : AbstractProgram) (tu tu' : TranslationUnit),
      well_formed_code tu ->
      second_pass p tu = (true, tu') ->
      exists ws recs,
        codeImage tu' = codeImage tu ++ ws
        /\ externalsList tu' = externalsList tu ++ recs
        /\ Forall ARE_allowed ws
        /\ map addresses recs = extern_use_addresses (IC tu) ws)
  /\ (forall (name : string) (tu tu' : TranslationUnit),
         well_formed_code tu ->
         encode_direct_addressing name tu = (false, tu') ->
         exists w,
           codeImage tu' = codeImage tu ++ [w]
           /\ label_reference tu tu' name w)
  /\ (forall (f : FixedIndexAddressing) (tu tu' : TranslationUnit),
         well_formed_code tu ->
         encode_fixed_index_addressing f tu = (false, tu') ->
         exists w1 w2 tu1,
           codeImage tu' = codeImage tu ++ [w1; w2]
           /\ label_reference tu tu1 (labelName f) w1
           /\ externalsList tu' = externalsList tu1
           /\ ARE_bits w2 = 0)
  /\ (forall (garbage : nat) (ls : list AbstractLineDescriptor)
             (tu : TranslationUnit),
         translate garbage ls = Some tu ->
         Forall ARE_allowed (codeImage tu)
         /\ map addresses (externalsList tu)
            = extern_use_addresses 0 (codeImage tu)).
Proof.
  split; [|split; [|split]].
  - intros p tu tu' Hw H. apply second_pass_ok in H.
    destruct (second_pass_lines_emits _ tu tu' Hw H)
      as (ws & recs & Hc & _ & He & _ & _ & _ & Ha & Hr).
    exists ws, recs. auto.
  - intros name tu tu' Hw H.
    destruct (encode_direct_addressing_emits name tu tu' Hw H)
      as (w & recs & (Hc & _) & Hl).
    exists w. auto.
  - intros f tu tu' Hw H.
    destruct (encode_fixed_index_addressing_emits f tu tu' Hw H)
      as (w1 & w2 & recs & (Hc & _) & Hz & tu1 & Hl & Hx).
    exists w1, w2, tu1. auto.
  - apply translate_emits.
Qed.

(** The second pass over [mov X, r1] and [hlt], [X] being external: four words,
    the second of ARE 01, and one record, at index 1. *)
Lemma C5_ARE_discipline_witness :
  exists ws recs,
    codeImage (snd (second_pass extern_use_program sample_unit))
    = codeImage sample_unit ++ ws
    /\ externalsList (snd (second_pass extern_use_program sample_unit))
       = externalsList sample_unit ++ recs
    /\ Forall ARE_allowed ws
    /\ map addresses recs = extern_use_addresses (IC sample_unit) ws.
Proof.
  destruct C5_ARE_discipline as (H & _ & _ & _).
  apply (H extern_use_program sample_unit
           (snd (second_pass extern_use_program sample_unit))).
  - reflexivity.
  - reflexivity.
Defined.

(** *** The files *)

(** The [.ent] file has one line per symbol of the entries list, and the
    [.ext] file one line per record of the externals list, in the order of
    the list; [sortExternals] is called with a count of zero and leaves the
    externals list as it is. *)
Lemma generate_files_records (tu : TranslationUnit) :
  ent_file (generate_files tu) = records_file (entry_records tu)
  /\ ext_file (generate_files tu) = records_file (extern_records tu).
Proof.
  assert (He : forall l : list Symbol,
             ent_records l (List.length l)
             = map (fun s => (symbolName s, address s)) l).
  { intros l. unfold ent_records. now rewrite firstn_all. }
  assert (Hx : forall l : list ExternalSymbolInfo,
             ext_records l (List.length l)
             = map (fun e => (externalName e,
                              to_int (addresses e + Z.of_nat IC_INIT_VALUE)))
                   l).
  { intros l. unfold ext_records.
    assert (Hs : sortExternals l 0 = l) by reflexivity.
    rewrite Hs. destruct (1 <? List.length l)%nat; now rewrite firstn_all. }
  unfold generate_files, entry_records, extern_records.
  cbn [ent_file ext_file]. unfold generate_ent_file, generate_ext_file.
  rewrite He, Hx. split.
  - destruct (entryList tu) as [|e l]; reflexivity.
  - destruct (externalsList tu) as [|e l]; reflexivity.
Qed.

(** C8.  When the assembler writes its output files and the program fits
    the address space of an [int] (the first-pass counters IC + DC stay
    below 2^31), the [.ent] file holds one line, name and address, per
    symbol of the entries list of the translation unit, in the order of that
    list, whose addresses are in non-decreasing order; the entries list holds
    the entry symbols of the symbol table, each once.  The [.ext] file holds
    one line, name and address plus 100, per record of the externals list,
    in the order of that list, whose addresses are in non-decreasing order;
    the externals list holds one record per word of the code image whose ARE
    field is 01, at the index of that word.  A file whose list is empty is
    not produced. *)
Theorem C8_output_order (garbage : nat) (ls : list AbstractLineDescriptor)
  (out : OutputFiles) :
  process_file garbage ls = Some (Some out) ->
  Z.of_nat (address_space garbage ls) < 2 ^ 31 ->
  exists tu : TranslationUnit,
    translate garbage ls = Some tu
    /\ out = generate_files tu
    /\ ent_file out = records_file (entry_records tu)
    /\ map snd (entry_records tu) = map address (entryList tu)
    /\ Sorted Z.le (map address (entryList tu))
    /\ Permutation (entryList tu)
         (filter (fun s => is_entry_symbol (symbolType s)) (symbolTable tu))
    /\ ext_file out = records_file (extern_records tu)
    /\ map snd (extern_records tu)
       = map (fun e => to_int (addresses e + Z.of_nat IC_INIT_VALUE))
             (externalsList tu)
    /\ Sorted Z.le
         (map (fun e => to_int (addresses e + Z.of_nat IC_INIT_VALUE))
              (externalsList tu))
    /\ map addresses (externalsList tu)
       = extern_use_addresses 0 (codeImage tu).
Proof.
  intros H Hb. apply process_file_translate in H.
  destruct H as (tu & Ht & ->). exists tu.
  destruct (translate_sorted garbage ls tu Ht Hb) as [He Hx].
  destruct (generate_files_records tu) as [Fe Fx].
  destruct (translate_emits garbage ls tu Ht) as [_ Hu].
  pose proof (translate_entries garbage ls tu Ht) as Hp.
  unfold entry_records, extern_records in *. rewrite !map_map. cbn [snd].
  repeat split; assumption.
Qed.

(** A program with two entries, declared in the reverse order of their
    addresses, and two uses of an external symbol: the entry [MAIN], at
    address 100, comes before the entry [LAST], at address 103, and the use
    of [X] at address 101 before the use at address 104. *)
Lemma C8_output_order_witness :
  process_file 0 entry_extern_program = Some (Some entry_extern_output)
  /\ ent_file entry_extern_output
     = Some ("MAIN" ++ tab ++ "0100" ++ newline
             ++ "LAST" ++ tab ++ "0103" ++ newline)%string
  /\ ext_file entry_extern_output
     = Some ("X" ++ tab ++ "0101" ++ newline
             ++ "X" ++ tab ++ "0104" ++ newline)%string
  /\ Sorted Z.le [100; 103]
  /\ Sorted Z.le [101; 104].
Proof.
  assert (H : process_file 0 entry_extern_program
              = Some (Some entry_extern_output))
    by (vm_compute; reflexivity).
  assert (Hb : Z.of_nat (address_space 0 entry_extern_program) < 2 ^ 31)
    by (vm_compute; reflexivity).
  destruct (C8_output_order 0 entry_extern_program entry_extern_output H Hb)
    as (tu & Ht & _ & He & _ & Hs & _ & Hx & _ & Hxs & _).
  assert (Hu : Some tu = translate 0 entry_extern_program)
    by (symmetry; exact Ht).
  vm_compute in Hu. injection Hu as ->.
  split; [exact H|].
  split; [rewrite He; vm_compute; reflexivity|].
  split; [rewrite Hx; vm_compute; reflexivity|].
  split; [exact Hs | exact Hxs].
Defined.

(* ========================================================================= *)
(** * Further properties of the code *)

(* ------------------------------------------------------------------------- *)
(** ** The layout of the words of an instruction *)

(** X1.  The first word of an instruction is
    [64 * opcode + 16 * source mode + 4 * target mode], an absent operand
    counting as mode 0: bits 9-6 hold the opcode, bits 5-4 and 3-2 the two
    addressing modes, bits 1-0 are zero, and no bit above bit 9 is set.  An
    absent operand and an immediate operand give the same field. *)
Theorem first_machine_word_fields (c : CommandInstruction) :
  let w := first_machine_word c in
  w = 64 * Opcode_val (opcodeCommand c)
      + 16 * mode_field (sourceOperandAddressingType c)
      + 4 * mode_field (targetOperandAddressingType c)
  /\ field w 6 4 = Opcode_val (opcodeCommand c)
  /\ field w 4 2 = mode_field (sourceOperandAddressingType c)
  /\ field w 2 2 = mode_field (targetOperandAddressingType c)
  /\ field w 0 2 = 0
  /\ 0 <= w < 2 ^ 10
  /\ mode_field NONE_ADDR = mode_field IMMEDIATE_ADDR.
Proof.
  destruct c as [op n s t sa ta].
  destruct op, sa, ta; vm_compute;
    repeat split; try reflexivity; intro H; discriminate H.
Qed.

Lemma register_words (rs rt : Register) :
  rs <> NONE_REG -> rt <> NONE_REG ->
  let ws := direct_register_word rs SOURCE_OPERAND in
  let wt := direct_register_word rt TARGET_OPERAND in
  Z.lor ws wt = 32 * Register_val rs + 4 * Register_val rt
  /\ field (Z.lor ws wt) 5 3 = Register_val rs
  /\ field (Z.lor ws wt) 2 3 = Register_val rt
  /\ field (Z.lor ws wt) 0 2 = 0
  /\ ws = 32 * Register_val rs
  /\ wt = 4 * Register_val rt.
Proof.
  intros Hs Ht.
  destruct rs; try contradiction; destruct rt; try contradiction;
    vm_compute; repeat split; reflexivity.
Qed.

(** X2.  When both operands are registers, the one word they share is the
    bitwise or of the words the two registers would get alone:
    [32 * source + 4 * target], with the source register in bits 7-5, the
    target register in bits 4-2 and the ARE field zero. *)
Theorem double_register_word_fields (c : CommandInstruction) :
  reg (sourceOperand c) <> NONE_REG ->
  reg (targetOperand c) <> NONE_REG ->
  let w := double_direct_register_word c in
  w = Z.lor (direct_register_word (reg (sourceOperand c)) SOURCE_OPERAND)
            (direct_register_word (reg (targetOperand c)) TARGET_OPERAND)
  /\ w = 32 * Register_val (reg (sourceOperand c))
         + 4 * Register_val (reg (targetOperand c))
  /\ field w 5 3 = Register_val (reg (sourceOperand c))
  /\ field w 2 3 = Register_val (reg (targetOperand c))
  /\ field w 0 2 = 0
  /\ direct_register_word (reg (sourceOperand c)) SOURCE_OPERAND
     = 32 * Register_val (reg (sourceOperand c))
  /\ direct_register_word (reg (targetOperand c)) TARGET_OPERAND
     = 4 * Register_val (reg (targetOperand c)).
Proof.
  intros Hs Ht.
  destruct (register_words _ _ Hs Ht) as (H1 & H2 & H3 & H4 & H5 & H6).
  cbv zeta in *.
  assert (E : double_direct_register_word c
              = Z.lor (direct_register_word (reg (sourceOperand c))
                                            SOURCE_OPERAND)
                      (direct_register_word (reg (targetOperand c))
                                            TARGET_OPERAND)).
  { unfold double_direct_register_word.
    destruct (reg (sourceOperand c)) eqn:Es; try congruence;
      destruct (reg (targetOperand c)) eqn:Et; try congruence;
      reflexivity. }
  rewrite E. auto 10.
Qed.

Lemma double_register_word_fields_witness :
  reg (sourceOperand (commandInst mov_r1_r2)) <> NONE_REG
  /\ reg (targetOperand (commandInst mov_r1_r2)) <> NONE_REG
  /\ double_direct_register_word (commandInst mov_r1_r2) = 32 * 1 + 4 * 2
  /\ field (double_direct_register_word (commandInst mov_r1_r2)) 5 3 = 1
  /\ field (double_direct_register_word (commandInst mov_r1_r2)) 2 3 = 2.
Proof.
  assert (Hs : reg (sourceOperand (commandInst mov_r1_r2)) <> NONE_REG)
    by discriminate.
  assert (Ht : reg (targetOperand (commandInst mov_r1_r2)) <> NONE_REG)
    by discriminate.
  destruct (double_register_word_fields (commandInst mov_r1_r2) Hs Ht)
    as (_ & H2 & H3 & H4 & _).
  exact (conj Hs (conj Ht (conj H2 (conj H3 H4)))).
Defined.

(* ------------------------------------------------------------------------- *)
(** ** The encoded base 4 of the object file *)

Lemma base4_digit_range (w i : Z) :
  0 <= Z.land (Z.shiftr w i) LOWER_2_BITS_MASK < 4.
Proof.
  unfold LOWER_2_BITS_MASK. change 3 with (Z.ones 2).
  rewrite Z.land_ones by lia. apply Z.mod_pos_bound. lia.
Qed.

Lemma SpecialBase4_inj (a b : Z) :
  0 <= a < 4 -> 0 <= b < 4 -> SpecialBase4 a = SpecialBase4 b -> a = b.
Proof.
  intros Ha Hb.
  assert (A : a = 0 \/ a = 1 \/ a = 2 \/ a = 3) by lia.
  assert (B : b = 0 \/ b = 1 \/ b = 2 \/ b = 3) by lia.
  destruct A as [-> | [-> | [-> | ->]]];
    destruct B as [-> | [-> | [-> | ->]]]; cbn; intros H;
    try reflexivity; discriminate H.
Qed.

Lemma shiftr_step (w i : Z) :
  0 <= i ->
  Z.shiftr w i
  = 4 * Z.shiftr w (i + 2) + Z.land (Z.shiftr w i) LOWER_2_BITS_MASK.
Proof.
  intros Hi. unfold LOWER_2_BITS_MASK. change 3 with (Z.ones 2).
  rewrite Z.land_ones by lia.
  rewrite <- (Z.shiftr_shiftr w i 2) by lia.
  rewrite (Z.shiftr_div_pow2 (Z.shiftr w i) 2) by lia.
  change (2 ^ 2) with 4.
  apply Z.div_mod. lia.
Qed.

(** The low fourteen bits of a word are the number its seven base-4 digits
    write. *)
Lemma low_14_bits_digits (w : Z) :
  Z.land w LOWER_14_BIT_MASK
  = fold_left (fun acc d => 4 * acc + d) (base4_digits w) 0.
Proof.
  rewrite low_14_bits. unfold base4_digits. cbn [map fold_left].
  pose proof (shiftr_step w 0 ltac:(lia)) as H0.
  pose proof (shiftr_step w 2) as H2.
  pose proof (shiftr_step w 4) as H4.
  pose proof (shiftr_step w 6) as H6.
  pose proof (shiftr_step w 8) as H8.
  pose proof (shiftr_step w 10) as H10.
  pose proof (shiftr_step w 12) as H12.
  cbn [Z.add Pos.add Pos.succ] in *.
  pose proof (base4_digit_range w 0).
  pose proof (base4_digit_range w 2).
  pose proof (base4_digit_range w 4).
  pose proof (base4_digit_range w 6).
  pose proof (base4_digit_range w 8).
  pose proof (base4_digit_range w 10).
  pose proof (base4_digit_range w 12).
  rewrite !(Z.shiftr_0_r w) in *.
  symmetry. apply (Z.mod_unique_pos _ _ (Z.shiftr w 14)); lia.
Qed.

Lemma print_digits (w : Z) :
  print_encoded_base4_machine_word w
  = string_of_list_ascii (map SpecialBase4 (base4_digits w)).
Proof. reflexivity. Qed.

Lemma print_base4_low_14_inj (w1 w2 : Z) :
  print_encoded_base4_machine_word w1 = print_encoded_base4_machine_word w2 ->
  Z.land w1 LOWER_14_BIT_MASK = Z.land w2 LOWER_14_BIT_MASK.
Proof.
  intros H. rewrite !low_14_bits_digits.
  rewrite !print_digits in H.
  apply (f_equal list_ascii_of_string) in H.
  rewrite !list_ascii_of_string_of_list_ascii in H.
  unfold base4_digits in *. cbn [map] in H.
  injection H as E12 E10 E8 E6 E4 E2 E0.
  apply SpecialBase4_inj in E12, E10, E8, E6, E4, E2, E0;
    try apply base4_digit_range.
  cbn [map fold_left]. congruence.
Qed.

(** X3.  A word is printed as seven characters, and two words are printed
    alike exactly when their low fourteen bits are equal: the printed form
    loses the bits above bit 13 and nothing else. *)
Theorem print_base4_injective (w1 w2 : Z) :
  String.length (print_encoded_base4_machine_word w1) = 7%nat
  /\ (print_encoded_base4_machine_word w1
      = print_encoded_base4_machine_word w2
      <-> Z.land w1 LOWER_14_BIT_MASK = Z.land w2 LOWER_14_BIT_MASK).
Proof.
  split; [reflexivity | split].
  - apply print_base4_low_14_inj.
  - intros H. rewrite <- (print_low_14_bits w1), <- (print_low_14_bits w2).
    now rewrite H.
Qed.

(* ------------------------------------------------------------------------- *)
(** ** Operand words: values that can be read back *)

Lemma immediate_word_field (v : Z) :
  field (immediate_word v) 2 12 = v mod 4096.
Proof.
  unfold field, immediate_word, u32.
  rewrite Z.lor_0_l, Z.shiftl_mul_pow2 by lia.
  change (2 ^ 12 - 1) with (Z.ones 12).
  rewrite Z.land_ones, Z.shiftr_div_pow2 by lia.
  change (2 ^ 2) with 4. change (2 ^ 32) with (4 * 2 ^ 30).
  rewrite (Z.mul_comm v 4), Z.mul_mod_distr_l by lia.
  rewrite (Z.mul_comm 4), Z.div_mul by lia.
  change (2 ^ 12) with 4096.
  rewrite <- (Z.mod_mod_divide v (2 ^ 30) 4096); [reflexivity | ].
  exists (2 ^ 18). reflexivity.
Qed.

Lemma sign_extend_12_mod (v : Z) :
  in_12_bits v -> sign_extend_12 (v mod 4096) = v.
Proof.
  unfold in_12_bits, sign_extend_12. intros H.
  rewrite Z.add_mod_idemp_l by lia.
  rewrite Z.mod_small by lia. lia.
Qed.

(** X4.  The word of an immediate operand can be read back: for a value the
    range check accepts, bits 13-2 of the word, taken as a twelve-bit
    two's-complement number, are the value, the ARE field is zero, and two
    values that are printed alike in the object file are equal. *)
Theorem immediate_word_round_trip (v : Z) :
  two_complement_validation v = true ->
  sign_extend_12 (field (immediate_word v) 2 12) = v
  /\ field (immediate_word v) 0 2 = 0
  /\ (forall v' : Z,
         two_complement_validation v' = true ->
         print_encoded_base4_machine_word (immediate_word v)
         = print_encoded_base4_machine_word (immediate_word v') ->
         v = v').
Proof.
  intros Hv. apply two_complement_validation_iff in Hv.
  split; [ | split].
  - rewrite immediate_word_field. now apply sign_extend_12_mod.
  - pose proof (immediate_word_ARE v) as H. unfold ARE_bits in H.
    unfold field. now rewrite Z.shiftr_0_r.
  - intros v' Hv' Hp. apply two_complement_validation_iff in Hv'.
    apply print_base4_low_14_inj in Hp.
    rewrite !immediate_word_low_14 in Hp.
    change (2 ^ 12) with 4096 in Hp.
    rewrite <- (sign_extend_12_mod v Hv), <- (sign_extend_12_mod v' Hv').
    f_equal. lia.
Qed.

Lemma immediate_word_round_trip_witness :
  two_complement_validation (-2048) = true
  /\ sign_extend_12 (field (immediate_word (-2048)) 2 12) = -2048.
Proof.
  assert (H : two_complement_validation (-2048) = true) by reflexivity.
  exact (conj H (proj1 (immediate_word_round_trip (-2048) H))).
Defined.

Lemma label_word_value (a : Z) (r : ARE) :
  0 <= a < 2 ^ 30 ->
  label_word a r = 4 * a + ARE_val r
  /\ field (label_word a r) 2 30 = a
  /\ field (label_word a r) 0 2 = ARE_val r.
Proof.
  intros Ha.
  assert (E : label_word a r = 4 * a + ARE_val r).
  { unfold label_word, u32. rewrite Z.lor_0_l.
    assert (L : Z.land (ARE_val r) 3 = ARE_val r) by (destruct r; reflexivity).
    rewrite L.
    assert (S : Z.shiftl a 2 mod 2 ^ 32 = Z.shiftl a 2).
    { rewrite Z.shiftl_mul_pow2 by lia. apply Z.mod_small. lia. }
    rewrite S.
    assert (N : Z.land (Z.shiftl a 2) (ARE_val r) = 0).
    { apply Z.bits_inj'. intros n Hn.
      rewrite Z.land_spec, Z.bits_0.
      destruct (Z.ltb_spec n 2).
      - rewrite (Z.shiftl_spec_low a 2 n) by lia. reflexivity.
      - assert (T : Z.testbit (ARE_val r) n = false).
        { rewrite <- L, Z.land_spec. change 3 with (Z.ones 2).
          rewrite Z.ones_spec_high by lia. apply andb_false_r. }
        rewrite T. apply andb_false_r. }
    rewrite <- (Z.lxor_lor _ _ N), <- (Z.add_nocarry_lxor _ _ N).
    rewrite Z.shiftl_mul_pow2 by lia. lia. }
  split; [exact E | ].
  rewrite E. unfold field. split.
  - rewrite Z.shiftr_div_pow2 by lia. change (2 ^ 2) with 4.
    change (2 ^ 30 - 1) with (Z.ones 30). rewrite Z.land_ones by lia.
    assert (D : (4 * a + ARE_val r) / 4 = a).
    { symmetry. apply (Z.div_unique_pos _ _ _ (ARE_val r)); [ | lia].
      destruct r; cbn; lia. }
    rewrite D. apply Z.mod_small. lia.
  - rewrite Z.shiftr_0_r. change (2 ^ 2 - 1) with (Z.ones 2).
    rewrite Z.land_ones by lia. change (2 ^ 2) with 4.
    rewrite Z.add_comm, Z.mul_comm, Z.mod_add by lia.
    apply Z.mod_small. destruct r; cbn; lia.
Qed.

Lemma label_word_small (a : Z) :
  0 <= a < 2 ^ 12 ->
  label_word a RELOCATABLE = 4 * a + 2
  /\ field (4 * a + 2) 2 12 = a
  /\ 0 <= 4 * a + 2 < 2 ^ 14.
Proof.
  intros Ha.
  destruct (label_word_value a RELOCATABLE) as (E & _); [lia | ].
  split; [exact E | split; [ | lia]].
  unfold field. rewrite Z.shiftr_div_pow2 by lia. change (2 ^ 2) with 4.
  change (2 ^ 12 - 1) with (Z.ones 12). rewrite Z.land_ones by lia.
  assert (D : (4 * a + 2) / 4 = a).
  { symmetry. apply (Z.div_unique_pos _ _ _ 2); lia. }
  rewrite D. apply Z.mod_small. lia.
Qed.

(** X5.  A direct operand is an error exactly when no symbol of the table
    has its name, and then the translation unit is left as it was.  The kind
    of the symbol found is not looked at, except for external symbols: for
    any other symbol whose address [a] is in [0, 4096), a constant
    included, the word stored is [4 * a + 2], the address in bits 13-2 and
    the ARE field 10. *)
Theorem encode_direct_addressing_lookup (name : string)
  (tu : TranslationUnit) :
  (fst (encode_direct_addressing name tu) = true
   <-> find_symbol name (symbolTable tu) = None)
  /\ (find_symbol name (symbolTable tu) = None ->
      snd (encode_direct_addressing name tu) = tu)
  /\ (forall s : Symbol,
         find_symbol name (symbolTable tu) = Some s ->
         symbolType s <> EXTERN_LABEL ->
         0 <= address s < 2 ^ 12 ->
         encode_direct_addressing name tu
         = (false, insert_machine_word tu (4 * address s + 2))
         /\ field (4 * address s + 2) 2 12 = address s
         /\ 0 <= 4 * address s + 2 < 2 ^ 14).
Proof.
  unfold encode_direct_addressing, find_label_addressing, find_symbol.
  destruct (find_first_symbol (symbolTable tu) name) as [s | ] eqn:F.
  - split; [split; intros H; discriminate H | ].
    split; [intros H; discriminate H | ].
    intros s' E Hk Ha. injection E as <-.
    destruct (SymbolType_is_extern (symbolType s)) eqn:X.
    + apply SymbolType_is_extern_iff in X. contradiction.
    + destruct (label_word_small (address s) Ha) as (W & Fd & R).
      rewrite u32_id by (unfold fits_unsigned; lia).
      rewrite W. auto.
  - split; [split; reflexivity | ].
    split; [reflexivity | ]. intros s' E. discriminate E.
Qed.

(** X6.  An operand that fails in the second pass stores no word: the code
    image and IC are as before.  Only immediate, direct and fixed-index
    operands can fail.  The translation unit as a whole is unchanged, with
    one exception: a fixed-index operand whose base is an external symbol
    and whose index is refused has already had its use recorded in the
    externals list. *)
Theorem operand_error_effect (l : AbstractLineDescriptor)
  (tu : TranslationUnit) (a : AddressingType) (t : OperandType) :
  fst (process_operand_encoding l tu a t) = true ->
  let tu' := snd (process_operand_encoding l tu a t) in
  let f := fixedIndexOperand (operand_of (commandInst l) t) in
  codeImage tu' = codeImage tu
  /\ IC tu' = IC tu
  /\ (a = IMMEDIATE_ADDR \/ a = DIRECT_ADDR \/ a = FIXED_IDX_ADDR)
  /\ (tu' = tu
      \/ (a = FIXED_IDX_ADDR
          /\ (exists s : Symbol,
                 find_symbol (labelName f) (symbolTable tu) = Some s
                 /\ symbolType s = EXTERN_LABEL)
          /\ get_addressing_index f tu = None
          /\ tu' = updateExternTable tu (labelName f))).
Proof.
  intros H. cbv zeta.
  destruct a; cbn [process_operand_encoding] in *.
  - unfold encode_immediate_addressing in *.
    destruct (immediate_value _ tu) as [v | ]; cbn in *.
    + destruct (two_complement_validation v); cbn in *;
        [discriminate H | auto 10].
    + auto 10.
  - unfold encode_direct_addressing, find_label_addressing in *.
    destruct (find_first_symbol (symbolTable tu) _) as [s | ]; cbn in *;
      [discriminate H | auto 10].
  - unfold encode_fixed_index_addressing, find_label_addressing,
      find_symbol in *.
    set (f := fixedIndexOperand (operand_of (commandInst l) t)) in *.
    destruct (find_first_symbol (symbolTable tu) (labelName f))
      as [s | ] eqn:F; cbn in *; [ | auto 10].
    destruct (SymbolType_is_extern (symbolType s)) eqn:X.
    + rewrite (get_addressing_index_constants f tu
                 (updateExternTable tu (labelName f)) eq_refl) in *.
      destruct (get_addressing_index f tu) eqn:G; cbn in *;
        [discriminate H | ].
      apply SymbolType_is_extern_iff in X.
      repeat split; auto. right. repeat split; auto. now exists s.
    + destruct (get_addressing_index f tu) eqn:G; cbn in *;
        [discriminate H | auto 10].
  - discriminate H.
  - discriminate H.
Qed.

Lemma operand_error_effect_witness :
  fst (process_operand_encoding (prn_immediate 5000)
         fresh_unit IMMEDIATE_ADDR TARGET_OPERAND) = true
  /\ codeImage (snd (process_operand_encoding (prn_immediate 5000)
                       fresh_unit IMMEDIATE_ADDR
                       TARGET_OPERAND))
     = codeImage fresh_unit.
Proof.
  assert (H : fst (process_operand_encoding (prn_immediate 5000)
                     fresh_unit IMMEDIATE_ADDR
                     TARGET_OPERAND) = true) by reflexivity.
  exact (conj H (proj1 (operand_error_effect _ _ _ _ H))).
Defined.

(* ------------------------------------------------------------------------- *)
(** ** The opcode tables *)

Ltac split_name name :=
  repeat match goal with
         | H : context [String.eqb name ?s] |- _ =>
             destruct (String.eqb_spec name s); [subst name | ]
         | |- context [String.eqb name ?s] =>
             destruct (String.eqb_spec name s); [subst name | ]
         end.

Lemma which_opcode_get_opcode (name : string) :
  which_opcode name = get_opcode name.
Proof.
  unfold which_opcode, get_opcode.
  cbn [which_opcode_from opcodeDictionary].
  split_name name; try reflexivity; try congruence.
  destruct name; reflexivity.
Qed.

(** X7.  The opcode tables agree with one another: [which_opcode] and
    [get_opcode] give the same answer on every word; a word has an operand
    category exactly when it names an opcode; and a name is found again from
    the opcode it designates, at the row of [opcodeDictionary] whose index is
    the numeric value of the opcode. *)
Theorem opcode_tables_agree (name : string) :
  which_opcode name = get_opcode name
  /\ (determine_opcode_category (Some name) = None
      <-> which_opcode name = None)
  /\ (forall op : Opcode,
         which_opcode name = Some op <->
         nth_error opcodeDictionary (Z.to_nat (Opcode_val op))
         = Some (op, name)).
Proof.
  split; [apply which_opcode_get_opcode | ].
  rewrite which_opcode_get_opcode. split.
  - unfold determine_opcode_category, get_opcode, in_table.
    cbn [existsb twoOperandsOpcodes oneOperandOpcodes noOperandsOpcodes].
    split_name name; cbn; split; intros H; try reflexivity;
      try discriminate H; congruence.
  - intros op. split.
    + unfold get_opcode. intros H.
      split_name name; try discriminate H; injection H as <-; reflexivity.
    + intros H. destruct op; cbn in H; injection H as <-; reflexivity.
Qed.

(** X8.  The category of an opcode name fixes the operands of every legal
    command with that opcode: a two-operand opcode has both operands, a
    one-operand opcode only the target operand, [rts] and [hlt] none.  The
    command then occupies one word when it has no operand and otherwise
    between two words and one word plus two per operand. *)
Theorem legal_command_operands (name : string) (cat : OpcodeCategory)
  (c : CommandInstruction) :
  determine_opcode_category (Some name) = Some cat ->
  which_opcode name = Some (opcodeCommand c) ->
  is_legal_command_inst c = true ->
  operands_present c = category_operands cat
  /\ (cat = ONE_OPERAND -> sourceOperandAddressingType c = NONE_ADDR)
  /\ (ic_promoter_inst c = 1%nat <-> cat = NO_OPERANDS)
  /\ (ic_promoter_inst c <= 1 + 2 * category_operands cat)%nat.
Proof.
  rewrite which_opcode_get_opcode.
  destruct c as [op n s t sa ta]. cbn [opcodeCommand
    sourceOperandAddressingType targetOperandAddressingType].
  unfold determine_opcode_category, get_opcode, in_table.
  cbn [existsb twoOperandsOpcodes oneOperandOpcodes noOperandsOpcodes].
  intros Hc Ho Hl.
  split_name name; cbn in Hc, Ho; try discriminate Ho;
    injection Ho as <-; injection Hc as <-;
    destruct sa, ta; try discriminate Hl;
    (split; [reflexivity | ]);
    (split; [intros E; first [reflexivity | discriminate E] | ]);
    (split; [split; intros E; first [reflexivity | discriminate E] | ]);
    cbn; lia.
Qed.

Lemma legal_command_operands_witness :
  determine_opcode_category (Some "mov"%string) = Some TWO_OPERANDS
  /\ which_opcode "mov" = Some (opcodeCommand (commandInst mov_r1_r2))
  /\ is_legal_command_inst (commandInst mov_r1_r2) = true
  /\ operands_present (commandInst mov_r1_r2) = 2%nat
  /\ (ic_promoter_inst (commandInst mov_r1_r2) <= 5)%nat.
Proof.
  assert (H1 : determine_opcode_category (Some "mov"%string)
               = Some TWO_OPERANDS) by reflexivity.
  assert (H2 : which_opcode "mov"
               = Some (opcodeCommand (commandInst mov_r1_r2)))
    by reflexivity.
  assert (H3 : is_legal_command_inst (commandInst mov_r1_r2) = true)
    by reflexivity.
  destruct (legal_command_operands _ _ _ H1 H2 H3) as (A & _ & _ & B).
  exact (conj H1 (conj H2 (conj H3 (conj A B)))).
Defined.

(* ------------------------------------------------------------------------- *)
(** ** The constants list and the symbol table: insertion and lookup *)

Lemma extract_constant_from_app (l1 l2 : list ConstantDefinitionInstruction)
  (name : string) :
  extract_constant_from (l1 ++ l2) name
  = match extract_constant_from l1 name with
    | Some v => Some v
    | None => extract_constant_from l2 name
    end.
Proof.
  induction l1 as [ | c l1 IH]; cbn; [reflexivity | ].
  destruct (String.eqb (constName c) name); [reflexivity | exact IH].
Qed.

(** X9.  Looking a constant up after [insert_constant_to_list]: a name
    that was already in the list keeps its old value (the first definition
    wins), the name just inserted is found with its value when it was not in
    the list, and any other name is still absent.  Nothing but the constants
    list changes. *)
Theorem constant_insert_lookup (l : AbstractLineDescriptor)
  (tu : TranslationUnit) (name : string) :
  extract_constant name (insert_constant_to_list l tu)
  = match extract_constant name tu with
    | Some v => Some v
    | None =>
        if String.eqb (constName (constDefInst l)) name
        then Some (constValue (constDefInst l))
        else None
    end
  /\ symbolTable (insert_constant_to_list l tu) = symbolTable tu
  /\ dataImage (insert_constant_to_list l tu) = dataImage tu
  /\ codeImage (insert_constant_to_list l tu) = codeImage tu.
Proof.
  unfold extract_constant, insert_constant_to_list.
  cbn [constantList set_constantList].
  rewrite extract_constant_from_app. cbn.
  destruct (extract_constant_from (constantList tu) name); auto.
Qed.

Lemma find_first_symbol_app (t1 t2 : list Symbol) (name : string) :
  find_first_symbol (t1 ++ t2) name
  = match find_first_symbol t1 name with
    | Some s => Some s
    | None => find_first_symbol t2 name
    end.
Proof.
  induction t1 as [ | s t1 IH]; cbn; [reflexivity | ].
  destruct (String.eqb name (symbolName s)); [reflexivity | exact IH].
Qed.

Lemma substring_short (n : nat) (s : string) :
  (String.length s <= n)%nat -> substring 0 n s = s.
Proof.
  revert n. induction s as [ | c s IH]; intros n H.
  - destruct n; reflexivity.
  - destruct n; cbn in *; [lia | ]. f_equal. apply IH. lia.
Qed.

Lemma substring_length (n : nat) (s : string) :
  String.length (substring 0 n s) = Nat.min n (String.length s).
Proof.
  revert n. induction s as [ | c s IH]; intros n.
  - destruct n; reflexivity.
  - destruct n; cbn; [reflexivity | ]. now rewrite IH.
Qed.

Lemma copy_symbol_name_short (s : string) :
  (String.length s <= MAX_SYMBOL_LENGTH)%nat -> copy_symbol_name s = s.
Proof. apply substring_short. Qed.

Lemma copy_symbol_name_long (s : string) :
  (MAX_SYMBOL_LENGTH < String.length s)%nat ->
  String.eqb s (copy_symbol_name s) = false.
Proof.
  intros H. apply String.eqb_neq. intros E.
  apply (f_equal String.length) in E.
  unfold copy_symbol_name in E. rewrite substring_length in E. lia.
Qed.

Lemma insert_symbol_to_table_table (l : AbstractLineDescriptor)
  (tu : TranslationUnit) (ic dc : nat) (t : SymbolType) :
  is_inserted_type t = true ->
  exists a : Z,
    symbolTable (insert_symbol_to_table l tu ic dc t)
    = symbolTable tu
      ++ [ {| symbolName := copy_symbol_name (inserted_name l t);
              symbolType := t; address := a |} ].
Proof.
  destruct t; intros H; try discriminate H; cbn; eauto.
Qed.

(** X10.  Looking a symbol up after [insert_symbol_to_table]: every name
    found before is found as before; the name read from the line is found,
    with the type asked for, when it was absent and has at most 31
    characters; when it has more, only its first 31 characters are stored
    and the full name is still not found. *)
Theorem symbol_insert_lookup (l : AbstractLineDescriptor)
  (tu : TranslationUnit) (ic dc : nat) (t : SymbolType) :
  is_inserted_type t = true ->
  let tu' := insert_symbol_to_table l tu ic dc t in
  let name := inserted_name l t in
  (forall (n : string) (s : Symbol),
      find_symbol n (symbolTable tu) = Some s ->
      find_symbol n (symbolTable tu') = Some s)
  /\ (find_symbol name (symbolTable tu) = None ->
      (String.length name <= MAX_SYMBOL_LENGTH)%nat ->
      exists s : Symbol,
        find_symbol name (symbolTable tu') = Some s
        /\ symbolName s = name /\ symbolType s = t)
  /\ (find_symbol name (symbolTable tu) = None ->
      (MAX_SYMBOL_LENGTH < String.length name)%nat ->
      find_symbol name (symbolTable tu') = None)
  /\ List.length (symbolTable tu') = S (List.length (symbolTable tu)).
Proof.
  intros Ht. cbv zeta.
  destruct (insert_symbol_to_table_table l tu ic dc t Ht) as (a & E).
  rewrite E. unfold find_symbol.
  split; [ | split; [ | split]].
  - intros n s F. rewrite find_first_symbol_app, F. reflexivity.
  - intros F Hlen. rewrite find_first_symbol_app, F.
    cbn. rewrite copy_symbol_name_short by exact Hlen.
    rewrite String.eqb_refl. eexists. repeat split.
  - intros F Hlen. rewrite find_first_symbol_app, F.
    cbn. now rewrite copy_symbol_name_long.
  - rewrite length_app. cbn. lia.
Qed.

Lemma symbol_insert_lookup_witness :
  is_inserted_type EXTERN_LABEL = true
  /\ List.length
       (symbolTable (insert_symbol_to_table (extern_line "X")
                       fresh_unit 100 0 EXTERN_LABEL))
     = 1%nat.
Proof.
  assert (H : is_inserted_type EXTERN_LABEL = true) by reflexivity.
  exact (conj H
           (proj2 (proj2 (proj2
              (symbol_insert_lookup (extern_line "X")
                 fresh_unit 100 0 EXTERN_LABEL H))))).
Defined.

(* ------------------------------------------------------------------------- *)
(** ** The first pass keeps the names of the symbol table distinct *)

Lemma find_first_symbol_None (table : list Symbol) (name : string) :
  find_first_symbol table name = None <-> ~ In name (map symbolName table).
Proof.
  induction table as [ | s table IH]; cbn.
  - split; [intros _ [] | reflexivity].
  - destruct (String.eqb_spec name (symbolName s)) as [E | N].
    + split; [intros H; discriminate H | intros H; exfalso; auto].
    + rewrite IH. split; [intros H [E | I]; [congruence | auto] | tauto].
Qed.

Lemma update_symbol_names (table : list Symbol) (name : string)
  (f : Symbol -> Symbol) :
  (forall s, symbolName (f s) = symbolName s) ->
  map symbolName (update_symbol table name f) = map symbolName table.
Proof.
  intros Hf. induction table as [ | s table IH]; cbn; [reflexivity | ].
  destruct (String.eqb name (symbolName s)); cbn; [now rewrite Hf | ].
  now rewrite IH.
Qed.

Lemma insert_symbol_to_table_unique (l : AbstractLineDescriptor)
  (tu : TranslationUnit) (ic dc : nat) (t : SymbolType) :
  find_symbol (inserted_name l t) (symbolTable tu) = None ->
  (String.length (inserted_name l t) <= MAX_SYMBOL_LENGTH)%nat ->
  unique_names (symbolTable tu) ->
  unique_names (symbolTable (insert_symbol_to_table l tu ic dc t)).
Proof.
  intros F Hlen U.
  destruct (is_inserted_type t) eqn:Ht.
  - destruct (insert_symbol_to_table_table l tu ic dc t Ht) as (a & E).
    rewrite E. unfold unique_names in *. rewrite map_app. cbn.
    rewrite copy_symbol_name_short by exact Hlen.
    apply NoDup_app; [exact U | repeat constructor; intros [] | ].
    intros n I [<- | []]. apply find_first_symbol_None in F. auto.
  - destruct t; try discriminate Ht; exact U.
Qed.

Lemma handle_label_unique (l : AbstractLineDescriptor)
  (tu : TranslationUnit) (ic dc : nat) :
  short_names l ->
  unique_names (symbolTable tu) ->
  unique_names (symbolTable (snd (handle_label l tu ic dc))).
Proof.
  intros (Hl & _ & _) U. unfold handle_label.
  destruct (find_symbol (deref (lineLabel l)) (symbolTable tu))
    as [s | ] eqn:F.
  - destruct (is_temp_entry (symbolType s)); [ | exact U].
    destruct (lineType l); try exact U.
    + destruct (is_data_or_string (dirType l)); [ | exact U].
      cbn. unfold unique_names. now rewrite update_symbol_names.
    + cbn. unfold unique_names. now rewrite update_symbol_names.
  - destruct (lineType l); try exact U.
    + destruct (is_data_or_string (dirType l)); [ | exact U].
      cbn [snd]. now apply insert_symbol_to_table_unique.
    + cbn [snd]. now apply insert_symbol_to_table_unique.
Qed.

Lemma handle_entry_extern_unique (l : AbstractLineDescriptor)
  (tu : TranslationUnit) (ic dc : nat) :
  short_names l ->
  unique_names (symbolTable tu) ->
  unique_names (symbolTable (snd (handle_entry_extern l tu ic dc))).
Proof.
  intros (_ & _ & He) U. unfold handle_entry_extern.
  destruct (find_symbol (entryName l) (symbolTable tu)) as [s | ] eqn:F.
  - destruct (dirType l); try exact U.
    destruct (symbolType s); try exact U;
      cbn; unfold unique_names; now rewrite update_symbol_names.
  - destruct (dirType l); try exact U;
      cbn [snd]; now apply insert_symbol_to_table_unique.
Qed.

Lemma first_pass_step_unique (l : AbstractLineDescriptor)
  (tu tu' : TranslationUnit) (ic dc ic' dc' : nat) (err : bool) :
  short_names l ->
  unique_names (symbolTable tu) ->
  first_pass_step l tu ic dc = Some (tu', ic', dc', err) ->
  unique_names (symbolTable tu').
Proof.
  intros Hs U. unfold first_pass_step.
  destruct (negb (is_null_or_empty (lineError l)));
    [intros H; injection H as <- _ _ _; exact U | ].
  assert (U1 : unique_names
                 (symbolTable
                    (snd (if negb (is_null_or_empty (lineLabel l))
                          then handle_label l tu ic dc else (false, tu))))).
  { destruct (negb (is_null_or_empty (lineLabel l)));
      [now apply handle_label_unique | exact U]. }
  destruct (if negb (is_null_or_empty (lineLabel l))
            then handle_label l tu ic dc else (false, tu))
    as [labelError tu1].
  cbn [snd] in U1.
  destruct (lineType l) eqn:T;
    try (intros H; injection H as <- _ _ _; exact U);
    (destruct labelError; [intros H; injection H as <- _ _ _; exact U1 | ]);
    try (intros H; injection H as <- _ _ _; exact U1).
  - (* directive *)
    destruct (if is_data_or_string (dirType l)
              then handle_data_image l tu1 dc else Some (tu1, dc))
      as [[tu2 dc2] | ] eqn:D; [ | intros H; discriminate H].
    assert (Hd : symbolTable tu2 = symbolTable tu1).
    { destruct (is_data_or_string (dirType l)).
      - now destruct (handle_data_image_inv l tu1 tu2 dc dc2 D) as (_ & Hd & _).
      - now injection D as <- _. }
    destruct (is_entry_or_extern (dirType l)).
    + pose proof (handle_entry_extern_unique l tu2 ic dc2 Hs) as He.
      destruct (handle_entry_extern l tu2 ic dc2) as [err' tu3].
      intros H; injection H as <- _ _ _.
      cbn in *. apply He. now rewrite Hd.
    + intros H; injection H as <- _ _ _. now rewrite Hd.
  - (* command *)
    destruct (negb (is_legal_command l));
      intros H; injection H as <- _ _ _; exact U1.
  - (* constant definition *)
    destruct (find_symbol (constName (constDefInst l)) (symbolTable tu1))
      eqn:F; intros H; injection H as <- _ _ _; [exact U1 | ].
    destruct Hs as (_ & Hc & _).
    now apply (insert_symbol_to_table_unique l tu1 ic dc DEFINED_CONSTANT).
Qed.

Lemma first_pass_line_unique (st st' : FirstPassState)
  (l : AbstractLineDescriptor) :
  short_names l ->
  unique_names (symbolTable (fp_unit st)) ->
  first_pass_line st l = Some st' ->
  unique_names (symbolTable (fp_unit st')).
Proof.
  intros Hs U. unfold first_pass_line.
  pose proof (line_descriptor_builder_effect_inv l (fp_unit st)) as (_ & E).
  destruct (first_pass_step l _ (fp_ic st) (fp_dc st))
    as [[[[tu ic] dc] err] | ] eqn:H; [ | intros K; discriminate K].
  intros K. injection K as <-. cbn [next_line fp_unit].
  apply (first_pass_step_unique l _ tu _ _ ic dc err Hs) in H;
    [exact H | ]. unfold unique_names in *. now rewrite E.
Qed.

Lemma first_pass_loop_unique (ls : list AbstractLineDescriptor)
  (st st' : FirstPassState) :
  Forall short_names ls ->
  unique_names (symbolTable (fp_unit st)) ->
  first_pass_loop ls st = Some st' ->
  unique_names (symbolTable (fp_unit st')).
Proof.
  intros Hs. revert st. induction Hs as [ | l ls Hl Hs IH]; intros st U H.
  - cbn in H. now injection H as <-.
  - apply first_pass_loop_cons in H. destruct H as (st1 & H1 & H).
    apply (IH st1); [ | exact H].
    now apply (first_pass_line_unique st st1 l).
Qed.

(** The symbol table the first pass leaves: that of the end of its loop,
    the data symbols being moved by the instruction counter. *)
Lemma first_pass_table (ls : list AbstractLineDescriptor)
  (tu0 : TranslationUnit) (ok : bool) (prog : AbstractProgram)
  (tu : TranslationUnit) :
  first_pass ls tu0 = Some (ok, prog, tu) ->
  exists st : FirstPassState,
    first_pass_loop ls (first_pass_init tu0) = Some st
    /\ symbolTable tu = map (relocate (fp_ic st)) (symbolTable (fp_unit st)).
Proof.
  unfold first_pass.
  destruct (first_pass_loop ls (first_pass_init tu0)) as [st | ];
    [ | intros H; discriminate H].
  intros H. exists st. split; [reflexivity | ].
  set (tu1 := if (0 <? IC (fp_unit st))%nat then _ else _) in H.
  assert (E : symbolTable tu1 = symbolTable (fp_unit st)).
  { unfold tu1. destruct (0 <? IC (fp_unit st))%nat; reflexivity. }
  rewrite <- E, <- process_symbol_table_table.
  destruct (process_symbol_table tu1 (fp_ic st)).
  now injection H as _ _ <-.
Qed.

(** X11.  When the names the lines bring have at most 31 characters, no two
    symbols of the table the first pass leaves have the same name: a name
    is inserted only after a lookup that did not find it, and a symbol that
    is updated keeps its name.  This holds for every first pass that comes
    to its end, whatever the capacity field of the data image held. *)
Theorem first_pass_unique_names (garbage : nat)
  (ls : list AbstractLineDescriptor) (ok : bool) (prog : AbstractProgram)
  (tu : TranslationUnit) :
  Forall short_names ls ->
  first_pass ls (initialize_translation_unit garbage) = Some (ok, prog, tu) ->
  unique_names (symbolTable tu).
Proof.
  intros Hs H. apply first_pass_table in H. destruct H as (st & Hl & ->).
  unfold unique_names. rewrite map_map.
  rewrite (map_ext _ symbolName) by (intros s; apply relocate_name).
  apply (first_pass_loop_unique ls
           (first_pass_init (initialize_translation_unit garbage)) st Hs);
    [constructor | exact Hl].
Qed.

Lemma first_pass_unique_names_witness :
  Forall short_names entry_extern_program
  /\ first_pass entry_extern_program (initialize_translation_unit 0)
     = Some (true, entry_extern_descriptors, entry_extern_table_unit)
  /\ unique_names (symbolTable entry_extern_table_unit).
Proof.
  assert (H : Forall short_names entry_extern_program).
  { repeat constructor; cbn; lia. }
  assert (F : first_pass entry_extern_program (initialize_translation_unit 0)
              = Some (true, entry_extern_descriptors,
                      entry_extern_table_unit))
    by (vm_compute; reflexivity).
  exact (conj H (conj F (first_pass_unique_names 0 entry_extern_program
                           true entry_extern_descriptors
                           entry_extern_table_unit H F))).
Defined.

(* ------------------------------------------------------------------------- *)
(** ** The end of the first pass: [process_symbol_table] *)

(** X12.  [process_symbol_table] reports an error exactly when the table
    holds a symbol that was declared an entry and never defined.  Whether it
    does or not, every data symbol has its address moved by the instruction
    counter and every other symbol is left as it was, and the entries list
    keeps what it held and receives the entry symbols of the table, each
    once, in the order the sort gives them. *)
Theorem process_symbol_table_spec (tu : TranslationUnit) (ic : nat) :
  let r := process_symbol_table tu ic in
  (fst r = true <->
   exists s : Symbol,
     In s (symbolTable tu) /\ symbolType s = TEMP_ENTRY_LABEL)
  /\ symbolTable (snd r) = map (relocate ic) (symbolTable tu)
  /\ Permutation (entryList (snd r))
       (entryList tu
        ++ filter (fun s => is_entry_symbol (symbolType s))
                  (symbolTable (snd r)))
  /\ dataImage (snd r) = dataImage tu
  /\ constantList (snd r) = constantList tu.
Proof. exact (process_symbol_table_effect tu ic). Qed.

(* ------------------------------------------------------------------------- *)
(** ** The layout of the addresses after the first pass *)

Lemma ic_promoter_pos (l : AbstractLineDescriptor) : (1 <= ic_promoter l)%nat.
Proof.
  unfold ic_promoter, ic_promoter_inst.
  destruct (_ && _); lia.
Qed.

Lemma code_symbol_below_mono (ic ic' : nat) (s : Symbol) :
  (ic <= ic')%nat -> code_symbol_below ic s -> code_symbol_below ic' s.
Proof. unfold code_symbol_below. intros H B E. specialize (B E). lia. Qed.

Lemma Forall_code_symbol_below_mono (ic ic' : nat) (table : list Symbol) :
  (ic <= ic')%nat ->
  Forall (code_symbol_below ic) table -> Forall (code_symbol_below ic') table.
Proof.
  intros H. apply Forall_impl. intros s. now apply code_symbol_below_mono.
Qed.

Lemma insert_symbol_to_table_below (l : AbstractLineDescriptor)
  (tu : TranslationUnit) (ic dc bound : nat) (t : SymbolType) :
  (t = CODE_LABEL ->
   (IC_INIT_VALUE <= ic < bound)%nat /\ Z.of_nat ic < 2 ^ 31) ->
  Forall (code_symbol_below bound) (symbolTable tu) ->
  Forall (code_symbol_below bound)
         (symbolTable (insert_symbol_to_table l tu ic dc t)).
Proof.
  intros Hc H.
  destruct t; cbn [insert_symbol_to_table set_symbolTable symbolTable];
    try exact H;
    apply Forall_app; (split; [exact H | ]);
    (constructor; [ | constructor]);
    unfold code_symbol_below; cbn; intros E; try discriminate E.
  destruct (Hc eq_refl) as (Hr & Hi).
  rewrite to_int_id by lia. unfold IC_INIT_VALUE in *. lia.
Qed.

Lemma handle_label_below (l : AbstractLineDescriptor)
  (tu : TranslationUnit) (ic dc : nat) :
  (IC_INIT_VALUE <= ic)%nat -> Z.of_nat ic < 2 ^ 31 ->
  Forall (code_symbol_below ic) (symbolTable tu) ->
  Forall (code_symbol_below (ic + command_size l))
         (symbolTable (snd (handle_label l tu ic dc))).
Proof.
  intros Hlo Hhi H.
  assert (M : Forall (code_symbol_below (ic + command_size l))
                     (symbolTable tu)).
  { revert H. apply Forall_code_symbol_below_mono. lia. }
  unfold handle_label, find_symbol, command_size in *.
  pose proof (ic_promoter_pos l) as Hp.
  destruct (find_first_symbol (symbolTable tu) (deref (lineLabel l)))
    as [s | ] eqn:F.
  - destruct (is_temp_entry (symbolType s)); [ | exact M].
    destruct (lineType l); cbn [LineType_is_command] in *; try exact M.
    + destruct (is_data_or_string (dirType l)); [ | exact M].
      cbn. eapply update_symbol_Forall; [exact F | | exact M].
      unfold code_symbol_below. cbn. intros E. discriminate E.
    + cbn. eapply update_symbol_Forall; [exact F | | exact M].
      unfold code_symbol_below. cbn. intros _.
      rewrite to_int_id by lia. unfold IC_INIT_VALUE in *. lia.
  - destruct (lineType l); cbn [LineType_is_command] in *; try exact M.
    + destruct (is_data_or_string (dirType l)); [ | exact M].
      cbn [snd]. apply insert_symbol_to_table_below; [ | exact M].
      intros E. discriminate E.
    + cbn [snd]. apply insert_symbol_to_table_below; [ | exact M].
      intros _. split; lia.
Qed.

Lemma handle_entry_extern_below (l : AbstractLineDescriptor)
  (tu : TranslationUnit) (ic dc bound : nat) :
  Forall (code_symbol_below bound) (symbolTable tu) ->
  Forall (code_symbol_below bound)
         (symbolTable (snd (handle_entry_extern l tu ic dc))).
Proof.
  intros H. unfold handle_entry_extern, find_symbol.
  destruct (find_first_symbol (symbolTable tu) (entryName l))
    as [s | ] eqn:F.
  - destruct (dirType l); try exact H.
    destruct (symbolType s) eqn:T; try exact H; cbn.
    + eapply update_symbol_Forall; [exact F | | exact H].
      assert (Hs : code_symbol_below bound s).
      { apply find_first_symbol_In in F.
        eapply Forall_forall in H; [exact H | exact F]. }
      unfold code_symbol_below in *. rewrite T in Hs. cbn in *.
      intros _. now apply Hs.
    + eapply update_symbol_Forall; [exact F | | exact H].
      unfold code_symbol_below. cbn. intros E. discriminate E.
  - destruct (dirType l); try exact H; cbn [snd];
      (apply insert_symbol_to_table_below; [ | exact H]);
      intros E; discriminate E.
Qed.

Lemma first_pass_step_below (l : AbstractLineDescriptor)
  (tu tu' : TranslationUnit) (ic dc ic' dc' : nat) :
  first_pass_step l tu ic dc = Some (tu', ic', dc', false) ->
  (IC_INIT_VALUE <= ic)%nat -> Z.of_nat ic < 2 ^ 31 ->
  Forall (code_symbol_below ic) (symbolTable tu) ->
  Forall (code_symbol_below ic') (symbolTable tu').
Proof.
  intros H Hlo Hhi B.
  destruct (first_pass_step_inv _ _ _ _ _ _ _ _ H) as (_ & _ & _ & Hic & _).
  specialize (Hic eq_refl). subst ic'.
  assert (M : Forall (code_symbol_below (ic + command_size l))
                     (symbolTable tu)).
  { revert B. apply Forall_code_symbol_below_mono. lia. }
  unfold first_pass_step in H.
  destruct (negb (is_null_or_empty (lineError l))); [discriminate H | ].
  assert (B1 : Forall (code_symbol_below (ic + command_size l))
                 (symbolTable
                    (snd (if negb (is_null_or_empty (lineLabel l))
                          then handle_label l tu ic dc else (false, tu))))).
  { destruct (negb (is_null_or_empty (lineLabel l)));
      [now apply handle_label_below | exact M]. }
  destruct (if negb (is_null_or_empty (lineLabel l))
            then handle_label l tu ic dc else (false, tu))
    as [labelError tu1].
  cbn [snd] in B1.
  destruct (lineType l) eqn:T;
    try (injection H as <- _ _; exact M);
    (destruct labelError; [discriminate H | ]).
  - (* directive *)
    destruct (if is_data_or_string (dirType l)
              then handle_data_image l tu1 dc else Some (tu1, dc))
      as [[tu2 dc2] | ] eqn:D; [ | discriminate H].
    assert (Hd : symbolTable tu2 = symbolTable tu1).
    { destruct (is_data_or_string (dirType l)).
      - now destruct (handle_data_image_inv l tu1 tu2 dc dc2 D) as (_ & Hd & _).
      - now injection D as <- _. }
    destruct (is_entry_or_extern (dirType l)).
    + pose proof (handle_entry_extern_below l tu2 ic dc2
                    (ic + command_size l)) as He.
      destruct (handle_entry_extern l tu2 ic dc2) as [err tu3].
      injection H as <- _ _ _. apply He. now rewrite Hd.
    + injection H as <- _ _. now rewrite Hd.
  - (* command *)
    destruct (negb (is_legal_command l)); [discriminate H | ].
    injection H as <- _ _. exact B1.
  - (* constant definition *)
    destruct (find_symbol (constName (constDefInst l)) (symbolTable tu1));
      [discriminate H | ].
    injection H as <- _ _.
    apply (insert_symbol_to_table_below l tu1 ic dc _ DEFINED_CONSTANT);
      [ | exact B1].
    intros E. discriminate E.
  - injection H as <- _ _. exact B1.
Qed.

Lemma first_pass_line_below (st st' : FirstPassState)
  (l : AbstractLineDescriptor) :
  first_pass_line st l = Some st' ->
  fp_errorFlag st' = false ->
  (IC_INIT_VALUE <= fp_ic st)%nat -> Z.of_nat (fp_ic st) < 2 ^ 31 ->
  Forall (code_symbol_below (fp_ic st)) (symbolTable (fp_unit st)) ->
  Forall (code_symbol_below (fp_ic st')) (symbolTable (fp_unit st')).
Proof.
  unfold first_pass_line. intros H E Hlo Hhi B.
  pose proof (line_descriptor_builder_effect_inv l (fp_unit st)) as (_ & Bs).
  destruct (first_pass_step l _ (fp_ic st) (fp_dc st))
    as [[[[tu' ic'] dc'] err] | ] eqn:Hs; [ | discriminate H].
  injection H as <-.
  cbn [next_line fp_unit fp_ic fp_errorFlag] in *.
  apply orb_false_iff in E. destruct E as (_ & ->).
  apply (first_pass_step_below _ _ _ _ _ _ _ Hs Hlo Hhi).
  now rewrite Bs.
Qed.

Lemma first_pass_loop_below (ls : list AbstractLineDescriptor)
  (st st' : FirstPassState) :
  first_pass_loop ls st = Some st' ->
  fp_errorFlag st' = false ->
  (IC_INIT_VALUE <= fp_ic st)%nat ->
  Z.of_nat (fp_ic st') < 2 ^ 31 ->
  Forall (code_symbol_below (fp_ic st)) (symbolTable (fp_unit st)) ->
  Forall (code_symbol_below (fp_ic st')) (symbolTable (fp_unit st')).
Proof.
  revert st. induction ls as [ | l ls IH]; intros st H E Hlo Hhi B.
  - cbn in H. now injection H as <-.
  - apply first_pass_loop_cons in H. destruct H as (st1 & H1 & H).
    destruct (first_pass_loop_inv ls st1 st' H) as (_ & Hi & _ & He & _).
    destruct (first_pass_line_inv st st1 l H1) as (_ & Li & _).
    destruct (He E) as (E1 & _).
    apply (IH st1); try assumption; [lia | ].
    apply (first_pass_line_below st st1 l); try assumption. lia.
Qed.

(** X13.  After a first pass that reports no error, with the image of the
    program within the range of an [int], every code label of the symbol
    table has its address in the code segment, from 100 up to but not
    including the final instruction counter [100 + code size], and every
    data label has its address in the data segment that starts at the
    final instruction counter.  This holds for every first pass that comes
    to its end, whatever the capacity field of the data image held. *)
Theorem first_pass_layout (garbage : nat) (ls : list AbstractLineDescriptor)
  (prog : AbstractProgram) (tu : TranslationUnit) :
  first_pass ls (initialize_translation_unit garbage)
  = Some (true, prog, tu) ->
  Z.of_nat (address_space garbage ls) < 2 ^ 31 ->
  let ic := (IC_INIT_VALUE + code_size ls)%nat in
  let dc := (address_space garbage ls - ic)%nat in
  Forall (symbol_in_segment ic dc) (symbolTable tu).
Proof.
  intros H Hsp. cbv zeta.
  destruct (first_pass_table _ _ _ _ _ H) as (st & Hl & ->).
  unfold first_pass in H. unfold address_space in *.
  rewrite Hl in H, Hsp |- *.
  assert (Ef : fp_errorFlag st = false).
  { destruct (process_symbol_table _ (fp_ic st)) as [e tu1].
    injection H as H _ _. apply negb_true_iff, orb_false_iff in H.
    tauto. }
  clear H.
  destruct (first_pass_loop_inv ls _ st Hl) as (_ & _ & _ & He & Hr & _).
  destruct (He Ef) as (_ & Eic).
  cbn [first_pass_init fp_ic fp_dc fp_unit] in Eic, Hr.
  assert (R : symbols_in_range (fp_ic st) (fp_dc st) (fp_unit st)).
  { apply Hr; try lia. constructor. }
  assert (B : Forall (code_symbol_below (fp_ic st))
                     (symbolTable (fp_unit st))).
  { apply (first_pass_loop_below ls
             (first_pass_init (initialize_translation_unit garbage)) st Hl).
    - exact Ef.
    - cbn. lia.
    - lia.
    - constructor. }
  rewrite <- Eic.
  replace (fp_ic st + fp_dc st - fp_ic st)%nat with (fp_dc st) by lia.
  unfold symbols_in_range in R.
  apply Forall_map. rewrite Forall_forall in *.
  intros s I. specialize (R s I). specialize (B s I).
  destruct R as (_ & Rd).
  unfold symbol_in_segment, code_symbol_below in *.
  rewrite relocate_type. unfold relocate.
  destruct (is_data_symbol (symbolType s)) eqn:D.
  - specialize (Rd eq_refl). cbn [address set_type_address]. split.
    + intros C. destruct (symbolType s); discriminate.
    + intros _. rewrite (to_int_id (Z.of_nat (fp_ic st))) by lia.
      rewrite to_int_id by lia. lia.
  - split; [exact B | intros C; discriminate C].
Qed.


Lemma first_pass_layout_witness :
  first_pass entry_extern_program (initialize_translation_unit 0)
  = Some (true, entry_extern_descriptors, entry_extern_table_unit)
  /\ Z.of_nat (address_space 0 entry_extern_program) < 2 ^ 31
  /\ Forall (symbol_in_segment
               (IC_INIT_VALUE + code_size entry_extern_program)
               (address_space 0 entry_extern_program
                - (IC_INIT_VALUE + code_size entry_extern_program)))
            (symbolTable entry_extern_table_unit).
Proof.
  assert (H : first_pass entry_extern_program (initialize_translation_unit 0)
              = Some (true, entry_extern_descriptors,
                      entry_extern_table_unit))
    by (vm_compute; reflexivity).
  assert (S : Z.of_nat (address_space 0 entry_extern_program) < 2 ^ 31)
    by (vm_compute; reflexivity).
  exact (conj H (conj S (first_pass_layout 0 _ _ _ H S))).
Defined.

(* ------------------------------------------------------------------------- *)
(** ** The data image after the first pass *)

Lemma same_data_refl (tu : TranslationUnit) : same_data tu tu.
Proof. repeat split; reflexivity. Qed.

Lemma same_data_trans (a b c : TranslationUnit) :
  same_data a b -> same_data b c -> same_data a c.
Proof.
  unfold same_data. intros (H1 & H2 & H3 & H4) (H5 & H6 & H7 & H8).
  repeat split; congruence.
Qed.

Lemma insert_symbol_to_table_data (l : AbstractLineDescriptor)
  (tu : TranslationUnit) (ic dc : nat) (t : SymbolType) :
  same_data tu (insert_symbol_to_table l tu ic dc t).
Proof. destruct t; repeat split; reflexivity. Qed.

Lemma handle_label_data (l : AbstractLineDescriptor) (tu : TranslationUnit)
  (ic dc : nat) :
  same_data tu (snd (handle_label l tu ic dc)).
Proof.
  unfold handle_label.
  destruct (find_symbol _ (symbolTable tu)) as [s | ].
  - destruct (is_temp_entry (symbolType s)); [ | apply same_data_refl].
    destruct (lineType l); try apply same_data_refl.
    + destruct (is_data_or_string (dirType l)); repeat split; reflexivity.
    + repeat split; reflexivity.
  - destruct (lineType l); try apply same_data_refl.
    + destruct (is_data_or_string (dirType l));
        [apply insert_symbol_to_table_data | apply same_data_refl].
    + apply insert_symbol_to_table_data.
Qed.

Lemma handle_entry_extern_data (l : AbstractLineDescriptor)
  (tu : TranslationUnit) (ic dc : nat) :
  same_data tu (snd (handle_entry_extern l tu ic dc)).
Proof.
  unfold handle_entry_extern.
  destruct (find_symbol _ (symbolTable tu)) as [s | ].
  - destruct (dirType l); try apply same_data_refl.
    destruct (symbolType s); try apply same_data_refl;
      repeat split; reflexivity.
  - destruct (dirType l); try apply same_data_refl;
      apply insert_symbol_to_table_data.
Qed.

Lemma array_store_range_end {A : Type} (l xs : list A) :
  array_store_range l (List.length l) xs = l ++ xs.
Proof.
  unfold array_store_range.
  rewrite firstn_all, skipn_all2 by lia. now rewrite app_nil_r.
Qed.

Lemma data_counted_same (tu tu' : TranslationUnit) (dc : nat) :
  same_data tu tu' -> data_counted tu dc -> data_counted tu' dc.
Proof.
  unfold data_counted, well_formed_data, data_in_block.
  intros (E1 & E2 & E3 & E4) (H1 & H2 & H3).
  repeat split; congruence.
Qed.

Lemma capacity_in_block_same (tu tu' : TranslationUnit) :
  same_data tu tu' -> capacity_in_block tu -> capacity_in_block tu'.
Proof.
  unfold capacity_in_block. intros (_ & _ & E3 & E4) H. congruence.
Qed.

(** A write that stays in the block appends the cells; it keeps the
    capacity field within the block when it was. *)
Lemma data_image_write_cells (cells : list Z) (tu tu' : TranslationUnit)
  (dc dc' : nat) :
  data_counted tu dc ->
  data_image_write cells tu dc = Some (tu', dc') ->
  dataImage tu' = dataImage tu ++ cells
  /\ data_counted tu' dc'
  /\ (capacity_in_block tu -> capacity_in_block tu').
Proof.
  unfold data_counted, well_formed_data, data_in_block, capacity_in_block.
  intros (Hd & W & B) H.
  apply data_image_write_result in H. cbv zeta in H.
  destruct H as (Hb & -> & ->).
  assert (Es : array_store_range (dataImage tu) (DC tu) cells
               = dataImage tu ++ cells)
    by (rewrite W; apply array_store_range_end).
  rewrite Es. clear Es.
  destruct (dataImageCapacity tu <? List.length cells + DC tu)%nat eqn:C;
    cbn [set_data resize_data_image dataImage DC dataImageBlock
         dataImageCapacity] in *;
    rewrite ?length_app; repeat split; try lia.
Qed.

(** A write made while the capacity field is within the block stays in the
    block. *)
Lemma data_image_write_completes (cells : list Z) (tu : TranslationUnit)
  (dc : nat) :
  capacity_in_block tu ->
  exists r : TranslationUnit * nat, data_image_write cells tu dc = Some r.
Proof.
  unfold capacity_in_block. intros H.
  destruct (data_image_write cells tu dc) as [r | ] eqn:E;
    [now exists r | ].
  apply data_image_write_overrun in E. lia.
Qed.

Lemma handle_data_image_cells (l : AbstractLineDescriptor)
  (tu tu' : TranslationUnit) (dc dc' : nat) :
  lineType l = DIRECTIVE_INSTRUCTION ->
  data_counted tu dc ->
  handle_data_image l tu dc = Some (tu', dc') ->
  dataImage tu' = dataImage tu ++ line_data_cells l
  /\ data_counted tu' dc'
  /\ (capacity_in_block tu -> capacity_in_block tu').
Proof.
  unfold handle_data_image, line_data_cells, int_data_image_update,
    string_data_image_update.
  intros -> W.
  destruct (dirType l);
    try (intros H; injection H as <- <-; rewrite app_nil_r; auto);
    now apply data_image_write_cells.
Qed.

Lemma handle_data_image_completes (l : AbstractLineDescriptor)
  (tu : TranslationUnit) (dc : nat) :
  capacity_in_block tu ->
  exists r : TranslationUnit * nat, handle_data_image l tu dc = Some r.
Proof.
  intros H.
  unfold handle_data_image, int_data_image_update, string_data_image_update.
  destruct (dirType l); try (eexists; reflexivity);
    now apply data_image_write_completes.
Qed.

Lemma first_pass_step_data (l : AbstractLineDescriptor)
  (tu tu' : TranslationUnit) (ic dc ic' dc' : nat) (err : bool) :
  first_pass_step l tu ic dc = Some (tu', ic', dc', err) ->
  data_counted tu dc ->
  data_counted tu' dc'
  /\ (capacity_in_block tu -> capacity_in_block tu')
  /\ (err = false -> dataImage tu' = dataImage tu ++ line_data_cells l).
Proof.
  intros H W. unfold first_pass_step in H.
  assert (N : lineType l <> DIRECTIVE_INSTRUCTION -> line_data_cells l = []).
  { intros N. unfold line_data_cells.
    destruct (lineType l); try contradiction; reflexivity. }
  assert (Done : forall (tu1 : TranslationUnit) (e : bool),
             same_data tu tu1 ->
             (e = false -> line_data_cells l = []) ->
             data_counted tu1 dc
             /\ (capacity_in_block tu -> capacity_in_block tu1)
             /\ (e = false ->
                 dataImage tu1 = dataImage tu ++ line_data_cells l)).
  { intros tu1 e E He.
    split; [exact (data_counted_same _ _ _ E W) | ].
    split; [exact (capacity_in_block_same _ _ E) | ].
    intros K. rewrite (He K), app_nil_r. now destruct E. }
  destruct (negb (is_null_or_empty (lineError l))).
  { injection H as <- <- <- <-.
    apply Done; [apply same_data_refl | intros E; discriminate E]. }
  assert (L : same_data tu
                (snd (if negb (is_null_or_empty (lineLabel l))
                      then handle_label l tu ic dc else (false, tu)))).
  { destruct (negb (is_null_or_empty (lineLabel l)));
      [apply handle_label_data | apply same_data_refl]. }
  destruct (if negb (is_null_or_empty (lineLabel l))
            then handle_label l tu ic dc else (false, tu))
    as [labelError tu1].
  cbn [snd] in L.
  pose proof (data_counted_same _ _ _ L W) as W1.
  destruct (lineType l) eqn:T.
  - injection H as <- <- <- <-.
    apply Done; [apply same_data_refl | intros _; apply N; discriminate].
  - injection H as <- <- <- <-.
    apply Done; [apply same_data_refl | intros _; apply N; discriminate].
  - (* directive *)
    destruct labelError.
    { injection H as <- <- <- <-.
      apply Done; [exact L | intros E; discriminate E]. }
    destruct (is_data_or_string (dirType l)) eqn:D.
    + destruct (handle_data_image l tu1 dc) as [[tu2 dc2] | ] eqn:Hd;
        [ | discriminate H].
      destruct (handle_data_image_cells l tu1 tu2 dc dc2 T W1 Hd)
        as (C1 & C2 & C3).
      assert (R : forall tu3 : TranslationUnit,
                 same_data tu2 tu3 ->
                 data_counted tu3 dc2
                 /\ (capacity_in_block tu -> capacity_in_block tu3)
                 /\ (false = false ->
                     dataImage tu3 = dataImage tu ++ line_data_cells l)).
      { intros tu3 E.
        split; [exact (data_counted_same _ _ _ E C2) | ].
        split.
        - intros K. apply (capacity_in_block_same _ _ E), C3.
          exact (capacity_in_block_same _ _ L K).
        - intros _. destruct E as (E1 & _). destruct L as (L1 & _).
          congruence. }
      destruct (is_entry_or_extern (dirType l)).
      * pose proof (handle_entry_extern_data l tu2 ic dc2) as E.
        destruct (handle_entry_extern l tu2 ic dc2) as [e tu3].
        injection H as <- <- <- <-. cbn [snd] in E.
        destruct (R tu3 E) as (R1 & R2 & R3).
        split; [exact R1 | split; [exact R2 | intros _; now apply R3]].
      * injection H as <- <- <- <-. apply R, same_data_refl.
    + assert (C : line_data_cells l = []).
      { unfold line_data_cells. rewrite T.
        destruct (dirType l); try reflexivity; discriminate D. }
      destruct (is_entry_or_extern (dirType l)).
      * pose proof (handle_entry_extern_data l tu1 ic dc) as E.
        destruct (handle_entry_extern l tu1 ic dc) as [e tu3].
        injection H as <- <- <- <-. cbn [snd] in E.
        apply Done; [exact (same_data_trans _ _ _ L E) | intros _; exact C].
      * injection H as <- <- <- <-.
        apply Done; [exact L | intros _; exact C].
  - (* command *)
    destruct labelError;
      [ | destruct (negb (is_legal_command l))];
      injection H as <- <- <- <-;
      (apply Done; [exact L | intros _; apply N; discriminate]).
  - (* constant definition *)
    destruct labelError;
      [ | destruct (find_symbol _ (symbolTable tu1))];
      injection H as <- <- <- <-;
      (apply Done; [exact L | intros _; apply N; discriminate]).
  - (* INIT_VAL *)
    destruct labelError; injection H as <- <- <- <-;
      (apply Done; [exact L | intros _; apply N; discriminate]).
Qed.

Lemma first_pass_step_completes (l : AbstractLineDescriptor)
  (tu : TranslationUnit) (ic dc : nat) :
  capacity_in_block tu ->
  exists r : TranslationUnit * nat * nat * bool,
    first_pass_step l tu ic dc = Some r.
Proof.
  intros K. unfold first_pass_step.
  destruct (negb (is_null_or_empty (lineError l)));
    [eexists; reflexivity | ].
  assert (L : same_data tu
                (snd (if negb (is_null_or_empty (lineLabel l))
                      then handle_label l tu ic dc else (false, tu)))).
  { destruct (negb (is_null_or_empty (lineLabel l)));
      [apply handle_label_data | apply same_data_refl]. }
  destruct (if negb (is_null_or_empty (lineLabel l))
            then handle_label l tu ic dc else (false, tu))
    as [labelError tu1].
  cbn [snd] in L.
  pose proof (capacity_in_block_same _ _ L K) as K1.
  destruct (lineType l); try (eexists; reflexivity);
    (destruct labelError; [eexists; reflexivity | ]).
  - destruct (is_data_or_string (dirType l)).
    + destruct (handle_data_image_completes l tu1 dc K1) as ([tu2 dc2] & ->).
      destruct (is_entry_or_extern (dirType l));
        [destruct (handle_entry_extern l tu2 ic dc2) | ];
        eexists; reflexivity.
    + destruct (is_entry_or_extern (dirType l));
        [destruct (handle_entry_extern l tu1 ic dc) | ];
        eexists; reflexivity.
  - destruct (negb (is_legal_command l)); eexists; reflexivity.
  - destruct (find_symbol _ (symbolTable tu1)); eexists; reflexivity.
  - eexists; reflexivity.
Qed.

Lemma line_descriptor_builder_effect_data (l : AbstractLineDescriptor)
  (tu : TranslationUnit) :
  same_data tu (line_descriptor_builder_effect l tu).
Proof.
  unfold line_descriptor_builder_effect.
  destruct (LineType_eqb _ _); repeat split; reflexivity.
Qed.

Lemma first_pass_line_data (st st' : FirstPassState)
  (l : AbstractLineDescriptor) :
  first_pass_line st l = Some st' ->
  data_counted (fp_unit st) (fp_dc st) ->
  data_counted (fp_unit st') (fp_dc st')
  /\ (capacity_in_block (fp_unit st) -> capacity_in_block (fp_unit st'))
  /\ (fp_errorFlag st' = false ->
      dataImage (fp_unit st')
      = dataImage (fp_unit st) ++ line_data_cells l).
Proof.
  intros H W. unfold first_pass_line in H.
  pose proof (line_descriptor_builder_effect_data l (fp_unit st)) as B.
  destruct (first_pass_step l _ (fp_ic st) (fp_dc st))
    as [[[[tu' ic'] dc'] err] | ] eqn:Hs; [ | discriminate H].
  injection H as <-.
  apply first_pass_step_data in Hs; [ | exact (data_counted_same _ _ _ B W)].
  destruct Hs as (S1 & S2 & S3).
  cbn [next_line fp_unit fp_dc fp_errorFlag].
  split; [exact S1 | ].
  split; [intros K; exact (S2 (capacity_in_block_same _ _ B K)) | ].
  intros E. apply orb_false_iff in E. destruct E as (_ & E).
  rewrite (S3 E). destruct B as (B1 & _). now rewrite B1.
Qed.

Lemma first_pass_line_completes (st : FirstPassState)
  (l : AbstractLineDescriptor) :
  capacity_in_block (fp_unit st) ->
  exists st' : FirstPassState, first_pass_line st l = Some st'.
Proof.
  intros K. unfold first_pass_line.
  pose proof (line_descriptor_builder_effect_data l (fp_unit st)) as B.
  destruct (first_pass_step_completes l
              (line_descriptor_builder_effect l (fp_unit st))
              (fp_ic st) (fp_dc st) (capacity_in_block_same _ _ B K))
    as ([[[tu' ic'] dc'] err] & ->).
  eexists. reflexivity.
Qed.

Lemma first_pass_loop_data (ls : list AbstractLineDescriptor)
  (st st' : FirstPassState) :
  first_pass_loop ls st = Some st' ->
  data_counted (fp_unit st) (fp_dc st) ->
  data_counted (fp_unit st') (fp_dc st')
  /\ (fp_errorFlag st' = false ->
      dataImage (fp_unit st')
      = dataImage (fp_unit st) ++ flat_map line_data_cells ls).
Proof.
  revert st. induction ls as [ | l ls IH]; intros st H W.
  - cbn in H. injection H as <-. cbn. rewrite app_nil_r. auto.
  - apply first_pass_loop_cons in H. destruct H as (st1 & H1 & H).
    destruct (first_pass_line_data st st1 l H1 W) as (L1 & _ & L3).
    destruct (IH st1 H L1) as (I1 & I3).
    split; [exact I1 | ].
    intros E. rewrite (I3 E).
    destruct (first_pass_loop_inv ls st1 st' H) as (_ & _ & _ & He & _).
    destruct (He E) as (E1 & _).
    rewrite (L3 E1). cbn [flat_map]. now rewrite app_assoc.
Qed.

Lemma first_pass_loop_completes (ls : list AbstractLineDescriptor)
  (st : FirstPassState) :
  data_counted (fp_unit st) (fp_dc st) ->
  capacity_in_block (fp_unit st) ->
  exists st' : FirstPassState, first_pass_loop ls st = Some st'.
Proof.
  revert st. induction ls as [ | l ls IH]; intros st W K.
  - exists st. reflexivity.
  - destruct (first_pass_line_completes st l K) as (st1 & H1).
    destruct (first_pass_line_data st st1 l H1 W) as (L1 & L2 & _).
    destruct (IH st1 L1 (L2 K)) as (st' & H).
    exists st'. cbn [first_pass_loop]. now rewrite H1.
Qed.

(** X14.  A first pass that comes to its end leaves a data image that holds
    exactly DC cells, within the block allocated for it; when it reports no
    error, these cells are those of the [.data] and [.string] lines of the
    file, in the order of the lines: the integers of a [.data] line
    converted to [unsigned int], the characters of a [.string] line
    followed by a zero cell.  The first pass comes to its end whenever the
    capacity field of the data image, which [initialize_translation_unit]
    leaves as it finds it, holds at most the [INITIAL_CAPACITY] cells
    allocated.  In general a write of cells leaves the block exactly when
    the cells required exceed the block and not the capacity field: then
    no reallocation is made. *)
Theorem first_pass_data_image (garbage : nat)
  (ls : list AbstractLineDescriptor) :
  (forall (ok : bool) (prog : AbstractProgram) (tu : TranslationUnit),
      first_pass ls (initialize_translation_unit garbage)
      = Some (ok, prog, tu) ->
      DC tu = List.length (dataImage tu)
      /\ (List.length (dataImage tu) <= dataImageBlock tu)%nat
      /\ (ok = true -> dataImage tu = flat_map line_data_cells ls))
  /\ ((garbage <= INITIAL_CAPACITY)%nat ->
      exists r : bool * AbstractProgram * TranslationUnit,
        first_pass ls (initialize_translation_unit garbage) = Some r)
  /\ (forall (cells : list Z) (tu : TranslationUnit) (dc : nat),
         data_image_write cells tu dc = None
         <-> (dataImageBlock tu < List.length cells + DC tu
              <= dataImageCapacity tu)%nat).
Proof.
  assert (W0 : data_counted
                 (fp_unit (first_pass_init
                             (initialize_translation_unit garbage)))
                 (fp_dc (first_pass_init
                           (initialize_translation_unit garbage)))).
  { repeat split. unfold data_in_block. cbn. lia. }
  split; [ | split].
  - intros ok prog tu H. unfold first_pass in H.
    destruct (first_pass_loop ls
                (first_pass_init (initialize_translation_unit garbage)))
      as [st | ] eqn:Hl; [ | discriminate H].
    destruct (first_pass_loop_data ls _ st Hl W0) as ((D1 & D2 & D4) & D3).
    cbn [first_pass_init fp_unit initialize_translation_unit dataImage]
      in D3.
    set (tu0 := if (0 <? IC (fp_unit st))%nat then _ else _) in H.
    assert (E0 : same_data (fp_unit st) tu0).
    { unfold tu0.
      destruct (0 <? IC (fp_unit st))%nat; repeat split; reflexivity. }
    destruct E0 as (E1 & E2 & _ & E4).
    destruct (process_symbol_table_effect tu0 (fp_ic st))
      as (_ & _ & _ & P1 & _).
    assert (P2 : DC (snd (process_symbol_table tu0 (fp_ic st))) = DC tu0
                 /\ dataImageBlock (snd (process_symbol_table tu0 (fp_ic st)))
                    = dataImageBlock tu0).
    { unfold process_symbol_table.
      destruct (process_symbols (fp_ic st) (symbolTable tu0))
        as [[e table'] ents].
      match goal with
      | |- context [if ?b then _ else _] => destruct b
      end; split; reflexivity. }
    destruct P2 as (P2 & P3).
    destruct (process_symbol_table tu0 (fp_ic st)) as [e tu1].
    cbn [snd] in P1, P2, P3. injection H as Hok _ <-.
    unfold well_formed_data, data_in_block in *.
    split; [congruence | ]. split; [rewrite P1, E1, P3, E4; lia | ].
    intros ->. apply negb_true_iff, orb_false_iff in Hok.
    destruct Hok as (Hf & _).
    rewrite P1, E1. exact (D3 Hf).
  - intros Hg.
    destruct (first_pass_loop_completes ls
                (first_pass_init (initialize_translation_unit garbage)) W0)
      as (st & Hl).
    { unfold capacity_in_block. cbn. exact Hg. }
    unfold first_pass. rewrite Hl.
    destruct (process_symbol_table _ (fp_ic st)) as [e tu1].
    eexists. reflexivity.
  - intros cells tu dc. apply data_image_write_overrun.
Qed.

(** [.data -1]: one cell, the 32-bit pattern of -1.  [.data] with eleven
    elements: the first pass comes to its end when the capacity field held
    zero, the block being reallocated, and it leaves the block of ten cells
    when the field held eleven. *)
Lemma first_pass_data_image_witness :
  option_map (fun r => (fst (fst r), dataImage (snd r)))
    (first_pass [data_line [-1]; empty_line] (initialize_translation_unit 0))
  = Some (true, [4294967295])
  /\ [4294967295] = flat_map line_data_cells [data_line [-1]; empty_line]
  /\ option_map (fun r => dataImage (snd r))
       (first_pass [eleven_values; empty_line]
                   (initialize_translation_unit 0))
     = Some [1; 2; 3; 4; 5; 6; 7; 8; 9; 10; 11]
  /\ first_pass [eleven_values; empty_line] (initialize_translation_unit 11)
     = None
  /\ data_image_write (map u32 (dataInst eleven_values))
       (initialize_translation_unit 11) 0 = None.
Proof.
  destruct (first_pass_data_image 0 [data_line [-1]; empty_line])
    as (H1 & H2 & _).
  destruct (H2 ltac:(unfold INITIAL_CAPACITY; lia)) as ([[ok prog] tu] & E).
  assert (K : Some (ok, prog, tu)
              = first_pass [data_line [-1]; empty_line]
                           (initialize_translation_unit 0))
    by (symmetry; exact E).
  vm_compute in K. injection K as -> _ Etu.
  destruct (H1 true prog tu E) as (_ & _ & D). specialize (D eq_refl).
  split; [rewrite E; cbn [option_map fst snd]; now rewrite Etu | ].
  split; [reflexivity | ].
  split; [vm_compute; reflexivity | ].
  split; [vm_compute; reflexivity | ].
  apply (proj2 (proj2 (first_pass_data_image 11 [])) _ _ 0%nat).
  vm_compute. lia.
Defined.

(* ------------------------------------------------------------------------- *)
(** ** The code image after the two passes *)

(** X15.  When both passes succeed, the code image holds exactly IC words,
    and IC is the number of words the first pass counted for all the lines
    of the file but the last one: the second pass visits the lines below
    [progSize], which the first pass leaves at the number of lines minus
    one.  The words of the last line, when it is an instruction, are
    missing, although the first pass counted them and moved the data labels
    past them. *)
Theorem translate_code_size (garbage : nat)
  (ls : list AbstractLineDescriptor) (tu : TranslationUnit) :
  translate garbage ls = Some tu ->
  List.length (codeImage tu) = IC tu
  /\ IC tu = code_size (removelast ls)
  /\ (IC tu + command_size (last ls empty_line))%nat = code_size ls
  /\ option_map fp_ic
       (first_pass_loop ls
          (first_pass_init (initialize_translation_unit garbage)))
     = Some (IC_INIT_VALUE + code_size ls)%nat.
Proof.
  intros H. apply translate_passes in H.
  destruct H as (prog & tu1 & Hfp & Hsp).
  destruct (first_pass_frame garbage ls true prog tu1 Hfp) as (Fc & Fi & Fx).
  destruct (first_pass_program garbage ls true prog tu1 Hfp) as (Pl & Ps).
  assert (Hw : well_formed_code tu1).
  { unfold well_formed_code. now rewrite Fc, Fi. }
  apply second_pass_ok in Hsp. rewrite Pl, Ps in Hsp.
  destruct (second_pass_lines_emits _ tu1 tu Hw Hsp)
    as (ws & recs & Ec & Ei & _).
  pose proof (second_pass_lines_exact _ _ _ Hsp) as Ex.
  rewrite Fi in Ex, Ei. rewrite Fc in Ec. cbn in Ex, Ei, Ec.
  rewrite <- removelast_firstn_len in Ex.
  split; [now rewrite Ec, Ei | ].
  split; [exact Ex | ].
  split.
  - rewrite Ex. destruct ls as [ | l0 ls'] eqn:El; [reflexivity | ].
    rewrite <- El.
    rewrite (app_removelast_last empty_line (l := ls)) at 3
      by (rewrite El; discriminate).
    rewrite code_size_app. cbn. lia.
  - unfold first_pass in Hfp.
    destruct (first_pass_loop ls
                (first_pass_init (initialize_translation_unit garbage)))
      as [st | ] eqn:Hl; [ | discriminate Hfp].
    destruct (first_pass_loop_inv ls _ st Hl) as (_ & _ & _ & He & _).
    destruct (process_symbol_table _ _) as [e tu0].
    injection Hfp as Hok _ _.
    apply negb_true_iff, orb_false_iff in Hok.
    destruct (He (proj1 Hok)) as (_ & E). cbn [option_map].
    now rewrite E.
Qed.

Lemma translate_code_size_witness :
  translate 0 entry_extern_program = Some entry_extern_unit
  /\ IC entry_extern_unit = code_size (removelast entry_extern_program).
Proof.
  assert (H : translate 0 entry_extern_program = Some entry_extern_unit)
    by (vm_compute; reflexivity).
  exact (conj H
           (proj1 (proj2
              (translate_code_size 0 entry_extern_program entry_extern_unit
                                   H)))).
Defined.

(* ------------------------------------------------------------------------- *)
(** ** Which output files are written *)

Lemma filter_none {A : Type} (f : A -> bool) (l : list A) :
  Forall (fun x => f x = false) l -> filter f l = [].
Proof.
  induction 1 as [ | x l Hx F IH]; cbn; [reflexivity | ].
  now rewrite Hx.
Qed.

Lemma extern_use_addresses_nil (ws : list Z) (base : nat) :
  extern_use_addresses base ws = [] <-> Forall (fun w => ARE_bits w <> 1) ws.
Proof.
  revert base. induction ws as [ | w ws IH]; intros base; cbn.
  - split; [constructor | reflexivity].
  - destruct (Z.eqb_spec (ARE_bits w) 1) as [E | N]; cbn.
    + split; [intros H; discriminate H | ].
      intros H. inversion H; contradiction.
    + rewrite IH. split; [now constructor | ].
      intros H. now inversion H.
Qed.

(** X16.  After two passes without error, the entries list holds the entry
    symbols of the symbol table, each once.  Hence the [.ent] file is left
    out exactly when the table has no entry symbol, and the [.ext] file
    exactly when no word of the code image has the ARE field 01. *)
Theorem output_files_present (garbage : nat)
  (ls : list AbstractLineDescriptor) (tu : TranslationUnit) :
  translate garbage ls = Some tu ->
  Permutation (entryList tu)
    (filter (fun s => is_entry_symbol (symbolType s)) (symbolTable tu))
  /\ (ent_file (generate_files tu) = None <->
      Forall (fun s => is_entry_symbol (symbolType s) = false)
             (symbolTable tu))
  /\ (ext_file (generate_files tu) = None <->
      Forall (fun w => ARE_bits w <> 1) (codeImage tu)).
Proof.
  intros H.
  pose proof (translate_entries garbage ls tu H) as P.
  destruct (translate_emits garbage ls tu H) as (_ & Ex).
  split; [exact P | split].
  - cbn [generate_files ent_file].
    assert (E : entryList tu = [] <->
                Forall (fun s => is_entry_symbol (symbolType s) = false)
                       (symbolTable tu)).
    { split.
      - intros E. rewrite E in P. apply Permutation_nil in P.
        apply Forall_forall. intros s I.
        destruct (is_entry_symbol (symbolType s)) eqn:T; [ | reflexivity].
        assert (I' : In s (filter (fun s => is_entry_symbol (symbolType s))
                                  (symbolTable tu)))
          by (apply filter_In; auto).
        rewrite P in I'. destruct I'.
      - intros F.
        assert (N : filter (fun s => is_entry_symbol (symbolType s))
                           (symbolTable tu) = [])
          by (apply filter_none; exact F).
        rewrite N in P. now apply Permutation_sym, Permutation_nil in P. }
    rewrite <- E.
    destruct (entryList tu); cbn; split; intros K;
      try reflexivity; discriminate K.
  - cbn [generate_files ext_file].
    rewrite <- (extern_use_addresses_nil _ 0), <- Ex.
    destruct (externalsList tu); cbn; split; intros K;
      try reflexivity; discriminate K.
Qed.

Lemma output_files_present_witness :
  translate 0 entry_extern_program = Some entry_extern_unit
  /\ Permutation (entryList entry_extern_unit)
       (filter (fun s => is_entry_symbol (symbolType s))
               (symbolTable entry_extern_unit)).
Proof.
  assert (H : translate 0 entry_extern_program = Some entry_extern_unit)
    by (vm_compute; reflexivity).
  exact (conj H
           (proj1 (output_files_present 0 entry_extern_program
                                        entry_extern_unit H))).
Defined.

(* ------------------------------------------------------------------------- *)
(** ** An entry declaration and the definition of its label *)

Lemma update_symbol_app_last (table : list Symbol) (s : Symbol)
  (name : string) (f : Symbol -> Symbol) :
  find_first_symbol table name = None ->
  symbolName s = name ->
  update_symbol (table ++ [s]) name f = table ++ [f s].
Proof.
  intros F <-. induction table as [ | x table IH]; cbn in *.
  - now rewrite String.eqb_refl.
  - destruct (String.eqb (symbolName s) (symbolName x));
      [discriminate F | ]. now rewrite IH.
Qed.

Lemma declared_then_defined (name : string)
  (l_def l_ent : AbstractLineDescriptor) (tu : TranslationUnit)
  (ic dc ic' dc' : nat) :
  lineLabel l_def = Some name ->
  entryName l_ent = name -> dirType l_ent = ENTRY_INST ->
  defines_label l_def ->
  (String.length name <= MAX_SYMBOL_LENGTH)%nat ->
  find_symbol name (symbolTable tu) = None ->
  handle_label l_def (snd (handle_entry_extern l_ent tu ic' dc')) ic dc
  = (false,
     set_symbolTable tu
       (symbolTable tu ++ [entry_symbol name l_def ic dc])).
Proof.
  intros Hl He Hd Hk Hlen F.
  unfold handle_entry_extern. rewrite He, F, Hd. cbn [snd].
  unfold handle_label. rewrite Hl. cbn [deref].
  unfold find_symbol in *.
  cbn [insert_symbol_to_table symbolTable set_symbolTable].
  rewrite He, (copy_symbol_name_short name Hlen).
  rewrite find_first_symbol_app, F.
  cbn [find_first_symbol symbolName]. rewrite String.eqb_refl.
  cbn [is_temp_entry symbolType]. unfold entry_symbol.
  destruct Hk as [Hc | (Hc & Hds)]; rewrite Hc; [ | rewrite Hds];
    cbn [LineType_is_command];
    rewrite update_symbol_app_last by (exact F || reflexivity);
    reflexivity.
Qed.

Lemma defined_then_declared (name : string)
  (l_def l_ent : AbstractLineDescriptor) (tu : TranslationUnit)
  (ic dc ic' dc' : nat) :
  lineLabel l_def = Some name ->
  entryName l_ent = name -> dirType l_ent = ENTRY_INST ->
  defines_label l_def ->
  (String.length name <= MAX_SYMBOL_LENGTH)%nat ->
  find_symbol name (symbolTable tu) = None ->
  handle_entry_extern l_ent (snd (handle_label l_def tu ic dc)) ic' dc'
  = (false,
     set_symbolTable tu
       (symbolTable tu ++ [entry_symbol name l_def ic dc])).
Proof.
  intros Hl He Hd Hk Hlen F.
  unfold handle_label. rewrite Hl. cbn [deref]. rewrite F.
  unfold entry_symbol.
  destruct Hk as [Hc | (Hc & Hds)]; rewrite Hc; [ | rewrite Hds];
    cbn [snd LineType_is_command];
    unfold handle_entry_extern; rewrite He, Hd;
    unfold find_symbol in *;
    cbn [insert_symbol_to_table symbolTable set_symbolTable];
    rewrite Hl; cbn [deref]; rewrite (copy_symbol_name_short name Hlen);
    rewrite find_first_symbol_app, F;
    cbn [find_first_symbol symbolName]; rewrite String.eqb_refl;
    cbn [symbolType];
    rewrite update_symbol_app_last by (exact F || reflexivity);
    reflexivity.
Qed.

(** X17.  The [.entry] declaration of a name and the line that defines the
    label of that name can come in either order: for a name of at most 31
    characters that is not in the table yet, declaring then defining and
    defining then declaring raise no error and leave the same translation
    unit, whose table has one more symbol, an entry of the code at the
    instruction counter of the defining line when that line is an
    instruction, an entry of the data at its data counter when it is a
    [.data] or [.string] line. *)
Theorem entry_declaration_order (name : string)
  (l_def l_ent : AbstractLineDescriptor) (tu : TranslationUnit)
  (ic dc ic' dc' : nat) :
  lineLabel l_def = Some name ->
  entryName l_ent = name -> dirType l_ent = ENTRY_INST ->
  defines_label l_def ->
  (String.length name <= MAX_SYMBOL_LENGTH)%nat ->
  find_symbol name (symbolTable tu) = None ->
  let declared_first :=
    handle_label l_def (snd (handle_entry_extern l_ent tu ic' dc')) ic dc in
  let defined_first :=
    handle_entry_extern l_ent (snd (handle_label l_def tu ic dc)) ic' dc' in
  declared_first = defined_first
  /\ fst declared_first = false
  /\ symbolTable (snd declared_first)
     = symbolTable tu ++ [entry_symbol name l_def ic dc].
Proof.
  intros Hl He Hd Hk Hlen F. cbv zeta.
  rewrite (declared_then_defined name l_def l_ent tu ic dc ic' dc')
    by assumption.
  rewrite (defined_then_declared name l_def l_ent tu ic dc ic' dc')
    by assumption.
  repeat split.
Qed.

Lemma entry_declaration_order_witness :
  handle_label (with_label "MAIN" mov_X_r1)
    (snd (handle_entry_extern (entry_line "MAIN")
            fresh_unit 100 0)) 100 0
  = handle_entry_extern (entry_line "MAIN")
      (snd (handle_label (with_label "MAIN" mov_X_r1)
              fresh_unit 100 0)) 100 0.
Proof.
  refine (proj1 (entry_declaration_order "MAIN" (with_label "MAIN" mov_X_r1)
                   (entry_line "MAIN") fresh_unit
                   100 0 100 0 eq_refl eq_refl eq_refl
                   (or_introl eq_refl) _ eq_refl)).
  cbn. unfold MAX_SYMBOL_LENGTH. lia.
Defined.

(* ------------------------------------------------------------------------- *)
(** ** Labels *)

Lemma char_at_nth (s : string) (i : nat) :
  char_at s i = nth i (list_ascii_of_string s) NUL.
Proof.
  unfold char_at. revert i. induction s as [ | c s IH]; intros i.
  - destruct i; reflexivity.
  - destruct i; cbn; [reflexivity | apply IH].
Qed.

Lemma length_list_ascii (s : string) :
  List.length (list_ascii_of_string s) = String.length s.
Proof. induction s as [ | c s IH]; cbn; [reflexivity | now rewrite IH]. Qed.

Lemma list_ascii_app (a b : string) :
  list_ascii_of_string (a ++ b)
  = list_ascii_of_string a ++ list_ascii_of_string b.
Proof. induction a as [ | c a IH]; cbn; [reflexivity | now rewrite IH]. Qed.

Lemma list_ascii_substring (n : nat) (s : string) :
  list_ascii_of_string (substring 0 n s) = firstn n (list_ascii_of_string s).
Proof.
  revert n. induction s as [ | c s IH]; intros n.
  - destruct n; reflexivity.
  - destruct n; cbn; [reflexivity | now rewrite IH].
Qed.

Lemma list_ascii_inj (a b : string) :
  list_ascii_of_string a = list_ascii_of_string b -> a = b.
Proof.
  intros H. apply (f_equal string_of_list_ascii) in H.
  now rewrite !string_of_list_ascii_of_string in H.
Qed.

Lemma is_label_loop_spec (n i : nat) (word : string) :
  is_label_loop n i word = true <->
  forall k : nat, (i <= k < i + n)%nat ->
    isalnum (char_at word k) = true /\ k <> MAX_SYMBOL_LENGTH.
Proof.
  revert i. induction n as [ | n IH]; intros i; cbn [is_label_loop].
  - split; [intros _ k Hk; lia | reflexivity].
  - destruct (isalnum (char_at word i)) eqn:A; cbn [negb].
    + destruct (Nat.eqb_spec i MAX_SYMBOL_LENGTH) as [E | N].
      * split; [intros H; discriminate H | ].
        intros H. destruct (H i) as (_ & K); [lia | contradiction].
      * rewrite IH. split.
        -- intros H k Hk.
           destruct (Nat.eq_dec k i) as [-> | Nk]; [auto | apply H; lia].
        -- intros H k Hk. apply H. lia.
    + split; [intros H; discriminate H | ].
      intros H. destruct (H i) as (K & _); [lia | congruence].
Qed.

Lemma get_register_prefixed (name : string) :
  is_register (get_register name) = true <-> register_prefixed name.
Proof.
  unfold register_prefixed. split.
  - destruct name as [ | c0 [ | c1 rest]]; try (intros H; discriminate H).
    unfold get_register.
    change (char_at (String c0 (String c1 rest)) 0) with c0.
    change (char_at (String c0 (String c1 rest)) 1) with c1.
    change (2 <=? String.length (String c0 (String c1 rest)))%nat with true.
    cbn [andb]. unfold is_char.
    destruct (Ascii.eqb_spec c0 "r") as [-> | N];
      [ | intros H; discriminate H].
    intros H. exists c1, rest. split; [reflexivity | ].
    destruct c1 as [[] [] [] [] [] [] [] []]; try discriminate H;
      vm_compute; lia.
  - intros (d & rest & -> & Hd).
    unfold get_register.
    change (char_at (String "r" (String d rest)) 0) with "r"%char.
    change (char_at (String "r" (String d rest)) 1) with d.
    change (2 <=? String.length (String "r" (String d rest)))%nat with true.
    cbn [andb is_char]. rewrite Ascii.eqb_refl.
    unfold code in *.
    destruct d as [[] [] [] [] [] [] [] []]; try reflexivity;
      exfalso; vm_compute in Hd; lia.
Qed.

Lemma in_table_In (word : string) (table : list string) :
  in_table word table = true <-> In word table.
Proof.
  unfold in_table. rewrite existsb_exists. split.
  - intros (x & I & E). apply String.eqb_eq in E. now subst.
  - intros I. exists word. split; [exact I | apply String.eqb_refl].
Qed.

Lemma get_opcode_names (name : string) :
  get_opcode name = None <-> ~ In name opcode_names.
Proof.
  unfold get_opcode, opcode_names. cbn [map snd opcodeDictionary In].
  split_name name; split; intros H; try discriminate H;
    try reflexivity; try (exfalso; apply H; tauto).
  intros K. repeat (destruct K as [K | K]; [congruence | ]). exact K.
Qed.

Lemma is_reserved_word_In (name : string) :
  is_reserved_word name = false <-> ~ In name ReservedWords.
Proof.
  unfold is_reserved_word. destruct name as [ | c name]; cbn [is_end].
  - split; [ | reflexivity]. intros _ K.
    repeat (destruct K as [K | K]; [discriminate K | ]). exact K.
  - rewrite <- in_table_In.
    destruct (in_table (String c name) ReservedWords); split; intros H;
      try reflexivity; try discriminate H; try congruence;
      try (exfalso; now apply H).
Qed.

Lemma is_macro_loop_names (cells : list Macro) (count : nat)
  (name : string) (names : list string) :
  cell_names cells count = Some names ->
  is_macro_loop cells count name
  = Some (existsb (fun n => String.eqb n name) names).
Proof.
  revert cells names. induction count as [ | count IH]; intros cells names H.
  - cbn in *. now injection H as <-.
  - destruct cells as [ | cell rest]; [discriminate H | ].
    cbn [cell_names is_macro_loop] in *.
    destruct (macroName cell) as [n | ]; [ | discriminate H].
    destruct (cell_names rest count) as [ns | ] eqn:E; [ | discriminate H].
    injection H as <-. cbn [existsb].
    destruct (String.eqb n name); [reflexivity | ].
    now apply IH.
Qed.

Lemma is_macro_loop_scanned (cells : list Macro) (count : nat)
  (name : string) :
  is_macro_loop cells count name = Some false ->
  exists names : list string, cell_names cells count = Some names.
Proof.
  revert cells. induction count as [ | count IH]; intros cells H.
  - exists []. reflexivity.
  - destruct cells as [ | cell rest]; [discriminate H | ].
    cbn [cell_names is_macro_loop] in *.
    destruct (macroName cell) as [n | ]; [ | discriminate H].
    destruct (String.eqb n name); [discriminate H | ].
    destruct (IH rest H) as (ns & ->). now exists (n :: ns).
Qed.

(** [is_macro] returns FALSE exactly when the cells the count covers are in
    the block, each with a name, and none of these names is the name
    given. *)
Lemma is_macro_names (macroTable : MacroTable) (name : string) :
  is_macro macroTable name = Some false
  <-> exists names : list string,
        macro_names macroTable = Some names /\ ~ In name names.
Proof.
  unfold is_macro, macro_names. split.
  - intros H. destruct (is_macro_loop_scanned _ _ _ H) as (names & E).
    exists names. split; [exact E | ].
    rewrite (is_macro_loop_names _ _ name names E) in H.
    injection H as H. intros I.
    assert (K : existsb (fun n => String.eqb n name) names = true).
    { apply existsb_exists. exists name. split; [exact I | ].
      apply String.eqb_refl. }
    congruence.
  - intros (names & E & N).
    rewrite (is_macro_loop_names _ _ name names E). f_equal.
    destruct (existsb _ names) eqn:X; [ | reflexivity].
    apply existsb_exists in X. destruct X as (x & I & X).
    apply String.eqb_eq in X. subst. contradiction.
Qed.

Lemma is_macro_initial (name : string) :
  is_macro initialize_macro_table name = Some false.
Proof. reflexivity. Qed.

Lemma is_macro_first (m : Macro) (macroTable : MacroTable)
  (n name : string) :
  add_macro_to_table initialize_macro_table m = Some macroTable ->
  macroName m = Some n ->
  is_macro macroTable name = Some (String.eqb n name).
Proof.
  intros H Hn.
  unfold add_macro_to_table, initialize_macro_table, INITIAL_CAPACITY in H.
  cbn in H. injection H as <-.
  unfold is_macro. cbn. rewrite Hn.
  destruct (String.eqb n name); reflexivity.
Qed.

Lemma add_macro_to_table_second (macroTable macroTable' : MacroTable)
  (m m' : Macro) :
  add_macro_to_table macroTable m = Some macroTable' ->
  add_macro_to_table macroTable' m' = None.
Proof.
  unfold add_macro_to_table.
  destruct (macroCount macroTable =? macroTableCapacity macroTable)%nat;
    [intros H; discriminate H | ].
  destruct (macroCount macroTable); [ | intros H; discriminate H].
  intros H. injection H as <-.
  cbn [macroCount macroTableCapacity].
  destruct (1 =? macroTableCapacity macroTable)%nat; reflexivity.
Qed.

Lemma get_directive_identifier (name : string) :
  identifier name = true -> get_directive name = NONE_DIR.
Proof.
  destruct name as [ | c rest]; [intros H; discriminate H | ].
  cbn [identifier]. intros H. apply andb_true_iff in H. destruct H as (A & _).
  unfold get_directive.
  change (char_at (String c rest) 0) with c.
  unfold is_char. destruct (Ascii.eqb_spec c ".") as [-> | N];
    [discriminate A | reflexivity].
Qed.

Lemma insert_error_sets (l : AbstractLineDescriptor) (e : string) :
  lineError (insert_error l e) <> None.
Proof.
  unfold insert_error. destruct (lineError l) eqn:E; cbn; congruence.
Qed.

Lemma is_valid_symbol_spec (name : string) (l : AbstractLineDescriptor)
  (macroTable : MacroTable) :
  (is_valid_symbol name l macroTable = None
   <-> is_macro macroTable name = None)
  /\ (forall l' : AbstractLineDescriptor,
         is_valid_symbol name l macroTable = Some (true, l') <->
         l' = l
         /\ ~ register_prefixed name
         /\ ~ In name opcode_names
         /\ get_directive name = NONE_DIR
         /\ ~ In name ReservedWords
         /\ is_macro macroTable name = Some false)
  /\ (forall l' : AbstractLineDescriptor,
         is_valid_symbol name l macroTable = Some (false, l') ->
         lineError l' <> None).
Proof.
  unfold is_valid_symbol, handle_isValidSymbol_error.
  destruct (is_macro macroTable name) as [b | ].
  2: { split; [split; reflexivity | ].
       split; [ | intros l' H; discriminate H].
       intros l'. split; [intros H; discriminate H | ].
       intros (_ & _ & _ & _ & _ & H). discriminate H. }
  split; [split; intros H; discriminate H | ].
  split.
  - intros l'.
    rewrite <- get_register_prefixed, <- get_opcode_names,
      <- is_reserved_word_In.
    destruct (is_register (get_register name)), (get_opcode name),
      (get_directive name), (is_reserved_word name), b;
      cbn [is_directive_type];
      (split;
       [intros H; inversion H; subst; repeat split; congruence
       | intros (-> & H1 & H2 & H3 & H4 & H5);
         try discriminate; try congruence; reflexivity]).
  - intros l'.
    destruct (is_register (get_register name)), (get_opcode name),
      (get_directive name), (is_reserved_word name), b;
      cbn [is_directive_type];
      intros H; inversion H; subst; apply insert_error_sets.
Qed.

Lemma char_at_cons (c : ascii) (s : string) (k : nat) :
  char_at (String c s) (S k) = char_at s k.
Proof. reflexivity. Qed.

Lemma string_snoc (s : string) (n : nat) (c : ascii) :
  String.length s = S n -> char_at s n = c ->
  s = (substring 0 n s ++ String c EmptyString)%string.
Proof.
  revert n. induction s as [ | x s IH]; intros n Hl Hc; [discriminate Hl | ].
  destruct n as [ | n].
  - destruct s; [ | discriminate Hl]. cbn in *. now subst.
  - cbn in Hl. injection Hl as Hl. rewrite char_at_cons in Hc.
    cbn. f_equal. now apply IH.
Qed.

Lemma forallb_substring (p : ascii -> bool) (s : string) (n : nat) :
  (n <= String.length s)%nat ->
  (forall k : nat, (k < n)%nat -> p (char_at s k) = true) ->
  forallb p (list_ascii_of_string (substring 0 n s)) = true.
Proof.
  revert n. induction s as [ | x s IH]; intros n Hn H.
  - destruct n; reflexivity.
  - destruct n as [ | n]; [reflexivity | ].
    assert (H0 : p x = true) by (apply (H 0%nat); lia).
    cbn in *. rewrite H0. cbn. apply IH; [lia | ].
    intros k Hk. apply (H (S k)). lia.
Qed.

Lemma forallb_char_at (p : ascii -> bool) (s : string) (k : nat) :
  forallb p (list_ascii_of_string s) = true ->
  (k < String.length s)%nat -> p (char_at s k) = true.
Proof.
  revert k. induction s as [ | x s IH]; intros k H Hk; cbn in *; [lia | ].
  apply andb_true_iff in H. destruct H as (A & B).
  destruct k; [exact A | ]. rewrite char_at_cons. apply IH; [exact B | lia].
Qed.

Lemma char_at_app_l (a b : string) (k : nat) :
  (k < String.length a)%nat -> char_at (a ++ b) k = char_at a k.
Proof.
  revert k. induction a as [ | x a IH]; intros k Hk; cbn in *; [lia | ].
  destruct k; [reflexivity | ]. rewrite !char_at_cons. apply IH. lia.
Qed.

Lemma char_at_app_r (a b : string) :
  char_at (a ++ b) (String.length a) = char_at b 0.
Proof. induction a as [ | x a IH]; [reflexivity | exact IH]. Qed.

Lemma substring_app_exact (a b : string) :
  substring 0 (String.length a) (a ++ b) = a.
Proof.
  induction a as [ | x a IH]; cbn.
  - destruct b; reflexivity.
  - now rewrite IH.
Qed.

Lemma length_append (a b : string) :
  String.length (a ++ b) = (String.length a + String.length b)%nat.
Proof. induction a as [ | x a IH]; cbn; [reflexivity | now rewrite IH]. Qed.

(** A name followed by a colon passes the tests [is_label] makes on the
    characters, and is handed to [is_valid_symbol]. *)
Lemma is_label_name (name : string) (l : AbstractLineDescriptor)
  (macroTable : MacroTable) :
  identifier name = true ->
  (String.length name <= MAX_SYMBOL_LENGTH)%nat ->
  is_label (name ++ ":") l macroTable = is_valid_symbol name l macroTable.
Proof.
  intros Hid Hlen.
  destruct name as [ | c0 rest]; [discriminate Hid | ].
  cbn [identifier] in Hid. apply andb_true_iff in Hid.
  destruct Hid as (A0 & Ar).
  unfold is_label. cbn [append is_end].
  change (char_at (String c0 (rest ++ ":")) 0) with c0.
  rewrite A0. cbn [negb String.length].
  rewrite length_append. cbn [String.length] in *.
  replace (S (String.length rest + 1) - 1 - 1)%nat
    with (String.length rest) by lia.
  replace (S (String.length rest + 1) - 1)%nat
    with (S (String.length rest)) by lia.
  assert (Lp : is_label_loop (String.length rest) 1
                 (String c0 (rest ++ ":")) = true).
  { apply is_label_loop_spec. intros k Hk.
    destruct k as [ | k]; [lia | ]. rewrite char_at_cons.
    rewrite char_at_app_l by lia.
    split; [apply forallb_char_at; [exact Ar | lia] | ].
    unfold MAX_SYMBOL_LENGTH in *. lia. }
  rewrite Lp. cbn [negb].
  rewrite char_at_cons, char_at_app_r.
  change (is_char (char_at ":" 0) ":") with true. cbn [negb].
  unfold remove_last_char. cbn [is_end String.length].
  rewrite length_append. cbn [String.length].
  replace (S (String.length rest + 1) - 1)%nat
    with (S (String.length rest)) by lia.
  cbn [substring]. now rewrite substring_app_exact.
Qed.

(** A word that [is_label] does not refuse on its characters is a name
    followed by a colon. *)
Lemma is_label_tests (word : string) (l : AbstractLineDescriptor)
  (macroTable : MacroTable) :
  is_label word l macroTable = Some (false, l)
  \/ exists name : string,
       word = (name ++ ":")%string
       /\ identifier name = true
       /\ (String.length name <= MAX_SYMBOL_LENGTH)%nat.
Proof.
  unfold is_label.
  destruct word as [ | c0 w]; [now left | ].
  cbn [is_end]. change (char_at (String c0 w) 0) with c0.
  destruct (isalpha c0) eqn:A0; cbn [negb]; [ | now left].
  destruct (is_label_loop _ 1 (String c0 w)) eqn:Lp; cbn [negb];
    [ | now left].
  destruct (is_char (char_at (String c0 w) _) ":") eqn:Lc; cbn [negb];
    [ | now left].
  right.
  rewrite is_label_loop_spec in Lp.
  cbn [String.length] in *.
  replace (S (String.length w) - 1)%nat with (String.length w) in * by lia.
  destruct (String.length w) as [ | m] eqn:Lw.
  { (* one character: it would be both a letter and the colon *)
    change (char_at (String c0 w) 0) with c0 in Lc.
    unfold is_char in Lc. apply Ascii.eqb_eq in Lc. subst c0.
    discriminate A0. }
  rewrite char_at_cons in Lc. unfold is_char in Lc.
  apply Ascii.eqb_eq in Lc.
  replace (S m - 1)%nat with m in * by lia.
  exists (String c0 (substring 0 m w)).
  split; [ | split].
  - cbn. f_equal. now apply string_snoc.
  - cbn [identifier]. rewrite A0. cbn [andb].
    apply forallb_substring; [lia | ].
    intros k Hk. destruct (Lp (S k)) as (K & _); [lia | ].
    now rewrite char_at_cons in K.
  - cbn [String.length]. rewrite substring_length.
    destruct (Nat.le_gt_cases (S m) MAX_SYMBOL_LENGTH) as [Hle | Hgt];
      [lia | ].
    destruct (Lp MAX_SYMBOL_LENGTH) as (_ & K);
      [unfold MAX_SYMBOL_LENGTH in *; lia | contradiction].
Qed.

Lemma append_colon_inj (a b : string) :
  (a ++ ":")%string = (b ++ ":")%string -> a = b.
Proof.
  revert b. induction a as [ | x a IH]; intros [ | y b] H; cbn in H.
  - reflexivity.
  - injection H as <- H. destruct b; discriminate H.
  - injection H as -> H. destruct a; discriminate H.
  - injection H as -> H. f_equal. now apply IH.
Qed.

(** X18.  [is_label] accepts a word exactly when it is a name followed by
    a colon, where the name is a letter followed by letters and digits, has
    at most 31 characters, does not begin with [r] and a digit from 0 to 7
    (whatever follows: [r2d2] is refused as a register), is neither an
    opcode name nor a reserved word, and [is_macro] returns FALSE for it;
    an accepted word leaves the descriptor as it was.  [is_macro] reads the
    cells [macroNode[i]] below [macroCount]: it returns FALSE exactly when
    these cells lie in the block, each holds a name, and none of the names
    is the name given.  It has no result when it leaves the block before it
    finds the name, and then [is_label] has none for a word that is a name
    of at most 31 characters followed by a colon.  The table of
    [initialize_macro_table] holds no macro; after one macro was added,
    [is_macro] compares with the name of that macro; [add_macro_to_table]
    has no result for a second macro, which it stores outside the table. *)
Theorem is_label_spec (word : string) (l : AbstractLineDescriptor)
  (macroTable : MacroTable) :
  (forall l' : AbstractLineDescriptor,
      is_label word l macroTable = Some (true, l') <->
      l' = l
      /\ exists name : string,
           word = (name ++ ":")%string
           /\ identifier name = true
           /\ (String.length name <= MAX_SYMBOL_LENGTH)%nat
           /\ ~ register_prefixed name
           /\ ~ In name opcode_names
           /\ ~ In name ReservedWords
           /\ is_macro macroTable name = Some false)
  /\ (is_label word l macroTable = None <->
      exists name : string,
        word = (name ++ ":")%string
        /\ identifier name = true
        /\ (String.length name <= MAX_SYMBOL_LENGTH)%nat
        /\ is_macro macroTable name = None)
  /\ (forall name : string,
         is_macro macroTable name = Some false
         <-> exists names : list string,
               macro_names macroTable = Some names /\ ~ In name names)
  /\ (forall name : string,
         is_macro initialize_macro_table name = Some false)
  /\ (forall (m : Macro) (first : MacroTable) (n name : string),
         add_macro_to_table initialize_macro_table m = Some first ->
         macroName m = Some n ->
         is_macro first name = Some (String.eqb n name))
  /\ (forall (table table' : MacroTable) (m m' : Macro),
         add_macro_to_table table m = Some table' ->
         add_macro_to_table table' m' = None).
Proof.
  split; [ | split; [ | split; [ | split; [ | split]]]].
  - intros l'. split.
    + intros H.
      destruct (is_label_tests word l macroTable)
        as [K | (name & -> & Hid & Hlen)]; [congruence | ].
      rewrite (is_label_name name l macroTable Hid Hlen) in H.
      apply (proj1 (proj2 (is_valid_symbol_spec name l macroTable))) in H.
      destruct H as (-> & V1 & V2 & _ & V4 & V5).
      split; [reflexivity | ]. exists name. auto 10.
    + intros (-> & name & -> & Hid & Hlen & V1 & V2 & V4 & V5).
      rewrite (is_label_name name l macroTable Hid Hlen).
      apply (proj1 (proj2 (is_valid_symbol_spec name l macroTable))).
      pose proof (get_directive_identifier name Hid) as V3. auto 10.
  - split.
    + intros H.
      destruct (is_label_tests word l macroTable)
        as [K | (name & -> & Hid & Hlen)]; [congruence | ].
      rewrite (is_label_name name l macroTable Hid Hlen) in H.
      apply (proj1 (is_valid_symbol_spec name l macroTable)) in H.
      exists name. auto.
    + intros (name & -> & Hid & Hlen & H).
      rewrite (is_label_name name l macroTable Hid Hlen).
      now apply (proj1 (is_valid_symbol_spec name l macroTable)).
  - intros name. apply is_macro_names.
  - apply is_macro_initial.
  - apply is_macro_first.
  - apply add_macro_to_table_second.
Qed.

(* ------------------------------------------------------------------------- *)
(** ** The addressing type of an operand *)

Lemma isalnum_not_separator (c : ascii) :
  isalnum c = true ->
  isspace c = false /\ is_char c "," = false /\ is_char c "#" = false
  /\ is_char c "[" = false /\ is_char c "]" = false.
Proof.
  destruct c as [[] [] [] [] [] [] [] []]; intros H;
    try discriminate H; repeat split.
Qed.

Lemma isalpha_isalnum (c : ascii) : isalpha c = true -> isalnum c = true.
Proof. unfold isalnum. intros ->. reflexivity. Qed.

Lemma skip_while_all (p : ascii -> bool) (s : string) :
  forallb p (list_ascii_of_string s) = true -> skip_while p s = EmptyString.
Proof.
  induction s as [ | c s IH]; cbn; [reflexivity | ].
  intros H. apply andb_true_iff in H. destruct H as (A & B).
  rewrite A. now apply IH.
Qed.

Lemma skip_while_app (p : ascii -> bool) (a b : string) :
  forallb p (list_ascii_of_string a) = true ->
  skip_while p (a ++ b) = skip_while p b.
Proof.
  induction a as [ | c a IH]; cbn; [reflexivity | ].
  intros H. apply andb_true_iff in H. destruct H as (A & B).
  rewrite A. now apply IH.
Qed.

Lemma take_while_all (p : ascii -> bool) (s : string) :
  forallb p (list_ascii_of_string s) = true -> take_while p s = s.
Proof.
  induction s as [ | c s IH]; cbn; [reflexivity | ].
  intros H. apply andb_true_iff in H. destruct H as (A & B).
  rewrite A. now rewrite IH.
Qed.

Lemma forallb_impl {A : Type} (p q : A -> bool) (l : list A) :
  (forall x, p x = true -> q x = true) ->
  forallb p l = true -> forallb q l = true.
Proof.
  intros H. induction l as [ | x l IH]; cbn; [reflexivity | ].
  intros K. apply andb_true_iff in K. destruct K as (A1 & B1).
  now rewrite (H x A1), IH.
Qed.

Lemma identifier_chars (w : string) :
  identifier w = true ->
  isalpha (head_char w) = true
  /\ forallb isalnum (list_ascii_of_string (tail_str w)) = true
  /\ forallb isalnum (list_ascii_of_string w) = true.
Proof.
  destruct w as [ | c rest]; [intros H; discriminate H | ].
  cbn. intros H. apply andb_true_iff in H. destruct H as (A & B).
  rewrite A, B, (isalpha_isalnum c A). auto.
Qed.

Lemma safe_word_identifier (w : string) :
  identifier w = true ->
  safe_word_extraction_until_comma w = (true, w).
Proof.
  intros H. destruct (identifier_chars w H) as (A & _ & B).
  unfold safe_word_extraction_until_comma.
  assert (S : skip_while isspace w = w).
  { destruct w as [ | c rest]; [reflexivity | ]. cbn in *.
    destruct (isalnum_not_separator c (isalpha_isalnum c A)) as (N & _).
    now rewrite N. }
  rewrite S.
  rewrite take_while_all.
  - destruct w; [discriminate H | reflexivity].
  - revert B. apply forallb_impl. intros c Hc.
    destruct (isalnum_not_separator c Hc) as (N1 & N2 & _).
    now rewrite N1, N2.
Qed.

Lemma operand_addressing_identifier (w : string) :
  identifier w = true ->
  operand_addressing w
  = if is_reserved_word_extended w
    then if is_register (get_register w)
         then Some DIRECT_REGISTER_ADDR else None
    else Some DIRECT_ADDR.
Proof.
  intros H. destruct (identifier_chars w H) as (A & B & _).
  unfold operand_addressing.
  destruct (isalnum_not_separator _ (isalpha_isalnum _ A))
    as (_ & _ & N & _).
  rewrite N.
  unfold is_direct_addressing, is_fixed_index_addressing,
    is_direct_register_addressing.
  rewrite A, (skip_while_all isalnum _ B), (safe_word_identifier w H).
  cbn [negb skip_while is_end head_char is_char].
  destruct (is_reserved_word_extended w); reflexivity.
Qed.

(** X19.  The addressing type of an operand that is a letter followed by
    letters and digits: one of the eight words [r0] ... [r7] is a register;
    any other word of the extended list of reserved words (an opcode name,
    a directive name) is refused; every other word is a direct label,
    words such as [r8] or [r1x] included. *)
Theorem operand_addressing_names (w : string) :
  identifier w = true ->
  (In w register_names -> operand_addressing w = Some DIRECT_REGISTER_ADDR)
  /\ (In w ReservedWordsExtended -> ~ In w register_names ->
      operand_addressing w = None)
  /\ (~ In w ReservedWordsExtended ->
      operand_addressing w = Some DIRECT_ADDR).
Proof.
  intros H. rewrite (operand_addressing_identifier w H).
  assert (R : is_reserved_word_extended w = in_table w ReservedWordsExtended).
  { unfold is_reserved_word_extended. destruct w; [discriminate H | ].
    reflexivity. }
  rewrite R. clear R.
  split; [ | split].
  - intros I. cbn in I.
    repeat (destruct I as [<- | I]; [reflexivity | ]). destruct I.
  - intros I N.
    apply in_table_In in I. rewrite I.
    apply in_table_In in I. cbn in I, N.
    repeat (destruct I as [<- | I];
            [first [reflexivity | exfalso; apply N; tauto] | ]).
    destruct I.
  - intros N.
    destruct (in_table w ReservedWordsExtended) eqn:E; [ | reflexivity].
    apply in_table_In in E. contradiction.
Qed.

Lemma operand_addressing_names_witness :
  identifier "r3" = true
  /\ operand_addressing "r3" = Some DIRECT_REGISTER_ADDR.
Proof.
  assert (H : identifier "r3" = true) by reflexivity.
  refine (conj H (proj1 (operand_addressing_names "r3" H) _)).
  cbn. tauto.
Defined.

Lemma tail_str_app (a b : string) :
  a <> EmptyString -> tail_str (a ++ b) = (tail_str a ++ b)%string.
Proof. destruct a; [contradiction | reflexivity]. Qed.

Lemma head_char_app (a b : string) :
  a <> EmptyString -> head_char (a ++ b) = head_char a.
Proof. destruct a; [contradiction | reflexivity]. Qed.

Lemma append_empty (a : string) : (a ++ "")%string = a.
Proof. induction a as [ | c a IH]; cbn; [reflexivity | now rewrite IH]. Qed.

Lemma identifier_nonempty (w : string) :
  identifier w = true -> w <> EmptyString.
Proof. destruct w; [intros H; discriminate H | discriminate]. Qed.

(** X20.  The syntax of a fixed-index operand: a name, an opening
    bracket, letters and digits, and a closing bracket, which may be missing.
    An operand of this shape is given the fixed-index addressing type, with
    an empty index as well.  When a character that is neither a letter, a
    digit nor the closing bracket follows the opening bracket or the index,
    a sign for instance, the operand is not a fixed-index operand. *)
Theorem fixed_index_syntax (base idx : string) :
  identifier base = true ->
  forallb isalnum (list_ascii_of_string idx) = true ->
  operand_addressing (base ++ "[" ++ idx ++ "]") = Some FIXED_IDX_ADDR
  /\ operand_addressing (base ++ "[" ++ idx) = Some FIXED_IDX_ADDR
  /\ (forall (c : ascii) (rest : string),
         isalnum c = false -> c <> "]"%char ->
         is_fixed_index_addressing (base ++ "[" ++ idx ++ String c rest)
         = false
         /\ is_direct_addressing (base ++ "[" ++ idx ++ String c rest)
            = false).
Proof.
  intros Hb Hi.
  pose proof (identifier_nonempty base Hb) as Hn.
  destruct (identifier_chars base Hb) as (A & B & _).
  destruct (isalnum_not_separator _ (isalpha_isalnum _ A))
    as (_ & _ & N & _).
  assert (D : forall t : string,
             is_direct_addressing (base ++ "[" ++ t) = false).
  { intros t. unfold is_direct_addressing.
    rewrite head_char_app, A, tail_str_app by assumption.
    rewrite (skip_while_app isalnum (tail_str base) _ B).
    reflexivity. }
  assert (F : forall t : string,
             is_fixed_index_addressing (base ++ "[" ++ idx ++ t)
             = if negb (is_end (skip_while isalnum t))
                  && negb (is_char (head_char (skip_while isalnum t)) "]")
               then false
               else is_end (skip_while isspace
                              (if is_char (head_char (skip_while isalnum t))
                                          "]"
                               then tail_str (skip_while isalnum t)
                               else skip_while isalnum t))).
  { intros t. unfold is_fixed_index_addressing.
    rewrite head_char_app, A, tail_str_app by assumption.
    rewrite (skip_while_app isalnum (tail_str base) _ B).
    change (skip_while isalnum ("[" ++ idx ++ t))
      with (String "[" (idx ++ t)).
    cbn [negb head_char is_char tail_str].
    change (Ascii.eqb "[" "[") with true. cbn [negb].
    rewrite (skip_while_app isalnum idx t Hi). reflexivity. }
  unfold operand_addressing.
  split; [ | split].
  - rewrite head_char_app, N, D by assumption.
    rewrite (F "]"%string). reflexivity.
  - rewrite head_char_app, N, D by assumption.
    pose proof (F EmptyString) as F0.
    rewrite (append_empty idx) in F0.
    rewrite F0. reflexivity.
  - intros c rest Hc Hne. split; [ | apply D].
    rewrite F. cbn [skip_while]. rewrite Hc. cbn [is_end negb head_char].
    unfold is_char. destruct (Ascii.eqb_spec c "]"); [contradiction | ].
    reflexivity.
Qed.

Lemma fixed_index_syntax_witness :
  identifier "ARR" = true
  /\ operand_addressing "ARR[5]" = Some FIXED_IDX_ADDR
  /\ operand_addressing "ARR[5" = Some FIXED_IDX_ADDR
  /\ is_fixed_index_addressing "ARR[5-1]" = false.
Proof.
  assert (H : identifier "ARR" = true) by reflexivity.
  assert (I : forallb isalnum (list_ascii_of_string "5") = true)
    by reflexivity.
  assert (N : isalnum "-" = false) by reflexivity.
  assert (B : "-"%char <> "]"%char) by discriminate.
  exact (conj H
          (conj (proj1 (fixed_index_syntax "ARR" "5" H I))
            (conj (proj1 (proj2 (fixed_index_syntax "ARR" "5" H I)))
               (proj1 (proj2 (proj2 (fixed_index_syntax "ARR" "5" H I))
                         "-"%char "1]"%string N B))))).
Defined.

(* ------------------------------------------------------------------------- *)
(** ** Numbers *)

Lemma isdigit_value (c : ascii) :
  isdigit c = true -> 0 <= digit_value c <= 9.
Proof.
  unfold isdigit, digit_value. intros H.
  apply andb_true_iff in H. destruct H as (A & B).
  apply Nat.leb_le in A, B. lia.
Qed.

Lemma extract_digits_app (ds rest : string) (acc : Z) (k : nat) :
  forallb isdigit (list_ascii_of_string ds) = true ->
  isdigit (head_char rest) = false ->
  (String.length ds + k <= 9)%nat ->
  0 <= acc < 10 ^ Z.of_nat k ->
  extract_digits (ds ++ rest) acc
  = (fold_left (fun a c => 10 * a + digit_value c)
               (list_ascii_of_string ds) acc, rest)
  /\ 0 <= fold_left (fun a c => 10 * a + digit_value c)
                    (list_ascii_of_string ds) acc
     < 10 ^ Z.of_nat (String.length ds + k).
Proof.
  revert acc k. induction ds as [ | c ds IH]; intros acc k Hd Hr Hl Ha.
  - cbn [append list_ascii_of_string fold_left String.length Nat.add].
    split; [ | exact Ha].
    destruct rest as [ | r rest]; [reflexivity | ].
    cbn in *. now rewrite Hr.
  - cbn [list_ascii_of_string forallb] in Hd.
    apply andb_true_iff in Hd. destruct Hd as (Hc & Hd).
    cbn [append extract_digits list_ascii_of_string fold_left String.length]
      in *.
    rewrite Hc.
    pose proof (isdigit_value c Hc) as Hv.
    assert (P : 10 ^ Z.of_nat (S k) = 10 * 10 ^ Z.of_nat k).
    { rewrite Nat2Z.inj_succ, Z.pow_succ_r by lia. reflexivity. }
    assert (Q : 10 ^ Z.of_nat (S k) <= 10 ^ 9).
    { apply Z.pow_le_mono_r; lia. }
    assert (E : to_int (to_int (acc * 10) + (Z.of_nat (code c) - 48))
                = 10 * acc + digit_value c).
    { unfold digit_value in *.
      rewrite (to_int_id (acc * 10)) by lia.
      rewrite to_int_id by lia. lia. }
    rewrite E.
    replace (S (String.length ds) + k)%nat
      with (String.length ds + S k)%nat by lia.
    apply IH; try assumption; lia.
Qed.

Lemma extract_digits_short (ds rest : string) :
  short_digits ds -> isdigit (head_char rest) = false ->
  extract_digits (ds ++ rest) 0 = (decimal_value ds, rest)
  /\ 0 <= decimal_value ds < 10 ^ 9.
Proof.
  intros (_ & Hd & Hl) Hr.
  destruct (extract_digits_app ds rest 0 0 Hd Hr) as (E & B);
    [lia | cbn; lia | ].
  split; [exact E | ].
  unfold decimal_value. split; [lia | ].
  eapply Z.lt_le_trans; [apply B | ].
  apply Z.pow_le_mono_r; lia.
Qed.

Lemma isdigit_not_sign (c : ascii) :
  isdigit c = true ->
  is_char c "-" = false /\ is_char c "+" = false /\ isalnum c = true
  /\ isspace c = false /\ is_char c "," = false /\ is_blank c = false.
Proof.
  destruct c as [[] [] [] [] [] [] [] []]; intros H;
    try discriminate H; repeat split.
Qed.

(** The number [extract_number] reads from a sign and digits. *)
Lemma extract_number_digits (ds rest : string) :
  short_digits ds -> isdigit (head_char rest) = false ->
  extract_number ("-" ++ ds ++ rest) = Some (- decimal_value ds)
  /\ extract_number ("+" ++ ds ++ rest) = Some (decimal_value ds)
  /\ extract_number (ds ++ rest)
     = if is_char (head_char ds) "0" && (2 <=? String.length ds)%nat
       then None else Some (decimal_value ds).
Proof.
  intros Hs Hr.
  destruct (extract_digits_short ds rest Hs Hr) as (E & B).
  destruct Hs as (Hn & Hd & Hl).
  destruct ds as [ | d ds']; [contradiction | ].
  cbn [list_ascii_of_string forallb] in Hd.
  apply andb_true_iff in Hd. destruct Hd as (Hd0 & Hd').
  destruct (isdigit_not_sign d Hd0) as (N1 & N2 & _).
  assert (T : forall v : Z, 0 <= v < 10 ^ 9 ->
                to_int (1 * v) = v /\ to_int (-1 * v) = - v).
  { intros v Hv. split.
    - rewrite to_int_id by lia. lia.
    - rewrite to_int_id by lia. lia. }
  destruct (T _ B) as (T1 & T2).
  unfold extract_number. split; [ | split].
  - cbn [append head_char tail_str is_end].
    change (isdigit "-") with false. change (is_char "-" "-") with true.
    change (is_char "-" "0") with false. change (is_char "-" "+") with false.
    cbn [orb andb negb]. rewrite Hd0. cbn [negb].
    change (String d (ds' ++ rest)) with (String d ds' ++ rest)%string.
    rewrite E. now rewrite T2.
  - cbn [append head_char tail_str is_end].
    change (isdigit "+") with false. change (is_char "+" "-") with false.
    change (is_char "+" "0") with false. change (is_char "+" "+") with true.
    cbn [orb andb negb]. rewrite Hd0. cbn [negb].
    change (String d (ds' ++ rest)) with (String d ds' ++ rest)%string.
    rewrite E. now rewrite T1.
  - cbn [append head_char tail_str is_end String.length].
    rewrite Hd0, N1, N2. cbn [orb negb].
    assert (C : isdigit (head_char (ds' ++ rest))
                = (1 <=? String.length ds')%nat).
    { destruct ds' as [ | d' ds'']; [exact Hr | ].
      cbn in *. apply andb_true_iff in Hd'. now destruct Hd' as (-> & _). }
    rewrite C.
    change (2 <=? S (String.length ds'))%nat
      with (1 <=? String.length ds')%nat.
    destruct (is_char d "0" && (1 <=? String.length ds')%nat);
      [reflexivity | ].
    change (String d (ds' ++ rest)) with (String d ds' ++ rest)%string.
    rewrite E. now rewrite T1.
Qed.

(** X21.  [extract_number] on an optional sign and up to nine digits
    followed by anything that is not a digit: the value is that of the
    digits, negated after a minus sign, and what follows the digits is not
    looked at.  Without a sign, a zero followed by another digit is refused;
    after a sign, leading zeros are accepted. *)
Theorem extract_number_spec (ds rest : string) :
  short_digits ds -> isdigit (head_char rest) = false ->
  extract_number ("-" ++ ds ++ rest) = Some (- decimal_value ds)
  /\ extract_number ("+" ++ ds ++ rest) = Some (decimal_value ds)
  /\ extract_number (ds ++ rest)
     = if is_char (head_char ds) "0" && (2 <=? String.length ds)%nat
       then None else Some (decimal_value ds).
Proof. exact (extract_number_digits ds rest). Qed.

Lemma extract_number_spec_witness :
  short_digits "12" /\ isdigit (head_char "abc") = false
  /\ extract_number "-12abc" = Some (- decimal_value "12").
Proof.
  assert (H : short_digits "12").
  { repeat split; [discriminate | cbn; lia]. }
  assert (R : isdigit (head_char "abc") = false) by reflexivity.
  exact (conj H (conj R (proj1 (extract_number_spec "12" "abc" H R)))).
Defined.

(* ------------------------------------------------------------------------- *)
(** ** The elements of a [.data] directive *)

Lemma is_blank_isspace (c : ascii) :
  is_blank c = true -> isspace c = true /\ isdigit c = false
  /\ isalnum c = false.
Proof.
  destruct c as [[] [] [] [] [] [] [] []]; intros H;
    try discriminate H; repeat split.
Qed.

Lemma blanks_isspace (s : string) :
  blanks s -> forallb isspace (list_ascii_of_string s) = true.
Proof.
  unfold blanks. apply forallb_impl. intros c H.
  now destruct (is_blank_isspace c H).
Qed.

Lemma skip_while_stop (p : ascii -> bool) (s : string) :
  p (head_char s) = false -> skip_while p s = s.
Proof. destruct s as [ | c s]; [reflexivity | ]. cbn. now intros ->. Qed.

Lemma take_while_app (p : ascii -> bool) (a b : string) :
  forallb p (list_ascii_of_string a) = true ->
  b = EmptyString \/ p (head_char b) = false ->
  take_while p (a ++ b) = a.
Proof.
  intros Ha Hb. induction a as [ | c a IH]; cbn in *.
  - destruct Hb as [-> | Hb]; [reflexivity | ].
    destruct b; [reflexivity | ]. cbn in *. now rewrite Hb.
  - apply andb_true_iff in Ha. destruct Ha as (A & B).
    rewrite A. now rewrite IH.
Qed.

Lemma extract_constant_non_identifier (tu : TranslationUnit)
  (name : string) :
  constant_names_valid tu -> identifier name = false ->
  extract_constant_from (constantList tu) name = None.
Proof.
  unfold constant_names_valid. intros H N.
  induction H as [ | c l Hc H IH]; cbn; [reflexivity | ].
  destruct (String.eqb_spec (constName c) name) as [E | _];
    [congruence | exact IH].
Qed.

(** The text of an element and what follows it, with the facts that the
    loop of [data_directive_handling] uses. *)
Lemma element_shape (e : DataElement) (tail : string) :
  well_formed_element e ->
  (line_end tail \/ head_char tail = ","%char) ->
  let body := (elt_digits e ++ elt_after e ++ tail)%string in
  let word := (elt_sign e ++ elt_digits e)%string in
  isdigit (head_char body) = true
  /\ skip_while isalnum body = (elt_after e ++ tail)%string
  /\ extract_digits body 0
     = (decimal_value (elt_digits e), (elt_after e ++ tail)%string)
  /\ 0 <= decimal_value (elt_digits e) < 10 ^ 9
  /\ skip_while is_blank (elt_after e ++ tail) = tail
  /\ (let s := skip_while isspace (elt_after e ++ tail) in
      is_char (head_char s) "," || is_end s
      || Ascii.eqb (head_char s) (ascii_of_nat 10) = true)
  /\ skip_while isspace (elt_before e ++ elt_sign e ++ body)
     = (elt_sign e ++ body)%string
  /\ skip_while is_blank (elt_before e ++ elt_sign e ++ body)
     = (elt_sign e ++ body)%string
  /\ take_while (fun c => negb (isspace c) && negb (is_char c ","))
                (elt_sign e ++ body) = word
  /\ identifier word = false
  /\ is_end (elt_before e ++ elt_sign e ++ body) = false.
Proof.
  intros (Hb & Hs & Ha) Ht. cbv zeta.
  pose proof Hs as (Hn & Hd & Hl).
  destruct (elt_digits e) as [ | d ds] eqn:Ed; [contradiction | ].
  cbn [list_ascii_of_string forallb] in Hd.
  apply andb_true_iff in Hd. destruct Hd as (Hd0 & Hd').
  destruct (isdigit_not_sign d Hd0) as (N1 & N2 & N3 & N4 & N5 & N6).
  assert (Hh : isdigit (head_char (elt_after e ++ tail)) = false
               /\ isalnum (head_char (elt_after e ++ tail)) = false
               /\ (elt_after e ++ tail = EmptyString
                   \/ (fun c => negb (isspace c) && negb (is_char c ","))
                        (head_char (elt_after e ++ tail)) = false)%string).
  { destruct (elt_after e) as [ | a after] eqn:Ea.
    - cbn [append].
      destruct Ht as [[-> | ->] | H]; [repeat split; auto .. | ].
      destruct tail as [ | t tail]; try discriminate H;
        cbn in H; subst t; repeat split; auto.
    - unfold blanks in Ha. cbn in Ha. apply andb_true_iff in Ha.
      destruct Ha as (Ha0 & _).
      destruct (is_blank_isspace a Ha0) as (S1 & S2 & S3).
      cbn. rewrite S1, S2, S3. repeat split; auto. }
  destruct Hh as (H1 & H2 & H3).
  assert (Hda : forallb isalnum (list_ascii_of_string (String d ds)) = true).
  { cbn [list_ascii_of_string forallb]. rewrite N3. cbn [andb].
    revert Hd'. apply forallb_impl.
    intros c Hc. now destruct (isdigit_not_sign c Hc) as (_ & _ & K & _). }
  assert (Hdw : forallb (fun c => negb (isspace c) && negb (is_char c ","))
                        (list_ascii_of_string (String d ds)) = true).
  { cbn [list_ascii_of_string forallb]. rewrite N4, N5. cbn [negb andb].
    revert Hd'. apply forallb_impl.
    intros c Hc.
    destruct (isdigit_not_sign c Hc) as (_ & _ & _ & K1 & K2 & _).
    now rewrite K1, K2. }
  assert (Hskip : skip_while is_blank (elt_after e ++ tail) = tail).
  { rewrite skip_while_app by exact Ha. apply skip_while_stop.
    destruct Ht as [[-> | ->] | H]; [reflexivity .. | now rewrite H]. }
  assert (Hcond : (let s := skip_while isspace (elt_after e ++ tail) in
                   is_char (head_char s) "," || is_end s
                   || Ascii.eqb (head_char s) (ascii_of_nat 10)) = true).
  { cbv zeta. rewrite skip_while_app by (apply blanks_isspace; exact Ha).
    destruct Ht as [[-> | ->] | H]; [reflexivity .. | ].
    destruct tail as [ | t tail]; try discriminate H;
      cbn in H; subst t; reflexivity. }
  destruct (extract_digits_short (String d ds) (elt_after e ++ tail))
    as (E & B); [exact Hs | exact H1 | ].
  assert (Hsign : isspace (head_char (elt_sign e ++ String d ds
                                        ++ elt_after e ++ tail)) = false
                  /\ is_blank (head_char (elt_sign e ++ String d ds
                                            ++ elt_after e ++ tail)) = false).
  { unfold elt_sign. destruct (elt_minus e); cbn; auto. }
  destruct Hsign as (G1 & G2).
  repeat split.
  - exact Hd0.
  - rewrite skip_while_app by exact Hda. now apply skip_while_stop.
  - exact E.
  - apply B.
  - apply B.
  - exact Hskip.
  - exact Hcond.
  - rewrite skip_while_app by (apply blanks_isspace; exact Hb).
    now apply skip_while_stop.
  - rewrite skip_while_app by exact Hb. now apply skip_while_stop.
  - unfold elt_sign. destruct (elt_minus e).
    + change ("-" ++ String d ds ++ elt_after e ++ tail)%string
        with (("-" ++ String d ds) ++ (elt_after e ++ tail))%string.
      apply take_while_app; [ | exact H3].
      change (list_ascii_of_string ("-" ++ String d ds))
        with ("-"%char :: list_ascii_of_string (String d ds)).
      cbn [forallb]. rewrite Hdw. reflexivity.
    + change ("" ++ String d ds ++ elt_after e ++ tail)%string
        with (String d ds ++ (elt_after e ++ tail))%string.
      now apply take_while_app.
  - unfold elt_sign. destruct (elt_minus e); cbn; [reflexivity | ].
    destruct d as [[] [] [] [] [] [] [] []]; try discriminate Hd0;
      reflexivity.
  - destruct (elt_before e); [ | reflexivity].
    unfold elt_sign. destruct (elt_minus e); reflexivity.
Qed.

Lemma string_app_assoc (a b c : string) :
  ((a ++ b) ++ c)%string = (a ++ b ++ c)%string.
Proof. induction a as [ | x a IH]; cbn; [reflexivity | now rewrite IH]. Qed.

Lemma elt_text_app (e : DataElement) (tail : string) :
  (elt_text e ++ tail)%string
  = (elt_before e ++ elt_sign e ++ elt_digits e ++ elt_after e ++ tail)%string.
Proof. unfold elt_text. now rewrite !string_app_assoc. Qed.

(** One element read by the loop of [data_directive_handling]: the value
    extracted and the position after the three moves of the pointer. *)
Lemma element_read (tu : TranslationUnit) (e : DataElement) (tail : string) :
  constant_names_valid tu -> well_formed_element e ->
  (line_end tail \/ head_char tail = ","%char) ->
  is_end (elt_text e ++ tail) = false
  /\ data_directive_value_extraction tu (elt_text e ++ tail)
     = Some (elt_value e)
  /\ MOVE_TO_NON_WHITE
       (MOVE_TO_NEXT_DATA (MOVE_TO_NON_WHITE (elt_text e ++ tail)))
     = tail.
Proof.
  intros Hc He Ht. rewrite elt_text_app.
  destruct (element_shape e tail He Ht)
    as (S1 & S2 & S3 & S4 & S5 & S6 & S7 & S8 & S9 & S10 & S11).
  cbv zeta in *.
  destruct (isdigit_not_sign _ S1) as (N1 & N2 & _).
  split; [exact S11 | split].
  - unfold data_directive_value_extraction. rewrite S11.
    unfold safe_word_extraction_until_comma. rewrite S7, S9.
    rewrite (extract_constant_non_identifier tu _ Hc S10).
    unfold extract_integer. rewrite S11, S7.
    unfold elt_sign, elt_value in *. destruct (elt_minus e).
    + cbn [append head_char tail_str].
      change (is_char "-" "+") with false. change (is_char "-" "-") with true.
      cbn iota. rewrite S1. cbn [negb]. rewrite S3.
      cbv zeta in S6. rewrite S6.
      f_equal. rewrite to_int_id by lia. lia.
    + cbn [append]. rewrite N1, N2, S1. cbn [negb]. rewrite S3.
      cbv zeta in S6. rewrite S6.
      f_equal. rewrite to_int_id by lia. lia.
  - unfold MOVE_TO_NON_WHITE, MOVE_TO_NEXT_DATA. rewrite S8.
    unfold elt_sign. destruct (elt_minus e).
    + cbn [append head_char tail_str].
      change (is_char "-" "-") with true. cbn iota.
      now rewrite S2, S5.
    + cbn [append]. rewrite N1. now rewrite S2, S5.
Qed.

(** An element followed by a comma is consumed by one iteration. *)
Lemma data_values_loop_step (tu : TranslationUnit) (e : DataElement)
  (rest : string) (fuel : nat) (data : list Z) :
  constant_names_valid tu -> well_formed_element e ->
  data_values_loop (S fuel) tu (elt_text e ++ "," ++ rest) data
  = data_values_loop fuel tu rest (data ++ [elt_value e]).
Proof.
  intros Hc He.
  destruct (element_read tu e ("," ++ rest) Hc He) as (R1 & R2 & R3);
    [right; reflexivity | ].
  cbn [data_values_loop]. rewrite R1, R2, R3. reflexivity.
Qed.

Lemma data_values_loop_end (tu : TranslationUnit) (t : string)
  (fuel : nat) (data : list Z) :
  constant_names_valid tu -> line_end t ->
  data_values_loop (S fuel) tu t data = Some (data, t).
Proof.
  intros Hc [-> | ->]; [reflexivity | ].
  cbn [data_values_loop].
  change (is_end newline) with false. cbn iota.
  assert (E : data_directive_value_extraction tu newline = None).
  { unfold data_directive_value_extraction.
    change (is_end newline) with false. cbn iota.
    change (safe_word_extraction_until_comma newline)
      with (false, EmptyString).
    cbv beta iota.
    rewrite (extract_constant_non_identifier tu EmptyString Hc eq_refl).
    reflexivity. }
  now rewrite E.
Qed.

(** The last element, followed by the end of the line, ends the loop at the
    next iteration. *)
Lemma data_values_loop_last (tu : TranslationUnit) (e : DataElement)
  (t : string) (fuel : nat) (data : list Z) :
  constant_names_valid tu -> well_formed_element e -> line_end t ->
  data_values_loop (S (S fuel)) tu (elt_text e ++ t) data
  = Some (data ++ [elt_value e], t).
Proof.
  intros Hc He Ht.
  destruct (element_read tu e t Hc He) as (R1 & R2 & R3); [now left | ].
  rewrite <- (data_values_loop_end tu t fuel (data ++ [elt_value e]) Hc Ht).
  change (data_values_loop (S (S fuel)) tu (elt_text e ++ t) data)
    with (if is_end (elt_text e ++ t) then Some (data, (elt_text e ++ t)%string)
          else
            match data_directive_value_extraction tu (elt_text e ++ t) with
            | None => Some (data, (elt_text e ++ t)%string)
            | Some dataValue =>
                let data := data ++ [dataValue] in
                let line := MOVE_TO_NON_WHITE (elt_text e ++ t) in
                let line := MOVE_TO_NEXT_DATA line in
                let line := MOVE_TO_NON_WHITE line in
                let line :=
                  if negb (is_end line)
                     && negb (Ascii.eqb (head_char line) (ascii_of_nat 10))
                  then tail_str line else line in
                data_values_loop (S fuel) tu line data
            end).
  rewrite R1, R2. cbv zeta. rewrite R3.
  destruct Ht as [-> | ->]; reflexivity.
Qed.

Lemma data_values_loop_list (tu : TranslationUnit)
  (elems : list DataElement) (t : string) (fuel : nat) (data : list Z) :
  constant_names_valid tu -> Forall well_formed_element elems ->
  elems <> [] -> line_end t ->
  data_values_loop (S (List.length elems + fuel)) tu (data_text elems t) data
  = Some (data ++ map elt_value elems, t).
Proof.
  intros Hc Hw. revert data.
  induction Hw as [ | e rest He Hw IH]; intros data Hn Ht; [contradiction | ].
  destruct rest as [ | e' rest'].
  - cbn [data_text List.length Nat.add map].
    now apply data_values_loop_last.
  - change (data_text (e :: e' :: rest') t)
      with (elt_text e ++ "," ++ data_text (e' :: rest') t)%string.
    cbn [List.length Nat.add] in *.
    rewrite data_values_loop_step by assumption.
    rewrite IH by (discriminate || assumption).
    cbn [map]. now rewrite <- app_assoc.
Qed.

Lemma data_directive_handling_result (fuel : nat)
  (l : AbstractLineDescriptor) (tu : TranslationUnit) (line t : string)
  (data : list Z) :
  data_values_loop fuel tu (MOVE_TO_NON_WHITE line) [] = Some (data, t) ->
  data <> [] -> line_end t ->
  data_directive_handling fuel l tu line = Some (data_descriptor l data).
Proof.
  intros H Hd Ht. unfold data_directive_handling. rewrite H.
  destruct data as [ | x data]; [contradiction | ].
  cbn [List.length Nat.eqb].
  destruct Ht as [-> | ->]; reflexivity.
Qed.

(** X22.  A [.data] line whose elements are well formed (each an optional
    minus sign and up to nine digits, with blanks around it, the elements
    separated by commas, the line ended by the terminator or a newline) is
    accepted, and the integers stored are the values of the elements, in
    order, negated after a minus sign.  One iteration more than there are
    elements is enough for the loop to end. *)
Theorem data_directive_well_formed (tu : TranslationUnit)
  (l : AbstractLineDescriptor) (elems : list DataElement) (t : string)
  (fuel : nat) :
  constant_names_valid tu ->
  Forall well_formed_element elems -> elems <> [] -> line_end t ->
  (List.length elems < fuel)%nat ->
  data_directive_handling fuel l tu (data_text elems t)
  = Some (data_descriptor l (map elt_value elems)).
Proof.
  intros Hc Hw Hn Ht Hf.
  destruct elems as [ | e rest]; [contradiction | ].
  inversion Hw as [ | e0 r0 He Hr]. subst e0 r0.
  assert (He' : well_formed_element (no_blanks_before e)).
  { destruct He as (_ & H2 & H3). split; [reflexivity | split; assumption]. }
  assert (M : MOVE_TO_NON_WHITE (data_text (e :: rest) t)
              = data_text (no_blanks_before e :: rest) t).
  { cbn [data_text].
    set (X := match rest with [] => t | _ :: _ => _ end).
    assert (HX : line_end X \/ head_char X = ","%char).
    { unfold X. destruct rest; [now left | right; reflexivity]. }
    rewrite !elt_text_app.
    destruct (element_shape e X He HX)
      as (_ & _ & _ & _ & _ & _ & _ & S8 & _).
    cbv zeta in S8. unfold MOVE_TO_NON_WHITE. rewrite S8. reflexivity. }
  apply (data_directive_handling_result fuel l tu _ t).
  - rewrite M.
    replace fuel
      with (S (List.length (no_blanks_before e :: rest)
               + (fuel - S (List.length (e :: rest)))))%nat
      by (cbn [List.length] in *; lia).
    rewrite data_values_loop_list; try assumption.
    + reflexivity.
    + constructor; assumption.
    + discriminate.
  - discriminate.
  - exact Ht.
Qed.

Lemma data_directive_well_formed_witness :
  constant_names_valid fresh_unit
  /\ data_directive_handling 4 empty_line fresh_unit
       (" 7,-12 ,3" ++ newline)
     = Some (data_descriptor empty_line [7; -12; 3]).
Proof.
  assert (Hc : constant_names_valid fresh_unit)
    by constructor.
  assert (Hw : Forall well_formed_element
                 [ {| elt_before := " "; elt_minus := false;
                      elt_digits := "7"; elt_after := "" |};
                   {| elt_before := ""; elt_minus := true;
                      elt_digits := "12"; elt_after := " " |};
                   {| elt_before := ""; elt_minus := false;
                      elt_digits := "3"; elt_after := "" |} ]).
  { repeat constructor; try discriminate; cbn; lia. }
  assert (Hn : [ {| elt_before := " "; elt_minus := false;
                    elt_digits := "7"; elt_after := "" |};
                 {| elt_before := ""; elt_minus := true;
                    elt_digits := "12"; elt_after := " " |};
                 {| elt_before := ""; elt_minus := false;
                    elt_digits := "3"; elt_after := "" |} ] <> [])
    by discriminate.
  assert (Ht : line_end newline) by (right; reflexivity).
  assert (Hf : (3 < 4)%nat) by lia.
  exact (conj Hc
           (data_directive_well_formed fresh_unit empty_line
              [ {| elt_before := " "; elt_minus := false;
                   elt_digits := "7"; elt_after := "" |};
                {| elt_before := ""; elt_minus := true;
                   elt_digits := "12"; elt_after := " " |};
                {| elt_before := ""; elt_minus := false;
                   elt_digits := "3"; elt_after := "" |} ]
              newline 4 Hc Hw Hn Ht Hf)).
Defined.

(** X23.  A plus sign before the digits of a [.data] element makes the
    value be stored twice: the integer is read with its sign, the pointer is
    then moved past a minus sign and alphanumeric characters only, so it
    stays on the plus sign, and the step written for the comma skips the
    sign alone; the digits are read again at the next iteration. *)
Theorem data_directive_plus_sign (tu : TranslationUnit)
  (l : AbstractLineDescriptor) (sp ds after t : string) (fuel : nat) :
  constant_names_valid tu ->
  blanks sp -> short_digits ds -> blanks after -> line_end t ->
  (2 < fuel)%nat ->
  data_directive_handling fuel l tu (sp ++ "+" ++ ds ++ after ++ t)
  = Some (data_descriptor l [decimal_value ds; decimal_value ds]).
Proof.
  intros Hc Hsp Hds Haf Ht Hf.
  set (e := {| elt_before := EmptyString; elt_minus := false;
               elt_digits := ds; elt_after := after |}).
  assert (He : well_formed_element e) by (repeat split; assumption || apply Hds).
  destruct (element_shape e t He (or_introl Ht))
    as (S1 & S2 & S3 & S4 & S5 & S6 & S7 & S8 & S9 & S10 & S11).
  cbv zeta in *. unfold elt_sign in *.
  cbn [e elt_before elt_minus elt_digits elt_after append] in *.
  set (body := (ds ++ after ++ t)%string) in *.
  assert (Tx : (elt_text e ++ t)%string = body).
  { rewrite elt_text_app. reflexivity. }
  apply (data_directive_handling_result fuel l tu _ t);
    [ | discriminate | exact Ht].
  unfold MOVE_TO_NON_WHITE at 1.
  rewrite (skip_while_app is_blank sp _ Hsp).
  cbn [append].
  rewrite (skip_while_stop is_blank (String "+" body) eq_refl).
  destruct fuel as [ | [ | [ | fuel]]]; try lia.
  assert (W : take_while (fun c => negb (isspace c) && negb (is_char c ","))
                         (String "+" body) = String "+" ds).
  { change (take_while (fun c => negb (isspace c) && negb (is_char c ","))
                       (String "+" body))
      with (String "+"
              (take_while (fun c => negb (isspace c) && negb (is_char c ","))
                          body)).
    now rewrite S9. }
  assert (V : data_directive_value_extraction tu (String "+" body)
              = Some (decimal_value ds)).
  { unfold data_directive_value_extraction.
    change (is_end (String "+" body)) with false. cbn iota.
    unfold safe_word_extraction_until_comma.
    change (skip_while isspace (String "+" body)) with (String "+" body).
    rewrite W.
    rewrite (extract_constant_non_identifier tu (String "+" ds) Hc eq_refl).
    unfold extract_integer.
    change (is_end (String "+" body)) with false. cbn iota.
    change (skip_while isspace (String "+" body)) with (String "+" body).
    change (head_char (String "+" body)) with "+"%char.
    change (is_char "+" "+") with true. cbn iota.
    change (tail_str (String "+" body)) with body.
    rewrite S1. cbn [negb]. rewrite S3. rewrite S6.
    f_equal. rewrite to_int_id by lia. lia. }
  change (data_values_loop (S (S (S fuel))) tu (String "+" body) [])
    with (if is_end (String "+" body) then Some ([], String "+" body)
          else
            match data_directive_value_extraction tu (String "+" body) with
            | None => Some ([], String "+" body)
            | Some dataValue =>
                let data := [] ++ [dataValue] in
                let line := MOVE_TO_NON_WHITE (String "+" body) in
                let line := MOVE_TO_NEXT_DATA line in
                let line := MOVE_TO_NON_WHITE line in
                let line :=
                  if negb (is_end line)
                     && negb (Ascii.eqb (head_char line) (ascii_of_nat 10))
                  then tail_str line else line in
                data_values_loop (S (S fuel)) tu line data
            end).
  change (is_end (String "+" body)) with false. cbn iota.
  rewrite V. cbv zeta.
  change (MOVE_TO_NON_WHITE
            (MOVE_TO_NEXT_DATA (MOVE_TO_NON_WHITE (String "+" body))))
    with (String "+" body).
  change (is_end (String "+" body)) with false.
  change (head_char (String "+" body)) with "+"%char.
  change (negb false && negb (Ascii.eqb "+" (ascii_of_nat 10))) with true.
  cbn iota. change (tail_str (String "+" body)) with body.
  rewrite <- Tx.
  rewrite (data_values_loop_last tu e t fuel _ Hc He Ht).
  reflexivity.
Qed.

Lemma data_directive_plus_sign_witness :
  constant_names_valid fresh_unit
  /\ data_directive_handling 3 empty_line fresh_unit " +5"
     = Some (data_descriptor empty_line [5; 5]).
Proof.
  assert (Hc : constant_names_valid fresh_unit)
    by constructor.
  assert (Hsp : blanks " ") by reflexivity.
  assert (Hds : short_digits "5").
  { repeat split; [discriminate | cbn; lia]. }
  assert (Haf : blanks "") by reflexivity.
  assert (Ht : line_end "") by (left; reflexivity).
  assert (Hf : (2 < 3)%nat) by lia.
  exact (conj Hc
           (data_directive_plus_sign fresh_unit empty_line
              " " "5" "" "" 3 Hc Hsp Hds Haf Ht Hf)).
Defined.

(* ------------------------------------------------------------------------- *)
(** ** Constant definitions *)

Lemma character_classes (c : ascii) :
  (isalnum c = true -> is_blank c = false /\ isspace c = false
                       /\ is_char c "=" = false)
  /\ (is_blank c = true -> isalnum c = false /\ isspace c = true)
  /\ (isdigit c = true -> isalnum c = true /\ is_char c "-" = false
                          /\ is_char c "+" = false)
  /\ (isalpha c = true -> isalnum c = true).
Proof.
  destruct c as [[] [] [] [] [] [] [] []];
    repeat split; intros; try reflexivity; discriminate.
Qed.

Lemma head_char_blanks (p : ascii -> bool) (sp rest : string) :
  blanks sp -> (forall c : ascii, is_blank c = true -> p c = false) ->
  p (head_char rest) = false -> p (head_char (sp ++ rest)) = false.
Proof.
  intros Hs Hp Hr. destruct sp as [ | c sp]; [exact Hr | ].
  cbn in *. apply andb_true_iff in Hs. destruct Hs as (A & _). now apply Hp.
Qed.

Lemma forallb_blanks (p : ascii -> bool) (sp : string) :
  blanks sp -> (forall c : ascii, is_blank c = true -> p c = true) ->
  forallb p (list_ascii_of_string sp) = true.
Proof. unfold blanks. intros Hb Hp. revert Hb. now apply forallb_impl. Qed.

Lemma skip_blanks (p : ascii -> bool) (sp rest : string) :
  blanks sp -> (forall c : ascii, is_blank c = true -> p c = true) ->
  p (head_char rest) = false ->
  skip_while p (sp ++ rest) = rest.
Proof.
  intros Hs Hp Hr.
  rewrite (skip_while_app p sp rest (forallb_blanks p sp Hs Hp)).
  now apply skip_while_stop.
Qed.

(** The end of a line after blanks: nothing, or white space. *)
Lemma line_end_space (sp t : string) :
  blanks sp -> line_end t ->
  (sp ++ t)%string = EmptyString \/ isspace (head_char (sp ++ t)) = true.
Proof.
  intros Hs Ht. destruct sp as [ | c sp].
  - destruct Ht as [-> | ->]; [now left | right; reflexivity].
  - right. cbn in *. apply andb_true_iff in Hs. destruct Hs as (A & _).
    now apply character_classes.
Qed.

Lemma skip_while_line_end (p : ascii -> bool) (s : string) :
  s = EmptyString \/ p (head_char s) = false -> skip_while p s = s.
Proof. intros [-> | H]; [reflexivity | now apply skip_while_stop]. Qed.

Lemma strtol_digits_value (ds : string) (acc : Z) :
  forallb isdigit (list_ascii_of_string ds) = true ->
  strtol_digits ds acc
  = fold_left (fun a c => 10 * a + digit_value c)
              (list_ascii_of_string ds) acc.
Proof.
  revert acc. induction ds as [ | c ds IH]; intros acc H; [reflexivity | ].
  cbn in *. apply andb_true_iff in H. destruct H as (A & B).
  rewrite A. now rewrite IH.
Qed.

(** The number [strtol] reads from a sign and up to nine digits. *)
Lemma strtol_short (minus : bool) (ds : string) :
  short_digits ds ->
  to_int (strtol ((if minus then "-" else "") ++ ds))
  = if minus then - decimal_value ds else decimal_value ds.
Proof.
  intros Hs. pose proof Hs as (Hn & Hd & Hl).
  destruct (extract_digits_short ds EmptyString Hs eq_refl) as (_ & B).
  assert (D : isdigit (head_char ds) = true).
  { destruct ds as [ | c ds]; [contradiction | ].
    cbn in Hd. apply andb_true_iff in Hd. now destruct Hd. }
  destruct (proj1 (proj2 (proj2 (character_classes (head_char ds)))) D)
    as (A & M & P).
  destruct (proj1 (character_classes (head_char ds)) A) as (_ & S & _).
  unfold strtol. destruct minus.
  - change ("-" ++ ds)%string with (String "-" ds).
    change (skip_while isspace (String "-" ds)) with (String "-" ds).
    change (head_char (String "-" ds)) with "-"%char.
    change (is_char "-" "-") with true. cbv iota.
    change (tail_str (String "-" ds)) with ds.
    rewrite (strtol_digits_value ds 0 Hd). fold (decimal_value ds).
    unfold LONG_MAX, LONG_MIN. rewrite to_int_id; lia.
  - change ("" ++ ds)%string with ds.
    rewrite (skip_while_stop isspace ds S). rewrite M, P.
    rewrite (strtol_digits_value ds 0 Hd). fold (decimal_value ds).
    unfold LONG_MAX, LONG_MIN. rewrite to_int_id; lia.
Qed.

(** [is_decimal_integer] on a sign and digits that do not begin with a
    zero. *)
Lemma is_decimal_integer_digits (minus : bool) (ds : string) :
  ds <> EmptyString ->
  forallb isdigit (list_ascii_of_string ds) = true ->
  is_char (head_char ds) "0" = false ->
  is_decimal_integer ((if minus then "-" else "") ++ ds) = true.
Proof.
  intros Hn Hd Hz.
  assert (D : isdigit (head_char ds) = true).
  { destruct ds as [ | c ds]; [contradiction | ].
    cbn in Hd. apply andb_true_iff in Hd. now destruct Hd. }
  destruct (proj1 (proj2 (proj2 (character_classes (head_char ds)))) D)
    as (A & M & P).
  destruct (proj1 (character_classes (head_char ds)) A) as (_ & S & _).
  unfold is_decimal_integer. destruct minus.
  - change ("-" ++ ds)%string with (String "-" ds).
    change (is_end (String "-" ds)) with false. cbv iota.
    change (skip_while isspace (String "-" ds)) with (String "-" ds).
    change (head_char (String "-" ds)) with "-"%char.
    change (is_char "-" "-") with true. cbn [orb]. cbv iota.
    change (tail_str (String "-" ds)) with ds.
    rewrite Hz, D. cbn [negb]. rewrite (skip_while_all isdigit ds Hd).
    reflexivity.
  - change ("" ++ ds)%string with ds.
    destruct ds as [ | c ds]; [contradiction | ].
    change (is_end (String c ds)) with false. cbv iota.
    rewrite (skip_while_stop isspace (String c ds) S).
    rewrite M, P. cbn [orb]. cbv iota.
    rewrite Hz, D. cbn [negb]. rewrite (skip_while_all isdigit _ Hd).
    reflexivity.
Qed.

(** The name of a constant passes [is_valid_constant_definition]. *)
Lemma is_valid_constant_definition_name (name : string)
  (l : AbstractLineDescriptor) (macroTable : MacroTable) :
  identifier name = true ->
  (String.length name <= MAX_SYMBOL_LENGTH)%nat ->
  is_valid_constant_definition name l macroTable
  = is_valid_symbol name l macroTable.
Proof.
  intros Hi Hl.
  destruct (identifier_chars name Hi) as (A & _ & B).
  unfold is_valid_constant_definition.
  destruct name as [ | c rest]; [discriminate Hi | ].
  change (is_end (String c rest)) with false. cbv iota.
  change (char_at (String c rest) 0) with c.
  cbn [head_char] in A. rewrite A. cbn [negb].
  assert (L : is_label_loop (String.length (String c rest) - 1) 1
                            (String c rest) = true).
  { apply is_label_loop_spec. intros k Hk. split.
    - apply forallb_char_at; [exact B | lia].
    - unfold MAX_SYMBOL_LENGTH in *. lia. }
  rewrite L. reflexivity.
Qed.

Lemma is_valid_symbol_free (name : string) (l : AbstractLineDescriptor)
  (macroTable : MacroTable) :
  identifier name = true ->
  free_name name macroTable ->
  is_valid_symbol name l macroTable = Some (true, l).
Proof.
  intros Hi (F1 & F2 & F3 & F4).
  apply (proj1 (proj2 (is_valid_symbol_spec name l macroTable))).
  pose proof (get_directive_identifier name Hi). auto 10.
Qed.

(** The names [is_valid_constant_definition] refuses without an error. *)
Lemma is_valid_constant_definition_silent (name : string)
  (l : AbstractLineDescriptor) (macroTable : MacroTable) :
  forallb isalnum (list_ascii_of_string name) = true ->
  isalpha (head_char name) = false
  \/ (MAX_SYMBOL_LENGTH < String.length name)%nat ->
  is_valid_constant_definition name l macroTable = Some (false, l).
Proof.
  intros B H. unfold is_valid_constant_definition.
  destruct name as [ | c rest]; [reflexivity | ].
  change (is_end (String c rest)) with false. cbv iota.
  change (char_at (String c rest) 0) with c.
  destruct (isalpha c) eqn:A; cbn [negb]; [ | reflexivity].
  destruct H as [H | H]; [cbn in H; congruence | ].
  destruct (is_label_loop (String.length (String c rest) - 1) 1
                          (String c rest)) eqn:L; [ | reflexivity].
  exfalso.
  destruct (proj1 (is_label_loop_spec _ _ _) L MAX_SYMBOL_LENGTH) as (_ & K).
  - unfold MAX_SYMBOL_LENGTH in *. lia.
  - now apply K.
Qed.

(** The pointer and the word after the word [.define]. *)
Lemma define_name_read (sp1 name rest : string) :
  blanks sp1 -> sp1 <> EmptyString ->
  name <> EmptyString ->
  forallb isalnum (list_ascii_of_string name) = true ->
  isalnum (head_char rest) = false ->
  let line := MOVE_TO_NON_WHITE
                (MOVE_TO_NEXT_WORD (".define" ++ sp1 ++ name ++ rest)) in
  line = (name ++ rest)%string
  /\ extract_first_alphanumeric_word line = (true, name)
  /\ MOVE_TO_NEXT_NON_ALNUM line = rest.
Proof.
  intros Hs Hn Hm Ha Hr. cbv zeta.
  assert (Hh : isalnum (head_char (name ++ rest)) = true).
  { destruct name as [ | c name]; [contradiction | ].
    cbn in *. apply andb_true_iff in Ha. now destruct Ha. }
  destruct (proj1 (character_classes _) Hh) as (N1 & N2 & _).
  assert (E : MOVE_TO_NON_WHITE
                (MOVE_TO_NEXT_WORD (".define" ++ sp1 ++ name ++ rest))
              = (name ++ rest)%string).
  { unfold MOVE_TO_NEXT_WORD.
    rewrite (skip_while_stop isspace (".define" ++ sp1 ++ name ++ rest)
               eq_refl).
    rewrite (skip_while_app (fun c => negb (isspace c)) ".define" _ eq_refl).
    rewrite (skip_while_stop (fun c => negb (isspace c))
               (sp1 ++ name ++ rest)).
    - unfold MOVE_TO_NON_WHITE.
      apply skip_blanks; [exact Hs | auto | exact N1].
    - destruct sp1 as [ | c sp1]; [contradiction | ].
      cbn in *. apply andb_true_iff in Hs. destruct Hs as (A & _).
      destruct (proj1 (proj2 (character_classes c)) A) as (_ & S).
      now rewrite S. }
  rewrite E. split; [reflexivity | split].
  - unfold extract_first_alphanumeric_word.
    rewrite (skip_while_stop isspace _ N2).
    rewrite (take_while_app isalnum name rest Ha (or_intror Hr)).
    destruct name; [contradiction | reflexivity].
  - unfold MOVE_TO_NEXT_NON_ALNUM.
    rewrite (skip_while_app isalnum name rest Ha).
    now apply skip_while_stop.
Qed.

(** One word between blanks at the end of a line: the word extracted and
    the pointer after the moves past it. *)
Lemma word_read (sp1 w sp2 t : string) :
  blanks sp1 -> plain_word w -> blanks sp2 -> line_end t ->
  let line := (sp1 ++ w ++ sp2 ++ t)%string in
  extract_first_word line = (true, w)
  /\ MOVE_TO_NON_WHITE (MOVE_TO_NEXT_WORD line) = t
  /\ MOVE_TO_NON_WHITE line = (w ++ sp2 ++ t)%string.
Proof.
  intros H1 (Hn & Hw) H2 Ht. cbv zeta.
  assert (Hh : isspace (head_char (w ++ sp2 ++ t)) = false).
  { destruct w as [ | c w']; [contradiction | ].
    cbn in *. apply andb_true_iff in Hw. destruct Hw as (A & _).
    now destruct (isspace c). }
  assert (S1 : skip_while isspace (sp1 ++ w ++ sp2 ++ t)
               = (w ++ sp2 ++ t)%string).
  { apply skip_blanks; [exact H1 | | exact Hh].
    intros c B. now apply character_classes. }
  assert (He : (sp2 ++ t)%string = EmptyString
               \/ negb (isspace (head_char (sp2 ++ t))) = false).
  { destruct (line_end_space sp2 t H2 Ht) as [E | E];
      [now left | right; now rewrite E]. }
  split; [ | split].
  - unfold extract_first_word. rewrite S1.
    rewrite (take_while_app (fun c => negb (isspace c)) w (sp2 ++ t) Hw He).
    destruct w; [contradiction | reflexivity].
  - unfold MOVE_TO_NEXT_WORD. rewrite S1.
    rewrite (skip_while_app (fun c => negb (isspace c)) w (sp2 ++ t) Hw).
    rewrite (skip_while_line_end (fun c => negb (isspace c)) (sp2 ++ t) He).
    unfold MOVE_TO_NON_WHITE.
    rewrite (skip_while_app is_blank sp2 t H2).
    destruct Ht as [-> | ->]; reflexivity.
  - unfold MOVE_TO_NON_WHITE. apply skip_blanks; [exact H1 | auto | ].
    destruct (is_blank (head_char (w ++ sp2 ++ t))) eqn:B; [ | reflexivity].
    apply character_classes in B. destruct B as (_ & B). congruence.
Qed.

(** A sign and digits make a word. *)
Lemma number_word (minus : bool) (ds : string) :
  ds <> EmptyString ->
  forallb isdigit (list_ascii_of_string ds) = true ->
  plain_word ((if minus then "-" else "") ++ ds).
Proof.
  intros Hn Hd.
  assert (Hds : forallb (fun c => negb (isspace c))
                  (list_ascii_of_string ds) = true).
  { revert Hd. apply forallb_impl. intros c D.
    destruct (proj1 (proj2 (proj2 (character_classes c))) D) as (A & _).
    destruct (proj1 (character_classes c) A) as (_ & S & _).
    now rewrite S. }
  split; destruct minus; try discriminate; try exact Hn; exact Hds.
Qed.

(** The value of a constant definition, read after the equals sign. *)
Lemma define_value_read (sp3 : string) (minus : bool) (ds sp4 t : string) :
  blanks sp3 -> ds <> EmptyString ->
  forallb isdigit (list_ascii_of_string ds) = true ->
  blanks sp4 -> line_end t ->
  let value := ((if minus then "-" else "") ++ ds)%string in
  let line := (sp3 ++ value ++ sp4 ++ t)%string in
  extract_first_word line = (true, value)
  /\ MOVE_TO_NON_WHITE (MOVE_TO_NEXT_WORD line) = t.
Proof.
  intros H3 Hn Hd H4 Ht. cbv zeta.
  destruct (word_read sp3 _ sp4 t H3 (number_word minus ds Hn Hd) H4 Ht)
    as (W1 & W2 & _).
  split; assumption.
Qed.

(** X24.  A constant definition that is well formed: the word [.define],
    blanks, a name (a letter followed by letters and digits, at most 31
    characters), an equals sign, and an optional minus sign followed by up
    to nine digits that do not begin with a zero, with or without blanks
    around the sign [=] and before the end of the line.  When the name is
    neither register-like nor reserved and [is_macro] returns FALSE for it,
    the definition is accepted: the descriptor becomes a constant definition
    with this name and this value, the constant is appended to the list of
    the translation unit, and the name is then found with this value unless
    it was defined before.  When [is_macro] has no result for the name,
    because it leaves the block of the macro table, the handling of the line
    has none. *)
Theorem define_accepted (sp1 name sp2 sp3 : string) (minus : bool)
  (ds sp4 t : string) (l : AbstractLineDescriptor) (tu : TranslationUnit)
  (macroTable : MacroTable) :
  blanks sp1 -> sp1 <> EmptyString ->
  identifier name = true ->
  (String.length name <= MAX_SYMBOL_LENGTH)%nat ->
  blanks sp2 -> blanks sp3 ->
  short_digits ds -> is_char (head_char ds) "0" = false ->
  blanks sp4 -> line_end t ->
  let v := if minus then - decimal_value ds else decimal_value ds in
  let l' := constant_descriptor l name v in
  (free_name name macroTable ->
   constant_definition_handling
     (define_text sp1 name sp2 sp3 minus ds sp4 t) l tu macroTable
   = Some (l', insert_constant_to_list l' tu))
  /\ (is_macro macroTable name = None ->
      constant_definition_handling
        (define_text sp1 name sp2 sp3 minus ds sp4 t) l tu macroTable
      = None)
  /\ (extract_constant name tu = None ->
      extract_constant name (insert_constant_to_list l' tu) = Some v).
Proof.
  intros H1 N1 Hi Hl H2 H3 Hs Hz H4 Ht. cbv zeta.
  pose proof Hs as (Hn & Hd & _).
  destruct (identifier_chars name Hi) as (_ & _ & Ha).
  set (value := ((if minus then "-" else "") ++ ds)%string).
  set (rest := (sp2 ++ "=" ++ sp3 ++ value ++ sp4 ++ t)%string).
  assert (Hr : isalnum (head_char rest) = false).
  { unfold rest. apply head_char_blanks; [exact H2 | | reflexivity].
    intros c B. now apply character_classes. }
  destruct (define_name_read sp1 name rest H1 N1
              (identifier_nonempty name Hi) Ha Hr) as (E1 & E2 & E3).
  cbv zeta in E2, E3.
  change (define_text sp1 name sp2 sp3 minus ds sp4 t)
    with (".define" ++ sp1 ++ name ++ rest)%string.
  split; [ | split].
  - intros Hf.
    destruct (define_value_read sp3 minus ds sp4 t H3 Hn Hd H4 Ht)
      as (V1 & V2).
    cbv zeta in V1, V2. fold value in V1, V2.
    unfold constant_definition_handling.
    rewrite E2. cbv beta iota. cbn [negb].
    rewrite (is_valid_constant_definition_name name l macroTable Hi Hl).
    rewrite (is_valid_symbol_free name l macroTable Hi Hf).
    cbv beta iota. cbn [negb].
    rewrite E3.
    assert (M : MOVE_TO_NON_WHITE rest
                = String "=" (sp3 ++ value ++ sp4 ++ t)).
    { unfold rest, MOVE_TO_NON_WHITE.
      rewrite (skip_while_app is_blank sp2 _ H2). reflexivity. }
    rewrite M.
    change (head_char (String "=" (sp3 ++ value ++ sp4 ++ t)))
      with "="%char.
    change (is_char "=" "=") with true. cbn [negb]. cbv iota.
    change (tail_str (String "=" (sp3 ++ value ++ sp4 ++ t)))
      with (sp3 ++ value ++ sp4 ++ t)%string.
    rewrite V1. cbv beta iota. cbn [negb].
    unfold value at 1.
    rewrite (is_decimal_integer_digits minus ds Hn Hd Hz). cbn [negb].
    cbv iota. rewrite V2.
    assert (T : negb (is_end t)
                && negb (Ascii.eqb (head_char t) (ascii_of_nat 10)) = false).
    { destruct Ht as [-> | ->]; reflexivity. }
    rewrite T. unfold value. rewrite (strtol_short minus ds Hs).
    reflexivity.
  - intros Hm. unfold constant_definition_handling.
    rewrite E2. cbv beta iota. cbn [negb].
    rewrite (is_valid_constant_definition_name name l macroTable Hi Hl).
    now rewrite (proj2 (proj1 (is_valid_symbol_spec name l macroTable)) Hm).
  - intros Hx. unfold extract_constant, insert_constant_to_list in *.
    cbn. rewrite extract_constant_from_app, Hx. cbn.
    now rewrite String.eqb_refl.
Qed.

(** [.define len = -4] with the macro table as [initialize_macro_table]
    leaves it, and with a table that counts two macros while [macroNode]
    designates the single cell of the first. *)
Lemma define_accepted_witness :
  free_name "len" initialize_macro_table
  /\ constant_definition_handling (".define len = -4" ++ newline) blank_line
       fresh_unit initialize_macro_table
     = Some (constant_descriptor blank_line "len" (-4),
             insert_constant_to_list
               (constant_descriptor blank_line "len" (-4)) fresh_unit)
  /\ is_macro two_macros_counted "len" = None
  /\ constant_definition_handling (".define len = -4" ++ newline) blank_line
       fresh_unit two_macros_counted
     = None.
Proof.
  assert (H1 : blanks " ") by reflexivity.
  assert (N1 : " "%string <> EmptyString) by discriminate.
  assert (Hi : identifier "len" = true) by reflexivity.
  assert (Hl : (String.length "len" <= MAX_SYMBOL_LENGTH)%nat)
    by (vm_compute; lia).
  assert (Hf : free_name "len" initialize_macro_table).
  { repeat split.
    - intros (d & rest & E & _). discriminate E.
    - vm_compute. intuition discriminate.
    - vm_compute. intuition discriminate. }
  assert (Hm : is_macro two_macros_counted "len" = None) by reflexivity.
  assert (Hs : short_digits "4").
  { repeat split; [discriminate | cbn; lia]. }
  assert (Hz : is_char (head_char "4") "0" = false) by reflexivity.
  assert (H0 : blanks "") by reflexivity.
  assert (Ht : line_end newline) by (right; reflexivity).
  exact (conj Hf
           (conj
              (proj1 (define_accepted " " "len" " " " " true "4" "" newline
                        blank_line fresh_unit initialize_macro_table
                        H1 N1 Hi Hl H1 H1 Hs Hz H0 Ht) Hf)
              (conj Hm
                 (proj1 (proj2
                    (define_accepted " " "len" " " " " true "4" "" newline
                       blank_line fresh_unit two_macros_counted
                       H1 N1 Hi Hl H1 H1 Hs Hz H0 Ht)) Hm)))).
Defined.

(** X25.  A constant definition whose name begins with a digit, or has more
    than 31 characters, is dropped without a word: no error is stored in the
    descriptor, which is left as it was, and the translation unit is
    unchanged.  [is_valid_constant_definition] returns FALSE on such a name
    before any error has been written, and before the macro table is
    read. *)
Theorem define_refused_silently (sp1 name rest : string)
  (l : AbstractLineDescriptor) (tu : TranslationUnit)
  (macroTable : MacroTable) :
  blanks sp1 -> sp1 <> EmptyString ->
  name <> EmptyString ->
  forallb isalnum (list_ascii_of_string name) = true ->
  isalnum (head_char rest) = false ->
  isalpha (head_char name) = false
  \/ (MAX_SYMBOL_LENGTH < String.length name)%nat ->
  constant_definition_handling (".define" ++ sp1 ++ name ++ rest) l tu
                               macroTable
  = Some (l, tu).
Proof.
  intros H1 N1 Hn Ha Hr Hb.
  destruct (define_name_read sp1 name rest H1 N1 Hn Ha Hr) as (_ & E2 & _).
  cbv zeta in E2.
  unfold constant_definition_handling.
  rewrite E2. cbv beta iota. cbn [negb].
  rewrite (is_valid_constant_definition_silent name l macroTable Ha Hb).
  reflexivity.
Qed.

Lemma define_refused_silently_witness :
  constant_definition_handling ".define 2nd = 5" blank_line
    fresh_unit initialize_macro_table
  = Some (blank_line, fresh_unit).
Proof.
  assert (H1 : blanks " ") by reflexivity.
  assert (N1 : " "%string <> EmptyString) by discriminate.
  assert (Hn : "2nd"%string <> EmptyString) by discriminate.
  assert (Ha : forallb isalnum (list_ascii_of_string "2nd") = true)
    by reflexivity.
  assert (Hr : isalnum (head_char " = 5") = false) by reflexivity.
  assert (Hb : isalpha (head_char "2nd") = false
               \/ (MAX_SYMBOL_LENGTH < String.length "2nd")%nat)
    by (left; reflexivity).
  exact (define_refused_silently " " "2nd" " = 5" blank_line
           fresh_unit initialize_macro_table H1 N1 Hn Ha Hr Hb).
Defined.

(* ------------------------------------------------------------------------- *)
(** ** The names of [.entry] and [.extern] lines *)

Lemma forallb_of_char_at (p : ascii -> bool) (s : string) :
  (forall k : nat, (k < String.length s)%nat -> p (char_at s k) = true) ->
  forallb p (list_ascii_of_string s) = true.
Proof.
  induction s as [ | c s IH]; intros H; [reflexivity | ].
  cbn. apply andb_true_iff. split.
  - apply (H 0%nat). cbn. lia.
  - apply IH. intros k Hk. rewrite <- (char_at_cons c s k).
    apply H. cbn. lia.
Qed.

(** The two tests [is_valid_entry_line] and [is_valid_constant_definition]
    make on the characters of a name. *)
Lemma name_tests_identifier (w : string) :
  w <> EmptyString ->
  (isalpha (char_at w 0) && is_label_loop (String.length w - 1) 1 w = true
   <-> identifier w = true /\ (String.length w <= MAX_SYMBOL_LENGTH)%nat).
Proof.
  intros Hn. destruct w as [ | c rest]; [contradiction | ].
  change (char_at (String c rest) 0) with c. cbn [identifier].
  rewrite !andb_true_iff, is_label_loop_spec.
  cbn [String.length]. replace (S (String.length rest) - 1)%nat
    with (String.length rest) by lia.
  split.
  - intros (A & H). split; [split; [exact A | ] | ].
    + apply forallb_of_char_at. intros k Hk.
      rewrite <- (char_at_cons c rest k). apply H. lia.
    + destruct (le_lt_dec (S (String.length rest)) MAX_SYMBOL_LENGTH)
        as [L | L]; [exact L | exfalso].
      destruct (H MAX_SYMBOL_LENGTH) as (_ & K);
        [unfold MAX_SYMBOL_LENGTH in *; lia | now apply K].
  - intros ((A & B) & L). split; [exact A | ].
    intros k Hk. split.
    + destruct k as [ | k]; [lia | ]. rewrite char_at_cons.
      apply forallb_char_at; [exact B | lia].
    + lia.
Qed.

(** X26.  A line made of one word between blanks, after [.entry] or
    [.extern].  [.extern] accepts the word whatever its characters and its
    length: the name is not checked at all.  [.entry] accepts it exactly
    when it is a letter followed by letters and digits, of at most 31
    characters, reserved words and register names included; any other word
    gives the error of an invalid directive.  In both cases the label of the
    line is kept, unless the descriptor already held an error. *)
Theorem entry_extern_names (sp1 w sp2 t : string)
  (l : AbstractLineDescriptor) :
  blanks sp1 -> plain_word w -> blanks sp2 -> line_end t ->
  let line := (sp1 ++ w ++ sp2 ++ t)%string in
  extern_directive_handling line l
  = name_descriptor (remove_label_on_error l) EXTERN_INST w
  /\ (identifier w = true /\ (String.length w <= MAX_SYMBOL_LENGTH)%nat ->
      entry_directive_handling line l
      = name_descriptor (remove_label_on_error l) ENTRY_INST w)
  /\ (~ (identifier w = true /\ (String.length w <= MAX_SYMBOL_LENGTH)%nat) ->
      entry_directive_handling line l
      = insert_error l (DIRECTIVE_INST_ERR ++ INVALID_DIR_ERR))
  /\ (lineError l = None -> remove_label_on_error l = l).
Proof.
  intros H1 Hw H2 Ht. cbv zeta.
  destruct (word_read sp1 w sp2 t H1 Hw H2 Ht) as (W1 & W2 & W3).
  destruct (word_read EmptyString w sp2 t eq_refl Hw H2 Ht) as (V1 & V2 & _).
  cbv zeta in *. cbn [append] in V1, V2.
  assert (T : negb (is_end t)
              && negb (Ascii.eqb (head_char t) (ascii_of_nat 10)) = false).
  { destruct Ht as [-> | ->]; reflexivity. }
  assert (Hn : w <> EmptyString) by apply Hw.
  split; [ | split; [ | split]].
  - unfold extern_directive_handling, is_valid_extern_line.
    change (MOVE_INDEX_TO_NON_WHITE (sp1 ++ w ++ sp2 ++ t))
      with (MOVE_TO_NON_WHITE (sp1 ++ w ++ sp2 ++ t)).
    rewrite W3.
    change (MOVE_INDEX_TO_NON_WHITE (MOVE_INDEX_AFTER_WORD (w ++ sp2 ++ t)))
      with (MOVE_TO_NON_WHITE (MOVE_TO_NEXT_WORD (w ++ sp2 ++ t))).
    rewrite V2, T. cbv beta iota. cbn [negb]. rewrite W1. reflexivity.
  - intros Hi. apply (name_tests_identifier w Hn) in Hi.
    apply andb_true_iff in Hi. destruct Hi as (A & L).
    unfold entry_directive_handling, is_valid_entry_line.
    rewrite W3, V1. cbv beta iota. cbn [negb].
    destruct w as [ | c w']; [contradiction | ].
    change (is_end (String c w')) with false. cbv iota.
    rewrite A, L. cbn [negb].
    change (MOVE_INDEX_TO_NON_WHITE
              (MOVE_INDEX_AFTER_WORD (String c w' ++ sp2 ++ t)))
      with (MOVE_TO_NON_WHITE (MOVE_TO_NEXT_WORD (String c w' ++ sp2 ++ t))).
    rewrite V2, T. cbv beta iota. cbn [negb]. rewrite W1. reflexivity.
  - intros Hi.
    assert (F : isalpha (char_at w 0)
                && is_label_loop (String.length w - 1) 1 w = false).
    { destruct (isalpha (char_at w 0)
                && is_label_loop (String.length w - 1) 1 w) eqn:E;
        [ | reflexivity].
      apply (name_tests_identifier w Hn) in E. contradiction. }
    unfold entry_directive_handling, is_valid_entry_line.
    rewrite W3, V1. cbv beta iota. cbn [negb].
    destruct w as [ | c w']; [contradiction | ].
    change (is_end (String c w')) with false. cbv iota.
    destruct (isalpha (char_at (String c w') 0)); cbn [negb andb] in *;
      [ | reflexivity].
    rewrite F. reflexivity.
  - intros E. unfold remove_label_on_error. now rewrite E.
Qed.

Lemma entry_extern_names_witness :
  plain_word "mov"
  /\ extern_directive_handling " 9lives" blank_line
     = name_descriptor blank_line EXTERN_INST "9lives"
  /\ entry_directive_handling (" mov" ++ newline) blank_line
     = name_descriptor blank_line ENTRY_INST "mov".
Proof.
  assert (H1 : blanks " ") by reflexivity.
  assert (H0 : blanks "") by reflexivity.
  assert (Hw : plain_word "mov") by (split; [discriminate | reflexivity]).
  assert (Hx : plain_word "9lives") by (split; [discriminate | reflexivity]).
  assert (Hn : line_end newline) by (right; reflexivity).
  assert (He : line_end "") by (left; reflexivity).
  assert (Hi : identifier "mov" = true
               /\ (String.length "mov" <= MAX_SYMBOL_LENGTH)%nat)
    by (split; [reflexivity | vm_compute; lia]).
  exact (conj Hw
          (conj (proj1 (entry_extern_names " " "9lives" "" "" blank_line
                          H1 Hx H0 He))
                (proj1 (proj2 (entry_extern_names " " "mov" "" newline
                                 blank_line H1 Hw H0 Hn)) Hi))).
Defined.

(* ------------------------------------------------------------------------- *)
(** ** The operands of an instruction *)

Lemma operand_characters (c : ascii) :
  (isalnum c = true ->
   token_char c = true /\ is_char c "[" = false /\ is_char c "]" = false
   /\ is_char c "#" = false /\ Ascii.eqb c "[" = false
   /\ Ascii.eqb c "]" = false)
  /\ (isalpha c = true ->
      isdigit c = false /\ is_char c "-" = false /\ is_char c "+" = false)
  /\ (isdigit c = true -> isalnum c = true)
  /\ (token_char c = false -> isalnum c = false)
  /\ (isspace c = true -> token_char c = false \/ is_blank c = false)
  /\ (is_blank c = true -> token_char c = false).
Proof.
  destruct c as [[] [] [] [] [] [] [] []];
    repeat split; intros; try reflexivity; try discriminate;
    try (left; reflexivity); right; reflexivity.
Qed.

Lemma identifier_head (name rest : string) :
  identifier name = true ->
  isalpha (head_char (name ++ rest)) = true
  /\ tail_str (name ++ rest) = (tail_str name ++ rest)%string
  /\ forallb isalnum (list_ascii_of_string (tail_str name)) = true.
Proof.
  intros H. destruct (identifier_chars name H) as (A & B & _).
  destruct name as [ | c name]; [discriminate H | ]. cbn in *. auto.
Qed.

Lemma extract_number_plain (minus : bool) (ds junk : string) :
  plain_number ds -> isdigit (head_char junk) = false ->
  extract_number ((if minus then "-" else "") ++ ds ++ junk)
  = Some (if minus then - decimal_value ds else decimal_value ds).
Proof.
  intros (Hs & Hz) Hj.
  destruct (extract_number_digits ds junk Hs Hj) as (E1 & _ & E3).
  destruct minus; [exact E1 | ].
  cbn [append]. rewrite E3, Hz. reflexivity.
Qed.

Lemma extract_number_letter (s : string) :
  isalpha (head_char s) = true -> extract_number s = None.
Proof.
  intros A.
  destruct (proj1 (proj2 (operand_characters (head_char s))) A)
    as (D & M & P).
  unfold extract_number. now rewrite D, M, P.
Qed.

Lemma extract_label_identifier (name : string) :
  identifier name = true -> extract_label name = Some name.
Proof.
  intros H. destruct (identifier_chars name H) as (A & B & _).
  unfold extract_label. rewrite A, (skip_while_all isalnum _ B).
  reflexivity.
Qed.

Lemma check_symbol_syntax_name (name : string) :
  symbol_name name -> check_symbol_syntax name = true.
Proof.
  intros (H & L). destruct (identifier_chars name H) as (A & B & _).
  unfold check_symbol_syntax.
  destruct (Nat.ltb_spec MAX_SYMBOL_LENGTH (String.length name)); [lia | ].
  rewrite A, (skip_while_all isalnum _ B). reflexivity.
Qed.

Lemma strchr_prefix_app (a b : string) (c : ascii) :
  forallb (fun x => negb (Ascii.eqb x c)) (list_ascii_of_string a) = true ->
  strchr_prefix (a ++ b) c
  = match strchr_prefix b c with
    | Some p => Some (a ++ p)%string
    | None => None
    end.
Proof.
  induction a as [ | x a IH]; intros H.
  - cbn. now destruct (strchr_prefix b c).
  - cbn in *. apply andb_true_iff in H. destruct H as (N & H).
    destruct (Ascii.eqb x c); [discriminate N | ].
    rewrite (IH H). now destruct (strchr_prefix b c).
Qed.

Lemma alnum_no_bracket (s : string) (c : ascii) :
  forallb isalnum (list_ascii_of_string s) = true ->
  c = "["%char \/ c = "]"%char ->
  forallb (fun x => negb (Ascii.eqb x c)) (list_ascii_of_string s) = true.
Proof.
  intros H Hc. revert H. apply forallb_impl. intros x Hx.
  destruct (proj1 (operand_characters x) Hx) as (_ & _ & _ & _ & B1 & B2).
  destruct Hc as [-> | ->]; [now rewrite B1 | now rewrite B2].
Qed.

(** The name before the bracket of a fixed-index operand. *)
Lemma label_extraction_base (base rest : string) :
  symbol_name base ->
  fixed_index_addressing_label_Extraction (base ++ "[" ++ rest)
  = (true, Some base).
Proof.
  intros Hb. pose proof Hb as (Hi & _).
  destruct (identifier_chars base Hi) as (_ & _ & B).
  destruct (identifier_head base ("[" ++ rest) Hi) as (A & _ & _).
  unfold fixed_index_addressing_label_Extraction.
  rewrite A. cbn [negb].
  rewrite (strchr_prefix_app base ("[" ++ rest) "["
             (alnum_no_bracket base "[" B (or_introl eq_refl))).
  cbn [append strchr_prefix]. change (Ascii.eqb "[" "[") with true.
  cbv iota. rewrite append_empty.
  now rewrite (check_symbol_syntax_name base Hb).
Qed.

(** The name of the constant between the brackets. *)
Lemma label_extraction_index (name : string) :
  symbol_name name ->
  fixed_index_addressing_label_Extraction (name ++ "]") = (true, Some name).
Proof.
  intros Hb. pose proof Hb as (Hi & _).
  destruct (identifier_chars name Hi) as (_ & _ & B).
  destruct (identifier_head name "]" Hi) as (A & _ & _).
  unfold fixed_index_addressing_label_Extraction.
  rewrite A. cbn [negb].
  rewrite (strchr_prefix_app name "]" "["
             (alnum_no_bracket name "[" B (or_introl eq_refl))).
  rewrite (strchr_prefix_app name "]" "]"
             (alnum_no_bracket name "]" B (or_intror eq_refl))).
  cbn [strchr_prefix]. change (Ascii.eqb "]" "[") with false.
  change (Ascii.eqb "]" "]") with true. cbv iota.
  rewrite append_empty.
  now rewrite (check_symbol_syntax_name name Hb).
Qed.

Lemma move_after_bracket (base rest : string) :
  forallb isalnum (list_ascii_of_string base) = true ->
  MOVE_POINTER_AFTER_BRACKET (base ++ "[" ++ rest) = rest.
Proof.
  intros B. unfold MOVE_POINTER_AFTER_BRACKET.
  rewrite (skip_while_app (fun c => negb (is_char c "[")) base).
  - reflexivity.
  - revert B. apply forallb_impl. intros x Hx.
    destruct (proj1 (operand_characters x) Hx) as (_ & N & _).
    now rewrite N.
Qed.

(** A name followed by a bracket is not a direct operand; it is a
    fixed-index operand when letters and digits follow, with the closing
    bracket or without it. *)
Lemma bracket_operand_kind (base idx close : string) :
  identifier base = true ->
  forallb isalnum (list_ascii_of_string idx) = true ->
  close = "]"%string \/ close = EmptyString ->
  is_char (head_char (base ++ "[" ++ idx ++ close)) "#" = false
  /\ is_direct_addressing (base ++ "[" ++ idx ++ close) = false
  /\ is_fixed_index_addressing (base ++ "[" ++ idx ++ close) = true.
Proof.
  intros Hb Hi Hc.
  destruct (identifier_head base ("[" ++ idx ++ close) Hb) as (A & T & B).
  destruct (proj1 (operand_characters _) (isalpha_isalnum _ A))
    as (_ & _ & _ & N & _).
  split; [exact N | split].
  - unfold is_direct_addressing.
    rewrite A, T, (skip_while_app isalnum _ _ B). reflexivity.
  - unfold is_fixed_index_addressing.
    rewrite A, T, (skip_while_app isalnum _ _ B).
    change ("[" ++ idx ++ close)%string with (String "[" (idx ++ close)).
    rewrite (skip_while_stop isalnum (String "[" (idx ++ close)) eq_refl).
    change (head_char (String "[" (idx ++ close))) with "["%char.
    change (tail_str (String "[" (idx ++ close))) with (idx ++ close)%string.
    rewrite (skip_while_app isalnum idx close Hi).
    destruct Hc as [-> | ->]; reflexivity.
Qed.

Lemma register_operand_kind (r : Register) :
  r <> NONE_REG ->
  is_char (head_char (register_text r)) "#" = false
  /\ is_direct_addressing (register_text r) = false
  /\ is_fixed_index_addressing (register_text r) = false
  /\ is_direct_register_addressing (register_text r) = true
  /\ get_register (register_text r) = r.
Proof.
  intros H. destruct r; try contradiction; repeat split; reflexivity.
Qed.

Lemma plain_number_alnum (ds : string) :
  plain_number ds ->
  forallb isalnum (list_ascii_of_string ds) = true
  /\ isdigit (head_char ds) = true.
Proof.
  intros ((Hn & Hd & _) & _). split.
  - revert Hd. apply forallb_impl. intros c. apply operand_characters.
  - destruct ds as [ | c ds]; [contradiction | ].
    cbn in Hd. apply andb_true_iff in Hd. now destruct Hd.
Qed.

(** A well-formed operand is stored as it is written. *)
Lemma handle_operand_stores
  (overlaid : OperandMember -> Operand -> Operand) (o : OperandSyntax)
  (t : OperandType) (l : AbstractLineDescriptor) :
  well_formed_operand o ->
  handle_operand overlaid (operand_text o) t l = Some (true, store_operand overlaid t o l).
Proof.
  intros Hw. unfold handle_operand.
  destruct o as [minus ds junk | name | name | base ds | base name | r];
    cbn [well_formed_operand operand_text] in *.
  - destruct Hw as (Hp & Hj & _).
    change (head_char ("#" ++ (if minus then "-" else "") ++ ds ++ junk))
      with "#"%char.
    change (is_char "#" "#") with true. cbv iota.
    unfold handle_immediate_addressing.
    change (tail_str ("#" ++ (if minus then "-" else "") ++ ds ++ junk))
      with ((if minus then "-" else "") ++ ds ++ junk)%string.
    rewrite (extract_number_plain minus ds junk Hp Hj).
    destruct t; reflexivity.
  - change (head_char ("#" ++ name)) with "#"%char.
    change (is_char "#" "#") with true. cbv iota.
    unfold handle_immediate_addressing.
    change (tail_str ("#" ++ name)) with name.
    destruct (identifier_chars name Hw) as (A & _).
    rewrite (extract_number_letter name A).
    rewrite (extract_label_identifier name Hw).
    destruct t; reflexivity.
  - destruct Hw as (Hi & Hr).
    destruct (identifier_chars name Hi) as (A & B & _).
    destruct (proj1 (operand_characters _) (isalpha_isalnum _ A))
      as (_ & _ & _ & N & _).
    rewrite N.
    assert (D : is_direct_addressing name = true).
    { unfold is_direct_addressing.
      rewrite A, (skip_while_all isalnum _ B), (safe_word_identifier name Hi).
      cbn [negb skip_while is_end].
      unfold is_reserved_word_extended.
      destruct (is_end name); [reflexivity | ].
      destruct (in_table name ReservedWordsExtended) eqn:E; [ | reflexivity].
      apply in_table_In in E. contradiction. }
    rewrite D. unfold handle_direct_addressing.
    rewrite (extract_label_identifier name Hi).
    destruct t; reflexivity.
  - destruct Hw as (Hb & Hp). pose proof Hb as (Hi & _).
    destruct (plain_number_alnum ds Hp) as (Ha & Hd).
    destruct (identifier_chars base Hi) as (_ & _ & B).
    destruct (bracket_operand_kind base ds "]" Hi Ha (or_introl eq_refl))
      as (K1 & K2 & K3).
    rewrite K1, K2, K3.
    unfold handle_fixed_index_addressing.
    rewrite (label_extraction_base base (ds ++ "]") Hb).
    rewrite (move_after_bracket base (ds ++ "]") B).
    pose proof (extract_number_plain false ds "]" Hp eq_refl) as E.
    change (extract_number (ds ++ "]") = Some (decimal_value ds)) in E.
    rewrite E.
    destruct (fixed_index_addressing_label_Extraction (ds ++ "]"))
      as [isConstant constantSymbol].
    destruct t; reflexivity.
  - destruct Hw as (Hb & Hn). pose proof Hb as (Hi & _).
    pose proof Hn as (Hj & _).
    destruct (identifier_chars base Hi) as (_ & _ & B).
    destruct (identifier_chars name Hj) as (_ & _ & Ha).
    destruct (bracket_operand_kind base name "]" Hi Ha (or_introl eq_refl))
      as (K1 & K2 & K3).
    rewrite K1, K2, K3.
    unfold handle_fixed_index_addressing.
    rewrite (label_extraction_base base (name ++ "]") Hb).
    rewrite (move_after_bracket base (name ++ "]") B).
    destruct (identifier_head name "]" Hj) as (A & _ & _).
    rewrite (extract_number_letter (name ++ "]") A).
    rewrite (label_extraction_index name Hn).
    destruct t; reflexivity.
  - destruct (register_operand_kind r Hw) as (K1 & K2 & K3 & K4 & K5).
    rewrite K1, K2, K3, K4.
    unfold handle_direct_register_addressing. rewrite K5.
    destruct r; [ | | | | | | | | contradiction]; destruct t; reflexivity.
Qed.

Lemma store_operand_member
  (overlaid : OperandMember -> Operand -> Operand) (o : OperandSyntax)
  (t : OperandType) (l : AbstractLineDescriptor) :
  let l' := store_operand overlaid t o l in
  addressing_of (commandInst l') t = operand_mode o
  /\ stored_member o (operand_of (commandInst l) t)
                   (operand_of (commandInst l') t).
Proof.
  destruct o, t; split; reflexivity.
Qed.

(** X27.  The operands of an instruction are read as they are written:
    [#] and a number or the name of a constant, a name, a name with a
    number or the name of a constant between brackets, a register.  The
    addressing type is written in the descriptor, and the value read is
    written in the member of the union [Operand] that goes with it.  The
    members of the union share their bytes: what the other members read
    afterwards is decided by the layout of the union, which the statement
    leaves open (it holds for every layout).  What follows the digits of an
    immediate number is ignored ([#5abc] is read as [#5]); the name of a
    constant and a direct label may have any length, and the name after [#]
    may be a reserved word.  An immediate constant leaves the integer of the
    member as it was, and an index constant the numerical index. *)
Theorem handle_operand_syntax
  (overlaid : OperandMember -> Operand -> Operand) (o : OperandSyntax)
  (t : OperandType) (l : AbstractLineDescriptor) :
  well_formed_operand o ->
  let l' := store_operand overlaid t o l in
  handle_operand overlaid (operand_text o) t l = Some (true, l')
  /\ addressing_of (commandInst l') t = operand_mode o
  /\ stored_member o (operand_of (commandInst l) t)
                   (operand_of (commandInst l') t).
Proof.
  intros W.
  exact (conj (handle_operand_stores overlaid o t l W)
              (store_operand_member overlaid o t l)).
Qed.

(* ------------------------------------------------------------------------- *)
(** ** Instruction lines *)

Lemma forallb_string_app (p : ascii -> bool) (a b : string) :
  forallb p (list_ascii_of_string (a ++ b))
  = forallb p (list_ascii_of_string a) && forallb p (list_ascii_of_string b).
Proof. now rewrite list_ascii_app, forallb_app. Qed.

Lemma alnum_token (s : string) :
  forallb isalnum (list_ascii_of_string s) = true ->
  forallb token_char (list_ascii_of_string s) = true.
Proof.
  apply forallb_impl. intros c H. now apply operand_characters.
Qed.

(** The text of an operand is one token, and does not begin with white
    space. *)
Lemma operand_text_token (o : OperandSyntax) :
  well_formed_operand o ->
  forallb token_char (list_ascii_of_string (operand_text o)) = true
  /\ operand_text o <> EmptyString
  /\ isspace (head_char (operand_text o)) = false
  /\ is_blank (head_char (operand_text o)) = false.
Proof.
  intros Hw.
  destruct o as [minus ds junk | name | name | base ds | base name | r];
    cbn [well_formed_operand operand_text] in *.
  - destruct Hw as (Hp & _ & Hj).
    destruct (plain_number_alnum ds Hp) as (Ha & _).
    repeat split; try discriminate.
    change ("#" ++ (if minus then "-" else "") ++ ds ++ junk)%string
      with (String "#" ((if minus then "-" else "") ++ ds ++ junk)).
    cbn [list_ascii_of_string forallb].
    rewrite !forallb_string_app, (alnum_token ds Ha), Hj.
    destruct minus; reflexivity.
  - destruct (identifier_chars name Hw) as (_ & _ & B).
    repeat split; try discriminate.
    change ("#" ++ name)%string with (String "#" name).
    cbn [list_ascii_of_string forallb]. now rewrite (alnum_token name B).
  - destruct Hw as (Hi & _).
    destruct (identifier_chars name Hi) as (A & _ & B).
    destruct (proj1 (character_classes _) (isalpha_isalnum _ A))
      as (N1 & N2 & _).
    repeat split; try assumption.
    + now apply alnum_token.
    + now apply identifier_nonempty.
  - destruct Hw as ((Hi & _) & Hp).
    destruct (plain_number_alnum ds Hp) as (Ha & _).
    destruct (identifier_chars base Hi) as (_ & _ & B).
    destruct (identifier_head base ("[" ++ ds ++ "]") Hi) as (A & _ & _).
    destruct (proj1 (character_classes _) (isalpha_isalnum _ A))
      as (N1 & N2 & _).
    repeat split; try assumption.
    + rewrite forallb_string_app, (alnum_token base B).
      change ("[" ++ ds ++ "]")%string with (String "[" (ds ++ "]")).
      cbn [list_ascii_of_string forallb andb].
      rewrite forallb_string_app, (alnum_token ds Ha). reflexivity.
    + pose proof (identifier_nonempty base Hi).
      destruct base; [contradiction | discriminate].
  - destruct Hw as ((Hi & _) & (Hj & _)).
    destruct (identifier_chars name Hj) as (_ & _ & Ha).
    destruct (identifier_chars base Hi) as (_ & _ & B).
    destruct (identifier_head base ("[" ++ name ++ "]") Hi) as (A & _ & _).
    destruct (proj1 (character_classes _) (isalpha_isalnum _ A))
      as (N1 & N2 & _).
    repeat split; try assumption.
    + rewrite forallb_string_app, (alnum_token base B).
      change ("[" ++ name ++ "]")%string with (String "[" (name ++ "]")).
      cbn [list_ascii_of_string forallb andb].
      rewrite forallb_string_app, (alnum_token name Ha). reflexivity.
    + pose proof (identifier_nonempty base Hi).
      destruct base; [contradiction | discriminate].
  - destruct r; try contradiction; repeat split; discriminate.
Qed.

(** A token after blanks: the token extracted and the pointer past the
    white space that follows it. *)
Lemma token_read (sp tok rest : string) :
  blanks sp ->
  forallb token_char (list_ascii_of_string tok) = true ->
  isspace (head_char (tok ++ rest)) = false ->
  token_end rest ->
  extract_token_until_comma (sp ++ tok ++ rest)
  = (tok, skip_while isspace rest).
Proof.
  intros Hs Ht Hh Hr. unfold extract_token_until_comma.
  assert (S : skip_while isspace (sp ++ tok ++ rest) = (tok ++ rest)%string).
  { apply skip_blanks; [exact Hs | | exact Hh].
    intros c B. now apply character_classes. }
  rewrite S.
  rewrite (take_while_app token_char tok rest Ht Hr).
  rewrite (skip_while_app token_char tok rest Ht).
  now rewrite (skip_while_line_end token_char rest Hr).
Qed.

(** The word at the head of an instruction line. *)
Lemma first_word_read (sp0 w rest : string) :
  blanks sp0 -> plain_word w ->
  rest = EmptyString \/ isspace (head_char rest) = true ->
  MOVE_TO_NON_WHITE (sp0 ++ w ++ rest) = (w ++ rest)%string
  /\ extract_first_word (w ++ rest) = (true, w)
  /\ MOVE_TO_NEXT_WORD (w ++ rest) = rest.
Proof.
  intros H0 (Hn & Hw) Hr.
  assert (Hh : isspace (head_char (w ++ rest)) = false).
  { destruct w as [ | c w']; [contradiction | ].
    cbn in *. apply andb_true_iff in Hw. destruct Hw as (A & _).
    now destruct (isspace c). }
  assert (He : rest = EmptyString
               \/ negb (isspace (head_char rest)) = false).
  { destruct Hr as [E | E]; [now left | right; now rewrite E]. }
  split; [ | split].
  - unfold MOVE_TO_NON_WHITE. apply skip_blanks; [exact H0 | auto | ].
    destruct (is_blank (head_char (w ++ rest))) eqn:B; [ | reflexivity].
    apply character_classes in B. destruct B as (_ & B). congruence.
  - unfold extract_first_word.
    rewrite (skip_while_stop isspace _ Hh).
    rewrite (take_while_app (fun c => negb (isspace c)) w rest Hw He).
    destruct w; [contradiction | reflexivity].
  - unfold MOVE_TO_NEXT_WORD.
    rewrite (skip_while_stop isspace _ Hh).
    rewrite (skip_while_app (fun c => negb (isspace c)) w rest Hw).
    now apply skip_while_line_end.
Qed.

Lemma opcode_name_word (name : string) (op : Opcode) :
  which_opcode name = Some op -> plain_word name.
Proof.
  intros H.
  assert (I : In name opcode_names).
  { destruct (in_dec string_dec name opcode_names) as [I | N]; [exact I | ].
    apply get_opcode_names in N. rewrite which_opcode_get_opcode in H.
    congruence. }
  unfold opcode_names in I. cbn [map snd opcodeDictionary In] in I.
  repeat (destruct I as [<- | I];
          [split; [discriminate | reflexivity] | ]).
  contradiction.
Qed.

Lemma blanks_head_space (sp rest : string) :
  blanks sp -> sp <> EmptyString ->
  isspace (head_char (sp ++ rest)) = true
  /\ token_char (head_char (sp ++ rest)) = false.
Proof.
  intros Hs Hn. destruct sp as [ | c sp]; [contradiction | ].
  cbn in *. apply andb_true_iff in Hs. destruct Hs as (A & _).
  split; [now apply character_classes | now apply operand_characters].
Qed.

(** X28.  An instruction with two operands: the name of the opcode, blanks,
    the first operand, a comma, which blanks may surround, and the second
    operand.  The descriptor becomes a command with this opcode and the two
    operands as they are written.  What follows the second operand, after
    a blank or a comma, is not read: no error is raised for it. *)
Theorem handle_two_operands_syntax
  (overlaid : OperandMember -> Operand -> Operand) (sp0 name sp1 : string)
  (o1 : OperandSyntax) (sp2 sp3 : string) (o2 : OperandSyntax)
  (rest : string) (op : Opcode) (l : AbstractLineDescriptor) :
  which_opcode name = Some op ->
  blanks sp0 -> blanks sp1 -> sp1 <> EmptyString ->
  blanks sp2 -> blanks sp3 ->
  well_formed_operand o1 -> well_formed_operand o2 ->
  token_end rest ->
  handle_two_operands_opcode overlaid
    (sp0 ++ name ++ sp1 ++ operand_text o1 ++ sp2 ++ ","
     ++ sp3 ++ operand_text o2 ++ rest) l
  = Some (command_descriptor
            (store_operand overlaid TARGET_OPERAND o2
               (store_operand overlaid SOURCE_OPERAND o1 l))
            op TWO_OPERANDS).
Proof.
  intros Hop H0 H1 N1 H2 H3 W1 W2 Hr.
  destruct (operand_text_token o1 W1) as (T1 & E1 & S1 & B1).
  destruct (operand_text_token o2 W2) as (T2 & E2 & S2 & B2).
  set (Y := (sp3 ++ operand_text o2 ++ rest)%string).
  set (X := (sp1 ++ operand_text o1 ++ sp2 ++ "," ++ Y)%string).
  destruct (blanks_head_space sp1 (operand_text o1 ++ sp2 ++ "," ++ Y) H1 N1)
    as (HX & _).
  fold X in HX.
  destruct (first_word_read sp0 name X H0 (opcode_name_word name op Hop)
              (or_intror HX)) as (F1 & F2 & F3).
  unfold handle_two_operands_opcode.
  rewrite F1, F2, Hop, F3.
  assert (Q1 : extract_token_until_comma X
               = (operand_text o1, ("," ++ Y)%string)).
  { unfold X. rewrite token_read; try assumption.
    - f_equal. apply skip_blanks; [exact H2 | | reflexivity].
      intros c B. now apply character_classes.
    - destruct (operand_text o1); [contradiction | exact S1].
    - right. apply head_char_blanks; [exact H2 | | reflexivity].
      intros c B. now apply operand_characters. }
  rewrite Q1.
  assert (Z1 : is_end (operand_text o1) = false)
    by (destruct (operand_text o1); [contradiction | reflexivity]).
  rewrite Z1, (handle_operand_stores overlaid o1 SOURCE_OPERAND l W1).
  change (head_char ("," ++ Y)) with ","%char.
  change (is_char "," ",") with true. cbn [negb]. cbv iota.
  change (tail_str ("," ++ Y)) with Y.
  assert (M : MOVE_TO_NON_WHITE Y = (operand_text o2 ++ rest)%string).
  { unfold Y, MOVE_TO_NON_WHITE. apply skip_blanks; [exact H3 | auto | ].
    destruct (operand_text o2); [contradiction | exact B2]. }
  rewrite M.
  assert (Q2 : extract_token_until_comma (operand_text o2 ++ rest)
               = (operand_text o2, skip_while isspace rest)).
  { apply (token_read EmptyString (operand_text o2) rest eq_refl T2);
      [ | exact Hr].
    destruct (operand_text o2); [contradiction | exact S2]. }
  rewrite Q2.
  rewrite (handle_operand_stores overlaid o2 TARGET_OPERAND _ W2).
  reflexivity.
Qed.

Lemma skip_space_not_blank (s : string) :
  MOVE_TO_NON_WHITE (skip_while isspace s) = skip_while isspace s.
Proof.
  unfold MOVE_TO_NON_WHITE. induction s as [ | c s IH]; [reflexivity | ].
  cbn [skip_while]. destruct (isspace c) eqn:S; [exact IH | ].
  apply skip_while_stop. cbn [head_char].
  destruct (is_blank c) eqn:B; [ | reflexivity].
  apply character_classes in B. destruct B as (_ & B). congruence.
Qed.

(** X29.  An instruction with one operand, and an instruction without
    operand.  After the operand, white space alone may follow: anything
    else is the error of redundant values, the operand being stored all
    the same.  After the name of an opcode without operand, white space may
    follow, and so may a comma with anything behind it, which is not
    read. *)
Theorem handle_one_operand_syntax
  (overlaid : OperandMember -> Operand -> Operand) (sp0 name sp1 : string)
  (o : OperandSyntax) (rest : string) (op : Opcode)
  (l : AbstractLineDescriptor) :
  which_opcode name = Some op ->
  blanks sp0 -> blanks sp1 -> sp1 <> EmptyString ->
  well_formed_operand o -> token_end rest ->
  handle_one_operands_opcode overlaid (sp0 ++ name ++ sp1 ++ operand_text o ++ rest) l
  = Some (if is_end (skip_while isspace rest)
          then command_descriptor (store_operand overlaid TARGET_OPERAND o l)
                 op ONE_OPERAND
          else insert_error (store_operand overlaid TARGET_OPERAND o l)
                 (COMMAND_INST_ERR ++ REDUNDANT_VAL_CMD_ERR))
  /\ (forall t : string, line_end t ->
        handle_no_operands_opcode (sp0 ++ name ++ sp1 ++ t) l
        = command_descriptor l op NO_OPERANDS)
  /\ (forall text : string,
        handle_no_operands_opcode (sp0 ++ name ++ sp1 ++ "," ++ text) l
        = command_descriptor l op NO_OPERANDS).
Proof.
  intros Hop H0 H1 N1 W Hr.
  pose proof (opcode_name_word name op Hop) as Hw.
  split; [ | split].
  - destruct (operand_text_token o W) as (T1 & E1 & S1 & B1).
    set (X := (sp1 ++ operand_text o ++ rest)%string).
    destruct (blanks_head_space sp1 (operand_text o ++ rest) H1 N1)
      as (HX & _).
    fold X in HX.
    destruct (first_word_read sp0 name X H0 Hw (or_intror HX))
      as (F1 & F2 & F3).
    unfold handle_one_operands_opcode.
    rewrite F1, F2, Hop, F3.
    assert (Q1 : extract_token_until_comma X
                 = (operand_text o, skip_while isspace rest)).
    { unfold X. apply token_read; try assumption.
      destruct (operand_text o); [contradiction | exact S1]. }
    rewrite Q1.
    assert (Z1 : is_end (operand_text o) = false)
      by (destruct (operand_text o); [contradiction | reflexivity]).
    rewrite Z1, (handle_operand_stores overlaid o TARGET_OPERAND l W).
    rewrite skip_space_not_blank.
    destruct (is_end (skip_while isspace rest)); reflexivity.
  - intros t Ht.
    destruct (first_word_read sp0 name (sp1 ++ t) H0 Hw)
      as (F1 & F2 & F3).
    { destruct (line_end_space sp1 t H1 Ht) as [E | E];
        [now left | now right]. }
    unfold handle_no_operands_opcode.
    rewrite F1, F2, Hop, F3.
    assert (Q : extract_token_until_comma (sp1 ++ t)
                = (EmptyString, EmptyString)).
    { unfold extract_token_until_comma.
      rewrite (skip_while_app isspace sp1 t (blanks_isspace sp1 H1)).
      destruct Ht as [-> | ->]; reflexivity. }
    rewrite Q. reflexivity.
  - intros text.
    destruct (blanks_head_space sp1 ("," ++ text) H1 N1) as (HX & _).
    destruct (first_word_read sp0 name (sp1 ++ "," ++ text) H0 Hw
                (or_intror HX)) as (F1 & F2 & F3).
    unfold handle_no_operands_opcode.
    rewrite F1, F2, Hop, F3.
    unfold extract_token_until_comma.
    rewrite (skip_while_app isspace sp1 _ (blanks_isspace sp1 H1)).
    reflexivity.
Qed.

Lemma handle_operand_syntax_witness :
  well_formed_operand (ImmediateNumber true "5" "abc")
  /\ handle_operand separate_members "#-5abc" SOURCE_OPERAND blank_line
     = Some (true,
             store_operand separate_members SOURCE_OPERAND
               (ImmediateNumber true "5" "abc") blank_line)
  /\ sourceOperandAddressingType
       (commandInst
          (store_operand separate_members SOURCE_OPERAND
             (ImmediateNumber true "5" "abc") blank_line))
     = IMMEDIATE_ADDR
  /\ immediateValue
       (sourceOperand
          (commandInst
             (store_operand separate_members SOURCE_OPERAND
                (ImmediateNumber true "5" "abc") blank_line)))
     = {| integerVal := -5; constantVal := None |}.
Proof.
  assert (W : well_formed_operand (ImmediateNumber true "5" "abc")).
  { repeat split; try discriminate; try reflexivity. cbn. lia. }
  exact (conj W
           (handle_operand_syntax separate_members
              (ImmediateNumber true "5" "abc") SOURCE_OPERAND blank_line W)).
Defined.

Lemma handle_two_operands_syntax_witness :
  well_formed_operand (IndexConstant "ARR" "len")
  /\ handle_two_operands_opcode separate_members "mov ARR[len], r2 , r3"
       blank_line
     = Some (command_descriptor
               (store_operand separate_members TARGET_OPERAND
                  (RegisterName R2)
                  (store_operand separate_members SOURCE_OPERAND
                     (IndexConstant "ARR" "len") blank_line))
               MOV_OP TWO_OPERANDS).
Proof.
  assert (Hop : which_opcode "mov" = Some MOV_OP) by reflexivity.
  assert (H0 : blanks "") by reflexivity.
  assert (H1 : blanks " ") by reflexivity.
  assert (N1 : " "%string <> EmptyString) by discriminate.
  assert (W1 : well_formed_operand (IndexConstant "ARR" "len")).
  { repeat split; try reflexivity; vm_compute; lia. }
  assert (W2 : well_formed_operand (RegisterName R2)) by discriminate.
  assert (Hr : token_end " , r3") by (right; reflexivity).
  exact (conj W1
           (handle_two_operands_syntax separate_members "" "mov" " "
              (IndexConstant "ARR" "len") "" " " (RegisterName R2)
              " , r3" MOV_OP blank_line Hop H0 H1 N1 H0 H1 W1 W2 Hr)).
Defined.

Lemma handle_one_operand_syntax_witness :
  well_formed_operand (DirectLabel "LOOP")
  /\ handle_one_operands_opcode separate_members (" jmp LOOP" ++ newline)
       blank_line
     = Some (command_descriptor
               (store_operand separate_members TARGET_OPERAND
                  (DirectLabel "LOOP") blank_line)
               JMP_OP ONE_OPERAND).
Proof.
  assert (Hop : which_opcode "jmp" = Some JMP_OP) by reflexivity.
  assert (H1 : blanks " ") by reflexivity.
  assert (N1 : " "%string <> EmptyString) by discriminate.
  assert (W : well_formed_operand (DirectLabel "LOOP")).
  { split; [reflexivity | ]. intros I.
    repeat (destruct I as [I | I]; [discriminate I | ]). exact I. }
  assert (Hr : token_end newline) by (right; reflexivity).
  exact (conj W
           (proj1 (handle_one_operand_syntax separate_members " " "jmp" " "
                     (DirectLabel "LOOP") newline JMP_OP blank_line
                     Hop H1 H1 N1 W Hr))).
Defined.

Lemma strchr_prefix_none (s : string) (c : ascii) :
  forallb (fun x => negb (Ascii.eqb x c)) (list_ascii_of_string s) = true ->
  strchr_prefix s c = None.
Proof.
  intros H. rewrite <- (append_empty s).
  now rewrite (strchr_prefix_app s EmptyString c H).
Qed.

(** X30.  A fixed-index operand whose closing bracket is missing.  With a
    number for index it is accepted, and stored as if the bracket were
    there.  With the name of a constant for index it is an error, although
    [is_fixed_index_addressing] accepts it: the name of the constant is
    looked for before a closing bracket.  An empty index between the
    brackets is an error as well.  In the two cases of error the operand is
    still a fixed-index operand in the descriptor, with the name of its
    label. *)
Theorem fixed_index_missing_bracket
  (overlaid : OperandMember -> Operand -> Operand) (base : string)
  (t : OperandType) (l : AbstractLineDescriptor) :
  symbol_name base ->
  let refused :=
    Some (true,
          insert_error
            (insert_fixed_index_label overlaid t base
               (set_operand_addressing l t FIXED_IDX_ADDR))
            (COMMAND_INST_ERR ++ FIXED_IDX_ADDR_OP_ERR)) in
  (forall ds : string, plain_number ds ->
     handle_operand overlaid (base ++ "[" ++ ds) t l
     = Some (true, store_operand overlaid t (IndexNumber base ds) l))
  /\ (forall name : string, identifier name = true ->
        handle_operand overlaid (base ++ "[" ++ name) t l = refused)
  /\ handle_operand overlaid (base ++ "[]") t l = refused.
Proof.
  intros Hb. cbv zeta. pose proof Hb as (Hi & _).
  destruct (identifier_chars base Hi) as (_ & _ & B).
  split; [ | split].
  - intros ds Hp.
    destruct (plain_number_alnum ds Hp) as (Ha & Hd).
    destruct (bracket_operand_kind base ds "" Hi Ha (or_intror eq_refl))
      as (K1 & K2 & K3).
    rewrite append_empty in K1, K2, K3.
    unfold handle_operand. rewrite K1, K2, K3.
    unfold handle_fixed_index_addressing.
    rewrite (label_extraction_base base ds Hb).
    rewrite (move_after_bracket base ds B).
    pose proof (extract_number_plain false ds "" Hp eq_refl) as E.
    change (extract_number (ds ++ "") = Some (decimal_value ds)) in E.
    rewrite append_empty in E. rewrite E.
    destruct (fixed_index_addressing_label_Extraction ds)
      as [isConstant constantSymbol].
    destruct t; reflexivity.
  - intros name Hj.
    destruct (identifier_chars name Hj) as (A & _ & Ha).
    destruct (bracket_operand_kind base name "" Hi Ha (or_intror eq_refl))
      as (K1 & K2 & K3).
    rewrite append_empty in K1, K2, K3.
    unfold handle_operand. rewrite K1, K2, K3.
    unfold handle_fixed_index_addressing.
    rewrite (label_extraction_base base name Hb).
    rewrite (move_after_bracket base name B).
    rewrite (extract_number_letter name A).
    unfold fixed_index_addressing_label_Extraction at 1.
    rewrite A. cbn [negb].
    rewrite (strchr_prefix_none name "["
               (alnum_no_bracket name "[" Ha (or_introl eq_refl))).
    rewrite (strchr_prefix_none name "]"
               (alnum_no_bracket name "]" Ha (or_intror eq_refl))).
    reflexivity.
  - destruct (bracket_operand_kind base "" "]" Hi eq_refl (or_introl eq_refl))
      as (K1 & K2 & K3).
    change (base ++ "[" ++ "" ++ "]")%string with (base ++ "[]")%string
      in K1, K2, K3.
    unfold handle_operand. rewrite K1, K2, K3.
    unfold handle_fixed_index_addressing.
    change (base ++ "[]")%string with (base ++ "[" ++ "]")%string.
    rewrite (label_extraction_base base "]" Hb).
    rewrite (move_after_bracket base "]" B).
    reflexivity.
Qed.

Lemma fixed_index_missing_bracket_witness :
  symbol_name "ARR"
  /\ handle_operand separate_members "ARR[5" SOURCE_OPERAND blank_line
     = Some (true,
             store_operand separate_members SOURCE_OPERAND
               (IndexNumber "ARR" "5") blank_line).
Proof.
  assert (Hb : symbol_name "ARR") by (split; [reflexivity | vm_compute; lia]).
  assert (Hp : plain_number "5").
  { repeat split; try discriminate; try reflexivity. cbn. lia. }
  exact (conj Hb
           (proj1 (fixed_index_missing_bracket separate_members "ARR"
                     SOURCE_OPERAND blank_line Hb) "5"%string Hp)).
Defined.
